(* ===== verification/_CoqProject ===== *)
-Q . S2P
Prelude.v
GoStd.v
Cryptox.v
Codec.v
Frame.v
Envelope.v
Cache.v
Replay.v
Net.v
AuthTypes.v
AuthServer.v
AuthClient.v
PolicyRules.v
Session.v
KnockFrame.v
KnockSeq.v
Packet.v
KnockSyn.v
KnockListen.v
GoText.v
Firewall.v
FirewallSpec.v
Gateway.v
GatewaySpec.v
GatewayIptables.v
Listener.v
ListenerSpec.v
GoParse.v
HostPort.v
RelayConfig.v
Dialer.v
ProxyConfig.v
ProxyRun.v
ProxySpec.v
Gate.v
GateSpec.v
GateIptables.v
RelayRun.v
RelayRunSpec.v
RelayRunIptables.v
Pipe.v
PipeSpec.v
Metrics.v
MetricsSpec.v
RawSend.v
Bpf.v
WindowsSend.v
WindowsSpec.v
ProxyMain.v
ProxyMainSpec.v
