(* ===== verification/Prelude.v ===== *)
(** * libknock: a verification library

    libknock (the Go module under src/) hides a TCP service behind a knock: a
    client first sends an authenticated packet (UDP, a sequence of UDP packets,
    or a TCP SYN whose header fields carry a MAC), the server opens its firewall
    for the source for a short time and remembers a knock session, and the TCP
    connection that follows must start with an authenticated frame.

    ** How the parts fit together

    A client builds a knock (knock/) and a frame (protocol/, auth/client.go). A
    knock listener (knock/) authenticates packets against the clients' secrets
    and a replay cache and calls the handler of a gateway (relay/, gate/). The
    handler opens the firewall (firewall/), takes a lease and a session in the
    session store (relay/session.go) and starts a timer that takes them back.
    The connections are authenticated (auth/server.go), the session store is
    asked for an accepted knock, and policies (policy/, internal/iplimit) limit
    the sources. All clocks, random bytes, map iteration orders, host commands
    and socket inputs are arguments of the definitions.

    ** The files

    - [Prelude]: bytes, machine-width integers, big-endian words, shared tactics.
    - [GoStd], [GoText]: what the sources use of Go and its library: errors,
      [errors.Is]/[Join], time, hex, strconv, readers, random source, strings.
    - [Cryptox] (internal/cryptox): HMAC, HKDF, constant-time comparison over an
      executable SHA-256. The AEAD of golang.org/x/crypto is the class [AEAD],
      whose laws are the hypotheses of the theorems that need them.
    - [Codec] (internal/codec), [Frame] (protocol/frame.go), [Envelope]
      (protocol/envelope_v2.go): the wire formats.
    - [Cache] (internal/cache), [Replay] (auth/replay.go, knock/replay.go): the
      TTL/LRU map, refined to an ordered list of entries, and the replay caches.
    - [Net] (internal/gatewaycore/addr.go, internal/iplimit, auth/net.go):
      addresses, source keys, the per-source limiter.
    - [AuthTypes], [AuthServer], [AuthClient] (auth/): the two handshakes.
    - [PolicyRules] (policy/): ban list, limiter, guard.
    - [Session] (relay/session.go): sessions and firewall leases.
    - [KnockFrame], [KnockSeq], [Packet], [KnockSyn], [KnockListen] (knock/):
      knock packets, the sequence trackers, raw packets, listeners and senders.
    - [Firewall] (firewall/): the backends as programs over a host that runs
      commands (class [Host]); [FirewallSpec]: what they do to the host.
    - [Gateway], [GatewaySpec], [GatewayIptables] (relay/knock.go,
      relay/auth.go, gate/gate.go, internal/gatewaycore/firewall.go): the knock
      handlers, timers and removals as a state machine of interleaved steps over
      the interface [FirewallContract], and the proof that the iptables backend
      keeps that contract.
    - [Listener], [ListenerSpec] (netx/listener.go, internal/acceptx): the
      authenticated listener as interleaved steps of its accept loop, workers,
      consumer and [Close], and its invariants.
    - [GoParse], [HostPort]: durations, hexadecimal and base64 text, host and port
      as Go's library reads them, with their round trips.
    - [RelayConfig] (relay/config.go, types.go, util.go, validate.go, the start of
      [run], the choice of the knock listener), [Dialer] (netx/dialer.go).
    - [ProxyConfig], [ProxyRun] (cmd/knock-proxy): the configuration file, the
      runtime values, the gateway and dialer made of them, the knock sender, the
      doctor; [ProxySpec]: the program from its file to an admitted connection;
      [ProxyMain], [ProxyMainSpec]: its commands, and the client that relays.
    - [Gate] (gate/, internal/timerset): a gate as interleaved steps of [Wrap],
      [Close], its goroutines, handlers and timers; [GateSpec]: what [Close]
      promises, over the interface [GateFirewall]; [GateIptables]: the iptables
      backend keeps that interface, and the races of [Close].
    - [RelayRun] (relay/gateway.go, relay/auth.go): [run] of the relay gateway as
      interleaved steps of its accept loop, workers, relayed sessions, knock and
      watch goroutines and deferred calls; [RelayRunSpec], [RelayRunIptables].
    - [Pipe], [PipeSpec] (relay/pipe.go, auth/buffered_conn.go): the bytes of a
      relayed session, both directions and the end of the context.
    - [Metrics], [MetricsSpec] (observability/): the Prometheus sink as the calls
      that every event makes on the metrics library.
    - [RawSend] (knock/synseq_linux.go, knock/syn_darwin.go): the raw-socket
      senders with their errors, and the capabilities in /proc.
    - [Bpf] (knock/syn_darwin.go, udp_passive_darwin.go): the listeners of macOS.
    - [WindowsSend], [WindowsSpec] (the files of knock/ for Windows): the senders,
      routing tables, next hop, hardware addresses and adapters.


    ** What the theorems show

    Handshake: a peer is accepted only for a genuine, fresh frame of a
    configured client, once ([server_auth_sound], [frame_accepted_once]); client
    and server of either protocol understand each other
    ([handshake_v2_end_to_end], [handshake_v1_end_to_end]); failures are closed
    and silent. Wire formats: round trips and exact acceptance. Caches, limiters
    and ban list: equivalence with the plain map or list they stand for. Knocks:
    soundness, at most one acceptance, and delivery from sender to handler.
    Session store and gateways: admissions never exceed the knocks, and an open
    firewall always has something that will close it, except in the two
    interleavings that are theorems of their own. Firewall: commands stay within
    what the backend owns, and the packet filter behind iptables lets in exactly
    the allowed sources.
    Listener: in every interleaving each connection is in one place, the limits
    are exact and closing ends ([listener_accounting], [listener_limits],
    [listener_shutdown]). Proxy: a file that is accepted gives a gateway that
    starts, and two files that belong together give a client whose knock admits
    it ([proxy_server_starts], [proxy_knock_admits]); a dry run predicts the
    command ([proxy_commands]) and the client closes what it has finished with
    ([client_serves]). Ends: a relay gateway or a
    gate that has ended leaves no connection, goroutine, timer or firewall rule
    behind, and it does end ([relay_run_cleans], [relay_run_ends],
    [gate_close_cleans], [gate_close_returns]), except when [Close] meets [Wrap]
    ([gate_close_races]). Relaying: the bytes arrive in order and complete
    ([pipe_delivers], [pipe_ends]), but not to a client that has closed its
    sending side ([pipe_half_close]). Platforms: the senders of Linux, macOS and
    Windows put the same packets on the network ([raw_send_exact],
    [windows_send_exact]), Windows to the right next hop ([windows_next_hop]),
    and the walk over a BPF buffer is safe but misaligned ([bpf_frames_exact]).
    Metrics: the sink keeps the contract of the library ([sink_safe]), but one
    counter is not what it says ([dropped_metric]).


    ** Bounds and fuel

    Integers are [Z] with their width written out ([uint16], [uint64], [int64])
    where the code can overflow. Loops that are not structural carry fuel:
    [decode_tlvs] and [parse6] the length of their input, [rand_prefix] and
    [rand_Int_loop] one more than the random bytes left (each round consumes at
    least one), [timestamp_from] the length of the options plus one
    ([parsers_never_panic] shows that it never runs out), [fold_carries] three
    rounds, which is what folding a 32-bit sum can need, [evict] the number of
    entries, [bpf_walk] and [fields_from] one more than the bytes of their input
    ([bpf_frames_exact] shows that more makes no difference). [maxCleanupDeletes] is the source's own bound of 1000. The depth
    argument of [verdict] bounds the nesting of iptables chains in the packet
    filter and is arbitrary in the theorems. [steps_left], [gate_left],
    [relay_left] and [pipe_left] are the measures that bound the steps of the
    state machines; runs are finite lists of steps of any length.

    ** Not modelled

    Sockets, goroutine scheduling inside one handler step, contexts other than
    serving and detached, locks (every method that takes its mutex for its whole
    body is one step), the calls of system libraries (WinDivert, Npcap, BPF
    devices, raw sockets), whose answers are arguments, and the stubs of
    platforms without support, which return a constant error. Numbers in
    metrics are exact where the library keeps [float64].
    The YAML parser is the class [Yaml] and reading files an argument; signals are
    the end of a context, and the texts of errors and durations that
    cmd/knock-proxy prints are not spelled out. *)

From Stdlib Require Import ZArith Lia String.
From Stdlib Require Strings.Byte.
From stdpp Require Import base list gmap strings.

Open Scope Z_scope.

(** Case analysis on the comparisons of a goal, the innermost first. *)
Ltac no_comparison t :=
  lazymatch t with
  | context [Z.ltb _ _] => fail
  | context [Z.leb _ _] => fail
  | context [Z.eqb _ _] => fail
  | _ => idtac
  end.

Ltac zcases :=
  repeat (match goal with
    | |- context [Z.ltb ?a ?b] => no_comparison a; no_comparison b; destruct (Z.ltb_spec a b)
    | |- context [Z.leb ?a ?b] => no_comparison a; no_comparison b; destruct (Z.leb_spec a b)
    | |- context [Z.eqb ?a ?b] => no_comparison a; no_comparison b; destruct (Z.eqb_spec a b)
    end; cbn [andb orb negb]).

(** * Bytes, strings and big-endian words *)

(** A Go [byte] is a Stdlib [Byte.byte]; a [[]byte] and a [string] are both
    sequences of bytes. *)
Abbreviation byte := Byte.byte.
Abbreviation bytes := (list Byte.byte).

#[export] Instance byte_eq_dec : EqDecision byte := Byte.byte_eq_dec.

(** The bytes of a Go string literal. *)
Definition str (s : String.string) : bytes := String.list_byte_of_string s.

Definition byte_val (b : byte) : Z := Z.of_N (Byte.to_N b).

(** [byte(v)]: conversion truncates to the low eight bits. *)
Definition byte_of (v : Z) : byte :=
  default Byte.x00 (Byte.of_N (Z.to_N (v mod 256))).

#[export] Program Instance byte_countable : Countable byte :=
  inj_countable byte_val (fun v => Byte.of_N (Z.to_N v)) _.
Next Obligation.
  intros b. unfold byte_val. rewrite N2Z.id. apply Byte.of_to_N.
Qed.

Definition len {A} (l : list A) : Z := Z.of_nat (length l).

(** [s[a:b]] for [a <= b <= len(s)]. *)
Definition slice {A} (a b : nat) (s : list A) : list A := take (b - a) (drop a s).

Definition uint8 (v : Z) : Z := v mod 2 ^ 8.
Definition uint16 (v : Z) : Z := v mod 2 ^ 16.
Definition uint32 (v : Z) : Z := v mod 2 ^ 32.
Definition uint64 (v : Z) : Z := v mod 2 ^ 64.
Definition int64 (v : Z) : Z := (v + 2 ^ 63) mod 2 ^ 64 - 2 ^ 63.

Definition is_uint16 (v : Z) : Prop := 0 <= v < 2 ^ 16.
Definition is_uint64 (v : Z) : Prop := 0 <= v < 2 ^ 64.
Definition is_int64 (v : Z) : Prop := - 2 ^ 63 <= v < 2 ^ 63.

(** [binary.BigEndian.PutUintN] on an [n]-byte buffer. *)
Fixpoint be_put (n : nat) (v : Z) : bytes :=
  match n with
  | O => []
  | S m => byte_of (v / 256 ^ Z.of_nat m) :: be_put m v
  end.

(** [binary.BigEndian.UintN]. *)
Fixpoint be_get (bs : bytes) : Z :=
  match bs with
  | [] => 0
  | b :: t => byte_val b * 256 ^ Z.of_nat (length t) + be_get t
  end.

Lemma byte_val_bound b : 0 <= byte_val b < 256.
Proof. unfold byte_val. pose proof (Byte.to_N_bounded b). lia. Qed.

Lemma byte_val_of v : byte_val (byte_of v) = v mod 256.
Proof.
  unfold byte_val, byte_of.
  pose proof (Z.mod_pos_bound v 256 ltac:(lia)).
  destruct (Byte.of_N (Z.to_N (v mod 256))) as [b|] eqn:E; simpl.
  - apply Byte.to_of_N in E. rewrite E, Z2N.id; lia.
  - apply Byte.of_N_None_iff in E. lia.
Qed.

Lemma byte_of_val b : byte_of (byte_val b) = b.
Proof.
  unfold byte_of. rewrite Z.mod_small by apply byte_val_bound.
  unfold byte_val. by rewrite N2Z.id, Byte.of_to_N.
Qed.

Lemma byte_val_inj a b : byte_val a = byte_val b -> a = b.
Proof. intros H. by rewrite <- (byte_of_val a), H, byte_of_val. Qed.

Lemma length_be_put n v : length (be_put n v) = n.
Proof. induction n; simpl; congruence. Qed.

Lemma pow256_pos n : 0 < 256 ^ Z.of_nat n.
Proof. apply Z.pow_pos_nonneg; lia. Qed.

Lemma pow256_S n : 256 ^ Z.of_nat (S n) = 256 * 256 ^ Z.of_nat n.
Proof. rewrite Nat2Z.inj_succ, Z.pow_succ_r; lia. Qed.

Lemma be_get_bound bs : 0 <= be_get bs < 256 ^ Z.of_nat (length bs).
Proof.
  induction bs as [|b t IH]; cbn [be_get length].
  - simpl. lia.
  - rewrite pow256_S. pose proof (byte_val_bound b). nia.
Qed.

Lemma be_get_put n v : be_get (be_put n v) = v mod 256 ^ Z.of_nat n.
Proof.
  induction n as [|n IH]; cbn [be_put be_get].
  - simpl. by rewrite Z.mod_1_r.
  - rewrite length_be_put, byte_val_of, IH, pow256_S.
    pose proof (pow256_pos n).
    rewrite (Z.mul_comm 256), Z.rem_mul_r by lia. lia.
Qed.

Lemma be_put_mod n m v : (n <= m)%nat -> be_put n (v mod 256 ^ Z.of_nat m) = be_put n v.
Proof.
  intros Hnm. induction n as [|n IH]; [done|]. cbn [be_put].
  rewrite IH by lia. f_equal. apply byte_val_inj. rewrite !byte_val_of.
  pose proof (pow256_pos n).
  replace (Z.of_nat m) with (Z.of_nat n + Z.of_nat (m - n)) by lia.
  rewrite Z.pow_add_r by lia.
  rewrite Z.rem_mul_r by (try apply pow256_pos; lia).
  rewrite (Z.mul_comm (256 ^ Z.of_nat n)), Z.div_add by lia.
  rewrite Z.div_small by (apply Z.mod_pos_bound; lia). rewrite Z.add_0_l.
  replace (m - n)%nat with (S (m - n - 1)) by lia. rewrite pow256_S.
  apply Z.mod_mod_divide. exists (256 ^ Z.of_nat (m - n - 1)). lia.
Qed.

Lemma be_put_get bs : be_put (length bs) (be_get bs) = bs.
Proof.
  induction bs as [|b t IH]; [done|]. cbn [be_put be_get length].
  pose proof (be_get_bound t). pose proof (pow256_pos (length t)).
  f_equal.
  - apply byte_val_inj. rewrite byte_val_of, Z.div_add_l by lia.
    rewrite Z.div_small by lia. rewrite Z.add_0_r.
    apply Z.mod_small, byte_val_bound.
  - rewrite <- (be_put_mod _ (length t)) by lia.
    rewrite Z.add_comm, Z.mod_add by lia. by rewrite be_put_mod, IH by lia.
Qed.

Lemma len_app {A} (x y : list A) : len (x ++ y) = len x + len y.
Proof. unfold len. rewrite length_app. lia. Qed.

Lemma len_cons {A} (x : A) (l : list A) : len (x :: l) = 1 + len l.
Proof. unfold len. simpl length. lia. Qed.

Lemma len_nonneg {A} (x : list A) : 0 <= len x.
Proof. unfold len. lia. Qed.

Lemma len_be_put n v : len (be_put n v) = Z.of_nat n.
Proof. unfold len. by rewrite length_be_put. Qed.

Lemma be_put_2_uint16 v : be_put 2 (uint16 v) = be_put 2 v.
Proof. unfold uint16. change (2 ^ 16) with (256 ^ Z.of_nat 2). by apply be_put_mod. Qed.

Lemma be_put_8_uint64 v : be_put 8 (uint64 v) = be_put 8 v.
Proof. unfold uint64. change (2 ^ 64) with (256 ^ Z.of_nat 8). by apply be_put_mod. Qed.

Lemma uint16_id v : is_uint16 v -> uint16 v = v.
Proof. apply Z.mod_small. Qed.

Lemma uint64_id v : is_uint64 v -> uint64 v = v.
Proof. apply Z.mod_small. Qed.

Lemma int64_uint64 v : is_int64 v -> int64 (uint64 v) = v.
Proof.
  unfold is_int64, int64, uint64. intros H.
  rewrite Z.add_mod_idemp_l by lia. rewrite Z.mod_small; lia.
Qed.

Lemma uint64_int64 v : is_uint64 v -> uint64 (int64 v) = v.
Proof.
  unfold is_uint64, int64, uint64. intros H.
  rewrite Zminus_mod_idemp_l. replace (v + 2 ^ 63 - 2 ^ 63) with v by lia. by apply Z.mod_small.
Qed.

Lemma int64_range v : is_int64 (int64 v).
Proof. unfold is_int64, int64. pose proof (Z.mod_pos_bound (v + 2 ^ 63) (2 ^ 64)). lia. Qed.

(** * Sums over lists *)

Definition sum_of {A} (f : A -> Z) (l : list A) : Z := foldr Z.add 0 (f <$> l).

Lemma sum_of_nil {A} (f : A -> Z) : sum_of f [] = 0.
Proof. done. Qed.

Lemma sum_of_cons {A} (f : A -> Z) x l : sum_of f (x :: l) = f x + sum_of f l.
Proof. done. Qed.

Lemma sum_of_app {A} (f : A -> Z) l1 l2 : sum_of f (l1 ++ l2) = sum_of f l1 + sum_of f l2.
Proof. unfold sum_of. rewrite fmap_app. induction (f <$> l1) as [|x l IH]; simpl; lia. Qed.

Lemma sum_of_one {A} (f : A -> Z) x : sum_of f [x] = f x.
Proof. unfold sum_of. simpl. lia. Qed.

Lemma sum_of_insert {A} (f : A -> Z) l i x y : l !! i = Some x -> sum_of f (<[i := y]> l) = sum_of f l - f x + f y.
Proof.
  revert i. induction l as [|a l IH]; intros [|i] E; simplify_eq/=; rewrite ?sum_of_cons; [lia|]. rewrite IH by done. lia.
Qed.

Lemma sum_of_nonneg {A} (f : A -> Z) l : (forall x, 0 <= f x) -> 0 <= sum_of f l.
Proof. intros Hf. induction l as [|x l IH]; [done|]. rewrite sum_of_cons. specialize (Hf x). lia. Qed.

Lemma sum_of_elem {A} (f : A -> Z) l x : (forall x, 0 <= f x) -> x ∈ l -> f x <= sum_of f l.
Proof.
  intros Hf. induction 1 as [x l|x y l Hin IH]; rewrite sum_of_cons; [pose proof (sum_of_nonneg f l Hf)|specialize (Hf y)]; lia.
Qed.

Lemma sum_of_pos {A} (f : A -> Z) l : (forall x, 0 <= f x) -> 0 < sum_of f l -> exists x, x ∈ l /\ 0 < f x.
Proof.
  intros Hf. induction l as [|x l IH]; [done|]. rewrite sum_of_cons. intros Hs. destruct (Z.lt_decidable 0 (f x)) as [Hx|Hx].
  - exists x. split; [left|done].
  - specialize (Hf x). destruct IH as (y & Hy & Hfy); [lia|]. exists y. split; [by right|done].
Qed.

(** * Hints *)

(** Facts that arithmetic needs as hypotheses, and the equations of [len]. *)
Create HintDb bounds.
Create Rewrite HintDb len.
#[export] Hint Resolve len_nonneg byte_val_bound pow256_pos be_get_bound int64_range : bounds.
#[export] Hint Rewrite @len_app @len_cons len_be_put : len.
Create Rewrite HintDb sums.
#[export] Hint Rewrite @sum_of_nil @sum_of_cons @sum_of_app : sums.

#[global] Opaque be_put be_get.
