(* ===== verification/GoStd.v ===== *)
(** The parts of Go and of its standard library the sources use: error values
    and [errors.Is]/[errors.Join], functions that return an error, [time],
    [encoding/hex], [strconv], a random source and an [io.Reader]. *)

From Stdlib Require Import ZArith Lia String.
From Stdlib Require Strings.Byte.
From stdpp Require Import base list gmap strings pretty.
From S2P Require Import Prelude.

Open Scope Z_scope.

(** * Errors *)

(** The sentinel errors of the packages, the standard library's own, errors
    made by [errors.New]/[fmt.Errorf] and the two ways of combining them. *)
Inductive error :=
(* package protocol *)
| protocol_ErrInvalidFrame | protocol_ErrFrameTooLarge
| protocol_ErrInvalidFrameSizeBucket | protocol_ErrUnsupportedVersion
| protocol_ErrUnsupportedFlags
(* package auth *)
| auth_ErrNilConn | auth_ErrInvalidFrame | auth_ErrFrameTooLarge
| auth_ErrUnknownClient | auth_ErrAuthFailed | auth_ErrReplayDetected
| auth_ErrReplayCacheFull | auth_ErrTimeSkew | auth_ErrKnockRequired
| auth_ErrUnsupportedVersion | auth_ErrInvalidClientID | auth_ErrInvalidSecret
| auth_ErrMissingSecretResolver | auth_ErrMissingReplayCache
| auth_ErrRateLimited | auth_ErrServerProofRequired | auth_ErrServerProofFailed
| auth_ErrUnsupportedFlags | auth_ErrSecretResolverFailed
| auth_ErrTooManyCandidates | auth_ErrHintModeNoneTooBroad
(* package policy *)
| policy_ErrRateLimited | policy_ErrBanListFull
(* standard library *)
| io_EOF | io_ErrUnexpectedEOF | net_ErrClosed | net_ErrTimeout
| rand_Err | aead_ErrOpen | aead_ErrKeyLength
(* errors.New / fmt.Errorf, with its message *)
| EMsg (msg : bytes)
(* fmt.Errorf with a %w verb, and errors.Join of two errors *)
| EWrap (msg : bytes) (inner : error)
| EJoin (e1 e2 : error).

#[export] Instance error_eq_dec : EqDecision error.
Proof. solve_decision. Defined.

(** [errors.Is(err, target)] for a sentinel [target]. *)
Fixpoint errors_Is (err target : error) : bool :=
  match err with
  | EWrap _ e => bool_decide (err = target) || errors_Is e target
  | EJoin a b => bool_decide (err = target) || errors_Is a target || errors_Is b target
  | _ => bool_decide (err = target)
  end.

(** [errors.Join(e1, e2)], where [None] is Go's [nil]. *)
Definition errors_Join (e1 e2 : option error) : option error :=
  match e1, e2 with
  | Some a, Some b => Some (EJoin a b)
  | Some a, None => Some a
  | None, e => e
  end.

(** A Go function that returns [(T, error)] and gives no usable value with an
    error. *)
Inductive res (A : Type) :=
| Ok (a : A)
| Err (e : error).
Arguments Ok {A} a.
Arguments Err {A} e.

#[export] Instance res_ret : MRet res := fun A a => Ok a.
#[export] Instance res_bind : MBind res := fun A B f m =>
  match m with Ok a => f a | Err e => Err e end.

Definition is_ok {A} (m : res A) : bool := match m with Ok _ => true | Err _ => false end.

(** Reduce the binds of the [res] monad and nothing else. *)
Ltac res_simpl := cbn [mbind res_bind].

(** [if c { return err }] *)
Definition guard_err (c : bool) (e : error) : res unit := if c then Err e else Ok tt.

(** * Time *)

(** A [time.Time] is a number of nanoseconds since the Unix epoch; Go's zero
    time is January 1 of year 1. A [time.Duration] is an [int64] of
    nanoseconds. *)
Definition zero_time : Z := -62135596800 * 10 ^ 9.
Definition IsZero (t : Z) : bool := bool_decide (t = zero_time).
Definition Nanosecond : Z := 1.
Definition Millisecond : Z := 10 ^ 6.
Definition Second : Z := 10 ^ 9.
Definition Minute : Z := 60 * 10 ^ 9.

(** [t.After(u)] and [t.Before(u)] *)
Definition After (t u : Z) : bool := Z.ltb u t.
Definition Before (t u : Z) : bool := Z.ltb t u.

(** [t.Sub(u)] saturates at the limits of [time.Duration]. *)
Definition Sub (t u : Z) : Z := Z.max (- 2 ^ 63) (Z.min (2 ^ 63 - 1) (t - u)).

Definition Unix (t : Z) : Z := t / 10 ^ 9.
Definition UnixMilli (t : Z) : Z := t / 10 ^ 6.
Definition time_UnixMilli (ms : Z) : Z := ms * 10 ^ 6.

(** * encoding/hex and strconv *)

Definition hex_digit (n : Z) : byte := byte_of (if Z.ltb n 10 then 48 + n else 87 + n).

Fixpoint hex_EncodeToString (bs : bytes) : bytes :=
  match bs with
  | [] => []
  | b :: t => hex_digit (byte_val b / 16) :: hex_digit (byte_val b mod 16) :: hex_EncodeToString t
  end.

(** [strconv.Itoa] and [fmt.Sprint] of an [int]. *)
Definition itoa (n : Z) : bytes := str (pretty n).

(** * Random source and readers *)

(** The bytes the random source will deliver; [rand.Read] fails once they are
    used up. *)
Abbreviation rng := (list Byte.byte).

Definition rand_Read (n : nat) (r : rng) : res (bytes * rng) :=
  if decide (n <= length r)%nat then Ok (take n r, drop n r) else Err rand_Err.

(** A byte stream: what can still be read, and the error [Read] returns after
    that ([io.EOF], a timeout, a closed connection). *)
Record reader := mk_reader { rd_data : bytes; rd_fin : error }.

(** [io.ReadFull(r, buf)] with [len(buf) = n]. *)
Definition io_ReadFull (n : nat) (r : reader) : res (bytes * reader) :=
  if decide (n <= length (rd_data r))%nat
  then Ok (take n (rd_data r), mk_reader (drop n (rd_data r)) (rd_fin r))
  else Err (if bool_decide (rd_data r <> [] /\ rd_fin r = io_EOF)
            then io_ErrUnexpectedEOF else rd_fin r).

(** [br.Peek(n)] and [br.Discard(n)] of a [bufio.Reader] whose buffer is larger
    than [n]. *)
Definition br_Peek (n : nat) (r : reader) : res bytes :=
  if decide (n <= length (rd_data r))%nat then Ok (take n (rd_data r)) else Err (rd_fin r).

Definition br_Discard (n : nat) (r : reader) : reader :=
  mk_reader (drop n (rd_data r)) (rd_fin r).

(** [copy(dst, src)]: the result is the new contents of [dst]. *)
Definition go_copy (dst src : bytes) : bytes :=
  take (length dst) src ++ drop (length src) dst.

(** [make([]byte, n)] *)
Definition zeros (n : nat) : bytes := replicate n Byte.x00.

(** * Lemmas *)

Lemma length_go_copy dst src : length (go_copy dst src) = length dst.
Proof. unfold go_copy. rewrite length_app, length_take, length_drop. lia. Qed.

Lemma go_copy_exact dst src : length src = length dst -> go_copy dst src = src.
Proof.
  intros H. unfold go_copy. rewrite take_ge, drop_ge by lia. apply app_nil_r.
Qed.


Lemma mbind_Ok {A B} (a : A) (f : A -> res B) : (Ok a ≫= f) = f a.
Proof. done. Qed.

Lemma res_bind_Ok {A B} (m : res A) (f : A -> res B) b :
  (m ≫= f) = Ok b -> exists a, m = Ok a /\ f a = Ok b.
Proof. destruct m as [a|e]; simpl; intros H; [eauto|discriminate]. Qed.

Lemma guard_err_Ok c e : guard_err c e = Ok tt <-> c = false.
Proof. unfold guard_err. destruct c; split; congruence. Qed.

Lemma hex_digit_nonzero n : 0 <= n < 16 -> hex_digit n <> Byte.x00.
Proof.
  intros Hn E. apply (f_equal byte_val) in E. unfold hex_digit in E.
  rewrite byte_val_of in E. change (byte_val Byte.x00) with 0 in E.
  destruct (Z.ltb n 10); rewrite Z.mod_small in E; lia.
Qed.

Lemma hex_digit_inj n m : 0 <= n < 16 -> 0 <= m < 16 -> hex_digit n = hex_digit m -> n = m.
Proof.
  intros Hn Hm E. apply (f_equal byte_val) in E. unfold hex_digit in E.
  rewrite !byte_val_of in E.
  destruct (Z.ltb_spec n 10), (Z.ltb_spec m 10); rewrite !Z.mod_small in E; lia.
Qed.

Lemma byte_val_nibbles b : 0 <= byte_val b / 16 < 16 /\ 0 <= byte_val b mod 16 < 16.
Proof.
  pose proof (byte_val_bound b). split; [|apply Z.mod_pos_bound; lia].
  split; [apply Z.div_pos|apply Z.div_lt_upper_bound]; lia.
Qed.

Lemma hex_no_nul bs : Byte.x00 ∉ hex_EncodeToString bs.
Proof.
  induction bs as [|b t IH]; simpl; [apply not_elem_of_nil|].
  pose proof (byte_val_nibbles b) as [H1 H2].
  rewrite !not_elem_of_cons. split_and!; [..|done];
    intros E; symmetry in E; by apply hex_digit_nonzero in E.
Qed.

Lemma hex_EncodeToString_inj a b : hex_EncodeToString a = hex_EncodeToString b -> a = b.
Proof.
  revert b. induction a as [|x a IH]; intros [|y b]; simpl; intros H; simplify_eq/=; [done|].
  pose proof (byte_val_nibbles x) as [? ?]. pose proof (byte_val_nibbles y) as [? ?].
  match goal with
  | H1 : hex_digit (_ / _) = _, H2 : hex_digit (_ mod _) = _ |- _ =>
      apply hex_digit_inj in H1, H2; [|done..]
  end.
  f_equal; [|auto]. apply byte_val_inj.
  rewrite (Z.div_mod (byte_val x) 16), (Z.div_mod (byte_val y) 16); lia.
Qed.

(** A NUL-separated key determines its parts when the last part has no NUL. *)
Lemma nul_separated_inj (a1 a2 h1 h2 : bytes) :
  Byte.x00 ∉ h1 -> Byte.x00 ∉ h2 ->
  a1 ++ [Byte.x00] ++ h1 = a2 ++ [Byte.x00] ++ h2 -> a1 = a2 /\ h1 = h2.
Proof.
  intros H1 H2. revert a2. induction a1 as [|x a1 IH]; intros [|y a2] E; simpl in E.
  - by simplify_eq.
  - injection E as <- ->. exfalso. apply H1, elem_of_app. right. left.
  - injection E as -> <-. exfalso. apply H2, elem_of_app. right. left.
  - injection E as -> E. destruct (IH a2 E) as [-> ->]. done.
Qed.

Lemma Sub_gt_iff t u w : is_int64 w -> w < 2 ^ 63 - 1 -> (w < Sub t u <-> w < t - u).
Proof. unfold is_int64, Sub. lia. Qed.

Lemma Sub_lt_iff t u w : - 2 ^ 63 < w < 2 ^ 63 - 1 -> (Sub t u < w <-> t - u < w).
Proof. unfold Sub. lia. Qed.
