(* ===== verification/Cryptox.v ===== *)
(** [internal/cryptox]: HMAC-SHA-256 with its truncations, HKDF-SHA-256 and
    constant-time comparison, over an executable SHA-256; and the interface the
    protocol code has to an AEAD ([golang.org/x/crypto/chacha20poly1305]). *)

From Stdlib Require Import ZArith Lia String.
From Stdlib Require Strings.Byte.
From stdpp Require Import base list gmap strings.
From S2P Require Import Prelude GoStd.

Open Scope Z_scope.

(** * SHA-256 (crypto/sha256) *)

Module Sha256.

(** The constants of FIPS 180-4: the first 32 bits of the fractional parts of
    the cube roots of the first 64 primes and of the square roots of the first
    eight. *)
Definition is_prime (n : nat) : bool :=
  forallb (fun d => negb (Nat.eqb (Nat.modulo n d) 0)) (seq 2 (n - 2)).

Definition primes : list Z := Eval vm_compute in map Z.of_nat (List.filter is_prime (seq 2 310)).

(** The largest [r < 2 ^ bits] with [r ^ 3 <= n], bit by bit from the top. *)
Fixpoint cube_root (bits : nat) (n r : Z) : Z :=
  match bits with
  | O => r
  | S b =>
      let r' := r + 2 ^ Z.of_nat b in
      cube_root b n (if Z.leb (r' ^ 3) n then r' else r)
  end.

Definition K : list Z := Eval vm_compute in map (fun p => uint32 (cube_root 40 (p * 2 ^ 96) 0)) (take 64 primes).

Definition H0 : list Z := Eval vm_compute in map (fun p => uint32 (Z.sqrt (p * 2 ^ 64))) (take 8 primes).

Definition rotr (x n : Z) : Z :=
  Z.lor (Z.shiftr x n) (uint32 (Z.shiftl x (32 - n))).
Definition add32 (a b : Z) : Z := uint32 (a + b).

(** The message schedule, newest word first. *)
Fixpoint schedule (n : nat) (w : list Z) : list Z :=
  match n with
  | O => w
  | S m =>
      let w2 := nth 1 w 0 in
      let w15 := nth 14 w 0 in
      let s0 := Z.lxor (Z.lxor (rotr w15 7) (rotr w15 18)) (Z.shiftr w15 3) in
      let s1 := Z.lxor (Z.lxor (rotr w2 17) (rotr w2 19)) (Z.shiftr w2 10) in
      schedule m (add32 (add32 s1 (nth 6 w 0)) (add32 s0 (nth 15 w 0)) :: w)
  end.

Definition round (st : list Z) (kw : Z * Z) : list Z :=
  match st with
  | [a; b; c; d; e; f; g; h] =>
      let s1 := Z.lxor (Z.lxor (rotr e 6) (rotr e 11)) (rotr e 25) in
      let ch := Z.lxor (Z.land e f) (Z.land (Z.lxor e (2 ^ 32 - 1)) g) in
      let t1 := add32 (add32 h s1) (add32 ch (add32 (fst kw) (snd kw))) in
      let s0 := Z.lxor (Z.lxor (rotr a 2) (rotr a 13)) (rotr a 22) in
      let maj := Z.lxor (Z.lxor (Z.land a b) (Z.land a c)) (Z.land b c) in
      [add32 t1 (add32 s0 maj); a; b; c; add32 d t1; e; f; g]
  | _ => st
  end.

Fixpoint words (n : nat) (bs : bytes) : list Z :=
  match n with O => [] | S m => be_get (take 4 bs) :: words m (drop 4 bs) end.

Definition compress (h : list Z) (block : bytes) : list Z :=
  let w := rev (schedule 48 (rev (words 16 block))) in
  zip_with add32 h (fold_left round (combine K w) h).

Fixpoint blocks (n : nat) (h : list Z) (bs : bytes) : list Z :=
  match n with O => h | S m => blocks m (compress h (take 64 bs)) (drop 64 bs) end.

Definition pad (msg : bytes) : bytes :=
  let z := Z.to_nat ((55 - len msg) mod 64) in
  msg ++ [Byte.x80] ++ replicate z Byte.x00 ++ be_put 8 (8 * len msg).

Definition Sum256 (msg : bytes) : bytes :=
  let p := pad msg in
  concat (map (be_put 4) (blocks (length p / 64) H0 p)).

Definition xor_pad (k : bytes) (v : Z) : bytes := map (fun b => byte_of (Z.lxor (byte_val b) v)) k.

(** [hmac.New(sha256.New, key)], [Write(data)], [Sum(nil)]. *)
Definition hmac (key data : bytes) : bytes :=
  let k0 := if decide (64 < length key)%nat then Sum256 key else key in
  let k := k0 ++ replicate (64 - length k0) Byte.x00 in
  Sum256 (xor_pad k 0x5c ++ Sum256 (xor_pad k 0x36 ++ data)).

Lemma round_length st kw : length st = 8%nat -> length (round st kw) = 8%nat.
Proof. intros H. do 9 (destruct st; try discriminate H). reflexivity. Qed.

Lemma compress_length h block : length h = 8%nat -> length (compress h block) = 8%nat.
Proof.
  intros H. unfold compress. rewrite length_zip_with.
  enough (length (fold_left round (combine K (rev (schedule 48 (rev (words 16 block))))) h) = 8%nat)
    by lia.
  revert h H. induction (combine K _) as [|kw l IH]; intros h H; [done|].
  cbn [fold_left]. apply IH. by apply round_length.
Qed.

Lemma blocks_length n h bs : length h = 8%nat -> length (blocks n h bs) = 8%nat.
Proof.
  revert h bs. induction n as [|n IH]; intros h bs H; [done|].
  cbn [blocks]. apply IH. by apply compress_length.
Qed.

Lemma length_concat_be_put n (l : list Z) : length (concat (map (be_put n) l)) = (n * length l)%nat.
Proof.
  induction l as [|x l IH]; cbn [map concat length]; [lia|].
  rewrite length_app, length_be_put, IH. lia.
Qed.

Lemma Sum256_length msg : length (Sum256 msg) = 32%nat.
Proof. unfold Sum256. by rewrite length_concat_be_put, blocks_length. Qed.

Lemma hmac_length key data : length (hmac key data) = 32%nat.
Proof. apply Sum256_length. Qed.

End Sha256.
Opaque Sha256.hmac Sha256.Sum256.

(** * internal/cryptox *)

Definition HMACSHA256 (secret data : bytes) : bytes := Sha256.hmac secret data.

Definition HMACTrunc64 (secret data : bytes) : Z := be_get (take 8 (HMACSHA256 secret data)).

Definition HMACTrunc128 (secret data : bytes) : bytes := take 16 (HMACSHA256 secret data).

(** [hkdf.New(sha256.New, secret, salt, info)] read for [n] bytes: extract, then
    expand block by block; the reader fails beyond 255 blocks. *)
Fixpoint hkdf_expand (fuel : nat) (i : Z) (prk prev info : bytes) : bytes :=
  match fuel with
  | O => []
  | S f =>
      let t := HMACSHA256 prk (prev ++ info ++ [byte_of i]) in
      t ++ hkdf_expand f (i + 1) prk t info
  end.

Definition HKDFSHA256 (secret salt info : bytes) (n : nat) : res bytes :=
  if decide (255 * 32 < n)%nat then Err (EMsg (str "hkdf: entropy limit reached"))
  else
    let prk := HMACSHA256 salt secret in
    Ok (take n (hkdf_expand ((n + 31) / 32) 1 prk [] info)).

(** [MustHKDFSHA256] panics on an error; the empty result stands for the panic,
    which no caller reaches ([MustHKDFSHA256_length]). *)
Definition MustHKDFSHA256 (secret salt info : bytes) (n : nat) : bytes :=
  match HKDFSHA256 secret salt info n with Ok k => k | Err _ => [] end.

(** [subtle.ConstantTimeCompare(a, b) == 1] *)
Fixpoint ct_diff (a b : bytes) (v : Z) : Z :=
  match a, b with
  | x :: a', y :: b' => ct_diff a' b' (Z.lor v (Z.lxor (byte_val x) (byte_val y)))
  | _, _ => v
  end.

Definition ConstantTimeEqual (a b : bytes) : bool :=
  if decide (length a = length b) then Z.eqb (ct_diff a b 0) 0 else false.

(** * The AEAD interface *)

(** chacha20poly1305 with a 12-byte nonce ([New]) and with a 24-byte nonce
    ([NewX]): deterministic functions of key, nonce, text and additional
    data. *)
Class AEAD := {
  aead_seal : bytes -> bytes -> bytes -> bytes -> bytes;
  aead_open : bytes -> bytes -> bytes -> bytes -> option bytes;
}.

Definition Overhead : Z := 16.
Definition KeySize : nat := 32.
Definition NonceSize : nat := 12.
Definition NonceSizeX : nat := 24.

(** [New]/[NewX] refuse a key of another length. *)
Definition aead_New (key : bytes) : res bytes :=
  if decide (length key = KeySize) then Ok key else Err aead_ErrKeyLength.

Definition aead_Seal `{AEAD} (key nonce plain ad : bytes) : bytes := aead_seal key nonce plain ad.

Definition aead_Open `{AEAD} (key nonce sealed ad : bytes) : res bytes :=
  match aead_open key nonce sealed ad with Some p => Ok p | None => Err aead_ErrOpen end.

(** What the protocol relies on: [Open] inverts [Seal], the ciphertext is the
    plaintext plus a 16-byte tag, and what [Open] accepts is what [Seal] makes
    of the plaintext it returns. *)
Class AEADLaws (A : AEAD) : Prop := {
  open_seal : forall k n p a, aead_open k n (aead_seal k n p a) a = Some p;
  seal_length : forall k n p a, length (aead_seal k n p a) = (length p + 16)%nat;
  open_sound : forall k n c a p, aead_open k n c a = Some p -> c = aead_seal k n p a;
}.

(** A concrete AEAD with these laws, for evaluating the model: the text in the
    clear followed by a tag that authenticates key, nonce, data and text. *)
Definition mac_tag (k n p a : bytes) : bytes :=
  take 16 (HMACSHA256 k (n ++ be_put 8 (len a) ++ a ++ p)).

Definition mac_open (k n c a : bytes) : option bytes :=
  if decide (16 <= length c)%nat then
    let p := take (length c - 16) c in
    if decide (drop (length c - 16) c = mac_tag k n p a) then Some p else None
  else None.

Definition mac_AEAD : AEAD := {|
  aead_seal k n p a := p ++ mac_tag k n p a;
  aead_open := mac_open;
|}.

(** * Lemmas *)

Lemma HMACSHA256_length secret data : length (HMACSHA256 secret data) = 32%nat.
Proof. apply Sha256.hmac_length. Qed.

Lemma HMACTrunc128_length secret data : length (HMACTrunc128 secret data) = 16%nat.
Proof. unfold HMACTrunc128. rewrite length_take, HMACSHA256_length. lia. Qed.

Lemma HMACTrunc64_bound secret data : is_uint64 (HMACTrunc64 secret data).
Proof.
  unfold HMACTrunc64, is_uint64.
  pose proof (be_get_bound (take 8 (HMACSHA256 secret data))) as H.
  rewrite length_take, HMACSHA256_length in H. exact H.
Qed.

Lemma hkdf_expand_length f i prk prev info :
  length (hkdf_expand f i prk prev info) = (f * 32)%nat.
Proof.
  revert i prev. induction f as [|f IH]; intros i prev; [done|].
  cbn [hkdf_expand]. rewrite length_app, HMACSHA256_length, IH. lia.
Qed.

Lemma MustHKDFSHA256_length secret salt info n :
  (n <= 255 * 32)%nat ->
  HKDFSHA256 secret salt info n = Ok (MustHKDFSHA256 secret salt info n) /\
  length (MustHKDFSHA256 secret salt info n) = n.
Proof.
  intros Hn. unfold MustHKDFSHA256, HKDFSHA256.
  rewrite decide_False by lia. split; [reflexivity|].
  rewrite length_take, hkdf_expand_length.
  pose proof (Nat.div_mod_eq (n + 31) 32) as D.
  pose proof (Nat.mod_upper_bound (n + 31) 32 ltac:(lia)). lia.
Qed.

Lemma lor_eq_0 a b : Z.lor a b = 0 <-> a = 0 /\ b = 0.
Proof. apply Z.lor_eq_0_iff. Qed.

Lemma ct_diff_zero a b v : length a = length b -> ct_diff a b v = 0 <-> v = 0 /\ a = b.
Proof.
  revert b v. induction a as [|x a IH]; intros [|y b] v Hl; simplify_eq/=; [tauto|].
  rewrite (IH b) by done. rewrite lor_eq_0, Z.lxor_eq_0_iff. split.
  - intros [[-> E] ->]. apply byte_val_inj in E as ->. done.
  - intros [-> [= -> ->]]. done.
Qed.

Lemma ConstantTimeEqual_spec a b : ConstantTimeEqual a b = true <-> a = b.
Proof.
  unfold ConstantTimeEqual. case_decide as Hl.
  - rewrite Z.eqb_eq, ct_diff_zero by done. tauto.
  - split; [done|]. intros ->. done.
Qed.

Lemma ConstantTimeEqual_refl a : ConstantTimeEqual a a = true.
Proof. by apply ConstantTimeEqual_spec. Qed.

Lemma aead_New_Ok key : length key = KeySize -> aead_New key = Ok key.
Proof. intros H. unfold aead_New. by rewrite decide_True. Qed.

Lemma mac_tag_length k n p a : length (mac_tag k n p a) = 16%nat.
Proof. unfold mac_tag. rewrite length_take, HMACSHA256_length. lia. Qed.

#[export] Instance mac_AEAD_laws : AEADLaws mac_AEAD.
Proof.
  split; simpl.
  - intros k n p a. unfold mac_open. rewrite length_app, mac_tag_length.
    rewrite decide_True by lia. replace (length p + 16 - 16)%nat with (length p) by lia.
    rewrite take_app_length, drop_app_length. by rewrite decide_True.
  - intros. by rewrite length_app, mac_tag_length.
  - intros k n c a p. unfold mac_open. repeat case_decide; intros [= <-].
    match goal with H : drop _ _ = _ |- _ => rewrite <- H end. by rewrite take_drop.
Qed.

(** The vectors of [cryptox_test.go]. *)
Example HMACTrunc64_vector : HMACTrunc64 (str "key") (str "data") = 0x5031fe3d989c6d15.
Proof. vm_compute. reflexivity. Qed.

Example HKDFSHA256_rfc5869_vector :
  HKDFSHA256 (replicate 22 Byte.x0b) (be_put 13 0x000102030405060708090a0b0c)
    (be_put 10 0xf0f1f2f3f4f5f6f7f8f9) 42 =
  Ok (be_put 42 0x3cb25f25faacd57a90434f64d0362f2a2d2d0a90cf1a5a4c5db02d56ecc4c5bf34007208d5b887185865).
Proof. vm_compute. reflexivity. Qed.
