(* ===== verification/Codec.v ===== *)
(** [internal/codec]: the bounded binary reader and writer, and the TLV list
    encoding. *)

From Stdlib Require Import ZArith Lia String.
From Stdlib Require Strings.Byte.
From stdpp Require Import base list gmap strings.
From S2P Require Import Prelude GoStd.

Open Scope Z_scope.

(** * BinaryReader *)

(** A cursor over a buffer; [br_err] is the error every short read returns. *)
Record BinaryReader := mkBinaryReader { br_buf : bytes; br_pos : nat; br_err : error }.

Definition NewReader (buf : bytes) (invalid : error) : BinaryReader := mkBinaryReader buf 0 invalid.
Definition Pos (r : BinaryReader) : nat := br_pos r.
Definition Remaining (r : BinaryReader) : Z := len (br_buf r) - Z.of_nat (br_pos r).

Definition advance (n : nat) (r : BinaryReader) : BinaryReader :=
  mkBinaryReader (br_buf r) (br_pos r + n) (br_err r).

Definition ReadByte (r : BinaryReader) : res (byte * BinaryReader) :=
  if Z.ltb (Remaining r) 1 then Err (br_err r)
  else Ok (nth (br_pos r) (br_buf r) Byte.x00, advance 1 r).

Definition ReadUint16 (r : BinaryReader) : res (Z * BinaryReader) :=
  if Z.ltb (Remaining r) 2 then Err (br_err r)
  else Ok (be_get (slice (br_pos r) (br_pos r + 2) (br_buf r)), advance 2 r).

Definition ReadUint64 (r : BinaryReader) : res (Z * BinaryReader) :=
  if Z.ltb (Remaining r) 8 then Err (br_err r)
  else Ok (be_get (slice (br_pos r) (br_pos r + 8) (br_buf r)), advance 8 r).

Definition ReadFixed (n : Z) (r : BinaryReader) : res (bytes * BinaryReader) :=
  if Z.ltb n 0 || Z.ltb (Remaining r) n then Err (br_err r)
  else Ok (slice (br_pos r) (br_pos r + Z.to_nat n) (br_buf r), advance (Z.to_nat n) r).

(** [copyOut] only decides whether the result aliases the buffer. *)
Definition ReadVarBytes (n : Z) (copyOut : bool) (r : BinaryReader) : res (bytes * BinaryReader) :=
  match ReadFixed n r with
  | Err e => Err e
  | Ok (v, r') => if copyOut then Ok ([] ++ v, r') else Ok (v, r')
  end.

#[global] Arguments Remaining : simpl never.
#[global] Arguments ReadByte : simpl never.
#[global] Arguments ReadUint16 : simpl never.
#[global] Arguments ReadUint64 : simpl never.
#[global] Arguments ReadFixed : simpl never.
#[global] Arguments ReadVarBytes : simpl never.

(** * BinaryWriter *)

(** The writer is its buffer; every operation appends. *)
Definition PutByte (v : byte) (w : bytes) : bytes := w ++ [v].
Definition WriteUint16 (v : Z) (w : bytes) : bytes := w ++ be_put 2 v.
Definition WriteUint64 (v : Z) (w : bytes) : bytes := w ++ be_put 8 v.
Definition WriteFixed (v : bytes) (w : bytes) : bytes := w ++ v.
Definition WriteVarBytes (v : bytes) (prefixBytes : Z) (w : bytes) : bytes :=
  let w1 :=
    if Z.eqb prefixBytes 1 then PutByte (byte_of (len v)) w
    else if Z.eqb prefixBytes 2 then WriteUint16 (uint16 (len v)) w
    else w in
  WriteFixed v w1.

(** * TLVs *)

Record TLV := mkTLV { tlv_Type : Z; tlv_Value : bytes }.

(** The size check of [EncodeTLVs]: the loop with its early returns. *)
Fixpoint tlvs_total (tlvs : list TLV) (total : Z) (frameTooLarge : error) : res Z :=
  match tlvs with
  | [] => Ok total
  | t :: ts =>
      if Z.ltb 65535 (len (tlv_Value t)) then Err frameTooLarge
      else
        let total' := total + (4 + len (tlv_Value t)) in
        if Z.ltb 65535 total' then Err frameTooLarge else tlvs_total ts total' frameTooLarge
  end.

Definition write_tlv (w : bytes) (t : TLV) : bytes :=
  WriteVarBytes (tlv_Value t) 2 (WriteUint16 (tlv_Type t) w).

Definition EncodeTLVs (tlvs : list TLV) (frameTooLarge : error) : res bytes :=
  match tlvs_total tlvs 0 frameTooLarge with
  | Err e => Err e
  | Ok _ => Ok (fold_left write_tlv tlvs [])
  end.

(** One round of the loop of [DecodeTLVs]. *)
Definition read_tlv (r : BinaryReader) : res (TLV * BinaryReader) :=
  '(typ, r1) ← ReadUint16 r;
  '(n, r2) ← ReadUint16 r1;
  '(v, r3) ← ReadVarBytes n true r2;
  Ok (mkTLV typ v, r3).

(** Every round consumes at least four bytes, so the buffer's length is enough
    fuel ([decode_tlvs_fuel]). *)
Fixpoint decode_tlvs (fuel : nat) (r : BinaryReader) (out : list TLV) : res (list TLV) :=
  if Z.ltb 0 (Remaining r) then
    match fuel with
    | O => Err (br_err r)
    | S f =>
        match read_tlv r with
        | Err e => Err e
        | Ok (t, r') => decode_tlvs f r' (out ++ [t])
        end
    end
  else Ok out.

Definition DecodeTLVs (raw : bytes) (invalid : error) : res (list TLV) :=
  decode_tlvs (length raw) (NewReader raw invalid) [].

(** * Reasoning about the reader *)

(** A reader that has consumed [pre] and has [suf] in front of it. *)
Definition reader_at (pre suf : bytes) (e : error) : BinaryReader :=
  mkBinaryReader (pre ++ suf) (length pre) e.

#[global] Arguments reader_at : simpl never.

Lemma NewReader_at raw e : NewReader raw e = reader_at [] raw e.
Proof. done. Qed.

Lemma Remaining_at pre suf e : Remaining (reader_at pre suf e) = len suf.
Proof. unfold Remaining, reader_at, len. simpl. rewrite length_app. lia. Qed.

Lemma Pos_at pre suf e : Pos (reader_at pre suf e) = length pre.
Proof. done. Qed.

Lemma slice_at {A} (pre x y : list A) n :
  n = length x -> slice (length pre) (length pre + n) (pre ++ x ++ y) = x.
Proof.
  intros ->. unfold slice. rewrite drop_app_length.
  replace (length pre + length x - length pre)%nat with (length x) by lia.
  apply take_app_length.
Qed.

Lemma slice_mid {A} (pre x y : list A) a b :
  length pre = a -> length x = (b - a)%nat -> slice a b (pre ++ x ++ y) = x.
Proof.
  intros <- Hx. unfold slice. rewrite drop_app_length, <- Hx. apply take_app_length.
Qed.

Lemma advance_at pre x y e n :
  n = length x -> advance n (reader_at pre (x ++ y) e) = reader_at (pre ++ x) y e.
Proof.
  intros ->. unfold advance, reader_at. simpl. by rewrite length_app, <- app_assoc.
Qed.

Lemma ReadFixed_at pre x y e n :
  n = len x -> ReadFixed n (reader_at pre (x ++ y) e) = Ok (x, reader_at (pre ++ x) y e).
Proof.
  intros ->. unfold ReadFixed. rewrite Remaining_at. unfold len at 1 2 3. rewrite length_app.
  destruct (Z.ltb_spec (Z.of_nat (length x)) 0); [lia|].
  destruct (Z.ltb_spec (Z.of_nat (length x + length y)) (Z.of_nat (length x))); [lia|].
  simpl. unfold len. rewrite Nat2Z.id, slice_at, advance_at by done. done.
Qed.

Lemma ReadVarBytes_at pre x y e n c :
  n = len x -> ReadVarBytes n c (reader_at pre (x ++ y) e) = Ok (x, reader_at (pre ++ x) y e).
Proof. intros H. unfold ReadVarBytes. rewrite ReadFixed_at by done. by destruct c. Qed.

Lemma ReadFixed_end pre x e n :
  n = len x -> ReadFixed n (reader_at pre x e) = Ok (x, reader_at (pre ++ x) [] e).
Proof. intros H. rewrite <- (ReadFixed_at pre x [] e n) by done. by rewrite app_nil_r. Qed.

Lemma ReadVarBytes_end pre x e n c :
  n = len x -> ReadVarBytes n c (reader_at pre x e) = Ok (x, reader_at (pre ++ x) [] e).
Proof. intros H. rewrite <- (ReadVarBytes_at pre x [] e n c) by done. by rewrite app_nil_r. Qed.

Lemma ReadByte_at pre b y e :
  ReadByte (reader_at pre (b :: y) e) = Ok (b, reader_at (pre ++ [b]) y e).
Proof.
  unfold ReadByte. rewrite Remaining_at. unfold len.
  destruct (Z.ltb_spec (Z.of_nat (length (b :: y))) 1) as [H|H]; [simpl in H; lia|].
  unfold reader_at at 1 2. simpl. rewrite nth_middle. f_equal. f_equal.
  apply (advance_at pre [b] y). done.
Qed.

Lemma ReadUint16_at pre v y e :
  ReadUint16 (reader_at pre (be_put 2 v ++ y) e) = Ok (uint16 v, reader_at (pre ++ be_put 2 v) y e).
Proof.
  unfold ReadUint16. rewrite Remaining_at. unfold len. rewrite length_app, length_be_put.
  destruct (Z.ltb_spec (Z.of_nat (2 + length y)) 2); [lia|].
  change (br_pos (reader_at pre (be_put 2 v ++ y) e)) with (length pre).
  change (br_buf (reader_at pre (be_put 2 v ++ y) e)) with (pre ++ be_put 2 v ++ y).
  rewrite slice_at, advance_at, be_get_put by done. done.
Qed.

Lemma ReadUint64_at pre v y e :
  ReadUint64 (reader_at pre (be_put 8 v ++ y) e) = Ok (uint64 v, reader_at (pre ++ be_put 8 v) y e).
Proof.
  unfold ReadUint64. rewrite Remaining_at. unfold len. rewrite length_app, length_be_put.
  destruct (Z.ltb_spec (Z.of_nat (8 + length y)) 8); [lia|].
  change (br_pos (reader_at pre (be_put 8 v ++ y) e)) with (length pre).
  change (br_buf (reader_at pre (be_put 8 v ++ y) e)) with (pre ++ be_put 8 v ++ y).
  rewrite slice_at, advance_at, be_get_put by done. done.
Qed.

(** Short reads fail with the reader's error and nothing else. *)
Lemma ReadFixed_short n pre suf e :
  n < 0 \/ len suf < n -> ReadFixed n (reader_at pre suf e) = Err e.
Proof.
  intros H. unfold ReadFixed. rewrite Remaining_at.
  destruct (Z.ltb_spec n 0), (Z.ltb_spec (len suf) n); simpl; done || lia.
Qed.

(** ** What a successful read says about the input *)

Lemma split_at {A} (l : list A) n :
  (n <= length l)%nat -> exists x y, l = x ++ y /\ length x = n.
Proof.
  intros H. exists (take n l), (drop n l). rewrite take_drop, length_take. split; [done|lia].
Qed.

Lemma ReadFixed_inv n pre suf e v r :
  ReadFixed n (reader_at pre suf e) = Ok (v, r) ->
  exists y, suf = v ++ y /\ n = len v /\ r = reader_at (pre ++ v) y e.
Proof.
  intros H. destruct (decide (n < 0 \/ len suf < n)) as [Hs|Hs];
    [by rewrite ReadFixed_short in H by done|].
  destruct (split_at suf (Z.to_nat n)) as (x & y & -> & Hx); [unfold len in *; lia|].
  rewrite ReadFixed_at in H by (unfold len in *; lia). simplify_eq.
  exists y. split_and!; try done. unfold len; lia.
Qed.

Lemma ReadVarBytes_inv n c pre suf e v r :
  ReadVarBytes n c (reader_at pre suf e) = Ok (v, r) ->
  exists y, suf = v ++ y /\ n = len v /\ r = reader_at (pre ++ v) y e.
Proof.
  unfold ReadVarBytes. destruct (ReadFixed n _) as [[v' r']|] eqn:E; [|done].
  intros H. assert (v' = v /\ r' = r) as [-> ->] by (destruct c; by simplify_eq/=).
  by apply ReadFixed_inv in E.
Qed.

Lemma ReadByte_inv pre suf e b r :
  ReadByte (reader_at pre suf e) = Ok (b, r) ->
  exists y, suf = b :: y /\ r = reader_at (pre ++ [b]) y e.
Proof.
  destruct suf as [|b' y].
  - unfold ReadByte. rewrite Remaining_at. discriminate.
  - rewrite ReadByte_at. intros [= <- <-]. eauto.
Qed.

Lemma be_get_2 x : length x = 2%nat -> be_put 2 (be_get x) = x.
Proof. intros H. rewrite <- H. apply be_put_get. Qed.

Lemma be_get_8 x : length x = 8%nat -> be_put 8 (be_get x) = x.
Proof. intros H. rewrite <- H. apply be_put_get. Qed.

Lemma ReadUint16_inv pre suf e v r :
  ReadUint16 (reader_at pre suf e) = Ok (v, r) ->
  is_uint16 v /\ exists y, suf = be_put 2 v ++ y /\ r = reader_at (pre ++ be_put 2 v) y e.
Proof.
  intros H. destruct (decide (length suf < 2)%nat).
  - unfold ReadUint16 in H. rewrite Remaining_at in H. unfold len in H.
    destruct (Z.ltb_spec (Z.of_nat (length suf)) 2); [done|lia].
  - destruct (split_at suf 2) as (x & y & -> & Hx); [lia|].
    rewrite <- (be_get_2 x Hx), ReadUint16_at in H. simplify_eq.
    split; [apply Z.mod_pos_bound; lia|]. exists y.
    unfold uint16. change (2 ^ 16) with (256 ^ Z.of_nat 2).
    by rewrite be_put_mod, !(be_get_2 x Hx) by lia.
Qed.

Lemma ReadUint64_inv pre suf e v r :
  ReadUint64 (reader_at pre suf e) = Ok (v, r) ->
  is_uint64 v /\ exists y, suf = be_put 8 v ++ y /\ r = reader_at (pre ++ be_put 8 v) y e.
Proof.
  intros H. destruct (decide (length suf < 8)%nat).
  - unfold ReadUint64 in H. rewrite Remaining_at in H. unfold len in H.
    destruct (Z.ltb_spec (Z.of_nat (length suf)) 8); [done|lia].
  - destruct (split_at suf 8) as (x & y & -> & Hx); [lia|].
    rewrite <- (be_get_8 x Hx), ReadUint64_at in H. simplify_eq.
    split; [apply Z.mod_pos_bound; lia|]. exists y.
    unfold uint64. change (2 ^ 64) with (256 ^ Z.of_nat 8).
    by rewrite be_put_mod, !(be_get_8 x Hx) by lia.
Qed.

(** Invert every successful read in a bind chain, left to right. *)
Ltac read_inv :=
  repeat match goal with
  | H : (_ ≫= _) = Ok _ |- _ =>
      let x := fresh "x" in let E := fresh "E" in
      apply res_bind_Ok in H as (x & E & H); try destruct x as [? ?]
  | H : ReadByte (reader_at _ _ _) = Ok _ |- _ => apply ReadByte_inv in H as (? & -> & ->)
  | H : ReadUint16 (reader_at _ _ _) = Ok _ |- _ =>
      let B := fresh "B" in apply ReadUint16_inv in H as (B & ? & -> & ->)
  | H : ReadUint64 (reader_at _ _ _) = Ok _ |- _ =>
      let B := fresh "B" in apply ReadUint64_inv in H as (B & ? & -> & ->)
  | H : ReadFixed _ (reader_at _ _ _) = Ok _ |- _ =>
      let B := fresh "B" in apply ReadFixed_inv in H as (? & -> & B & ->)
  | H : ReadVarBytes _ _ (reader_at _ _ _) = Ok _ |- _ =>
      let B := fresh "B" in apply ReadVarBytes_inv in H as (? & -> & B & ->)
  end.

Create Rewrite HintDb codec.
#[export] Hint Rewrite ReadByte_at ReadUint16_at ReadUint64_at : codec.
#[export] Hint Rewrite ReadFixed_at ReadVarBytes_at using done : codec.

(** * The TLV list encoding *)

(** Types fit their two bytes; what a value may hold is checked by the code. *)
Definition TLV_wf (t : TLV) : Prop := is_uint16 (tlv_Type t).

Definition tlv_bytes (t : TLV) : bytes :=
  be_put 2 (tlv_Type t) ++ be_put 2 (len (tlv_Value t)) ++ tlv_Value t.

Definition tlvs_size (tlvs : list TLV) : Z :=
  fold_right (fun t n => 4 + len (tlv_Value t) + n) 0 tlvs.

Lemma len_tlv_bytes t : len (tlv_bytes t) = 4 + len (tlv_Value t).
Proof. unfold tlv_bytes. rewrite !len_app, !len_be_put. lia. Qed.

Lemma len_tlvs_bytes tlvs : len (concat (map tlv_bytes tlvs)) = tlvs_size tlvs.
Proof.
  induction tlvs as [|t ts IH]; [done|].
  cbn [map concat tlvs_size fold_right]. fold (tlvs_size ts).
  rewrite len_app, len_tlv_bytes, IH. lia.
Qed.

Lemma tlvs_size_nonneg tlvs : 0 <= tlvs_size tlvs.
Proof. rewrite <- len_tlvs_bytes. apply len_nonneg. Qed.

Lemma write_tlv_bytes w t : write_tlv w t = w ++ tlv_bytes t.
Proof.
  unfold write_tlv, WriteVarBytes, WriteFixed, WriteUint16, tlv_bytes. simpl.
  rewrite be_put_2_uint16. by rewrite <- !app_assoc.
Qed.

Lemma write_tlvs w tlvs : fold_left write_tlv tlvs w = w ++ concat (map tlv_bytes tlvs).
Proof.
  revert w. induction tlvs as [|t ts IH]; intros w; cbn [fold_left map concat].
  - by rewrite app_nil_r.
  - by rewrite IH, write_tlv_bytes, <- app_assoc.
Qed.

Lemma tlvs_total_spec tlvs total e :
  0 <= total ->
  tlvs_total tlvs total e =
  if Z.leb (total + tlvs_size tlvs) 65535 || bool_decide (tlvs = [])
  then Ok (total + tlvs_size tlvs) else Err e.
Proof.
  revert total. induction tlvs as [|t ts IH]; intros total Ht; cbn [tlvs_total].
  - rewrite orb_comm. simpl. f_equal. lia.
  - cbn [tlvs_size fold_right]. fold (tlvs_size ts).
    pose proof (len_nonneg (tlv_Value t)). pose proof (tlvs_size_nonneg ts).
    rewrite bool_decide_eq_false_2 by done. rewrite orb_false_r.
    destruct (Z.ltb_spec 65535 (len (tlv_Value t)));
      [by rewrite (proj2 (Z.leb_gt _ _)) by lia|].
    destruct (Z.ltb_spec 65535 (total + (4 + len (tlv_Value t))));
      [by rewrite (proj2 (Z.leb_gt _ _)) by lia|].
    rewrite IH by lia. rewrite <- Z.add_assoc.
    destruct (bool_decide_reflect (ts = [])) as [->|]; [|by rewrite orb_false_r].
    simpl in *. rewrite orb_true_r, (proj2 (Z.leb_le _ _)) by lia. done.
Qed.

(** [EncodeTLVs] is exactly the concatenation of the entries, and fails exactly
    when that is longer than 65535 bytes. *)
Lemma EncodeTLVs_spec tlvs e :
  EncodeTLVs tlvs e =
  if Z.leb (tlvs_size tlvs) 65535 then Ok (concat (map tlv_bytes tlvs)) else Err e.
Proof.
  unfold EncodeTLVs. rewrite tlvs_total_spec by lia. rewrite Z.add_0_l, write_tlvs.
  destruct tlvs as [|t ts]; [done|].
  rewrite (bool_decide_eq_false_2 (t :: ts = [])) by done. rewrite orb_false_r. by destruct (Z.leb _ _).
Qed.

Lemma read_tlv_at pre t y e :
  TLV_wf t -> len (tlv_Value t) <= 65535 ->
  read_tlv (reader_at pre (tlv_bytes t ++ y) e) = Ok (t, reader_at (pre ++ tlv_bytes t) y e).
Proof.
  intros Ht Hl. unfold read_tlv, tlv_bytes. pose proof (len_nonneg (tlv_Value t)).
  rewrite <- !app_assoc, ReadUint16_at. simpl. rewrite ReadUint16_at. simpl.
  rewrite (uint16_id (len _)) by (unfold is_uint16; lia).
  rewrite ReadVarBytes_at by done. simpl.
  rewrite uint16_id by done. rewrite <- !app_assoc. by destruct t.
Qed.

Lemma read_tlv_inv pre suf e t r :
  read_tlv (reader_at pre suf e) = Ok (t, r) ->
  exists y, suf = tlv_bytes t ++ y /\ r = reader_at (pre ++ tlv_bytes t) y e /\
            TLV_wf t /\ len (tlv_Value t) <= 65535.
Proof.
  unfold read_tlv. intros H. read_inv. simplify_eq/=. unfold tlv_bytes, TLV_wf. simpl.
  eexists. rewrite <- !app_assoc. split_and!; try done.
  unfold is_uint16 in *. lia.
Qed.

Lemma Remaining_pos_at pre suf e : Z.ltb 0 (Remaining (reader_at pre suf e)) = negb (bool_decide (suf = [])).
Proof.
  rewrite Remaining_at. destruct suf as [|b suf]; [done|].
  rewrite bool_decide_eq_false_2 by done. apply Z.ltb_lt. unfold len. simpl. lia.
Qed.

Lemma length_tlv_bytes t : (4 <= length (tlv_bytes t))%nat.
Proof. pose proof (len_tlv_bytes t). pose proof (len_nonneg (tlv_Value t)). unfold len in *. lia. Qed.

Lemma tlv_bytes_nonempty t : tlv_bytes t <> [].
Proof. intros E. pose proof (length_tlv_bytes t) as H. rewrite E in H. simpl in H. lia. Qed.

(** More fuel than bytes changes nothing: the loop of [DecodeTLVs] ends by
    itself. *)
Lemma decode_tlvs_fuel f1 f2 pre suf e out :
  (length suf <= f1)%nat -> (length suf <= f2)%nat ->
  decode_tlvs f1 (reader_at pre suf e) out = decode_tlvs f2 (reader_at pre suf e) out.
Proof.
  revert f2 pre suf out. induction f1 as [|f1 IH]; intros f2 pre suf out H1 H2.
  - destruct suf; [|simpl in H1; lia]. destruct f2; cbn [decode_tlvs]; by rewrite Remaining_pos_at.
  - destruct f2 as [|f2].
    { destruct suf; [|simpl in H2; lia]. cbn [decode_tlvs]. by rewrite Remaining_pos_at. }
    cbn [decode_tlvs]. rewrite Remaining_pos_at. case_bool_decide; [done|]. cbn [negb].
    destruct (read_tlv (reader_at pre suf e)) as [[t r]|] eqn:E; [|done].
    apply read_tlv_inv in E as (y & -> & -> & _).
    pose proof (length_tlv_bytes t). rewrite length_app in *. apply IH; lia.
Qed.

Lemma decode_tlvs_at fuel tlvs pre e out :
  Forall TLV_wf tlvs -> Forall (fun t => len (tlv_Value t) <= 65535) tlvs ->
  (length (concat (map tlv_bytes tlvs)) <= fuel)%nat ->
  decode_tlvs fuel (reader_at pre (concat (map tlv_bytes tlvs)) e) out = Ok (out ++ tlvs).
Proof.
  revert fuel pre out. induction tlvs as [|t ts IH]; intros fuel pre out Hwf Hlen Hf.
  - rewrite app_nil_r. cbn [map concat]. destruct fuel; cbn [decode_tlvs]; by rewrite Remaining_pos_at.
  - apply Forall_cons in Hwf as [Ht Hts], Hlen as [Hl Hls].
    cbn [map concat] in *. rewrite length_app in Hf. pose proof (length_tlv_bytes t).
    destruct fuel as [|fuel]; [lia|]. cbn [decode_tlvs].
    rewrite Remaining_pos_at. rewrite bool_decide_eq_false_2
      by (intros [E ?]%app_eq_nil; by apply tlv_bytes_nonempty in E).
    cbn [negb]. rewrite read_tlv_at by done. rewrite IH by (done || lia).
    by rewrite <- app_assoc.
Qed.

Lemma decode_tlvs_inv fuel pre suf e out tlvs :
  decode_tlvs fuel (reader_at pre suf e) out = Ok tlvs ->
  exists ts, tlvs = out ++ ts /\ suf = concat (map tlv_bytes ts) /\ Forall TLV_wf ts.
Proof.
  revert pre suf out. induction fuel as [|f IH]; intros pre suf out; cbn [decode_tlvs];
    rewrite Remaining_pos_at; case_bool_decide as Hs; cbn [negb]; try done.
  - intros [= <-]. exists []. by rewrite app_nil_r.
  - intros [= <-]. exists []. by rewrite app_nil_r.
  - destruct (read_tlv (reader_at pre suf e)) as [[t r]|] eqn:E; [|done].
    apply read_tlv_inv in E as (y & -> & -> & Ht & _).
    intros (ts & -> & -> & Hts)%IH. exists (t :: ts). rewrite <- app_assoc. auto.
Qed.

Lemma tlvs_size_values tlvs :
  tlvs_size tlvs <= 65535 -> Forall (fun t => len (tlv_Value t) <= 65535) tlvs.
Proof.
  induction tlvs as [|t ts IH]; intros H; constructor; simpl in H; fold (tlvs_size ts) in H;
    pose proof (tlvs_size_nonneg ts); pose proof (len_nonneg (tlv_Value t)); [lia|].
  apply IH. lia.
Qed.

Lemma decode_encode_tlvs tlvs raw e1 e2 :
  Forall TLV_wf tlvs -> EncodeTLVs tlvs e1 = Ok raw -> DecodeTLVs raw e2 = Ok tlvs.
Proof.
  intros Hwf. rewrite EncodeTLVs_spec. destruct (Z.leb_spec (tlvs_size tlvs) 65535) as [Hs|]; [|done].
  intros [= <-]. unfold DecodeTLVs. rewrite NewReader_at.
  rewrite decode_tlvs_at; auto using tlvs_size_values.
Qed.

Lemma encode_decode_tlvs raw tlvs e1 e2 :
  DecodeTLVs raw e2 = Ok tlvs ->
  Forall TLV_wf tlvs /\ raw = concat (map tlv_bytes tlvs) /\
  (len raw <= 65535 -> EncodeTLVs tlvs e1 = Ok raw).
Proof.
  unfold DecodeTLVs. rewrite NewReader_at. intros (ts & -> & -> & Hwf)%decode_tlvs_inv.
  simpl. split_and!; [done..|]. intros Hl. rewrite EncodeTLVs_spec.
  rewrite <- len_tlvs_bytes. by rewrite (proj2 (Z.leb_le _ _)).
Qed.

(** * Properties *)

(** The TLV list codec is a bijection between TLV lists whose
    encoding fits the 65535-byte limit and byte strings that [DecodeTLVs]
    accepts within that limit: encoding then decoding gives the list back, and
    every accepted byte string is the canonical encoding of its list, so there
    is no second encoding of the same extensions. *)
Theorem tlvs_bijection (tlvs : list TLV) (raw : bytes) (e1 e2 : error) :
  Forall TLV_wf tlvs -> len raw <= 65535 ->
  EncodeTLVs tlvs e1 = Ok raw <-> DecodeTLVs raw e2 = Ok tlvs.
Proof.
  intros Hwf Hl. split.
  - by apply decode_encode_tlvs.
  - intros (_ & _ & H)%(encode_decode_tlvs _ _ e1). auto.
Qed.

Example tlvs_bijection_witness :
  EncodeTLVs [mkTLV 7 (str "ab"); mkTLV 65535 []] protocol_ErrFrameTooLarge =
    Ok (be_put 10 0x000700026162ffff0000) /\
  DecodeTLVs (be_put 10 0x000700026162ffff0000) protocol_ErrInvalidFrame =
    Ok [mkTLV 7 (str "ab"); mkTLV 65535 []].
Proof.
  split; [vm_compute; reflexivity|].
  apply (tlvs_bijection _ _ protocol_ErrFrameTooLarge protocol_ErrInvalidFrame).
  - repeat constructor; simpl; lia.
  - vm_compute. discriminate.
  - vm_compute. reflexivity.
Defined.
