(* ===== verification/Frame.v ===== *)
(** [protocol/frame.go]: the v1 TCP authentication frame. Header and payload
    codecs, sealing, the client's [BuildFrame], the server's [ReadFrame] and the
    server proof. *)

From Stdlib Require Import ZArith Lia String.
From Stdlib Require Strings.Byte.
From stdpp Require Import base list gmap strings.
From S2P Require Import Prelude GoStd Cryptox Codec.

Open Scope Z_scope.

(** * Data *)

Definition Version : byte := Byte.x01.
Definition FlagServerProof : byte := Byte.x01.
Definition ServerProofType : byte := Byte.x50.
Definition ServerProofSize : Z := 1 + 1 + 16 + 32.
Definition HeaderSize : Z := 1 + 1 + 1 + 16 + 8 + 2.
Definition DefaultMaxFrameSize : Z := 1024.
Definition MinSecretSize : Z := 16.

(** [Nonce] is a [[16]byte]; its length is part of [Header_wf]. *)
Record Header := mkHeader {
  h_Version : byte;
  h_Flags : byte;
  h_Reserved : byte;
  h_Nonce : bytes;
  h_KeyHint : Z;
  h_SealedLen : Z;
}.

Definition Header_zero : Header := mkHeader Byte.x00 Byte.x00 Byte.x00 (zeros 16) 0 0.

Record Payload := mkPayload {
  p_ClientIDHash : bytes;
  p_TimestampUnixMS : Z;
  p_ServerPort : Z;
  p_Method : bytes;
  p_SessionID : bytes;
  p_Extensions : bytes;
}.

(** [flags &^ mask != 0] *)
Definition flags_outside (flags mask : byte) : bool :=
  negb (Z.eqb (Z.ldiff (byte_val flags) (byte_val mask)) 0).

(** [flags & mask != 0] *)
Definition flags_set (flags mask : byte) : bool :=
  negb (Z.eqb (Z.land (byte_val flags) (byte_val mask)) 0).

(** [port < 0 || port > 65535] *)
Definition bad_port (port : Z) : bool := Z.ltb port 0 || Z.ltb 65535 port.

Definition ErrPortRange (port : Z) : error := EMsg (str "server port out of range: " ++ itoa port).

(** * Header *)

Definition header_bytes (h : Header) : bytes :=
  [h_Version h; h_Flags h; h_Reserved h] ++ h_Nonce h ++ be_put 8 (h_KeyHint h) ++ be_put 2 (h_SealedLen h).

#[global] Arguments header_bytes : simpl never.

(** [EncodeHeader(dst, h)]; the result is the new contents of [dst]. *)
Definition EncodeHeader (dst : bytes) (h : Header) : bytes :=
  if Z.ltb (len dst) HeaderSize then dst
  else
    [h_Version h] ++ [h_Flags h] ++ [h_Reserved h]
      ++ go_copy (slice 3 19 dst) (h_Nonce h)
      ++ be_put 8 (h_KeyHint h) ++ be_put 2 (h_SealedLen h) ++ drop 29 dst.

Definition DecodeHeader (src : bytes) : Header :=
  if Z.ltb (len src) HeaderSize then Header_zero
  else mkHeader (nth 0 src Byte.x00) (nth 1 src Byte.x00) (nth 2 src Byte.x00)
         (slice 3 19 src) (be_get (slice 19 27 src)) (be_get (slice 27 29 src)).

(** * Payload *)

Definition EncodePayload (p : Payload) : res bytes :=
  if bad_port (p_ServerPort p) then Err (ErrPortRange (p_ServerPort p))
  else if Z.ltb 255 (len (p_Method p)) || Z.ltb 255 (len (p_SessionID p))
            || Z.ltb 65535 (len (p_Extensions p)) then Err protocol_ErrFrameTooLarge
  else Ok (p_ClientIDHash p
        ++ be_put 8 (uint64 (p_TimestampUnixMS p))
        ++ be_put 2 (uint16 (p_ServerPort p))
        ++ [byte_of (len (p_Method p))] ++ p_Method p
        ++ [byte_of (len (p_SessionID p))] ++ p_SessionID p
        ++ be_put 2 (uint16 (len (p_Extensions p))) ++ p_Extensions p).

Definition DecodePayload (raw : bytes) : res Payload :=
  let r := NewReader raw protocol_ErrInvalidFrame in
  '(id, r) ← ReadFixed 16 r;
  '(ts, r) ← ReadUint64 r;
  '(port, r) ← ReadUint16 r;
  '(methodLen, r) ← ReadByte r;
  '(method, r) ← ReadVarBytes (byte_val methodLen) false r;
  '(sessionLen, r) ← ReadByte r;
  '(session, r) ← ReadVarBytes (byte_val sessionLen) true r;
  '(extLen, r) ← ReadUint16 r;
  if negb (Z.eqb extLen (Remaining r)) then Err protocol_ErrInvalidFrame
  else
    '(ext, r) ← ReadVarBytes extLen true r;
    Ok (mkPayload (go_copy (zeros 16) id) (int64 ts) port method session ext).

(** * Keys and hints *)

Definition ComputeKeyHint (secret nonce : bytes) (serverPort : Z) : Z :=
  if bad_port serverPort then 0
  else HMACTrunc64 secret (str "hint" ++ nonce ++ be_put 2 (uint16 serverPort)).

Definition ComputeClientIDHash (secret clientID : bytes) : bytes :=
  HMACTrunc128 secret (str "client-id" ++ clientID).

Definition computeServerProof (secret : bytes) (h : Header) (serverPort : Z) : bytes :=
  if bad_port serverPort then []
  else HMACSHA256 secret
         ((str "server-proof-v1" ++ h_Nonce h) ++ be_put 8 (h_KeyHint h) ++ be_put 2 (uint16 serverPort)).

Definition BuildServerProof (secret : bytes) (h : Header) (serverPort : Z) : bytes :=
  [Version; ServerProofType] ++ go_copy (zeros 16) (h_Nonce h)
    ++ go_copy (zeros 32) (computeServerProof secret h serverPort).

Definition VerifyServerProof (proof secret : bytes) (h : Header) (serverPort : Z) : res unit :=
  if negb (Z.eqb (len proof) ServerProofSize)
     || negb (bool_decide (nth 0 proof Byte.x00 = Version))
     || negb (bool_decide (nth 1 proof Byte.x00 = ServerProofType))
  then Err protocol_ErrInvalidFrame
  else if negb (ConstantTimeEqual (slice 2 18 proof) (h_Nonce h)) then Err protocol_ErrInvalidFrame
  else if negb (ConstantTimeEqual (drop 18 proof) (computeServerProof secret h serverPort))
  then Err protocol_ErrInvalidFrame
  else Ok tt.

Definition deriveAEADKey (secret : bytes) (h : Header) : bytes :=
  MustHKDFSHA256 secret (h_Nonce h) (str "libknock aead v1" ++ be_put 8 (h_KeyHint h)) KeySize.

(** The nonce is the frame nonce followed by the key hint. *)
Definition aeadNonce (h : Header) : bytes :=
  go_copy (zeros 16) (h_Nonce h) ++ be_put 8 (h_KeyHint h).

Definition aad (h : Header) : bytes := EncodeHeader (zeros 29) h.

(** * Sealing, building and reading frames *)

Section WithAEAD.
Context `{AEAD}.

Definition SealPayload (secret : bytes) (h : Header) (plain : bytes) : res bytes :=
  key ← aead_New (deriveAEADKey secret h);
  Ok (aead_Seal key (aeadNonce h) plain (aad h)).

Definition OpenPayload (secret : bytes) (h : Header) (sealed : bytes) : res bytes :=
  key ← aead_New (deriveAEADKey secret h);
  aead_Open key (aeadNonce h) sealed (aad h).

(** [BuildFrame] returns the frame and its header; the random source is an
    explicit argument and result. *)
Definition BuildFrame (clientID secret : bytes) (serverPort now : Z) (flags : byte)
    (method sessionID extensions : bytes) (r : rng) : res (bytes * Header * rng) :=
  if bool_decide (clientID = []) || Z.ltb (len secret) MinSecretSize then Err protocol_ErrInvalidFrame
  else if flags_outside flags FlagServerProof then Err protocol_ErrUnsupportedFlags
  else
    '(nonce, r) ← rand_Read 16 r;
    if bad_port serverPort then Err (ErrPortRange serverPort)
    else
      let keyHint := ComputeKeyHint secret nonce serverPort in
      plain ← EncodePayload (mkPayload (ComputeClientIDHash secret clientID) (UnixMilli now)
                serverPort method sessionID extensions);
      let sealedLen := len plain + Overhead in
      if Z.ltb (DefaultMaxFrameSize - HeaderSize) sealedLen then Err protocol_ErrFrameTooLarge
      else
        let h := mkHeader Version flags Byte.x00 nonce keyHint (uint16 sealedLen) in
        sealed ← SealPayload secret h plain;
        let out := zeros (29 + length sealed) in
        Ok (EncodeHeader (take 29 out) h ++ go_copy (drop 29 out) sealed, h, r).

End WithAEAD.

(** [ReadFrame] reads exactly one frame from the stream. *)
Definition ReadFrame (r : reader) (maxFrameSize : Z) : res (Header * bytes * reader) :=
  let maxFrameSize := if Z.leb maxFrameSize 0 then DefaultMaxFrameSize else maxFrameSize in
  if Z.ltb maxFrameSize HeaderSize then Err protocol_ErrFrameTooLarge
  else
    '(raw, r) ← io_ReadFull 29 r;
    let h := DecodeHeader raw in
    if negb (bool_decide (h_Version h = Version)) then Err protocol_ErrUnsupportedVersion
    else if negb (bool_decide (h_Reserved h = Byte.x00)) then Err protocol_ErrInvalidFrame
    else if flags_outside (h_Flags h) FlagServerProof then Err protocol_ErrUnsupportedFlags
    else if Z.eqb (h_SealedLen h) 0 || Z.ltb maxFrameSize (HeaderSize + h_SealedLen h)
    then Err protocol_ErrFrameTooLarge
    else
      '(sealed, r) ← io_ReadFull (Z.to_nat (h_SealedLen h)) r;
      Ok (h, sealed, r).

(** The protocol package's TLV wrappers. *)
Definition protocol_EncodeTLVs (tlvs : list TLV) : res bytes := EncodeTLVs tlvs protocol_ErrFrameTooLarge.
Definition protocol_DecodeTLVs (raw : bytes) : res (list TLV) := DecodeTLVs raw protocol_ErrInvalidFrame.

(** * Well-formedness and lemmas *)

Definition Header_wf (h : Header) : Prop :=
  length (h_Nonce h) = 16%nat /\ is_uint64 (h_KeyHint h) /\ is_uint16 (h_SealedLen h).

Definition Payload_wf (p : Payload) : Prop :=
  length (p_ClientIDHash p) = 16%nat /\ is_int64 (p_TimestampUnixMS p).

Lemma length_header_bytes h : length (h_Nonce h) = 16%nat -> length (header_bytes h) = 29%nat.
Proof. intros H. unfold header_bytes. rewrite !length_app, !length_be_put, H. done. Qed.

Lemma EncodeHeader_spec dst h :
  length (h_Nonce h) = 16%nat -> (29 <= length dst)%nat ->
  EncodeHeader dst h = header_bytes h ++ drop 29 dst.
Proof.
  intros Hn Hd. unfold EncodeHeader, header_bytes, HeaderSize, len.
  destruct (Z.ltb_spec (Z.of_nat (length dst)) (1 + 1 + 1 + 16 + 8 + 2)); [lia|].
  rewrite go_copy_exact.
  - by rewrite <- !app_assoc.
  - unfold slice. rewrite length_take, length_drop. lia.
Qed.

Lemma EncodeHeader_zeros h : length (h_Nonce h) = 16%nat -> EncodeHeader (zeros 29) h = header_bytes h.
Proof.
  intros H. rewrite EncodeHeader_spec by done. unfold zeros.
  by rewrite drop_ge, app_nil_r by (rewrite length_replicate; lia).
Qed.

Lemma DecodeHeader_header_bytes h rest : Header_wf h -> DecodeHeader (header_bytes h ++ rest) = h.
Proof.
  intros (Hn & Hk & Hs). unfold DecodeHeader.
  rewrite len_app. unfold len at 1. rewrite length_header_bytes by done.
  pose proof (len_nonneg rest).
  destruct (Z.ltb_spec (Z.of_nat 29 + len rest) HeaderSize) as [C|C]; [unfold HeaderSize in C; lia|].
  destruct h as [v f rs nonce kh sl]; simpl in *. unfold header_bytes; simpl.
  f_equal.
  - rewrite <- !app_assoc. by apply (slice_mid [v; f; rs]).
  - change (v :: f :: rs :: (nonce ++ be_put 8 kh ++ be_put 2 sl) ++ rest)
      with ([v; f; rs] ++ (nonce ++ be_put 8 kh ++ be_put 2 sl) ++ rest).
    rewrite <- !app_assoc, app_assoc. rewrite slice_mid; [|simpl; by rewrite Hn|by rewrite length_be_put].
    rewrite be_get_put. by apply Z.mod_small.
  - change (v :: f :: rs :: (nonce ++ be_put 8 kh ++ be_put 2 sl) ++ rest)
      with ([v; f; rs] ++ (nonce ++ be_put 8 kh ++ be_put 2 sl) ++ rest).
    rewrite <- !app_assoc, (app_assoc nonce), (app_assoc [v; f; rs]).
    rewrite slice_mid;
      [|rewrite !length_app, length_be_put, Hn; done|by rewrite length_be_put].
    rewrite be_get_put. by apply Z.mod_small.
Qed.

Lemma split_header (raw : bytes) :
  length raw = 29%nat -> exists v f rs nonce k s,
    raw = [v; f; rs] ++ nonce ++ k ++ s /\
    length nonce = 16%nat /\ length k = 8%nat /\ length s = 2%nat.
Proof.
  intros H. destruct raw as [|v [|f [|rs raw]]]; simplify_eq/=.
  destruct (split_at raw 16) as (nonce & y & -> & Hn); [lia|]. rewrite length_app in *.
  destruct (split_at y 8) as (k & s & -> & Hk); [lia|]. rewrite length_app in *.
  exists v, f, rs, nonce, k, s. split_and!; try done. lia.
Qed.

Lemma header_bytes_DecodeHeader raw :
  length raw = 29%nat -> header_bytes (DecodeHeader raw) = raw /\ Header_wf (DecodeHeader raw).
Proof.
  intros (v & f & rs & nonce & k & s & -> & Hn & Hk & Hs)%split_header.
  set (h := mkHeader v f rs nonce (be_get k) (be_get s)).
  assert (Header_wf h) as Hwf.
  { split_and!; simpl; [done| |].
    - pose proof (be_get_bound k) as B. rewrite Hk in B. exact B.
    - pose proof (be_get_bound s) as B. rewrite Hs in B. exact B. }
  assert (header_bytes h = [v; f; rs] ++ nonce ++ k ++ s) as E.
  { unfold header_bytes, h. simpl. by rewrite be_get_8, be_get_2. }
  rewrite <- E. rewrite <- (app_nil_r (header_bytes h)), DecodeHeader_header_bytes by done.
  by rewrite app_nil_r.
Qed.

(** The wire form of a payload. *)
Definition payload_bytes (p : Payload) : bytes :=
  p_ClientIDHash p ++ be_put 8 (p_TimestampUnixMS p) ++ be_put 2 (p_ServerPort p)
    ++ byte_of (len (p_Method p)) :: p_Method p
    ++ byte_of (len (p_SessionID p)) :: p_SessionID p
    ++ be_put 2 (len (p_Extensions p)) ++ p_Extensions p.

#[global] Arguments payload_bytes : simpl never.

(** What [EncodePayload] accepts. *)
Definition payload_fits (port : Z) (method session ext : bytes) : bool :=
  negb (bad_port port) && Z.leb (len method) 255 && Z.leb (len session) 255 && Z.leb (len ext) 65535.

Definition Payload_fits (p : Payload) : bool :=
  payload_fits (p_ServerPort p) (p_Method p) (p_SessionID p) (p_Extensions p).

Lemma payload_fits_spec port method session ext :
  payload_fits port method session ext = true <->
  0 <= port <= 65535 /\ len method <= 255 /\ len session <= 255 /\ len ext <= 65535.
Proof. unfold payload_fits, bad_port. rewrite !andb_true_iff, negb_true_iff, orb_false_iff. lia. Qed.

Lemma EncodePayload_Ok p raw :
  EncodePayload p = Ok raw <-> Payload_fits p = true /\ raw = payload_bytes p.
Proof.
  unfold EncodePayload, Payload_fits, payload_fits, payload_bytes.
  rewrite be_put_8_uint64, !be_put_2_uint16. simpl.
  destruct (bad_port (p_ServerPort p)); simpl; [split; [done|intros [? _]; done]|].
  rewrite !Z.leb_antisym.
  destruct (Z.ltb 255 (len (p_Method p))), (Z.ltb 255 (len (p_SessionID p))),
    (Z.ltb 65535 (len (p_Extensions p))); simpl; split; try (intros [? ?]; done); try done.
  - intros [= <-]. done.
  - intros [_ ->]. done.
Qed.

Lemma byte_val_len {A} (l : list A) : len l <= 255 -> byte_val (byte_of (len l)) = len l.
Proof. intros H. rewrite byte_val_of. apply Z.mod_small. pose proof (len_nonneg l). lia. Qed.

Lemma len_byte (b : byte) {A} (l : list A) : byte_val b = len l -> byte_of (len l) = b.
Proof. intros <-. apply byte_of_val. Qed.

Lemma DecodePayload_payload_bytes p :
  Payload_wf p -> Payload_fits p = true -> DecodePayload (payload_bytes p) = Ok p.
Proof.
  intros [Hh Ht] (Hp & Hm & Hs & He)%payload_fits_spec.
  unfold DecodePayload, payload_bytes. rewrite NewReader_at.
  rewrite ReadFixed_at by (unfold len; by rewrite Hh). simpl.
  rewrite ReadUint64_at; simpl. rewrite ReadUint16_at; simpl. rewrite ReadByte_at; simpl.
  rewrite byte_val_len by done. rewrite ReadVarBytes_at by done. simpl.
  rewrite ReadByte_at; simpl. rewrite byte_val_len by done. rewrite ReadVarBytes_at by done. simpl.
  rewrite ReadUint16_at; simpl. pose proof (len_nonneg (p_Extensions p)).
  rewrite (uint16_id (len _)) by (unfold is_uint16; lia).
  rewrite Remaining_at, Z.eqb_refl. simpl.
  rewrite ReadVarBytes_end by done. simpl.
  rewrite go_copy_exact by (by rewrite Hh). rewrite int64_uint64 by done.
  rewrite uint16_id by (unfold is_uint16; lia). by destruct p.
Qed.

Lemma DecodePayload_inv raw p :
  DecodePayload raw = Ok p -> Payload_wf p /\ Payload_fits p = true /\ raw = payload_bytes p.
Proof.
  unfold DecodePayload. rewrite NewReader_at. intros H. read_inv.
  match type of H with context [negb ?c] => destruct c eqn:Hext; simpl in H; [|done] end.
  read_inv. simplify_eq/=.
  rewrite Remaining_at, len_app in Hext. apply Z.eqb_eq in Hext.
  match goal with |- context [payload_bytes (mkPayload _ _ _ _ _ ?e)] => rename e into ext end.
  match type of Hext with len ext = len ext + len ?x =>
    assert (x = []) as -> by (destruct x; [done|unfold len in Hext; simpl in Hext; lia]) end.
  rewrite go_copy_exact by (unfold len in *; simpl; lia).
  split_and!.
  - split; simpl; [unfold len in *; lia|]. apply int64_range.
  - apply payload_fits_spec. simpl. unfold is_uint16 in *.
    repeat match goal with B : byte_val ?b = _ |- _ => pose proof (byte_val_bound b); rewrite B in *; clear B end.
    lia.
  - unfold payload_bytes. simpl.
    repeat match goal with B : byte_val ?b = len ?l |- _ => rewrite (len_byte b l B); clear B end.
    rewrite <- (be_put_8_uint64 (int64 _)), uint64_int64 by done.
    rewrite app_nil_r. by rewrite <- ?app_assoc.
Qed.

Lemma len_payload_bytes p :
  len (payload_bytes p) =
  len (p_ClientIDHash p) + 14 + len (p_Method p) + len (p_SessionID p) + len (p_Extensions p).
Proof.
  unfold payload_bytes, len. rewrite !length_app. cbn [length].
  rewrite !length_app, !length_be_put. cbn [length]. rewrite !length_app, length_be_put. lia.
Qed.

Lemma bad_port_false port : bad_port port = false <-> 0 <= port <= 65535.
Proof. unfold bad_port. rewrite orb_false_iff. lia. Qed.

Lemma deriveAEADKey_length secret h : length (deriveAEADKey secret h) = KeySize.
Proof. apply MustHKDFSHA256_length. unfold KeySize. lia. Qed.

Lemma ComputeKeyHint_bound secret nonce port : is_uint64 (ComputeKeyHint secret nonce port).
Proof.
  unfold ComputeKeyHint. destruct (bad_port port); [unfold is_uint64; lia|apply HMACTrunc64_bound].
Qed.

Lemma io_ReadFull_app n (x y : bytes) fin :
  n = length x -> io_ReadFull n (mk_reader (x ++ y) fin) = Ok (x, mk_reader y fin).
Proof.
  intros ->. unfold io_ReadFull. simpl. rewrite length_app, decide_True by lia.
  by rewrite take_app_length, drop_app_length.
Qed.

Lemma io_ReadFull_inv n r x r' :
  io_ReadFull n r = Ok (x, r') -> rd_data r = x ++ rd_data r' /\ length x = n /\ rd_fin r' = rd_fin r.
Proof.
  unfold io_ReadFull. case_decide; [|done]. intros [= <- <-]. simpl.
  rewrite take_drop, length_take. split_and!; try done. lia.
Qed.

Section AEADLemmas.
Context `{LA : AEADLaws}.

Lemma SealPayload_eq secret h plain :
  SealPayload secret h plain =
  Ok (aead_seal (deriveAEADKey secret h) (aeadNonce h) plain (aad h)).
Proof. unfold SealPayload. by rewrite aead_New_Ok by apply deriveAEADKey_length. Qed.

Lemma OpenPayload_Ok secret h sealed plain :
  OpenPayload secret h sealed = Ok plain <-> SealPayload secret h plain = Ok sealed.
Proof.
  rewrite SealPayload_eq. unfold OpenPayload. rewrite aead_New_Ok by apply deriveAEADKey_length.
  simpl. unfold aead_Open. split.
  - destruct (aead_open _ _ _ _) eqn:E; [|done]. intros [= ->]. by apply open_sound in E as ->.
  - intros [= <-]. by rewrite open_seal.
Qed.

(** The exact result of [BuildFrame] on the inputs it accepts. *)
Lemma BuildFrame_eq clientID secret port now flags method sid ext nonce r :
  clientID <> [] -> 16 <= len secret -> flags_outside flags FlagServerProof = false ->
  payload_fits port method sid ext = true -> length nonce = 16%nat ->
  75 + len method + len sid + len ext <= 1024 ->
  let p := mkPayload (ComputeClientIDHash secret clientID) (UnixMilli now) port method sid ext in
  let h := mkHeader Version flags Byte.x00 nonce (ComputeKeyHint secret nonce port)
             (len (payload_bytes p) + 16) in
  let sealed := aead_seal (deriveAEADKey secret h) (aeadNonce h) (payload_bytes p) (aad h) in
  BuildFrame clientID secret port now flags method sid ext (nonce ++ r) =
    Ok (header_bytes h ++ sealed, h, r) /\ Header_wf h /\ len sealed = h_SealedLen h.
Proof.
  intros Hid Hs Hf Hfit Hn Hsize p h sealed.
  assert (len (ComputeClientIDHash secret clientID) = 16) as Hh
    by (unfold len, ComputeClientIDHash; by rewrite HMACTrunc128_length).
  assert (len (payload_bytes p) = 30 + len method + len sid + len ext) as Hl
    by (rewrite len_payload_bytes; simpl; lia).
  pose proof (len_nonneg method). pose proof (len_nonneg sid). pose proof (len_nonneg ext).
  assert (Header_wf h) as Hwf
    by (split_and!; simpl; [done|apply ComputeKeyHint_bound|unfold is_uint16; lia]).
  assert (length sealed = length (payload_bytes p) + 16)%nat as Hsl by apply seal_length.
  split_and!; [|done|unfold len in *; simpl; lia].
  pose proof Hfit as (Hp & _)%payload_fits_spec.
  unfold BuildFrame. rewrite (bool_decide_eq_false_2 (clientID = [])) by done.
  rewrite (proj2 (Z.ltb_ge (len secret) MinSecretSize)) by (unfold MinSecretSize; lia). cbn [orb].
  rewrite Hf. unfold rand_Read. rewrite length_app, decide_True by lia.
  rewrite take_app_length', drop_app_length' by done. res_simpl.
  rewrite (proj2 (bad_port_false port)) by lia.
  fold p. rewrite (proj2 (EncodePayload_Ok p (payload_bytes p))) by done. res_simpl.
  rewrite (proj2 (Z.ltb_ge _ _)) by (unfold DefaultMaxFrameSize, HeaderSize, Overhead; lia).
  unfold Overhead. rewrite uint16_id by (unfold is_uint16; lia). fold h.
  rewrite SealPayload_eq. res_simpl. cbv zeta. fold sealed.
  change (take 29 (zeros (29 + length sealed))) with (zeros 29).
  change (drop 29 (zeros (29 + length sealed))) with (zeros (length sealed)).
  rewrite (EncodeHeader_zeros h) by done.
  rewrite go_copy_exact by (unfold zeros; by rewrite length_replicate). done.
Qed.

Lemma SealPayload_len secret h plain sealed :
  SealPayload secret h plain = Ok sealed -> len sealed = len plain + 16.
Proof. rewrite SealPayload_eq. intros [= <-]. unfold len. rewrite seal_length. lia. Qed.

(** What a successful build guarantees. *)
Lemma BuildFrame_inv clientID secret port now flags method sid ext r out h r' :
  BuildFrame clientID secret port now flags method sid ext r = Ok (out, h, r') ->
  let p := mkPayload (ComputeClientIDHash secret clientID) (UnixMilli now) port method sid ext in
  clientID <> [] /\ 16 <= len secret /\ flags_outside flags FlagServerProof = false /\
  payload_fits port method sid ext = true /\ Header_wf h /\ h_Version h = Version /\ h_Flags h = flags /\
  h_Reserved h = Byte.x00 /\ h_KeyHint h = ComputeKeyHint secret (h_Nonce h) port /\
  exists sealed, SealPayload secret h (payload_bytes p) = Ok sealed /\ len sealed = h_SealedLen h /\
    29 + len sealed <= 1024 /\ out = header_bytes h ++ sealed.
Proof.
  intros HB. cbv zeta. unfold BuildFrame in HB. revert HB.
  case_bool_decide as Hid; [done|]. destruct (Z.ltb_spec (len secret) MinSecretSize) as [|Hs]; [done|]. cbn [orb].
  destruct (flags_outside flags _) eqn:Hf; [done|]. intros HB.
  apply res_bind_Ok in HB as ([nonce r1] & Hn & HB).
  assert (length nonce = 16%nat) as Hn16.
  { revert Hn. unfold rand_Read. case_decide; [|done]. intros [= <- _]. rewrite length_take. lia. }
  revert HB. destruct (bad_port port); [done|]. cbv zeta. intros HB.
  apply res_bind_Ok in HB as (plain & Henc & HB). apply EncodePayload_Ok in Henc as [Hfit ->].
  set (p := mkPayload _ _ _ _ _ _) in *. revert HB.
  destruct (Z.ltb_spec (DefaultMaxFrameSize - HeaderSize) (len (payload_bytes p) + Overhead)) as [|Hsz]; [done|]. intros HB.
  apply res_bind_Ok in HB as (sealed & Hseal & HB). pose proof (SealPayload_len _ _ _ _ Hseal) as Hsl.
  unfold DefaultMaxFrameSize, HeaderSize, Overhead in Hsz. pose proof (len_nonneg (payload_bytes p)).
  set (h0 := mkHeader _ _ _ _ _ _) in *.
  assert (h_SealedLen h0 = len sealed) as Hl.
  { unfold h0, Overhead. simpl. rewrite uint16_id by (unfold is_uint16; lia). lia. }
  assert (out = header_bytes h0 ++ sealed /\ h = h0) as [-> ->].
  { change (take 29 (zeros (29 + length sealed))) with (zeros 29) in HB.
    change (drop 29 (zeros (29 + length sealed))) with (zeros (length sealed)) in HB.
    rewrite (EncodeHeader_zeros h0), go_copy_exact in HB by (unfold zeros; by rewrite ?length_replicate).
    split; congruence. }
  split; [done|]. split; [done|]. split; [done|]. split; [done|]. split.
  { split; [done|]. split; [apply ComputeKeyHint_bound|]. rewrite Hl. pose proof (len_nonneg sealed).
    unfold is_uint16. lia. }
  do 4 (split; [done|]). exists sealed. split; [done|]. split; [done|]. split; [lia|done].
Qed.

Lemma ReadFrame_header h sealed rest fin max :
  Header_wf h -> h_Version h = Version -> h_Reserved h = Byte.x00 ->
  flags_outside (h_Flags h) FlagServerProof = false ->
  len sealed = h_SealedLen h -> 0 < h_SealedLen h ->
  29 + len sealed <= (if Z.leb max 0 then DefaultMaxFrameSize else max) ->
  ReadFrame (mk_reader (header_bytes h ++ sealed ++ rest) fin) max =
    Ok (h, sealed, mk_reader rest fin).
Proof.
  intros Hwf Hv Hr Hf Hl Hpos Hmax. unfold ReadFrame.
  set (m := if Z.leb max 0 then _ else _) in *. pose proof (len_nonneg sealed).
  rewrite (proj2 (Z.ltb_ge m HeaderSize)) by (unfold HeaderSize; lia).
  rewrite io_ReadFull_app by (symmetry; by apply length_header_bytes, Hwf). simpl.
  rewrite <- (app_nil_r (header_bytes h)), DecodeHeader_header_bytes by done.
  rewrite Hv, Hr, !bool_decide_eq_true_2, Hf by done. simpl.
  rewrite (proj2 (Z.eqb_neq _ _)), (proj2 (Z.ltb_ge _ _)) by (unfold HeaderSize; lia). simpl.
  rewrite io_ReadFull_app by (unfold len in *; lia). done.
Qed.

End AEADLemmas.

Lemma ReadFrame_inv r max h sealed r' :
  ReadFrame r max = Ok (h, sealed, r') ->
  rd_data r = header_bytes h ++ sealed ++ rd_data r' /\ rd_fin r' = rd_fin r /\
  Header_wf h /\ h_Version h = Version /\ h_Reserved h = Byte.x00 /\
  flags_outside (h_Flags h) FlagServerProof = false /\
  len sealed = h_SealedLen h /\ 0 < h_SealedLen h /\
  29 + len sealed <= (if Z.leb max 0 then DefaultMaxFrameSize else max).
Proof.
  unfold ReadFrame. set (m := if Z.leb max 0 then _ else _).
  destruct (Z.ltb_spec m HeaderSize) as [|Hm]; [done|]. intros H. read_inv.
  match goal with E : io_ReadFull 29 _ = _ |- _ => apply io_ReadFull_inv in E as (Ed & Hl & Ef) end.
  apply header_bytes_DecodeHeader in Hl as [Hb Hwf].
  set (hd := DecodeHeader _) in *.
  destruct (bool_decide_reflect (h_Version hd = Version)); simpl in H; [|done].
  destruct (bool_decide_reflect (h_Reserved hd = Byte.x00)); simpl in H; [|done].
  destruct (flags_outside (h_Flags hd) FlagServerProof) eqn:Hf; [done|].
  destruct (Z.eqb_spec (h_SealedLen hd) 0); [done|].
  destruct (Z.ltb_spec m (HeaderSize + h_SealedLen hd)); [done|]. simpl in H. read_inv.
  match goal with E : io_ReadFull _ _ = _ |- _ => apply io_ReadFull_inv in E as (Ed2 & Hl2 & Ef2) end.
  simplify_eq. destruct Hwf as (? & ? & ?). unfold is_uint16, HeaderSize, len in *.
  split_and!; try done; try congruence; lia.
Qed.

(** The check both server proofs make: type bytes, echoed nonce and MAC. *)
Lemma proof_check_spec (v t : byte) (nonce mac proof : bytes) (badport : bool) :
  length nonce = 16%nat -> length mac = (if badport then 0 else 32)%nat ->
  (if negb (Z.eqb (len proof) ServerProofSize) || negb (bool_decide (nth 0 proof Byte.x00 = v))
      || negb (bool_decide (nth 1 proof Byte.x00 = t)) then Err protocol_ErrInvalidFrame
   else if negb (ConstantTimeEqual (slice 2 18 proof) nonce) then Err protocol_ErrInvalidFrame
   else if negb (ConstantTimeEqual (drop 18 proof) mac) then Err protocol_ErrInvalidFrame
   else Ok tt) = Ok tt <->
  badport = false /\ proof = [v; t] ++ nonce ++ go_copy (zeros 32) mac.
Proof.
  intros Hn Hm. split.
  - destruct (Z.eqb_spec (len proof) ServerProofSize) as [Hl|]; simpl; [|done].
    destruct proof as [|v' [|t' proof]]; try done. cbn [nth].
    destruct (bool_decide_reflect (v' = v)) as [->|]; simpl; [|done].
    destruct (bool_decide_reflect (t' = t)) as [->|]; simpl; [|done].
    destruct (ConstantTimeEqual (slice 2 18 _) _) eqn:E1; simpl; [|done].
    destruct (ConstantTimeEqual (drop 16 proof) mac) eqn:E2; simpl; [|done].
    apply ConstantTimeEqual_spec in E1, E2. intros _.
    change (slice 2 18 (v :: t :: proof)) with (take 16 proof) in E1.
    assert (length (drop 16 proof) = 32%nat) as Hd
      by (rewrite length_drop; unfold len, ServerProofSize in Hl; simpl in Hl; lia).
    rewrite E2, Hm in Hd. destruct badport; [done|]. split; [done|].
    rewrite go_copy_exact by (by rewrite Hm).
    by rewrite <- E1, <- E2, take_drop.
  - intros [-> ->]. rewrite go_copy_exact by (by rewrite Hm).
    unfold len. simpl. rewrite length_app, Hn, Hm. simpl.
    rewrite !bool_decide_eq_true_2 by done. simpl.
    change (slice 2 18 (v :: t :: nonce ++ mac)) with (take 16 (nonce ++ mac)).
    rewrite (take_app_length' nonce), (drop_app_length' nonce) by done.
    by rewrite !ConstantTimeEqual_refl.
Qed.

(** * Properties *)

(** A v1 frame built by the client is read and opened by the
    server: for every client id, secret, port, flags and payload that fit the
    documented limits, [BuildFrame] succeeds (it fails on none of them), the
    frame is at most 1024 bytes, [ReadFrame] takes exactly that frame off the
    stream and leaves the application bytes behind it, and [OpenPayload] then
    [DecodePayload] give back the client's hash, timestamp, port, method,
    session id and extensions. *)
Theorem frame_v1_roundtrip `{LA : AEADLaws} clientID secret port now flags method sid ext
    (nonce : bytes) r rest fin max :
  clientID <> [] -> 16 <= len secret -> flags_outside flags FlagServerProof = false ->
  payload_fits port method sid ext = true -> length nonce = 16%nat ->
  75 + len method + len sid + len ext <= 1024 -> is_int64 (UnixMilli now) ->
  max <= 0 \/ 1024 <= max ->
  exists out h,
    BuildFrame clientID secret port now flags method sid ext (nonce ++ r) = Ok (out, h, r) /\
    len out <= 1024 /\
    ReadFrame (mk_reader (out ++ rest) fin) max = Ok (h, drop 29 out, mk_reader rest fin) /\
    (OpenPayload secret h (drop 29 out) ≫= DecodePayload) =
      Ok (mkPayload (ComputeClientIDHash secret clientID) (UnixMilli now) port method sid ext) /\
    h_KeyHint h = ComputeKeyHint secret (h_Nonce h) port.
Proof.
  intros Hid Hs Hf Hfit Hn Hsize Hnow Hmax.
  destruct (BuildFrame_eq clientID secret port now flags method sid ext nonce r) as (HB & Hwf & Hl);
    [done..|].
  set (p := mkPayload _ _ _ _ _ _) in *. set (h := mkHeader _ _ _ _ _ _) in *.
  set (sealed := aead_seal _ _ _ _) in *.
  assert (h_SealedLen h = 46 + len method + len sid + len ext) as Hlen.
  { simpl. rewrite len_payload_bytes. unfold p, ComputeClientIDHash, len. simpl.
    rewrite HMACTrunc128_length. lia. }
  pose proof (len_nonneg method). pose proof (len_nonneg sid). pose proof (len_nonneg ext).
  exists (header_bytes h ++ sealed), h.
  assert (drop 29 (header_bytes h ++ sealed) = sealed) as ->
    by (rewrite <- (length_header_bytes h) at 1 by apply Hwf; apply drop_app_length).
  split_and!; [done| | | |done].
  - rewrite len_app, Hl. unfold len at 1. rewrite length_header_bytes by apply Hwf. lia.
  - rewrite <- app_assoc. apply ReadFrame_header; try done; [lia|].
    rewrite Hl. destruct (Z.leb_spec max 0); unfold DefaultMaxFrameSize; lia.
  - rewrite (proj2 (OpenPayload_Ok secret h sealed (payload_bytes p))) by apply SealPayload_eq.
    simpl. rewrite DecodePayload_payload_bytes; [done| |done].
    split; simpl; [apply HMACTrunc128_length|done].
Qed.

(** Header and payload of the v1 frame have one wire form each:
    decoding the 29 header bytes and encoding them again is the identity in both
    directions, and a byte string decodes to a payload exactly when it is what
    [EncodePayload] writes for it. *)
Theorem frame_v1_codec_bijection (h : Header) (hraw : bytes) (p : Payload) (raw : bytes) :
  Header_wf h -> length hraw = 29%nat -> Payload_wf p ->
  (EncodeHeader (zeros 29) h = hraw <-> DecodeHeader hraw = h) /\
  (EncodePayload p = Ok raw <-> DecodePayload raw = Ok p).
Proof.
  intros Hh Hr Hp. rewrite EncodeHeader_zeros by apply Hh. split; split.
  - intros <-. rewrite <- (app_nil_r (header_bytes h)). by apply DecodeHeader_header_bytes.
  - intros <-. by apply header_bytes_DecodeHeader.
  - intros [Hf ->]%EncodePayload_Ok. by apply DecodePayload_payload_bytes.
  - intros (_ & Hf & ->)%DecodePayload_inv. by apply EncodePayload_Ok.
Qed.

(** [ReadFrame] never reads past the frame and never accepts an
    oversized or unknown one: on success the stream is the 29 header bytes, the
    sealed bytes the header announces and the untouched rest; the version is 1,
    the reserved byte 0, no unknown flag is set, and the whole frame is within
    the limit (1024 when the caller gives none). *)
Theorem ReadFrame_exact r max h sealed r' :
  ReadFrame r max = Ok (h, sealed, r') ->
  rd_data r = EncodeHeader (zeros 29) h ++ sealed ++ rd_data r' /\
  h_Version h = Version /\ h_Reserved h = Byte.x00 /\
  flags_outside (h_Flags h) FlagServerProof = false /\
  len sealed = h_SealedLen h /\ 0 < h_SealedLen h /\
  29 + len sealed <= (if Z.leb max 0 then DefaultMaxFrameSize else max).
Proof.
  intros (Hd & _ & Hwf & H)%ReadFrame_inv. rewrite EncodeHeader_zeros by apply Hwf. tauto.
Qed.

Lemma VerifyServerProof_Ok secret h port proof :
  length (h_Nonce h) = 16%nat ->
  VerifyServerProof proof secret h port = Ok tt <->
  0 <= port <= 65535 /\ proof = BuildServerProof secret h port.
Proof.
  intros Hn. unfold VerifyServerProof, BuildServerProof.
  rewrite <- bad_port_false. rewrite (go_copy_exact (zeros 16)) by (by rewrite Hn).
  apply (proof_check_spec Version ServerProofType (h_Nonce h)); [done|].
  unfold computeServerProof. destruct (bad_port port); [done|apply HMACSHA256_length].
Qed.

(** The v1 server proof is accepted exactly when it is the one
    [BuildServerProof] makes with the same secret, frame header and port, and
    never for a port outside 0..65535. *)
Theorem server_proof_v1_unique secret h port proof :
  length (h_Nonce h) = 16%nat ->
  VerifyServerProof proof secret h port = Ok tt <->
  0 <= port <= 65535 /\ proof = BuildServerProof secret h port.
Proof. apply VerifyServerProof_Ok. Qed.

(** * Evaluation on concrete inputs *)

Definition ex_secret : bytes := str "0123456789abcdef0123456789abcdef".
Definition ex_client : bytes := str "client-001".
Definition ex_nonce : bytes := be_put 16 0x101112131415161718191a1b1c1d1e1f.
(** 2026-05-15 00:00:00 UTC *)
Definition ex_now : Z := 1778803200 * 10 ^ 9.

Lemma frame_v1_roundtrip_witness :
  exists out h,
    @BuildFrame mac_AEAD ex_client ex_secret 9000 ex_now Byte.x01 (str "tcp") (str "session-id-0001") []
      (ex_nonce ++ str "more") = Ok (out, h, str "more") /\
    len out <= 1024 /\
    ReadFrame (mk_reader (out ++ str "GET /") io_EOF) 1024 =
      Ok (h, drop 29 out, mk_reader (str "GET /") io_EOF) /\
    (@OpenPayload mac_AEAD ex_secret h (drop 29 out) ≫= DecodePayload) =
      Ok (mkPayload (ComputeClientIDHash ex_secret ex_client) (UnixMilli ex_now) 9000 (str "tcp")
            (str "session-id-0001") []) /\
    h_KeyHint h = ComputeKeyHint ex_secret (h_Nonce h) 9000.
Proof.
  apply (frame_v1_roundtrip (LA := mac_AEAD_laws));
    solve [vm_compute; discriminate | vm_compute; reflexivity | vm_compute; split; discriminate
          | vm_compute; intuition discriminate | right; lia].
Defined.

Definition ex_header : Header := mkHeader Version Byte.x01 Byte.x00 ex_nonce 77 40.
Definition ex_payload : Payload := mkPayload ex_nonce (-5) 443 (str "udp") [] (str "ext").

Lemma frame_v1_codec_bijection_witness :
  DecodeHeader (EncodeHeader (zeros 29) ex_header) = ex_header /\
  DecodePayload (payload_bytes ex_payload) = Ok ex_payload.
Proof.
  destruct (frame_v1_codec_bijection ex_header (EncodeHeader (zeros 29) ex_header)
              ex_payload (payload_bytes ex_payload)) as [H1 H2].
  - split_and!; [reflexivity|split; simpl; lia|split; simpl; lia].
  - vm_compute. reflexivity.
  - split; [reflexivity|split; simpl; lia].
  - split; [apply H1; reflexivity|apply H2; vm_compute; reflexivity].
Defined.

Lemma ReadFrame_exact_witness :
  let stream := header_bytes ex_header ++ zeros 40 ++ str "tail" in
  stream = EncodeHeader (zeros 29) ex_header ++ zeros 40 ++ str "tail" /\
  29 + len (zeros 40) <= 1024.
Proof.
  pose proof (ReadFrame_exact (mk_reader (header_bytes ex_header ++ zeros 40 ++ str "tail") io_EOF) 1024
    ex_header (zeros 40) (mk_reader (str "tail") io_EOF)) as H.
  assert (ReadFrame (mk_reader (header_bytes ex_header ++ zeros 40 ++ str "tail") io_EOF) 1024 =
          Ok (ex_header, zeros 40, mk_reader (str "tail") io_EOF)) as E by (vm_compute; reflexivity).
  destruct (H E) as (Hd & _ & _ & _ & _ & _ & Hm). split; [exact Hd|exact Hm].
Defined.

Lemma server_proof_v1_unique_witness :
  VerifyServerProof (BuildServerProof ex_secret ex_header 9000) ex_secret ex_header 9000 = Ok tt.
Proof.
  apply (server_proof_v1_unique ex_secret ex_header 9000); [reflexivity|].
  split; [lia|reflexivity].
Defined.
