(* ===== verification/Envelope.v ===== *)
(** [protocol/envelope_v2.go]: the v2 TCP authentication envelope, a sealed
    payload padded to one of a few frame sizes. *)

From Stdlib Require Import ZArith Lia String Sorted.
From Stdlib Require Strings.Byte.
From stdpp Require Import base list gmap strings sorting.
From S2P Require Import Prelude GoStd Cryptox Codec Frame.

Open Scope Z_scope.

(** * Data *)

Definition EnvelopeV2Version : byte := Byte.x02.
Definition EnvelopeV2PrefixSize : nat := 24.
Definition EnvelopeV2RouteHintSize : nat := 8.
Definition EnvelopeV2DefaultMaxSize : Z := 512.
Definition EnvelopeV2ProtocolLabel : bytes := str "tcp-auth-envelope-v2".
Definition EnvelopeV2FlagServerProof : byte := FlagServerProof.
Definition EnvelopeV2DefaultBuckets : list Z := [128; 192; 256; 384; 512].

(** Hint modes and padding policies are strings; any other string is
    representable and refused by [Validate]. *)
Definition EnvelopeV2HintModeNone : bytes := str "none".
Definition EnvelopeV2HintModeRouteHint : bytes := str "route-hint".
Definition EnvelopeV2PaddingNone : bytes := str "none".
Definition EnvelopeV2PaddingRandomBucket : bytes := str "random-bucket".

Record EnvelopeV2Config := mkEnvelopeV2Config {
  ec_HintMode : bytes;
  ec_FrameSizeBuckets : list Z;
  ec_PaddingPolicy : bytes;
}.

Record EnvelopeV2Header := mkEnvelopeV2Header {
  eh_PrefixRandom : bytes;
  eh_RouteHint : Z;
  eh_BucketSize : Z;
  eh_HintMode : bytes;
}.

Record EnvelopeV2Payload := mkEnvelopeV2Payload {
  ep_Version : byte;
  ep_Flags : byte;
  ep_TimestampUnixMS : Z;
  ep_ClientIDHash : bytes;
  ep_ServerPort : Z;
  ep_Method : bytes;
  ep_SessionID : bytes;
  ep_Extensions : bytes;
}.

(** * Buckets and configuration *)

(** The loop over the default buckets. *)
Definition EnvelopeV2SupportedBucket (bucket : Z) : bool :=
  existsb (Z.eqb bucket) EnvelopeV2DefaultBuckets.

(** First loop of [EnvelopeV2Buckets]: keep the supported values not seen yet. *)
Fixpoint dedup_buckets (seen : gset Z) (l : list Z) : list Z :=
  match l with
  | [] => []
  | v :: t =>
      if negb (EnvelopeV2SupportedBucket v) || bool_decide (v ∈ seen) then dedup_buckets seen t
      else v :: dedup_buckets ({[v]} ∪ seen) t
  end.

(** [for j := i; j > 0 && out[j] < out[j-1]; j-- { swap }] *)
Fixpoint sink (j : nat) (out : list Z) : list Z :=
  match j with
  | O => out
  | S j' =>
      let a := nth j' out 0 in
      let b := nth j out 0 in
      if Z.ltb b a then sink j' (<[j' := b]> (<[j := a]> out)) else out
  end.

Definition EnvelopeV2Buckets (l : list Z) : list Z :=
  if decide (length l = 0%nat) then EnvelopeV2DefaultBuckets
  else
    let out := dedup_buckets ∅ l in
    fold_left (fun out i => sink i out) (seq 1 (length out - 1)) out.

Definition ec_WithDefaults (c : EnvelopeV2Config) : EnvelopeV2Config :=
  mkEnvelopeV2Config
    (if bool_decide (ec_HintMode c = []) then EnvelopeV2HintModeRouteHint else ec_HintMode c)
    (if decide (length (ec_FrameSizeBuckets c) = 0%nat)
     then EnvelopeV2DefaultBuckets else ec_FrameSizeBuckets c)
    (if bool_decide (ec_PaddingPolicy c = []) then EnvelopeV2PaddingRandomBucket else ec_PaddingPolicy c).

(** The loop of [Validate]; the result is the final [seenValid]. *)
Fixpoint validate_buckets (l : list Z) (maxFrameSize : Z) (seenValid : bool) : res bool :=
  match l with
  | [] => Ok seenValid
  | b :: t =>
      if negb (EnvelopeV2SupportedBucket b) then Err protocol_ErrInvalidFrameSizeBucket
      else if Z.ltb maxFrameSize b then Err protocol_ErrFrameTooLarge
      else validate_buckets t maxFrameSize true
  end.

Definition ec_Validate (c : EnvelopeV2Config) (maxFrameSize : Z) : res unit :=
  let c := ec_WithDefaults c in
  if negb (bool_decide (ec_HintMode c = EnvelopeV2HintModeRouteHint))
     && negb (bool_decide (ec_HintMode c = EnvelopeV2HintModeNone)) then Err protocol_ErrInvalidFrame
  else if negb (bool_decide (ec_PaddingPolicy c = EnvelopeV2PaddingRandomBucket))
     && negb (bool_decide (ec_PaddingPolicy c = EnvelopeV2PaddingNone)) then Err protocol_ErrInvalidFrame
  else
    let maxFrameSize := if Z.leb maxFrameSize 0 then EnvelopeV2DefaultMaxSize else maxFrameSize in
    if decide (length (ec_FrameSizeBuckets c) = 0%nat) then Err protocol_ErrFrameTooLarge
    else
      seenValid ← validate_buckets (ec_FrameSizeBuckets c) maxFrameSize false;
      if negb seenValid then Err protocol_ErrFrameTooLarge else Ok tt.

(** * Payload *)

Definition EncodeEnvelopeV2Payload (p : EnvelopeV2Payload) : res bytes :=
  if bad_port (ep_ServerPort p) then Err (ErrPortRange (ep_ServerPort p))
  else if Z.ltb 255 (len (ep_Method p)) || Z.ltb 255 (len (ep_SessionID p))
            || Z.ltb 65535 (len (ep_Extensions p)) then Err protocol_ErrFrameTooLarge
  else Ok ([ep_Version p] ++ [ep_Flags p]
        ++ be_put 8 (uint64 (ep_TimestampUnixMS p))
        ++ ep_ClientIDHash p
        ++ be_put 2 (uint16 (ep_ServerPort p))
        ++ [byte_of (len (ep_Method p))] ++ ep_Method p
        ++ [byte_of (len (ep_SessionID p))] ++ ep_SessionID p
        ++ be_put 2 (uint16 (len (ep_Extensions p))) ++ ep_Extensions p).

Definition DecodeEnvelopeV2PayloadWithLength (raw : bytes) : res (EnvelopeV2Payload * nat) :=
  let r := NewReader raw protocol_ErrInvalidFrame in
  '(version, r) ← ReadByte r;
  '(flags, r) ← ReadByte r;
  '(ts, r) ← ReadUint64 r;
  '(id, r) ← ReadFixed 16 r;
  '(port, r) ← ReadUint16 r;
  '(methodLen, r) ← ReadByte r;
  '(method, r) ← ReadVarBytes (byte_val methodLen) false r;
  '(sessionLen, r) ← ReadByte r;
  '(session, r) ← ReadVarBytes (byte_val sessionLen) true r;
  '(extLen, r) ← ReadUint16 r;
  '(ext, r) ← ReadVarBytes extLen true r;
  Ok (mkEnvelopeV2Payload version flags (int64 ts) (go_copy (zeros 16) id) port method session ext, Pos r).

Definition DecodeEnvelopeV2Payload (raw : bytes) : res EnvelopeV2Payload :=
  '(p, next) ← DecodeEnvelopeV2PayloadWithLength raw;
  if negb (Z.eqb (Z.of_nat next) (len raw)) then Err protocol_ErrInvalidFrame else Ok p.

(** * Keys, hints and proofs *)

Definition ComputeEnvelopeV2RouteHint (secret prefixRandom : bytes) (serverPort : Z) : Z :=
  if bad_port serverPort then 0
  else HMACTrunc64 secret ((str "libknock tcp-auth hint v2" ++ prefixRandom) ++ be_put 2 (uint16 serverPort)).

Definition computeEnvelopeV2ServerProof (secret : bytes) (h : EnvelopeV2Header) (serverPort : Z) : bytes :=
  if bad_port serverPort then []
  else HMACSHA256 secret ((str "server-proof-v2" ++ eh_PrefixRandom h)
         ++ be_put 8 (eh_RouteHint h) ++ be_put 2 (uint16 serverPort)).

Definition BuildEnvelopeV2ServerProof (secret : bytes) (h : EnvelopeV2Header) (serverPort : Z) : bytes :=
  [EnvelopeV2Version; ServerProofType] ++ go_copy (zeros 16) (take 16 (eh_PrefixRandom h))
    ++ go_copy (zeros 32) (computeEnvelopeV2ServerProof secret h serverPort).

Definition VerifyEnvelopeV2ServerProof (proof secret : bytes) (h : EnvelopeV2Header) (serverPort : Z) : res unit :=
  if negb (Z.eqb (len proof) ServerProofSize)
     || negb (bool_decide (nth 0 proof Byte.x00 = EnvelopeV2Version))
     || negb (bool_decide (nth 1 proof Byte.x00 = ServerProofType))
  then Err protocol_ErrInvalidFrame
  else if negb (ConstantTimeEqual (slice 2 18 proof) (take 16 (eh_PrefixRandom h)))
  then Err protocol_ErrInvalidFrame
  else if negb (ConstantTimeEqual (drop 18 proof) (computeEnvelopeV2ServerProof secret h serverPort))
  then Err protocol_ErrInvalidFrame
  else Ok tt.

Definition deriveEnvelopeV2Key (secret prefixRandom : bytes) : bytes :=
  MustHKDFSHA256 secret prefixRandom (str "libknock tcp-auth envelope v2") KeySize.

Definition envelopeV2Nonce (prefixRandom : bytes) : bytes := take NonceSizeX prefixRandom.

(** The additional data binds prefix, hint, size, port and protocol name. *)
Definition envelopeV2AAD (h : EnvelopeV2Header) (serverPort : Z) : bytes :=
  eh_PrefixRandom h
    ++ (if bool_decide (eh_HintMode h = EnvelopeV2HintModeRouteHint)
        then be_put 8 (eh_RouteHint h) else [])
    ++ be_put 2 (uint16 (eh_BucketSize h)) ++ be_put 2 (uint16 serverPort)
    ++ EnvelopeV2ProtocolLabel.

(** * Randomness *)

(** [rand.Read] of the prefix until its first byte is not the v1 version. Every
    attempt consumes 24 bytes, so the length of the source bounds them. *)
Fixpoint rand_prefix (fuel : nat) (r : rng) : res (bytes * rng) :=
  match fuel with
  | O => Err rand_Err
  | S f =>
      '(p, r) ← rand_Read EnvelopeV2PrefixSize r;
      if negb (bool_decide (nth 0 p Byte.x00 = Version)) then Ok (p, r) else rand_prefix f r
  end.

(** [crypto/rand.Int]: [k] bytes with the top byte masked to [b] bits, drawn
    again until the value is below [max]. *)
Definition mask_first (b : Z) (bs : bytes) : bytes :=
  match bs with
  | [] => []
  | x :: t => byte_of (Z.land (byte_val x) (2 ^ b - 1)) :: t
  end.

Fixpoint rand_Int_loop (fuel k : nat) (b max : Z) (r : rng) : res (Z * rng) :=
  match fuel with
  | O => Err rand_Err
  | S f =>
      '(bs, r) ← rand_Read k r;
      let n := be_get (mask_first b bs) in
      if Z.ltb n max then Ok (n, r) else rand_Int_loop f k b max r
  end.

Definition bit_length (n : Z) : Z := if Z.leb n 0 then 0 else Z.log2 n + 1.

Definition rand_Int (max : Z) (r : rng) : res (Z * rng) :=
  let bitLen := bit_length (max - 1) in
  if Z.eqb bitLen 0 then Ok (0, r)
  else
    let k := Z.to_nat ((bitLen + 7) / 8) in
    let b := if Z.eqb (bitLen mod 8) 0 then 8 else bitLen mod 8 in
    rand_Int_loop (S (length r)) k b max r.

Definition randInt (max : Z) (r : rng) : res (Z * rng) :=
  if Z.leb max 0 then Err protocol_ErrInvalidFrame else rand_Int max r.

(** * Building, reading and opening envelopes *)

Section WithAEAD.
Context `{AEAD}.

Definition sealEnvelopeV2 (secret : bytes) (h : EnvelopeV2Header) (serverPort : Z) (plain : bytes) : res bytes :=
  key ← aead_New (deriveEnvelopeV2Key secret (eh_PrefixRandom h));
  Ok (aead_Seal key (envelopeV2Nonce (eh_PrefixRandom h)) plain (envelopeV2AAD h serverPort)).

Definition SealEnvelopeV2Payload := sealEnvelopeV2.

Definition openEnvelopeV2Sealed (secret : bytes) (h : EnvelopeV2Header) (serverPort : Z) (sealed : bytes) : res bytes :=
  key ← aead_New (deriveEnvelopeV2Key secret (eh_PrefixRandom h));
  aead_Open key (envelopeV2Nonce (eh_PrefixRandom h)) sealed (envelopeV2AAD h serverPort).

Definition OpenEnvelopeV2Payload (secret : bytes) (h : EnvelopeV2Header) (serverPort : Z) (sealed : bytes)
  : res EnvelopeV2Payload :=
  plain ← openEnvelopeV2Sealed secret h serverPort sealed;
  '(payload, next) ← DecodeEnvelopeV2PayloadWithLength plain;
  if Nat.ltb (length plain) (next + 2) then Err protocol_ErrInvalidFrame
  else
    let paddingLen := be_get (slice next (next + 2) plain) in
    if negb (Z.eqb (Z.of_nat next + 2 + paddingLen) (len plain)) then Err protocol_ErrInvalidFrame
    else if negb (bool_decide (ep_Version payload = EnvelopeV2Version)) then Err protocol_ErrUnsupportedVersion
    else if flags_outside (ep_Flags payload) EnvelopeV2FlagServerProof then Err protocol_ErrUnsupportedFlags
    else Ok payload.

Definition BuildEnvelopeV2 (clientID secret : bytes) (serverPort now : Z) (flags : byte)
    (method sessionID extensions : bytes) (cfg : EnvelopeV2Config) (r : rng)
  : res (bytes * EnvelopeV2Header * rng) :=
  let cfg := ec_WithDefaults cfg in
  _ ← ec_Validate cfg EnvelopeV2DefaultMaxSize;
  if bool_decide (clientID = []) || Z.ltb (len secret) MinSecretSize then Err protocol_ErrInvalidFrame
  else if flags_outside flags EnvelopeV2FlagServerProof then Err protocol_ErrUnsupportedFlags
  else if bad_port serverPort then Err (ErrPortRange serverPort)
  else
    '(prefix, r) ← rand_prefix (S (length r)) r;
    let route := bool_decide (ec_HintMode cfg = EnvelopeV2HintModeRouteHint) in
    if negb route && negb (bool_decide (ec_HintMode cfg = EnvelopeV2HintModeNone))
    then Err protocol_ErrInvalidFrame
    else
      let hint := if route then ComputeEnvelopeV2RouteHint secret prefix serverPort else 0 in
      plain ← EncodeEnvelopeV2Payload (mkEnvelopeV2Payload EnvelopeV2Version flags (UnixMilli now)
                (ComputeClientIDHash secret clientID) serverPort method sessionID extensions);
      let minSize := 24 + len plain + Overhead + (if route then 8 else 0) in
      let candidates :=
        List.filter (fun bucket => Z.leb minSize bucket) (EnvelopeV2Buckets (ec_FrameSizeBuckets cfg)) in
      if decide (length candidates = 0%nat) then Err protocol_ErrFrameTooLarge
      else
        '(idx, r) ← randInt (len candidates) r;
        let bucket := nth (Z.to_nat idx) candidates 0 in
        let h := mkEnvelopeV2Header prefix hint bucket (ec_HintMode cfg) in
        let prefixLen := 24 + (if route then 8 else 0) in
        let sealedLen := bucket - prefixLen in
        let paddingLen := sealedLen - Overhead - len plain - 2 in
        if Z.ltb paddingLen 0 then Err protocol_ErrFrameTooLarge
        else
          '(padding, r) ←
            (if Z.ltb 0 paddingLen then
               if bool_decide (ec_PaddingPolicy cfg = EnvelopeV2PaddingRandomBucket)
               then rand_Read (Z.to_nat paddingLen) r
               else if negb (bool_decide (ec_PaddingPolicy cfg = EnvelopeV2PaddingNone))
               then Err protocol_ErrInvalidFrame
               else Ok (zeros (Z.to_nat paddingLen), r)
             else Ok ([], r));
          let body := (plain ++ be_put 2 (uint16 paddingLen)) ++ padding in
          sealed ← SealEnvelopeV2Payload secret h serverPort body;
          Ok ((prefix ++ (if route then be_put 8 hint else [])) ++ sealed, h, r).

End WithAEAD.

Definition ReadEnvelopeV2Prefix (r : reader) (hintMode : bytes) : res (EnvelopeV2Header * reader) :=
  '(prefix, r) ← io_ReadFull EnvelopeV2PrefixSize r;
  if bool_decide (hintMode = EnvelopeV2HintModeRouteHint) then
    '(raw, r) ← io_ReadFull EnvelopeV2RouteHintSize r;
    Ok (mkEnvelopeV2Header prefix (be_get raw) 0 hintMode, r)
  else if negb (bool_decide (hintMode = EnvelopeV2HintModeNone)) then Err protocol_ErrInvalidFrame
  else Ok (mkEnvelopeV2Header prefix 0 0 hintMode, r).

(** * Lemmas: buckets *)

Lemma dedup_buckets_elem seen l v :
  v ∈ dedup_buckets seen l <-> v ∈ l /\ EnvelopeV2SupportedBucket v = true /\ v ∉ seen.
Proof.
  revert seen. induction l as [|x l IH]; intros seen; cbn [dedup_buckets]; [set_solver|].
  destruct (EnvelopeV2SupportedBucket x) eqn:Hx; simpl.
  - case_bool_decide.
    + rewrite IH. split; [set_solver|]. intros ([->|]%elem_of_cons & ? & ?); [done|set_solver].
    + rewrite elem_of_cons, IH. destruct (decide (v = x)) as [->|]; set_solver.
  - rewrite IH. split; [set_solver|]. intros ([->|]%elem_of_cons & ? & ?); [congruence|done].
Qed.

Lemma dedup_buckets_NoDup seen l : NoDup (dedup_buckets seen l).
Proof.
  revert seen. induction l as [|x l IH]; intros seen; cbn [dedup_buckets]; [constructor|].
  case_match; [done|]. constructor; [|done]. rewrite dedup_buckets_elem. set_solver.
Qed.

(** One pass of the insertion sort moves an element to its place. *)
Lemma sink_spec l x rest :
  StronglySorted Z.le l ->
  exists l', sink (length l) (l ++ x :: rest) = l' ++ rest /\ l' ≡ₚ l ++ [x] /\ StronglySorted Z.le l'.
Proof.
  revert rest. induction l as [|y l IH] using rev_ind; intros rest Hs.
  - exists [x]. split_and!; [done|done|repeat constructor].
  - apply StronglySorted_app in Hs as (Hle & Hs & _).
    rewrite length_app, Nat.add_1_r, <- app_assoc. cbn [length sink app].
    rewrite nth_middle. replace (S (length l)) with (length l + 1)%nat by lia.
    rewrite app_nth2_plus. cbn [nth].
    destruct (Z.ltb_spec x y).
    + rewrite insert_app_r. cbn [insert list_insert]. rewrite (insert_app_r_alt l) by lia.
      rewrite Nat.sub_diag. cbn [insert list_insert].
      destruct (IH (y :: rest) Hs) as (l' & -> & Hp & Hs').
      exists (l' ++ [y]). rewrite <- app_assoc. split_and!; [done| |].
      * rewrite Hp, <- !app_assoc. apply Permutation_app_head, Permutation_swap.
      * apply StronglySorted_app. split_and!; [|done|repeat constructor].
        intros a b Ha ->%list_elem_of_singleton. rewrite Hp in Ha.
        apply elem_of_app in Ha as [Ha| ->%list_elem_of_singleton]; [|lia]. apply Hle; set_solver.
    + exists (l ++ [y; x]). rewrite <- !app_assoc. split_and!; [done|done|].
      apply StronglySorted_app. split_and!; [|done|repeat constructor; lia].
      intros a b Ha Hb. specialize (Hle a y Ha ltac:(set_solver)). set_unfold in Hb. lia.
Qed.

Lemma insertion_sort_spec l1 l2 :
  StronglySorted Z.le l1 ->
  exists l', fold_left (fun out i => sink i out) (seq (length l1) (length l2)) (l1 ++ l2) = l' /\
             l' ≡ₚ l1 ++ l2 /\ StronglySorted Z.le l'.
Proof.
  revert l1. induction l2 as [|x l2 IH]; intros l1 Hs; cbn [length seq fold_left].
  - eexists. split_and!; [done|done|by rewrite app_nil_r].
  - destruct (sink_spec l1 x l2 Hs) as (l' & -> & Hp & Hs').
    assert (S (length l1) = length l') as -> by (rewrite Hp, length_app; simpl; lia).
    destruct (IH l' Hs') as (l'' & -> & Hp' & Hs''). exists l''. split_and!; [done| |done].
    rewrite Hp', Hp, <- app_assoc. done.
Qed.

Lemma EnvelopeV2Buckets_spec l :
  l <> [] ->
  StronglySorted Z.le (EnvelopeV2Buckets l) /\ NoDup (EnvelopeV2Buckets l) /\
  forall v, v ∈ EnvelopeV2Buckets l <-> v ∈ l /\ EnvelopeV2SupportedBucket v = true.
Proof.
  intros Hl. unfold EnvelopeV2Buckets. rewrite decide_False by (by destruct l).
  pose proof (dedup_buckets_NoDup ∅ l) as Hnd. pose proof (dedup_buckets_elem ∅ l) as Hel.
  set (out := dedup_buckets ∅ l) in *.
  assert (exists l', fold_left (fun out i => sink i out) (seq 1 (length out - 1)) out = l' /\
                     l' ≡ₚ out /\ StronglySorted Z.le l') as (l' & -> & Hp & Hs).
  { destruct out as [|x out']; [exists []; repeat constructor|].
    cbn [length]. rewrite Nat.sub_1_r. simpl pred.
    apply (insertion_sort_spec [x] out'). repeat constructor. }
  split_and!; [done|by rewrite Hp|]. intros v. rewrite Hp, Hel. set_solver.
Qed.

Lemma EnvelopeV2SupportedBucket_spec b :
  EnvelopeV2SupportedBucket b = true <-> b ∈ EnvelopeV2DefaultBuckets.
Proof.
  unfold EnvelopeV2SupportedBucket. rewrite existsb_exists. split.
  - intros (x & Hx & ->%Z.eqb_eq). by apply list_elem_of_In.
  - intros H. exists b. split; [by apply list_elem_of_In|apply Z.eqb_refl].
Qed.

Lemma EnvelopeV2Buckets_bounds l b : b ∈ EnvelopeV2Buckets l -> 128 <= b <= 512.
Proof.
  destruct (decide (l = [])) as [->|Hl].
  - intros Hb. unfold EnvelopeV2Buckets, EnvelopeV2DefaultBuckets in Hb. simpl in Hb.
    set_unfold in Hb. lia.
  - intros (_ & Hb%EnvelopeV2SupportedBucket_spec)%EnvelopeV2Buckets_spec; [|done].
    unfold EnvelopeV2DefaultBuckets in Hb. set_unfold in Hb. lia.
Qed.

(** * Lemmas: payload *)

Definition EnvelopeV2Payload_wf (p : EnvelopeV2Payload) : Prop :=
  length (ep_ClientIDHash p) = 16%nat /\ is_int64 (ep_TimestampUnixMS p).

Definition envelope_payload_bytes (p : EnvelopeV2Payload) : bytes :=
  ep_Version p :: ep_Flags p :: be_put 8 (ep_TimestampUnixMS p) ++ ep_ClientIDHash p
    ++ be_put 2 (ep_ServerPort p)
    ++ byte_of (len (ep_Method p)) :: ep_Method p
    ++ byte_of (len (ep_SessionID p)) :: ep_SessionID p
    ++ be_put 2 (len (ep_Extensions p)) ++ ep_Extensions p.
#[global] Arguments envelope_payload_bytes : simpl never.

Definition EnvelopeV2Payload_fits (p : EnvelopeV2Payload) : bool :=
  payload_fits (ep_ServerPort p) (ep_Method p) (ep_SessionID p) (ep_Extensions p).

Lemma len_envelope_payload_bytes p :
  len (envelope_payload_bytes p) =
  len (ep_ClientIDHash p) + 16 + len (ep_Method p) + len (ep_SessionID p) + len (ep_Extensions p).
Proof.
  unfold envelope_payload_bytes, len. cbn [length]. rewrite !length_app. cbn [length].
  rewrite !length_app, !length_be_put. cbn [length]. rewrite !length_app, length_be_put. lia.
Qed.

Lemma EncodeEnvelopeV2Payload_Ok p raw :
  EncodeEnvelopeV2Payload p = Ok raw <->
  EnvelopeV2Payload_fits p = true /\ raw = envelope_payload_bytes p.
Proof.
  unfold EncodeEnvelopeV2Payload, EnvelopeV2Payload_fits, payload_fits, envelope_payload_bytes.
  rewrite be_put_8_uint64, !be_put_2_uint16. simpl.
  destruct (bad_port (ep_ServerPort p)); simpl; [split; [done|intros [? _]; done]|].
  rewrite !Z.leb_antisym.
  destruct (Z.ltb 255 (len (ep_Method p))), (Z.ltb 255 (len (ep_SessionID p))),
    (Z.ltb 65535 (len (ep_Extensions p))); simpl; split; try (intros [? ?]; done); try done.
  - intros [= <-]. done.
  - intros [_ ->]. done.
Qed.

Lemma DecodeEnvelopeV2_bytes p rest :
  EnvelopeV2Payload_wf p -> EnvelopeV2Payload_fits p = true ->
  DecodeEnvelopeV2PayloadWithLength (envelope_payload_bytes p ++ rest) =
    Ok (p, length (envelope_payload_bytes p)).
Proof.
  intros [Hh Ht] (Hp & Hm & Hs & He)%payload_fits_spec.
  unfold DecodeEnvelopeV2PayloadWithLength. rewrite NewReader_at.
  unfold envelope_payload_bytes. cbn [app]. rewrite <- !app_assoc.
  cbn [app]. rewrite <- !app_assoc. cbn [app]. rewrite <- !app_assoc.
  rewrite ReadByte_at; res_simpl. rewrite ReadByte_at; res_simpl. rewrite ReadUint64_at; res_simpl.
  rewrite ReadFixed_at by (unfold len; by rewrite Hh). res_simpl.
  rewrite ReadUint16_at; res_simpl. rewrite ReadByte_at; res_simpl.
  rewrite byte_val_len by done. rewrite ReadVarBytes_at by done. res_simpl.
  rewrite ReadByte_at; res_simpl. rewrite byte_val_len by done. rewrite ReadVarBytes_at by done. res_simpl.
  rewrite ReadUint16_at; res_simpl. pose proof (len_nonneg (ep_Extensions p)).
  rewrite (uint16_id (len _)) by (unfold is_uint16; lia).
  rewrite ReadVarBytes_at by done. res_simpl. rewrite Pos_at.
  rewrite go_copy_exact by (by rewrite Hh). rewrite int64_uint64 by done.
  rewrite uint16_id by (unfold is_uint16; lia). destruct p; simpl. f_equal. f_equal.
  rewrite !length_app. cbn [length]. rewrite !length_app. cbn [length]. rewrite !length_app. lia.
Qed.

Lemma DecodeEnvelopeV2_inv raw p n :
  DecodeEnvelopeV2PayloadWithLength raw = Ok (p, n) ->
  EnvelopeV2Payload_wf p /\ EnvelopeV2Payload_fits p = true /\
  n = length (envelope_payload_bytes p) /\ exists rest, raw = envelope_payload_bytes p ++ rest.
Proof.
  unfold DecodeEnvelopeV2PayloadWithLength. rewrite NewReader_at. intros H. read_inv.
  injection H as <- <-. rewrite go_copy_exact by (unfold len in *; simpl; lia).
  split_and!.
  - split; simpl; [unfold len in *; lia|apply int64_range].
  - apply payload_fits_spec. simpl. unfold is_uint16 in *.
    repeat match goal with B : byte_val ?b = _ |- _ => pose proof (byte_val_bound b); rewrite B in *; clear B end.
    lia.
  - unfold reader_at, envelope_payload_bytes. simpl.
    rewrite !length_app. cbn [length]. rewrite !length_app. cbn [length]. rewrite !length_app.
    rewrite !length_be_put. simpl. lia.
  - eexists. unfold envelope_payload_bytes. simpl.
    repeat match goal with B : byte_val ?b = len ?l |- _ => rewrite (len_byte b l B); clear B end.
    rewrite <- (be_put_8_uint64 (int64 _)), uint64_int64 by done.
    rewrite <- !app_assoc. simpl. rewrite <- !app_assoc. simpl. rewrite <- !app_assoc. subst.
    reflexivity.
Qed.

(** * Lemmas: configuration and randomness *)

Lemma ec_WithDefaults_idem c : ec_WithDefaults (ec_WithDefaults c) = ec_WithDefaults c.
Proof.
  unfold ec_WithDefaults. simpl. f_equal.
  - destruct (bool_decide_reflect (ec_HintMode c = [])); [reflexivity|]. by rewrite bool_decide_eq_false_2.
  - destruct (decide (length (ec_FrameSizeBuckets c) = 0%nat)); [reflexivity|]. by rewrite decide_False.
  - destruct (bool_decide_reflect (ec_PaddingPolicy c = [])); [reflexivity|]. by rewrite bool_decide_eq_false_2.
Qed.

Lemma ec_Validate_defaults c m : ec_Validate (ec_WithDefaults c) m = ec_Validate c m.
Proof. unfold ec_Validate. by rewrite ec_WithDefaults_idem. Qed.

Lemma ec_Validate_modes c m :
  ec_Validate c m = Ok tt ->
  let c' := ec_WithDefaults c in
  (ec_HintMode c' = EnvelopeV2HintModeRouteHint \/ ec_HintMode c' = EnvelopeV2HintModeNone) /\
  (ec_PaddingPolicy c' = EnvelopeV2PaddingRandomBucket \/ ec_PaddingPolicy c' = EnvelopeV2PaddingNone).
Proof.
  unfold ec_Validate. cbv zeta. set (c' := ec_WithDefaults c). repeat case_bool_decide; simpl; auto; done.
Qed.

Lemma rand_Read_inv n r x r' : rand_Read n r = Ok (x, r') -> r = x ++ r' /\ length x = n.
Proof.
  unfold rand_Read. case_decide; [|done]. intros [= <- <-]. rewrite take_drop, length_take. split; [done|lia].
Qed.

Lemma rand_Read_app n x r : length x = n -> rand_Read n (x ++ r) = Ok (x, r).
Proof.
  intros <-. unfold rand_Read. rewrite length_app, decide_True by lia.
  by rewrite take_app_length, drop_app_length.
Qed.

Lemma rand_prefix_inv f r p r' :
  rand_prefix f r = Ok (p, r') -> length p = 24%nat /\ nth 0 p Byte.x00 <> Version.
Proof.
  revert r. induction f as [|f IH]; intros r; cbn [rand_prefix]; [done|].
  destruct (rand_Read _ r) as [[x r1]|] eqn:E; res_simpl; [|done].
  apply rand_Read_inv in E as [_ Hx].
  case_bool_decide; simpl; [apply IH|]. intros [= <- _]. done.
Qed.

Lemma rand_Int_loop_bound f k b max r n r' : rand_Int_loop f k b max r = Ok (n, r') -> 0 <= n < max.
Proof.
  revert r. induction f as [|f IH]; intros r; cbn [rand_Int_loop]; [done|].
  destruct (rand_Read k r) as [[x r1]|]; res_simpl; [|done]. cbv zeta.
  destruct (Z.ltb_spec (be_get (mask_first b x)) max); [|apply IH].
  intros [= <- _]. pose proof (be_get_bound (mask_first b x)). lia.
Qed.

Lemma randInt_bound max r n r' : randInt max r = Ok (n, r') -> 0 <= n < max.
Proof.
  unfold randInt, rand_Int. destruct (Z.leb_spec max 0); [done|]. cbv zeta.
  case_match; [intros [= <- _]; lia|]. apply rand_Int_loop_bound.
Qed.

(** * Lemmas: the envelope *)

Definition route_mode (c : EnvelopeV2Config) : bool :=
  bool_decide (ec_HintMode c = EnvelopeV2HintModeRouteHint).

Definition prefix_len (c : EnvelopeV2Config) : Z := 24 + if route_mode c then 8 else 0.

(** [minSize] and [candidates] of [BuildEnvelopeV2] for an [n]-byte payload. *)
Definition min_size (c : EnvelopeV2Config) (n : Z) : Z := prefix_len c + n + 16.

Definition size_candidates (c : EnvelopeV2Config) (n : Z) : list Z :=
  List.filter (fun b => Z.leb (min_size c n) b) (EnvelopeV2Buckets (ec_FrameSizeBuckets c)).

Lemma size_candidates_elem c n b : In b (size_candidates c n) -> min_size c n <= b <= 512.
Proof.
  unfold size_candidates. rewrite filter_In. intros [Hb ?%Z.leb_le].
  apply list_elem_of_In, EnvelopeV2Buckets_bounds in Hb. lia.
Qed.

Lemma deriveEnvelopeV2Key_length secret p : length (deriveEnvelopeV2Key secret p) = KeySize.
Proof. apply MustHKDFSHA256_length. unfold KeySize. lia. Qed.

Lemma ComputeEnvelopeV2RouteHint_bound secret p port : is_uint64 (ComputeEnvelopeV2RouteHint secret p port).
Proof.
  unfold ComputeEnvelopeV2RouteHint. destruct (bad_port port); [unfold is_uint64; lia|apply HMACTrunc64_bound].
Qed.

Section AEADLemmas.
Context `{LA : AEADLaws}.

Lemma SealEnvelopeV2Payload_eq secret h port plain :
  SealEnvelopeV2Payload secret h port plain =
  Ok (aead_seal (deriveEnvelopeV2Key secret (eh_PrefixRandom h)) (envelopeV2Nonce (eh_PrefixRandom h)) plain
        (envelopeV2AAD h port)).
Proof.
  unfold SealEnvelopeV2Payload, sealEnvelopeV2. by rewrite aead_New_Ok by apply deriveEnvelopeV2Key_length.
Qed.

Lemma SealEnvelopeV2Payload_len secret h port plain sealed :
  SealEnvelopeV2Payload secret h port plain = Ok sealed -> len sealed = len plain + 16.
Proof. rewrite SealEnvelopeV2Payload_eq. intros [= <-]. unfold len. rewrite seal_length. lia. Qed.

Lemma openEnvelopeV2Sealed_Ok secret h port sealed plain :
  openEnvelopeV2Sealed secret h port sealed = Ok plain <->
  SealEnvelopeV2Payload secret h port plain = Ok sealed.
Proof.
  rewrite SealEnvelopeV2Payload_eq. unfold openEnvelopeV2Sealed.
  rewrite aead_New_Ok by apply deriveEnvelopeV2Key_length. res_simpl. unfold aead_Open. split.
  - destruct (aead_open _ _ _ _) eqn:E; [|done]. intros [= ->]. by apply open_sound in E as ->.
  - intros [= <-]. by rewrite open_seal.
Qed.

(** The body a client seals: payload, padding length and padding. *)
Definition envelope_body (p : EnvelopeV2Payload) (padding : bytes) : bytes :=
  envelope_payload_bytes p ++ be_put 2 (len padding) ++ padding.

Lemma OpenEnvelopeV2Payload_body secret h port sealed p padding :
  EnvelopeV2Payload_wf p -> EnvelopeV2Payload_fits p = true -> ep_Version p = EnvelopeV2Version ->
  flags_outside (ep_Flags p) EnvelopeV2FlagServerProof = false -> len padding <= 65535 ->
  SealEnvelopeV2Payload secret h port (envelope_body p padding) = Ok sealed ->
  OpenEnvelopeV2Payload secret h port sealed = Ok p.
Proof.
  intros Hwf Hfit Hv Hf Hpad Hseal%openEnvelopeV2Sealed_Ok. pose proof (len_nonneg padding).
  unfold OpenEnvelopeV2Payload, envelope_body in *. rewrite Hseal. res_simpl.
  rewrite DecodeEnvelopeV2_bytes by done. res_simpl. cbv zeta.
  set (x := envelope_payload_bytes p).
  rewrite (slice_mid x) by (rewrite ?length_be_put; lia).
  rewrite !length_app, length_be_put, be_get_put, Z.mod_small by (simpl; lia).
  destruct (Nat.ltb_spec (length x + (2 + length padding)) (length x + 2)); [lia|].
  rewrite !len_app, len_be_put. unfold len at 2.
  rewrite (proj2 (Z.eqb_eq _ _)) by lia. simpl.
  rewrite bool_decide_eq_true_2, Hf by done. done.
Qed.

Lemma OpenEnvelopeV2Payload_inv secret h port sealed p :
  OpenEnvelopeV2Payload secret h port sealed = Ok p ->
  EnvelopeV2Payload_wf p /\ EnvelopeV2Payload_fits p = true /\ ep_Version p = EnvelopeV2Version /\
  flags_outside (ep_Flags p) EnvelopeV2FlagServerProof = false /\
  exists padding, len padding <= 65535 /\
    SealEnvelopeV2Payload secret h port (envelope_body p padding) = Ok sealed.
Proof.
  unfold OpenEnvelopeV2Payload. intros H. apply res_bind_Ok in H as (plain & Hopen & H).
  apply res_bind_Ok in H as ([q n] & Hdec & H).
  apply DecodeEnvelopeV2_inv in Hdec as (Hwf & Hfit & -> & rest & ->). cbv zeta in H.
  apply openEnvelopeV2Sealed_Ok in Hopen. set (x := envelope_payload_bytes q) in *.
  rewrite length_app in H.
  destruct (Nat.ltb_spec (length x + length rest) (length x + 2)); [done|].
  destruct (split_at rest 2) as (l & padding & -> & Hl); [lia|].
  rewrite (slice_mid x) in H by lia.
  rewrite !len_app in H. unfold len at 1 2 in H. rewrite Hl in H.
  destruct (Z.eqb_spec (Z.of_nat (length x) + 2 + be_get l)
              (Z.of_nat (length x) + (Z.of_nat 2 + len padding))) as [E|]; simpl in H; [|done].
  destruct (bool_decide_reflect (ep_Version q = EnvelopeV2Version)); simpl in H; [|done].
  destruct (flags_outside (ep_Flags q) _) eqn:Hf; [done|]. injection H as <-.
  assert (be_get l = len padding) as El by lia.
  pose proof (be_get_bound l) as Hb. rewrite Hl in Hb. change (256 ^ Z.of_nat 2) with 65536 in Hb.
  split_and!; try done. exists padding. split; [lia|].
  unfold envelope_body. by rewrite <- El, be_get_2.
Qed.

Lemma BuildEnvelopeV2_eq clientID secret port now flags method sid ext cfg r prefix r1 idx r2 :
  let c := ec_WithDefaults cfg in
  let p := mkEnvelopeV2Payload EnvelopeV2Version flags (UnixMilli now)
             (ComputeClientIDHash secret clientID) port method sid ext in
  let n := len (envelope_payload_bytes p) in
  ec_Validate cfg EnvelopeV2DefaultMaxSize = Ok tt ->
  clientID <> [] -> 16 <= len secret -> flags_outside flags EnvelopeV2FlagServerProof = false ->
  payload_fits port method sid ext = true ->
  rand_prefix (S (length r)) r = Ok (prefix, r1) ->
  randInt (len (size_candidates c n)) r1 = Ok (idx, r2) ->
  let bucket := nth (Z.to_nat idx) (size_candidates c n) 0 in
  let h := mkEnvelopeV2Header prefix
             (if route_mode c then ComputeEnvelopeV2RouteHint secret prefix port else 0)
             bucket (ec_HintMode c) in
  let pad := bucket - min_size c n - 2 in
  BuildEnvelopeV2 clientID secret port now flags method sid ext cfg r =
  if Z.ltb pad 0 then Err protocol_ErrFrameTooLarge
  else
    '(padding, r3) ←
      (if Z.ltb 0 pad then
         if bool_decide (ec_PaddingPolicy c = EnvelopeV2PaddingRandomBucket)
         then rand_Read (Z.to_nat pad) r2 else Ok (zeros (Z.to_nat pad), r2)
       else Ok ([], r2));
    sealed ← SealEnvelopeV2Payload secret h port
      ((envelope_payload_bytes p ++ be_put 2 pad) ++ padding);
    Ok ((prefix ++ (if route_mode c then be_put 8 (eh_RouteHint h) else [])) ++ sealed, h, r3).
Proof.
  intros c p n Hval Hid Hs Hf Hfit Hpre Hidx bucket h pad.
  pose proof (ec_Validate_modes _ _ Hval) as [Hhm Hpp]. fold c in Hhm, Hpp.
  pose proof Hfit as (Hport & _)%payload_fits_spec.
  pose proof (randInt_bound _ _ _ _ Hidx) as Hb.
  assert (length (size_candidates c n) <> 0%nat) as Hne by (unfold len in Hb; lia).
  unfold BuildEnvelopeV2. cbv zeta. rewrite ec_Validate_defaults, Hval. res_simpl. fold c.
  rewrite (bool_decide_eq_false_2 (clientID = [])) by done.
  rewrite (proj2 (Z.ltb_ge (len secret) MinSecretSize)) by (unfold MinSecretSize; lia). cbn [orb].
  rewrite Hf, (proj2 (bad_port_false port)), Hpre by lia. res_simpl. fold p.
  rewrite (proj2 (EncodeEnvelopeV2Payload_Ok p (envelope_payload_bytes p))) by done. res_simpl.
  assert (negb (bool_decide (ec_HintMode c = EnvelopeV2HintModeRouteHint))
          && negb (bool_decide (ec_HintMode c = EnvelopeV2HintModeNone)) = false) as ->
    by (destruct Hhm as [-> | ->]; reflexivity).
  fold n. fold (route_mode c).
  assert (24 + n + Overhead + (if route_mode c then 8 else 0) = min_size c n) as ->
    by (unfold min_size, prefix_len, Overhead; lia).
  fold (size_candidates c n). rewrite decide_False by done. rewrite Hidx. res_simpl. fold bucket.
  assert (bucket - (24 + (if route_mode c then 8 else 0)) - Overhead - n - 2 = pad) as ->
    by (unfold pad, min_size, prefix_len, Overhead; lia).
  fold h. destruct (Z.ltb pad 0); [done|]. rewrite be_put_2_uint16.
  assert (forall (X Y : res (bytes * rng)),
    (if bool_decide (ec_PaddingPolicy c = EnvelopeV2PaddingRandomBucket) then X
     else if negb (bool_decide (ec_PaddingPolicy c = EnvelopeV2PaddingNone)) then Err protocol_ErrInvalidFrame else Y)
    = if bool_decide (ec_PaddingPolicy c = EnvelopeV2PaddingRandomBucket) then X else Y) as ->
    by (intros; destruct Hpp as [-> | ->]; reflexivity).
  done.
Qed.

End AEADLemmas.

Lemma nth_In_idx (l : list Z) i : 0 <= i < len l -> In (nth (Z.to_nat i) l 0) l.
Proof. intros H. apply nth_In. unfold len in H. lia. Qed.

Lemma nth_0_app (x y : bytes) b : x <> [] -> nth 0 (x ++ y) b = nth 0 x b.
Proof. by destruct x. Qed.

(** * Properties *)

(** The length of the payload [BuildEnvelopeV2] encodes. *)
Lemma len_client_payload secret clientID v flags ts port method sid ext :
  len (envelope_payload_bytes
         (mkEnvelopeV2Payload v flags ts (ComputeClientIDHash secret clientID) port method sid ext)) =
  32 + len method + len sid + len ext.
Proof.
  rewrite len_envelope_payload_bytes. cbn [ep_ClientIDHash ep_Method ep_SessionID ep_Extensions].
  unfold ComputeClientIDHash. unfold len at 1. rewrite HMACTrunc128_length. lia.
Qed.

(** The padding draw succeeds when the random source has enough bytes. *)
Lemma padding_draw pol k r2 pad r3 :
  0 <= k -> rand_Read (Z.to_nat k) r2 = Ok (pad, r3) ->
  exists padding r', len padding = k /\
    (if Z.ltb 0 k then if bool_decide (pol = EnvelopeV2PaddingRandomBucket)
       then rand_Read (Z.to_nat k) r2 else Ok (zeros (Z.to_nat k), r2) else Ok ([], r2)) = Ok (padding, r').
Proof.
  intros Hk Hr. apply rand_Read_inv in Hr as Hr'. destruct Hr' as [_ Hl].
  destruct (Z.ltb_spec 0 k); [case_bool_decide|].
  - exists pad, r3. unfold len. split; [lia|done].
  - eexists _, _. split; [|done]. unfold len, zeros. rewrite length_replicate. lia.
  - exists [], r2. split; [unfold len; simpl; lia|done].
Qed.

(** Reading back the prefix and the optional hint. *)
Lemma ReadEnvelopeV2Prefix_app mode prefix hint (tl : bytes) fin :
  length prefix = 24%nat -> is_uint64 hint ->
  mode = EnvelopeV2HintModeRouteHint \/ mode = EnvelopeV2HintModeNone ->
  ReadEnvelopeV2Prefix
    (mk_reader (prefix ++ (if bool_decide (mode = EnvelopeV2HintModeRouteHint) then be_put 8 hint else []) ++ tl) fin)
    mode =
  Ok (mkEnvelopeV2Header prefix (if bool_decide (mode = EnvelopeV2HintModeRouteHint) then hint else 0) 0 mode,
      mk_reader tl fin).
Proof.
  intros Hp Hh Hm. unfold ReadEnvelopeV2Prefix. rewrite io_ReadFull_app by done. res_simpl.
  destruct Hm as [-> | ->].
  - rewrite !bool_decide_eq_true_2 by done. rewrite io_ReadFull_app by (by rewrite length_be_put). res_simpl.
    by rewrite be_get_put, Z.mod_small.
  - rewrite !(bool_decide_eq_false_2 (EnvelopeV2HintModeNone = EnvelopeV2HintModeRouteHint)) by done. done.
Qed.

Section BuildLemmas.
Context `{LA : AEADLaws}.

(** The outcome of [BuildEnvelopeV2] once a bucket is drawn, with the
    intermediate values named by equations. *)
Lemma BuildEnvelopeV2_drawn clientID secret port now flags method sid ext cfg r prefix r1 idx r2 c n bucket :
  c = ec_WithDefaults cfg -> n = 32 + len method + len sid + len ext ->
  bucket = nth (Z.to_nat idx) (size_candidates c n) 0 ->
  ec_Validate cfg EnvelopeV2DefaultMaxSize = Ok tt ->
  clientID <> [] -> 16 <= len secret -> flags_outside flags EnvelopeV2FlagServerProof = false ->
  payload_fits port method sid ext = true ->
  rand_prefix (S (length r)) r = Ok (prefix, r1) ->
  randInt (len (size_candidates c n)) r1 = Ok (idx, r2) ->
  forall hint, hint = (if route_mode c then ComputeEnvelopeV2RouteHint secret prefix port else 0) ->
  forall raw, raw = envelope_payload_bytes (mkEnvelopeV2Payload EnvelopeV2Version flags (UnixMilli now)
             (ComputeClientIDHash secret clientID) port method sid ext) ->
  BuildEnvelopeV2 clientID secret port now flags method sid ext cfg r =
  if Z.ltb (bucket - min_size c n - 2) 0 then Err protocol_ErrFrameTooLarge
  else
    '(padding, r3) ←
      (if Z.ltb 0 (bucket - min_size c n - 2) then
         if bool_decide (ec_PaddingPolicy c = EnvelopeV2PaddingRandomBucket)
         then rand_Read (Z.to_nat (bucket - min_size c n - 2)) r2
         else Ok (zeros (Z.to_nat (bucket - min_size c n - 2)), r2)
       else Ok ([], r2));
    sealed ← SealEnvelopeV2Payload secret (mkEnvelopeV2Header prefix hint bucket (ec_HintMode c)) port
      ((raw ++ be_put 2 (bucket - min_size c n - 2)) ++ padding);
    Ok ((prefix ++ (if route_mode c then be_put 8 hint else [])) ++ sealed,
        mkEnvelopeV2Header prefix hint bucket (ec_HintMode c), r3).
Proof.
  intros Hc Hn Hb Hval Hid Hs Hf Hfit Hpre Hidx hint Hh raw Hraw.
  rewrite <- (len_client_payload secret clientID EnvelopeV2Version flags (UnixMilli now) port) in Hn. subst.
  by apply BuildEnvelopeV2_eq with (r1 := r1).
Qed.

(** What a successful build guarantees. *)
Lemma BuildEnvelopeV2_inv clientID secret port now flags method sid ext cfg r out h r' :
  BuildEnvelopeV2 clientID secret port now flags method sid ext cfg r = Ok (out, h, r') ->
  let c := ec_WithDefaults cfg in
  let p := mkEnvelopeV2Payload EnvelopeV2Version flags (UnixMilli now) (ComputeClientIDHash secret clientID)
             port method sid ext in
  ec_Validate cfg EnvelopeV2DefaultMaxSize = Ok tt /\ clientID <> [] /\ 16 <= len secret /\
  flags_outside flags EnvelopeV2FlagServerProof = false /\ payload_fits port method sid ext = true /\
  length (eh_PrefixRandom h) = 24%nat /\ nth 0 (eh_PrefixRandom h) Byte.x00 <> Version /\
  eh_HintMode h = ec_HintMode c /\
  eh_RouteHint h = (if route_mode c then ComputeEnvelopeV2RouteHint secret (eh_PrefixRandom h) port else 0) /\
  eh_BucketSize h ∈ EnvelopeV2Buckets (ec_FrameSizeBuckets c) /\
  exists padding sealed, len padding <= 65535 /\
    SealEnvelopeV2Payload secret h port (envelope_body p padding) = Ok sealed /\
    len sealed = eh_BucketSize h - prefix_len c /\
    out = eh_PrefixRandom h ++ (if route_mode c then be_put 8 (eh_RouteHint h) else []) ++ sealed.
Proof.
  intros HB. cbv zeta. unfold BuildEnvelopeV2 in HB. cbv zeta in HB. rewrite ec_Validate_defaults in HB.
  apply res_bind_Ok in HB as ([] & Hval & HB). revert HB.
  pose proof (ec_Validate_modes _ _ Hval) as [Hhm Hpp]. set (c := ec_WithDefaults cfg) in *.
  case_bool_decide as Hid; [done|]. destruct (Z.ltb_spec (len secret) MinSecretSize) as [|Hs]; [done|]. cbn [orb].
  destruct (flags_outside flags _) eqn:Hf; [done|]. destruct (bad_port port); [done|]. intros HB.
  apply res_bind_Ok in HB as ([prefix r1] & Hpre & HB). apply rand_prefix_inv in Hpre as [Hp24 Hp0].
  revert HB. destruct (negb _ && negb _); [done|]. intros HB.
  apply res_bind_Ok in HB as (plain & Henc & HB). apply EncodeEnvelopeV2Payload_Ok in Henc as [Hfit ->].
  set (p := mkEnvelopeV2Payload _ _ _ _ _ _ _ _) in *. revert HB. case_decide; [done|]. intros HB.
  apply res_bind_Ok in HB as ([idx r2] & Hidx & HB).
  pose proof (nth_In_idx _ _ (randInt_bound _ _ _ _ Hidx)) as Hin. apply filter_In in Hin as [Hin _].
  apply list_elem_of_In in Hin. revert HB. set (bucket := nth (Z.to_nat idx) _ 0) in *.
  match goal with |- context [Z.ltb ?v 0] => set (k := v); destruct (Z.ltb_spec k 0) as [|Hk]; [done|] end. intros HB.
  apply res_bind_Ok in HB as ([padding r3] & Hpad & HB).
  assert (len padding = k) as Hlk.
  { revert Hpad. destruct (Z.ltb_spec 0 k); [|intros [= <- _]; unfold len; simpl; lia].
    destruct (bool_decide (ec_PaddingPolicy c = EnvelopeV2PaddingRandomBucket));
      [intros [_ Hl]%rand_Read_inv; unfold len; lia|]. destruct (negb _); [done|].
    intros [= <- _]. unfold len, zeros. rewrite length_replicate. lia. }
  apply res_bind_Ok in HB as (sealed & Hseal & HB). injection HB as <- <- <-. cbn [eh_PrefixRandom eh_HintMode eh_RouteHint eh_BucketSize].
  pose proof (EnvelopeV2Buckets_bounds _ _ Hin). pose proof (len_nonneg (envelope_payload_bytes p)).
  split_and!; try done. exists padding, sealed. split_and!.
  - unfold k, Overhead in Hlk. destruct (bool_decide _); lia.
  - rewrite be_put_2_uint16 in Hseal. unfold envelope_body. by rewrite Hlk, app_assoc.
  - apply SealEnvelopeV2Payload_len in Hseal. rewrite !len_app, len_be_put in Hseal.
    unfold k, Overhead in Hlk. unfold prefix_len, route_mode. lia.
  - by rewrite <- app_assoc.
Qed.

End BuildLemmas.

Section Properties.
Context `{LA : AEADLaws}.

(** Property C26. A v2 envelope built by the client is read and opened by the
    server. For every accepted configuration and every payload within the
    limits, when the randomly chosen bucket has room for the payload and its
    two padding-length bytes, [BuildEnvelopeV2] succeeds, the envelope is
    exactly as long as the bucket and never starts with the v1 version byte;
    [ReadEnvelopeV2Prefix] reads the prefix and hint, the rest of the bucket is
    the sealed text, and [OpenEnvelopeV2Payload] returns the client's payload.
    Bytes after the envelope stay in the stream. *)
Theorem envelope_v2_roundtrip clientID secret port now flags method sid ext cfg r prefix r1 idx r2 pad r3
    rest fin :
  let c := ec_WithDefaults cfg in
  let n := 32 + len method + len sid + len ext in
  let bucket := nth (Z.to_nat idx) (size_candidates c n) 0 in
  ec_Validate cfg EnvelopeV2DefaultMaxSize = Ok tt ->
  clientID <> [] -> 16 <= len secret -> flags_outside flags EnvelopeV2FlagServerProof = false ->
  payload_fits port method sid ext = true -> is_int64 (UnixMilli now) ->
  rand_prefix (S (length r)) r = Ok (prefix, r1) ->
  randInt (len (size_candidates c n)) r1 = Ok (idx, r2) ->
  min_size c n + 2 <= bucket ->
  rand_Read (Z.to_nat (bucket - min_size c n - 2)) r2 = Ok (pad, r3) ->
  exists out h r' h0 sealed,
    BuildEnvelopeV2 clientID secret port now flags method sid ext cfg r = Ok (out, h, r') /\
    len out = bucket /\ nth 0 out Byte.x00 <> Version /\
    ReadEnvelopeV2Prefix (mk_reader (out ++ rest) fin) (ec_HintMode c) =
      Ok (h0, mk_reader (sealed ++ rest) fin) /\
    h = mkEnvelopeV2Header (eh_PrefixRandom h0) (eh_RouteHint h0) bucket (eh_HintMode h0) /\
    br_Peek (Z.to_nat (bucket - prefix_len c)) (mk_reader (sealed ++ rest) fin) = Ok sealed /\
    OpenEnvelopeV2Payload secret h port sealed =
      Ok (mkEnvelopeV2Payload EnvelopeV2Version flags (UnixMilli now)
            (ComputeClientIDHash secret clientID) port method sid ext).
Proof.
  intros c n bucket Hval Hid Hs Hf Hfit Hnow Hpre Hidx Hroom Hpadr.
  pose proof (ec_Validate_modes _ _ Hval) as [Hhm _].
  apply rand_prefix_inv in Hpre as Hpre'. destruct Hpre' as [Hp24 Hp0].
  pose proof (nth_In_idx _ _ (randInt_bound _ _ _ _ Hidx)) as Hin%size_candidates_elem.
  pose proof (BuildEnvelopeV2_drawn clientID secret port now flags method sid ext cfg r prefix r1 idx r2 c n bucket
    eq_refl eq_refl eq_refl Hval Hid Hs Hf Hfit Hpre Hidx _ eq_refl _ eq_refl) as HB.
  pose proof (len_client_payload secret clientID EnvelopeV2Version flags (UnixMilli now) port method sid ext) as Hn.
  fold c bucket in Hhm, Hin. fold n in Hn. clearbody bucket c.
  assert (0 <= n) by (unfold n; pose proof (len_nonneg method); pose proof (len_nonneg sid);
    pose proof (len_nonneg ext); lia). clearbody n.
  remember (if route_mode c then ComputeEnvelopeV2RouteHint secret prefix port else 0) as hint eqn:Ehint.
  remember (mkEnvelopeV2Payload _ _ _ _ _ _ _ _) as p eqn:Ep.
  rewrite (proj2 (Z.ltb_ge _ 0)) in HB by lia.
  destruct (padding_draw (ec_PaddingPolicy c) (bucket - min_size c n - 2) r2 pad r3) as (padding & r' & Hk & Epad);
    [lia|done|].
  rewrite Epad, mbind_Ok, SealEnvelopeV2Payload_eq, mbind_Ok in HB.
  remember (aead_seal _ _ _ _) as sealed eqn:Es.
  assert (len sealed = bucket - prefix_len c) as Hsl.
  { unfold len. rewrite Es, seal_length. rewrite !length_app, length_be_put.
    unfold len in Hk, Hn. unfold min_size in Hk. lia. }
  eexists _, _, r', (mkEnvelopeV2Header prefix hint 0 (ec_HintMode c)), sealed.
  split_and!; [exact HB| | | |done| |].
  - rewrite !len_app, Hsl. unfold prefix_len, len at 1. rewrite Hp24.
    destruct (route_mode c); [rewrite len_be_put|unfold len; simpl]; lia.
  - rewrite <- app_assoc, nth_0_app; [done|]. intros ->. done.
  - rewrite <- !app_assoc. unfold route_mode in Ehint |- *. rewrite ReadEnvelopeV2Prefix_app; try done.
    + rewrite Ehint. by destruct (bool_decide (ec_HintMode c = _)).
    + rewrite Ehint. destruct (bool_decide (ec_HintMode c = _)); [apply ComputeEnvelopeV2RouteHint_bound|]. unfold is_uint64; lia.
  - unfold br_Peek. cbn [rd_data]. rewrite length_app, decide_True by (unfold len in Hsl; lia).
    rewrite take_app_length' by (unfold len in Hsl; lia). done.
  - apply (OpenEnvelopeV2Payload_body _ _ _ _ p padding); rewrite ?Ep; try done.
    + split; [apply HMACTrunc128_length|done].
    + rewrite Hk. unfold min_size, prefix_len. destruct (route_mode c); lia.
    + rewrite SealEnvelopeV2Payload_eq, <- Ep. unfold envelope_body. rewrite Es, Hk, app_assoc. done.
Qed.

(** [OpenEnvelopeV2Payload] accepts a sealed text exactly when it
    is the seal, under the same secret, header and port, of a well-formed
    payload of version 2 with no unknown flag, followed by a two-byte padding
    length and exactly that much padding. Nothing else is accepted: no trailing
    bytes, no other version, no other flag. *)
Theorem envelope_v2_open_exact secret h port sealed p :
  OpenEnvelopeV2Payload secret h port sealed = Ok p <->
  EnvelopeV2Payload_wf p /\ EnvelopeV2Payload_fits p = true /\ ep_Version p = EnvelopeV2Version /\
  flags_outside (ep_Flags p) EnvelopeV2FlagServerProof = false /\
  exists padding, len padding <= 65535 /\
    SealEnvelopeV2Payload secret h port (envelope_payload_bytes p ++ be_put 2 (len padding) ++ padding) = Ok sealed.
Proof.
  split; [apply OpenEnvelopeV2Payload_inv|].
  intros (? & ? & ? & ? & padding & ? & ?). by apply (OpenEnvelopeV2Payload_body _ _ _ _ p padding).
Qed.

(** [BuildEnvelopeV2] computes the smallest usable bucket without
    the two bytes of the padding length: when the payload ends within two bytes
    of a bucket and that bucket is drawn, the build fails with
    [ErrFrameTooLarge], whatever larger buckets were available. *)
Theorem envelope_v2_near_bucket_failure clientID secret port now flags method sid ext cfg r prefix r1 idx r2 :
  let c := ec_WithDefaults cfg in
  let n := 32 + len method + len sid + len ext in
  let bucket := nth (Z.to_nat idx) (size_candidates c n) 0 in
  ec_Validate cfg EnvelopeV2DefaultMaxSize = Ok tt ->
  clientID <> [] -> 16 <= len secret -> flags_outside flags EnvelopeV2FlagServerProof = false ->
  payload_fits port method sid ext = true ->
  rand_prefix (S (length r)) r = Ok (prefix, r1) ->
  randInt (len (size_candidates c n)) r1 = Ok (idx, r2) ->
  bucket < min_size c n + 2 ->
  BuildEnvelopeV2 clientID secret port now flags method sid ext cfg r = Err protocol_ErrFrameTooLarge.
Proof.
  intros c n bucket Hval Hid Hs Hf Hfit Hpre Hidx Hroom.
  rewrite (BuildEnvelopeV2_drawn clientID secret port now flags method sid ext cfg r prefix r1 idx r2 c n bucket
    eq_refl eq_refl eq_refl Hval Hid Hs Hf Hfit Hpre Hidx _ eq_refl _ eq_refl).
  by rewrite (proj2 (Z.ltb_lt (bucket - min_size c n - 2) 0)) by lia.
Qed.

End Properties.

Lemma VerifyEnvelopeV2ServerProof_Ok secret h port proof :
  length (eh_PrefixRandom h) = 24%nat ->
  VerifyEnvelopeV2ServerProof proof secret h port = Ok tt <->
  0 <= port <= 65535 /\ proof = BuildEnvelopeV2ServerProof secret h port.
Proof.
  intros Hn. unfold VerifyEnvelopeV2ServerProof, BuildEnvelopeV2ServerProof.
  assert (length (take 16 (eh_PrefixRandom h)) = 16%nat) as Ht by (rewrite length_take; lia).
  rewrite <- bad_port_false. rewrite (go_copy_exact (zeros 16)) by (by rewrite Ht).
  apply (proof_check_spec EnvelopeV2Version ServerProofType (take 16 (eh_PrefixRandom h))); [done|].
  unfold computeEnvelopeV2ServerProof. destruct (bad_port port); [done|apply HMACSHA256_length].
Qed.

(** The v2 server proof is accepted exactly when it is the one
    [BuildEnvelopeV2ServerProof] makes with the same secret, header and port,
    and never for a port outside 0..65535. *)
Theorem server_proof_v2_unique secret h port proof :
  length (eh_PrefixRandom h) = 24%nat ->
  VerifyEnvelopeV2ServerProof proof secret h port = Ok tt <->
  0 <= port <= 65535 /\ proof = BuildEnvelopeV2ServerProof secret h port.
Proof. apply VerifyEnvelopeV2ServerProof_Ok. Qed.

Lemma EnvelopeV2Buckets_sorted l : StronglySorted Z.lt (EnvelopeV2Buckets l).
Proof.
  destruct (decide (l = [])) as [->|Hl]; [repeat constructor|].
  destruct (EnvelopeV2Buckets_spec l Hl) as (Hs & Hnd & _).
  induction Hs as [|x l' Hs' IH HF]; constructor.
  - apply IH. by apply NoDup_cons in Hnd as [_ ?].
  - apply NoDup_cons in Hnd as [Hx _]. rewrite Forall_forall in HF. apply Forall_forall.
    intros y Hy. specialize (HF y Hy). destruct (decide (x = y)) as [->|]; [done|lia].
Qed.

(** [EnvelopeV2Buckets] normalises a bucket list: the result is in
    increasing order, has no duplicates and holds exactly the supported sizes of
    the input, so the server tries the configured sizes from the smallest up;
    an empty list means the defaults. *)
Theorem EnvelopeV2Buckets_normal (l : list Z) :
  EnvelopeV2Buckets [] = EnvelopeV2DefaultBuckets /\
  StronglySorted Z.lt (EnvelopeV2Buckets l) /\
  (l <> [] -> forall v, v ∈ EnvelopeV2Buckets l <-> v ∈ l /\ v ∈ EnvelopeV2DefaultBuckets).
Proof.
  split; [done|]. split; [apply EnvelopeV2Buckets_sorted|].
  intros Hl v. rewrite <- EnvelopeV2SupportedBucket_spec. by apply EnvelopeV2Buckets_spec.
Qed.

(** The loop that draws the prefix ends with the first block that
    does not start with the v1 version byte: after any number of rejected
    24-byte blocks it returns the first acceptable one and consumes nothing
    more. *)
Theorem rand_prefix_terminates (rejected : list bytes) (p r : bytes) :
  Forall (fun b => length b = 24%nat /\ nth 0 b Byte.x00 = Version) rejected ->
  length p = 24%nat -> nth 0 p Byte.x00 <> Version ->
  let source := concat rejected ++ p ++ r in
  rand_prefix (S (length source)) source = Ok (p, r).
Proof.
  intros HF Hp Hv source.
  assert (forall fuel, (length rejected < fuel)%nat -> rand_prefix fuel source = Ok (p, r)) as H.
  { unfold source. clear source. induction HF as [|b bs [Hb Hb0] HF IH]; intros [|fuel] Hfuel;
      try (simpl in Hfuel; lia); cbn [rand_prefix concat].
    - rewrite app_nil_l, rand_Read_app by done. res_simpl.
      by rewrite bool_decide_eq_false_2.
    - rewrite <- app_assoc, rand_Read_app by done. res_simpl.
      rewrite bool_decide_eq_true_2 by done. apply IH. simpl in Hfuel. lia. }
  apply H. unfold source. rewrite length_app.
  assert (length rejected <= length (concat rejected))%nat; [|lia].
  clear -HF. induction HF as [|b bs [Hb _] HF IH]; simpl; [lia|]. rewrite length_app. lia.
Qed.

(** * Concrete instances *)

(** A random source whose first block starts with the v1 version byte and is
    drawn again. *)
Definition ex_prefix : bytes := Byte.x07 :: zeros 23.
Definition ex_rng : rng := (Version :: zeros 23) ++ ex_prefix ++ zeros 300.
Definition ex_env_cfg : EnvelopeV2Config := mkEnvelopeV2Config [] [] [].

Lemma rand_prefix_terminates_witness :
  rand_prefix (S (length ex_rng)) ex_rng = Ok (ex_prefix, zeros 300).
Proof.
  apply (rand_prefix_terminates [Version :: zeros 23] ex_prefix (zeros 300)); [|done|done].
  repeat constructor.
Defined.

Lemma EnvelopeV2Buckets_normal_witness :
  EnvelopeV2Buckets [512; 7; 128; 512] = [128; 512] /\ StronglySorted Z.lt (EnvelopeV2Buckets [512; 7; 128; 512]).
Proof. split; [done|]. apply (EnvelopeV2Buckets_normal [512; 7; 128; 512]). Defined.

Lemma server_proof_v2_unique_witness :
  VerifyEnvelopeV2ServerProof
    (BuildEnvelopeV2ServerProof ex_secret (mkEnvelopeV2Header ex_prefix 5 128 []) 443) ex_secret
    (mkEnvelopeV2Header ex_prefix 5 128 []) 443 = Ok tt.
Proof. apply (server_proof_v2_unique ex_secret (mkEnvelopeV2Header ex_prefix 5 128 []) 443); [done|]. split; [lia|done]. Defined.

Lemma envelope_v2_open_exact_witness :
  @OpenEnvelopeV2Payload mac_AEAD ex_secret (mkEnvelopeV2Header ex_prefix 5 128 []) 443
    (aead_seal (AEAD := mac_AEAD) (deriveEnvelopeV2Key ex_secret ex_prefix) (envelopeV2Nonce ex_prefix)
       (envelope_payload_bytes
          (mkEnvelopeV2Payload EnvelopeV2Version Byte.x01 7 ex_nonce 443 (str "tcp") [] []) ++ be_put 2 3 ++ zeros 3)
       (envelopeV2AAD (mkEnvelopeV2Header ex_prefix 5 128 []) 443)) =
  Ok (mkEnvelopeV2Payload EnvelopeV2Version Byte.x01 7 ex_nonce 443 (str "tcp") [] []).
Proof.
  apply (envelope_v2_open_exact (LA := mac_AEAD_laws)).
  split; [split; [reflexivity|unfold is_int64; simpl; lia]|]. split; [vm_compute; reflexivity|]. split; [reflexivity|].
  split; [vm_compute; reflexivity|]. exists (zeros 3). split; [vm_compute; discriminate|].
  apply (SealEnvelopeV2Payload_eq (A := mac_AEAD)).
Defined.

(** The client's payload is 48 bytes of fields, so the smallest usable bucket is
    computed as 128 = 32 + 80 + 16 and two more bytes do not fit. *)
Lemma envelope_v2_near_bucket_failure_witness :
  @BuildEnvelopeV2 mac_AEAD ex_client ex_secret 443 ex_now Byte.x01 (str "tcp") (zeros 45) [] ex_env_cfg
    (ex_prefix ++ zeros 300) = Err protocol_ErrFrameTooLarge.
Proof.
  apply (envelope_v2_near_bucket_failure (A := mac_AEAD) _ _ _ _ _ _ _ _ _ _ ex_prefix (zeros 300) 0 (zeros 299));
    solve [vm_compute; discriminate | vm_compute; reflexivity].
Defined.

Lemma envelope_v2_roundtrip_witness :
  exists out h r' h0 sealed,
    @BuildEnvelopeV2 mac_AEAD ex_client ex_secret 443 ex_now Byte.x01 (str "tcp") (str "session") [] ex_env_cfg
      (ex_prefix ++ zeros 300) = Ok (out, h, r') /\
    len out = 128 /\ nth 0 out Byte.x00 <> Version /\
    ReadEnvelopeV2Prefix (mk_reader (out ++ str "GET /") io_EOF) (ec_HintMode (ec_WithDefaults ex_env_cfg)) =
      Ok (h0, mk_reader (sealed ++ str "GET /") io_EOF) /\
    h = mkEnvelopeV2Header (eh_PrefixRandom h0) (eh_RouteHint h0) 128 (eh_HintMode h0) /\
    br_Peek 96 (mk_reader (sealed ++ str "GET /") io_EOF) = Ok sealed /\
    @OpenEnvelopeV2Payload mac_AEAD ex_secret h 443 sealed =
      Ok (mkEnvelopeV2Payload EnvelopeV2Version Byte.x01 (UnixMilli ex_now)
            (ComputeClientIDHash ex_secret ex_client) 443 (str "tcp") (str "session") []).
Proof.
  apply (envelope_v2_roundtrip (LA := mac_AEAD_laws) ex_client ex_secret 443 ex_now Byte.x01 (str "tcp") (str "session")
    [] ex_env_cfg (ex_prefix ++ zeros 300) ex_prefix (zeros 300) 0 (zeros 299) (zeros 36) (zeros 263));
    solve [vm_compute; discriminate | vm_compute; reflexivity | vm_compute; split; discriminate
      | vm_compute; intuition discriminate].
Defined.
