(* ===== verification/Cache.v ===== *)
(** internal/cache: the bounded TTL/LRU map the replay caches and the ban list
    are built on.

    [Module TTLLRU] translates [ttl_lru.go] at the level of its data: a map
    from keys to list elements and a doubly linked list of entries, with the
    element identities that connect the two. [Module Spec] is the promise made
    to the clients: a list of entries, least recently used first. The theorem
    at the end shows that every run of the operations refines that list. *)

From Stdlib Require Import ZArith Lia.
From stdpp Require Import base list gmap.
From S2P Require Import Prelude GoStd.

Open Scope Z_scope.

Record Entry (K V : Type) := mkEntry { Key : K; Value : V; ExpiresAt : Z }.
Arguments mkEntry {K V} _ _ _.
Arguments Key {K V} _.
Arguments Value {K V} _.
Arguments ExpiresAt {K V} _.

(** * The implementation *)

Module TTLLRU.
Section Ops.
Context {K V : Type} `{Countable K}.

(** [order] is the [container/list] list, front first; an element is its
    identity and the [Entry] it points to. [fresh] is the identity of the next
    element to be allocated. *)
Record t := mk {
  entries : gmap K nat;
  order : list (nat * Entry K V);
  fresh : nat;
  maxEntries : Z;
}.

Definition New (maxEntries : Z) : t :=
  mk ∅ [] 0 (if Z.leb maxEntries 0 then 1 else maxEntries).

(** [elem.Value], [list.Remove] and [list.MoveToBack]. *)
Definition elem_value (id : nat) (l : list (nat * Entry K V)) : option (Entry K V) :=
  snd <$> List.find (fun x => Nat.eqb x.1 id) l.

Definition list_Remove (id : nat) (l : list (nat * Entry K V)) : list (nat * Entry K V) :=
  List.filter (fun x => negb (Nat.eqb x.1 id)) l.

Definition list_MoveToBack (id : nat) (l : list (nat * Entry K V)) : list (nat * Entry K V) :=
  match elem_value id l with
  | Some e => list_Remove id l ++ [(id, e)]
  | None => l
  end.

(** An assignment to the fields of the entry an element points to. *)
Definition elem_store (id : nat) (e : Entry K V) (l : list (nat * Entry K V)) : list (nat * Entry K V) :=
  (fun x => if Nat.eqb x.1 id then (id, e) else x) <$> l.

(** [elem, ok := c.entries[key]] with the entry the element points to. *)
Definition find_elem (key : K) (c : t) : option (nat * Entry K V) :=
  match entries c !! key with
  | Some id => (fun e => (id, e)) <$> elem_value id (order c)
  | None => None
  end.

Definition removeElementLocked (elem : nat * Entry K V) (c : t) : t :=
  mk (delete (Key elem.2) (entries c)) (list_Remove elem.1 (order c)) (fresh c) (maxEntries c).

(** The loop of [setLocked] that drops elements from the front. *)
Fixpoint evict (fuel : nat) (c : t) : t :=
  match fuel with
  | O => c
  | S n =>
      if Z.leb (maxEntries c) (Z.of_nat (size (entries c))) then
        match order c with
        | [] => c
        | elem :: _ => evict n (removeElementLocked elem c)
        end
      else c
  end.

Definition setLocked (key : K) (value : V) (expiresAt : Z) (c : t) : t :=
  match find_elem key c with
  | Some (id, entry) =>
      mk (entries c)
         (list_MoveToBack id (elem_store id (mkEntry (Key entry) value expiresAt) (order c)))
         (fresh c) (maxEntries c)
  | None =>
      let c := evict (S (length (order c))) c in
      mk (<[key := fresh c]> (entries c))
         (order c ++ [(fresh c, mkEntry key value expiresAt)]) (S (fresh c)) (maxEntries c)
  end.

Definition moveToBack (id : nat) (c : t) : t :=
  mk (entries c) (list_MoveToBack id (order c)) (fresh c) (maxEntries c).

Definition SetUntil (key : K) (value : V) (expiresAt : Z) (c : t) : t :=
  if IsZero expiresAt then c else setLocked key value expiresAt c.

Definition Set_ (key : K) (value : V) (ttl now : Z) (c : t) : t :=
  SetUntil key value (now + ttl) c.

Definition AddIfAbsent (key : K) (value : V) (expiresAt now : Z) (c : t) : bool * t :=
  if IsZero expiresAt then (false, c)
  else
    match find_elem key c with
    | Some (id, entry) =>
        if After (ExpiresAt entry) now then (false, moveToBack id c)
        else (true, setLocked key value expiresAt (removeElementLocked (id, entry) c))
    | None => (true, setLocked key value expiresAt c)
    end.

Definition Peek (key : K) (c : t) : option (Entry K V) := snd <$> find_elem key c.

Definition GetAt (key : K) (now : Z) (c : t) : option V * t :=
  match find_elem key c with
  | None => (None, c)
  | Some (id, entry) =>
      if negb (After (ExpiresAt entry) now) then (None, removeElementLocked (id, entry) c)
      else (Some (Value entry), moveToBack id c)
  end.

Definition DeleteExpired (key : K) (now : Z) (c : t) : bool * t :=
  match find_elem key c with
  | None => (false, c)
  | Some (id, entry) =>
      if Before now (ExpiresAt entry) then (false, c)
      else (true, removeElementLocked (id, entry) c)
  end.

Definition Delete (key : K) (c : t) : bool * t :=
  match find_elem key c with
  | None => (false, c)
  | Some elem => (true, removeElementLocked elem c)
  end.

(** The loops of [DeleteWhere] and [Sweep]: [elem.Next()] is taken before the
    element is removed, so the loop visits the elements of the list it
    started on. *)
Fixpoint remove_loop (doomed : Entry K V -> bool) (elems : list (nat * Entry K V)) (c : t) (removed : Z)
  : Z * t :=
  match elems with
  | [] => (removed, c)
  | elem :: next =>
      if doomed elem.2 then remove_loop doomed next (removeElementLocked elem c) (removed + 1)
      else remove_loop doomed next c removed
  end.

Definition DeleteWhere (mtch : Entry K V -> bool) (c : t) : Z * t :=
  remove_loop mtch (order c) c 0.

Definition Sweep (now : Z) (c : t) : Z * t :=
  remove_loop (fun entry => negb (After (ExpiresAt entry) now)) (order c) c 0.

Definition Len (c : t) : Z := Z.of_nat (size (entries c)).

Definition Cap (c : t) : Z := maxEntries c.

Fixpoint active_loop (now : Z) (elems : list (nat * Entry K V)) (active : Z) : Z :=
  match elems with
  | [] => active
  | elem :: next => active_loop now next (if After (ExpiresAt elem.2) now then active + 1 else active)
  end.

Definition ActiveLen (now : Z) (c : t) : Z := active_loop now (order c) 0.

Definition LenAfterSweep (now : Z) (c : t) : Z * t :=
  let c := snd (Sweep now c) in (Len c, c).

End Ops.
Arguments t : clear implicits.
Arguments t K V {_ _}.
End TTLLRU.

(** * The specification *)

(** A cache of capacity [max] as the list of its entries, least recently used
    first. *)
Module Spec.
Section Ops.
Context {K V : Type} `{EqDecision K}.

Abbreviation state := (list (Entry K V)).

Definition find (k : K) (l : state) : option (Entry K V) :=
  List.find (fun e => bool_decide (Key e = k)) l.

Definition remove (k : K) (l : state) : state :=
  List.filter (fun e => negb (bool_decide (Key e = k))) l.

Definition live (now : Z) (e : Entry K V) : bool := Z.ltb now (ExpiresAt e).

(** Drop the oldest entries until there is room for one more. *)
Definition make_room (max : Z) (l : state) : state := drop (Z.to_nat (len l + 1 - max)) l.

Definition set (max : Z) (k : K) (v : V) (expires : Z) (l : state) : state :=
  match find k l with
  | Some _ => remove k l ++ [mkEntry k v expires]
  | None => make_room max l ++ [mkEntry k v expires]
  end.

Definition touch (e : Entry K V) (l : state) : state := remove (Key e) l ++ [e].

End Ops.
End Spec.

(** * Operations as data *)

(** One call of the cache's interface, what it returns, and both readings of
    it. *)
Inductive op (K V : Type) :=
| OSetUntil (k : K) (v : V) (expiresAt : Z)
| OAddIfAbsent (k : K) (v : V) (expiresAt now : Z)
| OPeek (k : K)
| OGetAt (k : K) (now : Z)
| ODeleteExpired (k : K) (now : Z)
| ODelete (k : K)
| ODeleteWhere (mtch : Entry K V -> bool)
| OSweep (now : Z)
| OLen
| OCap
| OActiveLen (now : Z)
| OLenAfterSweep (now : Z).
Arguments OSetUntil {K V} _ _ _.
Arguments OAddIfAbsent {K V} _ _ _ _.
Arguments OPeek {K V} _.
Arguments OGetAt {K V} _ _.
Arguments ODeleteExpired {K V} _ _.
Arguments ODelete {K V} _.
Arguments ODeleteWhere {K V} _.
Arguments OSweep {K V} _.
Arguments OLen {K V}.
Arguments OCap {K V}.
Arguments OActiveLen {K V} _.
Arguments OLenAfterSweep {K V} _.

Inductive ret (K V : Type) :=
| RUnit
| RBool (b : bool)
| REntry (e : option (Entry K V))
| RVal (v : option V)
| RInt (n : Z).
Arguments RUnit {K V}.
Arguments RBool {K V} _.
Arguments REntry {K V} _.
Arguments RVal {K V} _.
Arguments RInt {K V} _.

Section Refinement.
Context {K V : Type} `{Countable K}.

Definition impl_step (o : op K V) (c : TTLLRU.t K V) : ret K V * TTLLRU.t K V :=
  match o with
  | OSetUntil k v e => (RUnit, TTLLRU.SetUntil k v e c)
  | OAddIfAbsent k v e now => let '(b, c) := TTLLRU.AddIfAbsent k v e now c in (RBool b, c)
  | OPeek k => (REntry (TTLLRU.Peek k c), c)
  | OGetAt k now => let '(v, c) := TTLLRU.GetAt k now c in (RVal v, c)
  | ODeleteExpired k now => let '(b, c) := TTLLRU.DeleteExpired k now c in (RBool b, c)
  | ODelete k => let '(b, c) := TTLLRU.Delete k c in (RBool b, c)
  | ODeleteWhere m => let '(n, c) := TTLLRU.DeleteWhere m c in (RInt n, c)
  | OSweep now => let '(n, c) := TTLLRU.Sweep now c in (RInt n, c)
  | OLen => (RInt (TTLLRU.Len c), c)
  | OCap => (RInt (TTLLRU.Cap c), c)
  | OActiveLen now => (RInt (TTLLRU.ActiveLen now c), c)
  | OLenAfterSweep now => let '(n, c) := TTLLRU.LenAfterSweep now c in (RInt n, c)
  end.

Definition spec_step (max : Z) (o : op K V) (l : list (Entry K V)) : ret K V * list (Entry K V) :=
  match o with
  | OSetUntil k v e => (RUnit, if IsZero e then l else Spec.set max k v e l)
  | OAddIfAbsent k v e now =>
      if IsZero e then (RBool false, l)
      else
        match Spec.find k l with
        | Some x =>
            if Spec.live now x then (RBool false, Spec.touch x l)
            else (RBool true, Spec.remove k l ++ [mkEntry k v e])
        | None => (RBool true, Spec.make_room max l ++ [mkEntry k v e])
        end
  | OPeek k => (REntry (Spec.find k l), l)
  | OGetAt k now =>
      match Spec.find k l with
      | Some x =>
          if Spec.live now x then (RVal (Some (Value x)), Spec.touch x l) else (RVal None, Spec.remove k l)
      | None => (RVal None, l)
      end
  | ODeleteExpired k now =>
      match Spec.find k l with
      | Some x => if Spec.live now x then (RBool false, l) else (RBool true, Spec.remove k l)
      | None => (RBool false, l)
      end
  | ODelete k =>
      match Spec.find k l with Some _ => (RBool true, Spec.remove k l) | None => (RBool false, l) end
  | ODeleteWhere m => (RInt (len (List.filter m l)), List.filter (fun e => negb (m e)) l)
  | OSweep now =>
      (RInt (len (List.filter (fun e => negb (Spec.live now e)) l)), List.filter (Spec.live now) l)
  | OLen => (RInt (len l), l)
  | OCap => (RInt max, l)
  | OActiveLen now => (RInt (len (List.filter (Spec.live now) l)), l)
  | OLenAfterSweep now => (RInt (len (List.filter (Spec.live now) l)), List.filter (Spec.live now) l)
  end.

Fixpoint impl_run (os : list (op K V)) (c : TTLLRU.t K V) : list (ret K V) * TTLLRU.t K V :=
  match os with
  | [] => ([], c)
  | o :: os =>
      let '(r, c) := impl_step o c in let '(rs, c) := impl_run os c in (r :: rs, c)
  end.

Fixpoint spec_run (max : Z) (os : list (op K V)) (l : list (Entry K V)) : list (ret K V) * list (Entry K V) :=
  match os with
  | [] => ([], l)
  | o :: os =>
      let '(r, l) := spec_step max o l in let '(rs, l) := spec_run max os l in (r :: rs, l)
  end.

(** * Invariant *)

Implicit Types (l : list (nat * Entry K V)) (c : TTLLRU.t K V).

(** The entries of a cache, oldest use first. *)
Definition contents c : list (Entry K V) := (TTLLRU.order c).*2.

Definition keys l : list K := (fun x => Key x.2) <$> l.

(** The map that goes with an element list. *)
Definition index l : gmap K nat := list_to_map ((fun x => (Key x.2, x.1)) <$> l).

(** The invariant: element identities and keys are unique, the map indexes
    exactly the list, identities come from the allocator, and the cache is
    never over its capacity. *)
Record wf c : Prop := {
  wf_ids : NoDup (TTLLRU.order c).*1;
  wf_keys : NoDup (keys (TTLLRU.order c));
  wf_map : TTLLRU.entries c = index (TTLLRU.order c);
  wf_fresh : Forall (fun x => (x.1 < TTLLRU.fresh c)%nat) (TTLLRU.order c);
  wf_max : 1 <= TTLLRU.maxEntries c;
  wf_len : len (TTLLRU.order c) <= TTLLRU.maxEntries c;
}.

(** ** Searching and filtering a list around one element *)

Lemma find_middle {A} (p : A -> bool) (l1 l2 : list A) x :
  p x = true -> Forall (fun y => p y = false) l1 -> List.find p (l1 ++ x :: l2) = Some x.
Proof. intros Hx. induction 1 as [|y l1 Hy _ IH]; simpl; [by rewrite Hx|]. by rewrite Hy. Qed.

Lemma find_none_Forall {A} (p : A -> bool) (l : list A) :
  Forall (fun y => p y = false) l -> List.find p l = None.
Proof. induction 1 as [|y l Hy _ IH]; simpl; [done|]. by rewrite Hy. Qed.

Lemma filter_all {A} (p : A -> bool) (l : list A) :
  Forall (fun y => p y = true) l -> List.filter p l = l.
Proof. induction 1 as [|y l Hy _ IH]; simpl; [done|]. by rewrite Hy, IH. Qed.

Lemma filter_middle {A} (p : A -> bool) (l1 l2 : list A) x :
  p x = false -> Forall (fun y => p y = true) l1 -> Forall (fun y => p y = true) l2 ->
  List.filter p (l1 ++ x :: l2) = l1 ++ l2.
Proof. intros Hx H1 H2. rewrite List.filter_app. simpl. rewrite Hx. by rewrite !filter_all. Qed.

Lemma fmap_filter {A B} (f : A -> B) (p : B -> bool) (l : list A) :
  f <$> List.filter (fun x => p (f x)) l = List.filter p (f <$> l).
Proof. induction l as [|x l IH]; csimpl; [done|]. destruct (p (f x)); csimpl; by rewrite IH. Qed.

(** ** The index of a list *)

Lemma keys_app l1 l2 : keys (l1 ++ l2) = keys l1 ++ keys l2.
Proof. apply fmap_app. Qed.

Lemma index_fst l : ((fun x => (Key x.2, x.1)) <$> l : list (K * nat)).*1 = keys l.
Proof. unfold keys. by rewrite <- list_fmap_compose. Qed.

Lemma index_None l k : index l !! k = None <-> k ∉ keys l.
Proof. rewrite <- index_fst. symmetry. apply not_elem_of_list_to_map. Qed.

Lemma index_middle l1 x l2 :
  NoDup (keys (l1 ++ x :: l2)) ->
  index (l1 ++ x :: l2) = <[Key x.2 := x.1]> (index (l1 ++ l2)) /\ index (l1 ++ l2) !! Key x.2 = None.
Proof.
  intros Hnd. assert (l1 ++ x :: l2 ≡ₚ x :: l1 ++ l2) as Hp by (symmetry; apply Permutation_middle).
  split.
  - transitivity (index (x :: l1 ++ l2)); [|done]. apply list_to_map_proper.
    + by rewrite index_fst.
    + by apply fmap_Permutation.
  - apply index_None. unfold keys in Hnd. rewrite Hp in Hnd. by apply NoDup_cons in Hnd as [? _].
Qed.

Lemma index_size l : NoDup (keys l) -> size (index l) = length l.
Proof.
  induction l as [|x l IH]; intros Hnd; [apply map_size_empty|].
  destruct (index_middle [] x l Hnd) as [E Hn]. simpl in E, Hn. rewrite E, map_size_insert_None by done.
  apply NoDup_cons in Hnd as [_ Hnd]. by rewrite IH.
Qed.

Lemma wf_size c : wf c -> size (TTLLRU.entries c) = length (TTLLRU.order c).
Proof. intros W. rewrite (wf_map c W). apply index_size, W. Qed.

Lemma index_Some l k id : index l !! k = Some id -> exists l1 e l2, l = l1 ++ (id, e) :: l2 /\ Key e = k.
Proof.
  intros Hk%elem_of_list_to_map_2. apply list_elem_of_fmap in Hk as ([i e] & [= -> ->] & Hin).
  apply list_elem_of_split in Hin as (l1 & l2 & ->). eauto.
Qed.

(** ** One element of a well-formed cache *)

(** The element of key [k] is [(id, e)], between [l1] and [l2]. *)
Record located c (k : K) (id : nat) (e : Entry K V) l1 l2 : Prop := {
  loc_order : TTLLRU.order c = l1 ++ (id, e) :: l2;
  loc_key : Key e = k;
  loc_ids : Forall (fun x => x.1 <> id) (l1 ++ l2);
  loc_keys : Forall (fun x => Key x.2 <> k) (l1 ++ l2);
}.

Lemma wf_located c l1 id e l2 :
  wf c -> TTLLRU.order c = l1 ++ (id, e) :: l2 -> located c (Key e) id e l1 l2.
Proof.
  intros W E. pose proof (wf_ids c W) as Hi. pose proof (wf_keys c W) as Hk. unfold keys in Hk. rewrite E in Hi, Hk.
  rewrite <- Permutation_middle in Hi, Hk. csimpl in *.
  apply NoDup_cons in Hi as [Hi _], Hk as [Hk _].
  split; [done|done| |]; apply Forall_forall; intros x Hx Heq; [apply Hi|apply Hk];
    apply list_elem_of_fmap; exists x; by split.
Qed.

Lemma elem_value_middle l1 id e l2 :
  Forall (fun x => x.1 <> id) l1 -> TTLLRU.elem_value id (l1 ++ (id, e) :: l2) = Some e.
Proof.
  intros H1. unfold TTLLRU.elem_value. rewrite find_middle; csimpl; [done|apply Nat.eqb_refl|].
  eapply Forall_impl; [done|]. intros y Hy. by apply Nat.eqb_neq.
Qed.

Lemma located_value c k id e l1 l2 :
  located c k id e l1 l2 -> TTLLRU.elem_value id (TTLLRU.order c) = Some e.
Proof.
  intros L. pose proof (loc_ids _ _ _ _ _ _ L) as [H1 _]%Forall_app.
  rewrite (loc_order _ _ _ _ _ _ L). by apply elem_value_middle.
Qed.

Lemma find_elem_Some c k id e :
  wf c -> TTLLRU.find_elem k c = Some (id, e) -> exists l1 l2, located c k id e l1 l2.
Proof.
  intros W. unfold TTLLRU.find_elem. destruct (TTLLRU.entries c !! k) as [i|] eqn:Ek; [|done].
  rewrite (wf_map c W) in Ek. apply index_Some in Ek as (l1 & e' & l2 & E & <-).
  pose proof (wf_located c l1 i e' l2 W E) as L.
  rewrite (located_value _ _ _ _ _ _ L). simpl. intros [= -> ->]. eauto.
Qed.

Lemma find_elem_None c k :
  wf c -> TTLLRU.find_elem k c = None -> TTLLRU.entries c !! k = None /\ Spec.find k (contents c) = None.
Proof.
  intros W. unfold TTLLRU.find_elem. destruct (TTLLRU.entries c !! k) as [i|] eqn:Ek.
  - rewrite (wf_map c W) in Ek. apply index_Some in Ek as (l1 & e' & l2 & E & <-).
    pose proof (wf_located c l1 i e' l2 W E) as L. by rewrite (located_value _ _ _ _ _ _ L).
  - intros _. split; [done|]. rewrite (wf_map c W) in Ek. apply index_None in Ek.
    apply find_none_Forall, Forall_fmap, Forall_forall. intros x Hx. simpl.
    apply bool_decide_eq_false. intros <-. apply Ek, list_elem_of_fmap. by exists x.
Qed.

Section Located.
Context c k id e l1 l2 (L : located c k id e l1 l2).

Lemma located_ids_split : Forall (fun x => x.1 <> id) l1 /\ Forall (fun x => x.1 <> id) l2.
Proof. apply Forall_app, L. Qed.

Lemma located_Remove : TTLLRU.list_Remove id (TTLLRU.order c) = l1 ++ l2.
Proof.
  destruct located_ids_split as [H1 H2]. rewrite (loc_order _ _ _ _ _ _ L). unfold TTLLRU.list_Remove.
  apply filter_middle; simpl; [by rewrite Nat.eqb_refl|..]; (eapply Forall_impl; [done|]);
    intros y Hy%Nat.eqb_neq; by rewrite Hy.
Qed.

Lemma MoveToBack_middle e' :
  TTLLRU.list_MoveToBack id (l1 ++ (id, e') :: l2) = l1 ++ l2 ++ [(id, e')].
Proof.
  destruct located_ids_split as [H1 H2]. unfold TTLLRU.list_MoveToBack.
  rewrite elem_value_middle, (app_assoc l1) by done. f_equal.
  apply filter_middle; simpl; [by rewrite Nat.eqb_refl|..]; (eapply Forall_impl; [done|]);
    intros y Hy%Nat.eqb_neq; by rewrite Hy.
Qed.

Lemma located_store e' : TTLLRU.elem_store id e' (TTLLRU.order c) = l1 ++ (id, e') :: l2.
Proof.
  destruct located_ids_split as [H1 H2]. rewrite (loc_order _ _ _ _ _ _ L). unfold TTLLRU.elem_store.
  rewrite fmap_app. csimpl. rewrite Nat.eqb_refl.
  assert (forall l, Forall (fun x => x.1 <> id) l ->
    (fun x : nat * Entry K V => if Nat.eqb x.1 id then (id, e') else x) <$> l = l) as Hid.
  { induction 1 as [|y l Hy%Nat.eqb_neq _ IH]; csimpl; [done|]. by rewrite Hy, IH. }
  by rewrite !Hid.
Qed.

Lemma located_find : Spec.find k (contents c) = Some e.
Proof.
  unfold contents. rewrite (loc_order _ _ _ _ _ _ L), fmap_app. csimpl. apply find_middle.
  - apply bool_decide_eq_true, L.
  - apply Forall_fmap. pose proof (loc_keys _ _ _ _ _ _ L) as [Hk _]%Forall_app.
    eapply Forall_impl; [done|]. intros y Hy. by apply bool_decide_eq_false.
Qed.

Lemma located_remove : Spec.remove k (contents c) = (l1 ++ l2).*2.
Proof.
  unfold contents. rewrite (loc_order _ _ _ _ _ _ L), !fmap_app. csimpl.
  pose proof (loc_keys _ _ _ _ _ _ L) as [H1 H2]%Forall_app. apply filter_middle.
  - by rewrite bool_decide_eq_true_2 by apply L.
  - apply Forall_fmap. eapply Forall_impl; [done|]. intros y Hy. simpl. by rewrite bool_decide_eq_false_2.
  - apply Forall_fmap. eapply Forall_impl; [done|]. intros y Hy. simpl. by rewrite bool_decide_eq_false_2.
Qed.

End Located.

(** ** The internal operations refine their specification *)

Lemma wf_New max : wf (TTLLRU.New max : TTLLRU.t K V).
Proof.
  unfold TTLLRU.New. split; simpl; try constructor; destruct (Z.leb_spec max 0); simpl; unfold len; simpl; lia.
Qed.

(** Removing one element from the list and its key from the map. *)
Lemma wf_cut c l1 id e l2 :
  wf c -> TTLLRU.order c = l1 ++ (id, e) :: l2 ->
  wf (TTLLRU.mk (delete (Key e) (TTLLRU.entries c)) (l1 ++ l2) (TTLLRU.fresh c) (TTLLRU.maxEntries c)).
Proof.
  intros W E. destruct W as [Hi Hk Hm Hf Hx Hl]. rewrite E in *.
  destruct (index_middle _ _ _ Hk) as [Ei Hn]. split; simpl.
  - rewrite <- Permutation_middle in Hi. by apply NoDup_cons in Hi as [_ ?].
  - unfold keys in *. rewrite <- Permutation_middle in Hk. by apply NoDup_cons in Hk as [_ ?].
  - rewrite Hm, Ei. simpl. by apply delete_insert_id.
  - rewrite <- Permutation_middle in Hf. by apply Forall_cons in Hf as [_ ?].
  - done.
  - rewrite len_app in *. unfold len in *. simpl in Hl. lia.
Qed.

Lemma removeElementLocked_spec c k id e l1 l2 :
  wf c -> located c k id e l1 l2 ->
  wf (TTLLRU.removeElementLocked (id, e) c) /\
  TTLLRU.order (TTLLRU.removeElementLocked (id, e) c) = l1 ++ l2 /\
  contents (TTLLRU.removeElementLocked (id, e) c) = Spec.remove k (contents c).
Proof.
  intros W L. unfold TTLLRU.removeElementLocked, contents at 1. simpl.
  rewrite (located_Remove _ _ _ _ _ _ L), (located_remove _ _ _ _ _ _ L).
  split; [|done]. apply (wf_cut _ _ id e); [done|apply L].
Qed.

(** Moving an element to the back, with a new entry for the same key. *)
Lemma wf_requeue c k id e e' l1 l2 :
  wf c -> located c k id e l1 l2 -> Key e' = k ->
  wf (TTLLRU.mk (TTLLRU.entries c) (l1 ++ l2 ++ [(id, e')]) (TTLLRU.fresh c) (TTLLRU.maxEntries c)).
Proof.
  intros W L Hk'. destruct W as [Hi Hk Hm Hf Hx Hl]. pose proof (loc_key _ _ _ _ _ _ L) as He.
  rewrite (loc_order _ _ _ _ _ _ L) in *.
  assert (keys (l1 ++ l2 ++ [(id, e')]) ≡ₚ keys (l1 ++ (id, e) :: l2)) as Hp.
  { rewrite !keys_app. apply Permutation_app_head. csimpl. rewrite He, Hk', Permutation_app_comm. done. }
  split; simpl.
  - rewrite !fmap_app in *. csimpl in *. rewrite <- Permutation_middle in Hi. rewrite app_assoc.
    rewrite Permutation_app_comm. done.
  - by rewrite Hp.
  - rewrite Hm. apply list_to_map_proper.
    + by rewrite index_fst.
    + rewrite !fmap_app. apply Permutation_app_head. csimpl. rewrite He, Hk', Permutation_app_comm. done.
  - rewrite app_assoc. apply Forall_app. rewrite <- Permutation_middle in Hf.
    apply Forall_cons in Hf as [? ?]. split; [done|]. by repeat constructor.
  - done.
  - rewrite !len_app in *. unfold len in *. simpl in *. lia.
Qed.

Lemma moveToBack_spec c k id e l1 l2 :
  wf c -> located c k id e l1 l2 ->
  wf (TTLLRU.moveToBack id c) /\ contents (TTLLRU.moveToBack id c) = Spec.touch e (contents c).
Proof.
  intros W L. unfold TTLLRU.moveToBack, contents at 1, Spec.touch. simpl.
  rewrite (loc_key _ _ _ _ _ _ L), (located_remove _ _ _ _ _ _ L).
  rewrite (loc_order _ _ _ _ _ _ L), (MoveToBack_middle _ _ _ _ _ _ L). split.
  - eapply wf_requeue; [done..|]. apply L.
  - by rewrite app_assoc, fmap_app.
Qed.

(** The eviction loop leaves room for one entry. *)
Lemma evict_spec c :
  wf c ->
  let c' := TTLLRU.evict (S (length (TTLLRU.order c))) c in
  wf c' /\ len (TTLLRU.order c') < TTLLRU.maxEntries c' /\ TTLLRU.maxEntries c' = TTLLRU.maxEntries c /\
  contents c' = Spec.make_room (TTLLRU.maxEntries c) (contents c) /\
  (forall k, k ∉ keys (TTLLRU.order c) -> k ∉ keys (TTLLRU.order c')).
Proof.
  intros W. cbv zeta. pose proof (wf_max c W). pose proof (wf_len c W). unfold Spec.make_room, contents.
  cbn [TTLLRU.evict]. rewrite (wf_size c W). unfold len. rewrite length_fmap. fold (len (TTLLRU.order c)).
  destruct (Z.leb_spec (TTLLRU.maxEntries c) (len (TTLLRU.order c))) as [Hfull|Hroom].
  - destruct (TTLLRU.order c) as [|[id e] l] eqn:E; [unfold len in *; simpl in *; lia|].
    pose proof (wf_located c [] id e l W E) as L.
    destruct (removeElementLocked_spec _ _ _ _ _ _ W L) as (W' & E' & _). rewrite app_nil_l in E'.
    set (c1 := TTLLRU.removeElementLocked (id, e) c) in *.
    assert (TTLLRU.evict (length ((id, e) :: l)) c1 = c1) as ->.
    { cbn [length TTLLRU.evict]. rewrite (wf_size c1 W'), E'. unfold len in *. simpl in *.
      destruct (Z.leb_spec (TTLLRU.maxEntries c) (Z.of_nat (length l))); [lia|done]. }
    rewrite E'. unfold len in *. simpl in *. split_and!; [done|lia|done| |].
    + replace (Z.to_nat _) with 1%nat by lia. done.
    + intros k. rewrite not_elem_of_cons. by intros [_ ?].
  - split_and!; [done|done|done| |done].
    by replace (Z.to_nat _) with 0%nat by lia.
Qed.

Lemma setLocked_spec c k v x :
  wf c -> wf (TTLLRU.setLocked k v x c) /\
  contents (TTLLRU.setLocked k v x c) = Spec.set (TTLLRU.maxEntries c) k v x (contents c).
Proof.
  intros W. unfold TTLLRU.setLocked, Spec.set.
  destruct (TTLLRU.find_elem k c) as [[id e]|] eqn:Ef.
  - destruct (find_elem_Some _ _ _ _ W Ef) as (l1 & l2 & L).
    rewrite (located_find _ _ _ _ _ _ L), (located_remove _ _ _ _ _ _ L), (loc_key _ _ _ _ _ _ L).
    rewrite (located_store _ _ _ _ _ _ L), (MoveToBack_middle _ _ _ _ _ _ L). split.
    + by eapply wf_requeue.
    + unfold contents. simpl. by rewrite app_assoc, fmap_app.
  - destruct (find_elem_None _ _ W Ef) as [Hn Hs]. rewrite Hs.
    destruct (evict_spec c W) as (W' & Hroom & Hmax & Hc & Hk). set (c' := TTLLRU.evict _ c) in *.
    rewrite (wf_map c W) in Hn. apply index_None, Hk in Hn.
    destruct W' as [Hi' Hk' Hm' Hf' Hx' Hl']. split; [|unfold contents in *; simpl; by rewrite fmap_app, Hc].
    split; simpl.
    + rewrite fmap_app. apply NoDup_app. split_and!; [done| |apply NoDup_singleton].
      intros y Hy ->%list_elem_of_singleton. simpl in Hy. apply list_elem_of_fmap in Hy as (z & Hz & Hin).
      rewrite Forall_forall in Hf'. specialize (Hf' z Hin). lia.
    + rewrite keys_app. apply NoDup_app. split_and!; [done| |apply NoDup_singleton].
      intros y Hy ->%list_elem_of_singleton. by apply Hn.
    + rewrite Hm'. unfold index. rewrite fmap_app. csimpl. rewrite list_to_map_snoc; [done|].
      by rewrite index_fst.
    + apply Forall_app. split; [eapply Forall_impl; [done|]; intros y Hy; simpl in *; lia|].
      repeat constructor.
    + done.
    + rewrite len_app. unfold len at 2. simpl. lia.
Qed.

Lemma setLocked_max c k v x : wf c -> TTLLRU.maxEntries (TTLLRU.setLocked k v x c) = TTLLRU.maxEntries c.
Proof.
  intros W. unfold TTLLRU.setLocked. destruct (TTLLRU.find_elem k c) as [[id e]|]; [done|].
  by apply evict_spec.
Qed.

Lemma remove_loop_spec doomed elems : forall kept c removed,
  wf c -> TTLLRU.order c = kept ++ elems ->
  let '(n, c') := TTLLRU.remove_loop doomed elems c removed in
  wf c' /\ TTLLRU.maxEntries c' = TTLLRU.maxEntries c /\
  TTLLRU.order c' = kept ++ List.filter (fun x => negb (doomed x.2)) elems /\
  n = removed + len (List.filter (fun x => doomed x.2) elems).
Proof.
  induction elems as [|[id e] elems IH]; intros kept c removed W E; simpl.
  - unfold len. simpl. split_and!; try done; lia.
  - destruct (doomed e) eqn:Hd; simpl.
    + destruct (removeElementLocked_spec _ _ _ _ _ _ W (wf_located _ _ _ _ _ W E)) as (W' & E' & _).
      specialize (IH kept _ (removed + 1) W' E'). destruct (TTLLRU.remove_loop _ _ _ _) as [n c'].
      destruct IH as (? & ? & ? & ?). split_and!; try done. unfold len in *. simpl. lia.
    + specialize (IH (kept ++ [(id, e)]) c removed W). rewrite <- app_assoc in IH. simpl in IH.
      specialize (IH E). destruct (TTLLRU.remove_loop _ _ _ _) as [n c'].
      destruct IH as (? & ? & Eo & ?). split_and!; try done. by rewrite Eo, <- app_assoc.
Qed.

Lemma delete_loop_spec doomed c :
  wf c ->
  let '(n, c') := TTLLRU.remove_loop doomed (TTLLRU.order c) c 0 in
  wf c' /\ TTLLRU.maxEntries c' = TTLLRU.maxEntries c /\
  contents c' = List.filter (fun e => negb (doomed e)) (contents c) /\
  n = len (List.filter doomed (contents c)).
Proof.
  intros W. pose proof (remove_loop_spec doomed (TTLLRU.order c) [] c 0 W eq_refl) as HL.
  destruct (TTLLRU.remove_loop _ _ _ _) as [n c']. destruct HL as (? & ? & Eo & ->).
  unfold contents. rewrite Eo. simpl.
  rewrite (fmap_filter snd (fun e => negb (doomed e))), <- (fmap_filter snd doomed).
  unfold len. rewrite length_fmap. split_and!; done.
Qed.

Lemma active_loop_spec now l n :
  TTLLRU.active_loop now l n = n + len (List.filter (Spec.live now) l.*2).
Proof.
  revert n. induction l as [|x l IH]; intros n; csimpl; [unfold len; simpl; lia|].
  rewrite IH. change (After (ExpiresAt x.2) now) with (Spec.live now x.2).
  destruct (Spec.live now x.2); unfold len; simpl; lia.
Qed.

Lemma AddIfAbsent_spec c k v x now :
  wf c ->
  let '(b, c') := TTLLRU.AddIfAbsent k v x now c in
  wf c' /\ TTLLRU.maxEntries c' = TTLLRU.maxEntries c /\
  (RBool b, contents c') = spec_step (TTLLRU.maxEntries c) (OAddIfAbsent k v x now) (contents c).
Proof.
  intros W. unfold TTLLRU.AddIfAbsent. simpl. destruct (IsZero x); [done|].
  destruct (TTLLRU.find_elem k c) as [[id e]|] eqn:Ef.
  - destruct (find_elem_Some _ _ _ _ W Ef) as (l1 & l2 & L).
    rewrite (located_find _ _ _ _ _ _ L). change (After (ExpiresAt e) now) with (Spec.live now e).
    destruct (Spec.live now e).
    + destruct (moveToBack_spec _ _ _ _ _ _ W L) as [? ->]. done.
    + destruct (removeElementLocked_spec _ _ _ _ _ _ W L) as (W1 & E1 & C1).
      destruct (setLocked_spec _ k v x W1) as [W2 C2]. rewrite C2, C1, setLocked_max by done.
      split_and!; [done..|]. f_equal. unfold Spec.set.
      assert (Spec.find k (Spec.remove k (contents c)) = None) as ->.
      { rewrite (located_remove _ _ _ _ _ _ L). apply find_none_Forall, Forall_fmap.
        eapply Forall_impl; [exact (loc_keys _ _ _ _ _ _ L)|]. intros y Hy. by apply bool_decide_eq_false. }
      f_equal. unfold Spec.make_room. pose proof (wf_len _ W). pose proof (wf_max _ W).
      rewrite (located_remove _ _ _ _ _ _ L). rewrite (loc_order _ _ _ _ _ _ L) in *.
      replace (Z.to_nat _) with 0%nat; [done|]. unfold len in *. rewrite length_fmap.
      rewrite !length_app in *. simpl in *. lia.
  - destruct (find_elem_None _ _ W Ef) as [_ Hn]. rewrite Hn.
    destruct (setLocked_spec _ k v x W) as [W2 C2]. rewrite C2, setLocked_max by done. unfold Spec.set. by rewrite Hn.
Qed.

Lemma GetAt_spec c k now :
  wf c ->
  let '(v, c') := TTLLRU.GetAt k now c in
  wf c' /\ TTLLRU.maxEntries c' = TTLLRU.maxEntries c /\
  (RVal v, contents c') = spec_step (TTLLRU.maxEntries c) (OGetAt k now) (contents c).
Proof.
  intros W. unfold TTLLRU.GetAt. simpl. destruct (TTLLRU.find_elem k c) as [[id e]|] eqn:Ef.
  - destruct (find_elem_Some _ _ _ _ W Ef) as (l1 & l2 & L).
    rewrite (located_find _ _ _ _ _ _ L). change (After (ExpiresAt e) now) with (Spec.live now e).
    destruct (Spec.live now e); simpl.
    + destruct (moveToBack_spec _ _ _ _ _ _ W L) as [? ->]. done.
    + destruct (removeElementLocked_spec _ _ _ _ _ _ W L) as (W1 & E1 & ->). done.
  - destruct (find_elem_None _ _ W Ef) as [_ ->]. done.
Qed.

Lemma Sweep_spec c now :
  wf c ->
  let '(n, c') := TTLLRU.Sweep now c in
  wf c' /\ TTLLRU.maxEntries c' = TTLLRU.maxEntries c /\
  contents c' = List.filter (Spec.live now) (contents c) /\
  n = len (List.filter (fun e => negb (Spec.live now e)) (contents c)).
Proof.
  intros W. unfold TTLLRU.Sweep.
  pose proof (delete_loop_spec (fun entry => negb (After (ExpiresAt entry) now)) c W) as HL.
  destruct (TTLLRU.remove_loop _ _ _ _) as [n c']. destruct HL as (? & ? & Ec & ?).
  split_and!; try done. rewrite Ec. apply List.filter_ext. intros e. unfold Spec.live, After. by destruct (_ <? _).
Qed.

Lemma Len_spec c : wf c -> TTLLRU.Len c = len (contents c).
Proof. intros W. unfold TTLLRU.Len, contents, len. by rewrite (wf_size c W), length_fmap. Qed.

(** One call: the invariant is kept and the result and the new contents are
    the specification's. *)
Lemma impl_step_refines o c r c' :
  wf c -> impl_step o c = (r, c') ->
  wf c' /\ TTLLRU.maxEntries c' = TTLLRU.maxEntries c /\
  spec_step (TTLLRU.maxEntries c) o (contents c) = (r, contents c').
Proof.
  intros W E. destruct o as [k v x|k v x now|k|k now|k now|k|m|now| | |now|now]; simpl in E.
  - injection E as <- <-. unfold TTLLRU.SetUntil. simpl. destruct (IsZero x); [done|].
    destruct (setLocked_spec c k v x W) as [? ->]. by rewrite setLocked_max.
  - pose proof (AddIfAbsent_spec c k v x now W) as HA.
    destruct (TTLLRU.AddIfAbsent _ _ _ _ _) as [b c1]. injection E as <- <-.
    destruct HA as (? & ? & ->). done.
  - injection E as <- <-. split_and!; [done..|]. simpl. unfold TTLLRU.Peek.
    destruct (TTLLRU.find_elem k c) as [[id e]|] eqn:Ef; simpl.
    + destruct (find_elem_Some _ _ _ _ W Ef) as (l1 & l2 & L). by rewrite (located_find _ _ _ _ _ _ L).
    + by destruct (find_elem_None _ _ W Ef) as [_ ->].
  - pose proof (GetAt_spec c k now W) as HA. destruct (TTLLRU.GetAt _ _ _) as [b c1]. injection E as <- <-.
    destruct HA as (? & ? & ->). done.
  - unfold TTLLRU.DeleteExpired in E. simpl. destruct (TTLLRU.find_elem k c) as [[id e]|] eqn:Ef.
    + destruct (find_elem_Some _ _ _ _ W Ef) as (l1 & l2 & L). rewrite (located_find _ _ _ _ _ _ L).
      change (Before now (ExpiresAt e)) with (Spec.live now e) in E.
      destruct (Spec.live now e); injection E as <- <-; [done|].
      destruct (removeElementLocked_spec _ _ _ _ _ _ W L) as (W1 & E1 & ->). done.
    + injection E as <- <-. by destruct (find_elem_None _ _ W Ef) as [_ ->].
  - unfold TTLLRU.Delete in E. simpl. destruct (TTLLRU.find_elem k c) as [[id e]|] eqn:Ef; injection E as <- <-.
    + destruct (find_elem_Some _ _ _ _ W Ef) as (l1 & l2 & L). rewrite (located_find _ _ _ _ _ _ L).
      destruct (removeElementLocked_spec _ _ _ _ _ _ W L) as (W1 & E1 & ->). done.
    + by destruct (find_elem_None _ _ W Ef) as [_ ->].
  - unfold TTLLRU.DeleteWhere in E. pose proof (delete_loop_spec m c W) as HA.
    destruct (TTLLRU.remove_loop _ _ _ _) as [n c1]. injection E as <- <-. destruct HA as (? & ? & -> & ->). done.
  - pose proof (Sweep_spec c now W) as HA. destruct (TTLLRU.Sweep _ _) as [n c1]. injection E as <- <-.
    destruct HA as (? & ? & -> & ->). done.
  - injection E as <- <-. by rewrite Len_spec.
  - by injection E as <- <-.
  - injection E as <- <-. unfold TTLLRU.ActiveLen. by rewrite active_loop_spec.
  - unfold TTLLRU.LenAfterSweep in E. pose proof (Sweep_spec c now W) as HA.
    destruct (TTLLRU.Sweep _ _) as [n c1]. simpl in E. destruct HA as (W1 & ? & Ec & _).
    injection E as <- <-. rewrite Len_spec by done. simpl. by rewrite Ec.
Qed.

End Refinement.

(** * Properties *)

Section Properties.
Context {K V : Type} `{Countable K}.

(** Property C24. The cache refines its specification: for every capacity and
    every sequence of calls, from a new cache, the linked implementation (map,
    list elements, eviction loop, sweeps that remove while they iterate) returns
    exactly what the list of entries in least-recently-used order returns, holds
    exactly that list, and keeps its invariant: the map indexes the list, keys
    and element identities are unique and the capacity is never exceeded. *)
Theorem ttl_lru_refines (max : Z) (os : list (op K V)) :
  let max' := if Z.leb max 0 then 1 else max in
  let '(rs, c) := impl_run os (TTLLRU.New max) in
  wf c /\ spec_run max' os [] = (rs, contents c) /\ len (contents c) <= max'.
Proof.
  assert (forall c, wf c ->
    let '(rs, c') := impl_run os c in
    wf c' /\ TTLLRU.maxEntries c' = TTLLRU.maxEntries c /\
    spec_run (TTLLRU.maxEntries c) os (contents c) = (rs, contents c')) as Hrun.
  { induction os as [|o os IH]; intros c W; simpl; [done|].
    destruct (impl_step o c) as [r c1] eqn:E1.
    destruct (impl_step_refines _ _ _ _ W E1) as (W1 & M1 & ->).
    specialize (IH c1 W1). destruct (impl_run os c1) as [rs c2]. destruct IH as (W2 & M2 & E2).
    rewrite M1 in E2, M2. by rewrite E2. }
  intros max'. specialize (Hrun (TTLLRU.New max) (wf_New max)).
  destruct (impl_run os (TTLLRU.New max)) as [rs c]. destruct Hrun as (W & M & E).
  split_and!; [done|exact E|]. pose proof (wf_len _ W) as Hl. rewrite M in Hl.
  unfold contents, len. rewrite length_fmap. exact Hl.
Qed.

End Properties.

(** * Facts of the specification used by the clients *)

Section SpecFacts.
Context {K V : Type} `{EqDecision K}.
Implicit Types l : list (Entry K V).

Lemma Spec_find_None k l : Spec.find k l = None -> Forall (fun e => Key e <> k) l.
Proof.
  unfold Spec.find. induction l as [|x l IH]; simpl; [constructor|].
  case_bool_decide; [done|]. constructor; auto.
Qed.

Lemma Spec_find_Some k l e :
  NoDup (Key <$> l) -> Spec.find k l = Some e -> Key e = k /\ l ≡ₚ e :: Spec.remove k l.
Proof.
  unfold Spec.find, Spec.remove. induction l as [|x l IH]; csimpl; [done|].
  intros [Hx Hnd]%NoDup_cons. case_bool_decide as Hk; simpl.
  - intros [= <-]. split; [done|]. rewrite filter_all; [done|]. apply Forall_forall. intros y Hy.
    rewrite bool_decide_eq_false_2; [done|]. intros E. apply Hx. rewrite Hk, <- E. by apply list_elem_of_fmap_2.
  - intros Hf. destruct (IH Hnd Hf) as [? Hp]. split; [done|]. rewrite Hp at 1. apply Permutation_swap.
Qed.

Lemma Spec_touch_Permutation k l e : NoDup (Key <$> l) -> Spec.find k l = Some e -> Spec.touch e l ≡ₚ l.
Proof.
  intros Hnd Hf. destruct (Spec_find_Some _ _ _ Hnd Hf) as [<- Hp]. rewrite Hp at 2. unfold Spec.touch.
  by rewrite Permutation_app_comm.
Qed.

Lemma Spec_make_room_id max l : len l < max -> Spec.make_room max l = l.
Proof. intros Hl. unfold Spec.make_room. replace (Z.to_nat _) with 0%nat by lia. done. Qed.

Lemma filter_live_mono (t u : Z) l :
  t <= u -> List.filter (Spec.live u) (List.filter (Spec.live t) l) = List.filter (Spec.live u) l.
Proof.
  intros Htu. induction l as [|x l IH]; simpl; [done|].
  destruct (Spec.live t x) eqn:Et; simpl; destruct (Spec.live u x) eqn:Eu; rewrite ?IH; try done.
  exfalso. apply Z.ltb_lt in Eu. apply Z.ltb_ge in Et. lia.
Qed.

End SpecFacts.

#[export] Instance filter_Permutation_proper {A} (p : A -> bool) : Proper ((≡ₚ) ==> (≡ₚ)) (List.filter p).
Proof.
  intros l1 l2 Hp. induction Hp as [|x l1 l2 Hp IH|x y l|l1 l2 l3 _ IH1 _ IH2]; simpl; try done.
  - destruct (p x); [by apply Permutation_cons|done].
  - destruct (p x), (p y); try done. apply Permutation_swap.
  - by rewrite IH1.
Qed.

Lemma wf_NoDup_contents {K V} `{Countable K} (c : TTLLRU.t K V) : wf c -> NoDup (Key <$> contents c).
Proof. intros W. pose proof (wf_keys c W) as Hk. unfold contents. by rewrite <- list_fmap_compose. Qed.

(** ** The cache as a map from keys to expiry times *)

Section View.
Context {K V : Type} `{Countable K}.
Implicit Types l : list (Entry K V).

Definition list_view l : gmap K Z := list_to_map ((fun e => (Key e, ExpiresAt e)) <$> l).

Lemma list_view_lookup l k : list_view l !! k = ExpiresAt <$> Spec.find k l.
Proof.
  unfold list_view, Spec.find. induction l as [|e l IH]; csimpl; [done|].
  case_bool_decide as Hk.
  - subst. by rewrite lookup_insert_eq.
  - by rewrite lookup_insert_ne.
Qed.

Lemma list_view_size l : NoDup (Key <$> l) -> size (list_view l) = length l.
Proof.
  unfold list_view. induction l as [|e l IH]; csimpl; [intros _; apply map_size_empty|].
  intros [Hk Hnd]%NoDup_cons. rewrite map_size_insert_None; [by rewrite IH|].
  apply not_elem_of_list_to_map. by rewrite <- list_fmap_compose.
Qed.

Lemma filter_keys_NoDup p l : NoDup (Key <$> l) -> NoDup (Key <$> List.filter p l).
Proof.
  induction l as [|e l IH]; csimpl; [done|]. intros [Hk Hnd]%NoDup_cons. destruct (p e); csimpl; [|auto].
  apply NoDup_cons. split; [|auto]. intros (x & Hx & Hin)%list_elem_of_fmap.
  apply Hk. rewrite Hx. apply list_elem_of_fmap_2.
  by rewrite list_elem_of_In, filter_In, <- list_elem_of_In in Hin; destruct Hin.
Qed.

Lemma Spec_find_filter p k l :
  NoDup (Key <$> l) ->
  Spec.find k (List.filter p l) = match Spec.find k l with Some e => if p e then Some e else None | None => None end.
Proof.
  unfold Spec.find. induction l as [|e l IH]; csimpl; [done|]. intros [Hk Hnd]%NoDup_cons.
  case_bool_decide as He; destruct (p e) eqn:Ep; simpl.
  - by rewrite bool_decide_eq_true_2.
  - apply find_none_Forall, Forall_forall. intros x Hx. apply bool_decide_eq_false. intros Hxk.
    apply Hk. rewrite He, <- Hxk. apply list_elem_of_fmap_2.
    rewrite list_elem_of_In, filter_In, <- list_elem_of_In in Hx. by destruct Hx.
  - by rewrite bool_decide_eq_false_2, IH.
  - by apply IH.
Qed.

(** The live entries, as a map. *)
Lemma list_view_live now l :
  NoDup (Key <$> l) -> list_view (List.filter (Spec.live now) l) = filter (fun kv => now < kv.2) (list_view l).
Proof.
  intros Hnd. apply map_eq. intros k. rewrite list_view_lookup, Spec_find_filter by done.
  destruct (Spec.find k l) as [e|] eqn:E; simpl.
  - destruct (Spec.live now e) eqn:El; simpl; symmetry.
    + apply map_lookup_filter_Some. rewrite list_view_lookup, E. split; [done|]. by apply Z.ltb_lt.
    + apply map_lookup_filter_None. right. intros x. rewrite list_view_lookup, E. intros [= <-]. simpl.
      apply Z.ltb_ge in El. lia.
  - symmetry. apply map_lookup_filter_None. left. by rewrite list_view_lookup, E.
Qed.

Lemma Spec_find_app k l1 l2 :
  Spec.find k (l1 ++ l2) = match Spec.find k l1 with Some e => Some e | None => Spec.find k l2 end.
Proof. unfold Spec.find. induction l1 as [|e l1 IH]; simpl; [done|]. by case_bool_decide. Qed.

Lemma Spec_find_remove k k' l :
  Spec.find k' (Spec.remove k l) = if bool_decide (k = k') then None else Spec.find k' l.
Proof.
  unfold Spec.find, Spec.remove. induction l as [|e l IH]; simpl; [by case_bool_decide|].
  destruct (bool_decide_reflect (Key e = k)) as [He|He]; simpl.
  - rewrite IH. case_bool_decide as Hk; [done|]. by rewrite bool_decide_eq_false_2 by congruence.
  - rewrite IH. destruct (bool_decide_reflect (Key e = k')) as [<-|]; [|done].
    by rewrite bool_decide_eq_false_2 by congruence.
Qed.

Lemma list_view_remove k l : list_view (Spec.remove k l) = delete k (list_view l).
Proof.
  apply map_eq. intros k'. rewrite list_view_lookup, Spec_find_remove. case_bool_decide as Hk.
  - subst. by rewrite lookup_delete_eq.
  - by rewrite lookup_delete_ne, list_view_lookup.
Qed.

Lemma list_view_snoc l e :
  Spec.find (Key e) l = None -> list_view (l ++ [e]) = <[Key e := ExpiresAt e]> (list_view l).
Proof.
  intros Hn. apply map_eq. intros k. rewrite list_view_lookup, Spec_find_app. unfold Spec.find at 2. simpl.
  destruct (decide (Key e = k)) as [<-|Hne].
  - by rewrite lookup_insert_eq, Hn, bool_decide_eq_true_2.
  - rewrite lookup_insert_ne, bool_decide_eq_false_2, list_view_lookup by done. by destruct (Spec.find k l).
Qed.

Lemma list_view_set max k v x l :
  is_Some (Spec.find k l) \/ len l < max -> list_view (Spec.set max k v x l) = <[k := x]> (list_view l).
Proof.
  intros Hl. unfold Spec.set. destruct (Spec.find k l) as [e|] eqn:E.
  - rewrite (list_view_snoc _ (mkEntry k v x)); [|rewrite Spec_find_remove; by rewrite bool_decide_eq_true_2].
    rewrite list_view_remove. simpl. by rewrite insert_delete_eq.
  - destruct Hl as [[? ?]|Hl]; [done|]. rewrite Spec_make_room_id by done. by apply (list_view_snoc _ (mkEntry k v x)).
Qed.

Lemma list_view_Permutation l l' : NoDup (Key <$> l) -> l ≡ₚ l' -> list_view l = list_view l'.
Proof.
  intros Hnd Hp. apply list_to_map_proper; [by rewrite <- list_fmap_compose|by apply fmap_Permutation].
Qed.

End View.
