(* ===== verification/Replay.v ===== *)
(** Replay protection: auth/replay.go ([Module Memory]), knock/replay.go
    ([Module Syn]) and the functions that choose how long a nonce is
    remembered. Both caches are bounded and shared by all connections; the
    class [ReplayLaws] is what they promise to the authentication server and
    to the knock listeners, stated against the history of accepted nonces. *)

From Stdlib Require Import ZArith Lia String.
From Stdlib Require Strings.Byte.
From stdpp Require Import base list gmap strings.
From S2P Require Import Prelude GoStd Cache.

Open Scope Z_scope.

Definition DefaultTimeWindow : Z := 30 * Second.
Definition DefaultReplayCacheMaxEntries : Z := 65536.

(** The key of both caches: [clientID + "\x00" + hex.EncodeToString(nonce)]. *)
Definition replay_key (clientID nonce : bytes) : bytes :=
  clientID ++ [Byte.x00] ++ hex_EncodeToString nonce.

(** The value type [struct{}]. *)
Abbreviation store := (TTLLRU.t bytes unit).

(** * auth.MemoryReplayCache *)

Module Memory.

Record t := mk {
  ttl : Z;
  sweepEvery : Z;
  nextSweep : Z;
  maxEntries : Z;
  entries : store;
  active : Z;
}.

Definition replaySweepInterval (ttl : Z) : Z :=
  if Z.leb ttl (30 * Second) then ttl else 30 * Second.

Definition NewMemoryReplayCacheWithLimit (ttl maxEntries : Z) : t :=
  let ttl := if Z.leb ttl 0 then DefaultTimeWindow * 2 else ttl in
  let maxEntries := if Z.leb maxEntries 0 then DefaultReplayCacheMaxEntries else maxEntries in
  mk ttl (replaySweepInterval ttl) zero_time maxEntries (TTLLRU.New maxEntries) 0.

Definition NewMemoryReplayCache (ttl : Z) : t :=
  let ttl := if Z.leb ttl 0 then DefaultTimeWindow * 2 else ttl in
  NewMemoryReplayCacheWithLimit ttl DefaultReplayCacheMaxEntries.

Definition sweepLocked (now : Z) (c : t) : Z * t :=
  let '(removed, es) := TTLLRU.Sweep now (entries c) in
  (removed, mk (ttl c) (sweepEvery c) (nextSweep c) (maxEntries c) es (TTLLRU.Len es)).

Definition set_nextSweep (x : Z) (c : t) : t :=
  mk (ttl c) (sweepEvery c) x (maxEntries c) (entries c) (active c).

Definition set_entries (es : store) (c : t) : t :=
  mk (ttl c) (sweepEvery c) (nextSweep c) (maxEntries c) es (active c).

Definition incr_active (c : t) : t :=
  mk (ttl c) (sweepEvery c) (nextSweep c) (maxEntries c) (entries c) (active c + 1).

(** The scheduled sweep at the start of [CheckAndMark], then the sweep of a
    cache that looks full. *)
Definition scheduled_sweep (now : Z) (c : t) : t :=
  if IsZero (nextSweep c) then set_nextSweep (now + sweepEvery c) c
  else if negb (Before now (nextSweep c)) then
    let c := snd (sweepLocked now c) in set_nextSweep (now + sweepEvery c) c
  else c.

Definition sweep_if_full (now : Z) (c : t) : t :=
  if Z.leb (maxEntries c) (active c) then
    let c := snd (sweepLocked now c) in set_nextSweep (now + sweepEvery c) c
  else c.

(** [CheckAndMark] at the time [now]; [None] is a nil error. The receiver is
    a pointer that may be nil. *)
Definition CheckAndMark (clientID nonce : bytes) (now : Z) (p : option t) : option error * option t :=
  match p with
  | None => (None, None)
  | Some c =>
      let key := replay_key clientID nonce in
      let c := scheduled_sweep now c in
      let c := sweep_if_full now c in
      if Z.leb (maxEntries c) (active c) then
        let '(found, es) := TTLLRU.GetAt key now (entries c) in
        (Some (if found is Some _ then auth_ErrReplayDetected else auth_ErrReplayCacheFull), Some (set_entries es c))
      else
        let '(added, es) := TTLLRU.AddIfAbsent key tt (now + ttl c) now (entries c) in
        if negb added then (Some auth_ErrReplayDetected, Some (set_entries es c))
        else (None, Some (incr_active (set_entries es c)))
  end.

Definition Sweep (now : Z) (p : option t) : Z * option t :=
  match p with
  | None => (0, None)
  | Some c =>
      let '(removed, c) := sweepLocked now c in (removed, Some (set_nextSweep (now + sweepEvery c) c))
  end.

Definition Len (p : option t) : Z := match p with None => 0 | Some c => active c end.
Definition Cap (p : option t) : Z := match p with None => 0 | Some c => maxEntries c end.

End Memory.

(** * knock.synReplayCache *)

Module Syn.

Definition defaultSYNReplayCacheMaxEntries : Z := 65536.

Record t := mk {
  ttl : Z;
  sweepEvery : Z;
  nextSweep : Z;
  maxEntries : Z;
  entries : store;
}.

Definition synReplaySweepInterval (ttl : Z) : Z :=
  if Z.leb ttl (30 * Second) then ttl else 30 * Second.

Definition newSYNReplayCache (ttl : Z) : t :=
  let ttl := if Z.leb ttl 0 then 2 * Minute else ttl in
  mk ttl (synReplaySweepInterval ttl) zero_time defaultSYNReplayCacheMaxEntries
     (TTLLRU.New defaultSYNReplayCacheMaxEntries).

Definition set_nextSweep (x : Z) (c : t) : t :=
  mk (ttl c) (sweepEvery c) x (maxEntries c) (entries c).

Definition set_entries (es : store) (c : t) : t :=
  mk (ttl c) (sweepEvery c) (nextSweep c) (maxEntries c) es.

Definition sweep_now (now : Z) (c : t) : t :=
  set_nextSweep (now + sweepEvery c) (set_entries (snd (TTLLRU.Sweep now (entries c))) c).

Definition scheduled_sweep (now : Z) (c : t) : t :=
  if IsZero (nextSweep c) then set_nextSweep (now + sweepEvery c) c
  else if negb (Before now (nextSweep c)) then sweep_now now c
  else c.

Definition sweep_if_full (now : Z) (c : t) : t :=
  if Z.leb (maxEntries c) (TTLLRU.Len (entries c)) then sweep_now now c else c.

Definition CheckAndMark (clientID nonce : bytes) (now : Z) (p : option t) : option error * option t :=
  match p with
  | None => (None, None)
  | Some c =>
      let key := replay_key clientID nonce in
      let c := scheduled_sweep now c in
      let c := sweep_if_full now c in
      if Z.leb (maxEntries c) (TTLLRU.Len (entries c)) then
        let '(found, es) := TTLLRU.GetAt key now (entries c) in
        (Some (if found is Some _ then auth_ErrReplayDetected else auth_ErrReplayCacheFull), Some (set_entries es c))
      else
        let '(added, es) := TTLLRU.AddIfAbsent key tt (now + ttl c) now (entries c) in
        if negb added then (Some auth_ErrReplayDetected, Some (set_entries es c))
        else (None, Some (set_entries es c))
  end.

End Syn.

(** * How long a nonce is remembered *)

Definition DefaultKnockReplayTTL : Z := 5 * Minute.

(** internal/gatewaycore/misc.go; durations are [int64]. *)
Definition KnockReplayTTL (window : Z) : Z :=
  let window := if Z.leb window 0 then 30 * Second else window in
  let ttl := int64 (int64 (2 * window) + Second) in
  if Z.ltb ttl DefaultKnockReplayTTL then DefaultKnockReplayTTL else ttl.

(** knock/replay.go [replayCache], the TTL of the cache it creates. *)
Definition replayCache_ttl (timeWindow : Z) : Z :=
  let ttl := 5 * Minute in
  if Z.ltb 0 timeWindow && Z.ltb ttl (int64 (int64 (2 * timeWindow) + Second))
  then int64 (int64 (2 * timeWindow) + Second) else ttl.

(** knock/replay.go [replayCache]: the configured cache, or a new one. *)
Definition replayCache (configured : option Memory.t) (timeWindow : Z) : Memory.t :=
  match configured with
  | Some c => c
  | None => Memory.NewMemoryReplayCache (replayCache_ttl timeWindow)
  end.

(** cmd/knock-proxy/runtime.go *)
Definition authReplayTTL (configured window : Z) : Z :=
  let min := int64 (int64 (2 * window) + Second) in
  if Z.ltb configured min then min else configured.

(** The TTL of the cache [auth.NewServer], [netx.Listen] and [relay.Gateway]
    create when none is configured. *)
Definition default_auth_ttl (timeWindow : Z) : Z := int64 (timeWindow * 2).

(** * What a replay cache promises *)

(** An accepted mark: the client, the nonce and when it was accepted. *)
Record mark := mkMark { m_client : bytes; m_nonce : bytes; m_time : Z }.

Definition remembered (ttl now : Z) (m : mark) : bool := Z.ltb now (m_time m + ttl).

(** The nonce of the client is still remembered at [now]. *)
Definition seen (ttl : Z) (h : list mark) (clientID nonce : bytes) (now : Z) : bool :=
  existsb (fun m => bool_decide (m_client m = clientID /\ m_nonce m = nonce)) (List.filter (remembered ttl now) h).

(** The interface [auth.ReplayCache]. *)
Class ReplayCache (S : Type) := check_and_mark : bytes -> bytes -> Z -> S -> option error * S.

(** [rc_tracks s h t]: [s] is a cache whose accepted marks up to the time [t]
    are [h]. A mark that is still remembered is refused with
    [ErrReplayDetected]; a new one is accepted, unless as many marks are
    remembered as the cache can hold, which is [ErrReplayCacheFull]. *)
Class ReplayLaws (S : Type) `{ReplayCache S} := {
  rc_ttl : Z;
  rc_max : Z;
  rc_tracks : S -> list mark -> Z -> Prop;
  rc_step : forall s h t clientID nonce now r s',
    rc_tracks s h t -> t <= now -> 0 <= now ->
    check_and_mark clientID nonce now s = (r, s') ->
    let live := List.filter (remembered rc_ttl now) h in
    if seen rc_ttl h clientID nonce now then r = Some auth_ErrReplayDetected /\ rc_tracks s' h now
    else if Z.leb rc_max (len live) then r = Some auth_ErrReplayCacheFull /\ rc_tracks s' h now
    else r = None /\ rc_tracks s' (h ++ [mkMark clientID nonce now]) now;
}.

(** * Lemmas: the store follows the history *)

Lemma replay_key_inj c1 n1 c2 n2 : replay_key c1 n1 = replay_key c2 n2 <-> c1 = c2 /\ n1 = n2.
Proof.
  split; [|by intros [-> ->]]. intros E. apply nul_separated_inj in E as [-> E]; try apply hex_no_nul.
  by apply hex_EncodeToString_inj in E as ->.
Qed.

Definition entry_of (ttl : Z) (m : mark) : Entry bytes unit :=
  mkEntry (replay_key (m_client m) (m_nonce m)) tt (m_time m + ttl).

(** The entries of the store that are still live, now or at any later time,
    are those of the remembered marks. *)
Definition follows (ttl : Z) (es : store) (h : list mark) (t : Z) : Prop :=
  wf es /\ forall now, t <= now ->
    List.filter (Spec.live now) (contents es) ≡ₚ entry_of ttl <$> List.filter (remembered ttl now) h.

Lemma follows_later ttl es h t u : follows ttl es h t -> t <= u -> follows ttl es h u.
Proof. intros [W F] Hu. split; [done|]. intros now Hn. apply F. lia. Qed.

Lemma follows_New ttl max : follows ttl (TTLLRU.New max) [] 0.
Proof. split; [apply wf_New|]. done. Qed.

Lemma follows_Sweep ttl es h t now :
  follows ttl es h t -> t <= now ->
  follows ttl (snd (TTLLRU.Sweep now es)) h now /\
  TTLLRU.maxEntries (snd (TTLLRU.Sweep now es)) = TTLLRU.maxEntries es /\
  TTLLRU.Len (snd (TTLLRU.Sweep now es)) = len (List.filter (remembered ttl now) h).
Proof.
  intros [W F] Hn. pose proof (Sweep_spec es now W) as HS. destruct (TTLLRU.Sweep now es) as [n es'].
  destruct HS as (W' & M & E & _). cbn [snd]. split_and!; [|done|].
  - split; [done|]. intros u Hu. rewrite E, filter_live_mono by done. apply F. lia.
  - rewrite Len_spec, E by done. unfold len. f_equal. rewrite (F now Hn). apply length_fmap.
Qed.

Lemma follows_live ttl es h t now e :
  follows ttl es h t -> t <= now ->
  (e ∈ contents es /\ Spec.live now e = true) <->
  exists m, m ∈ h /\ remembered ttl now m = true /\ e = entry_of ttl m.
Proof.
  intros [_ F] Hn. specialize (F now Hn).
  assert (forall x, x ∈ List.filter (Spec.live now) (contents es) <->
                    x ∈ entry_of ttl <$> List.filter (remembered ttl now) h) as Hx by (intros x; by rewrite F).
  specialize (Hx e). rewrite list_elem_of_In, filter_In, <- list_elem_of_In in Hx. rewrite Hx, list_elem_of_fmap.
  split; intros (m & H1 & H2); exists m.
  - rewrite list_elem_of_In, filter_In, <- list_elem_of_In in H2. by destruct H2.
  - destruct H2 as [? ->]. split; [done|]. by rewrite list_elem_of_In, filter_In, <- list_elem_of_In.
Qed.

Lemma seen_spec ttl h c n now :
  seen ttl h c n now = true <->
  exists m, m ∈ h /\ remembered ttl now m = true /\ m_client m = c /\ m_nonce m = n.
Proof.
  unfold seen. rewrite existsb_exists. split.
  - intros (m & [Hm Hr]%filter_In & [? ?]%bool_decide_eq_true). exists m. by rewrite list_elem_of_In.
  - intros (m & Hm & Hr & ? & ?). exists m. rewrite filter_In, <- list_elem_of_In. split; [done|].
    by apply bool_decide_eq_true.
Qed.

(** The key is found live in the store exactly when the mark is remembered. *)
Lemma follows_find ttl es h t c n now :
  follows ttl es h t -> t <= now ->
  seen ttl h c n now =
  match Spec.find (replay_key c n) (contents es) with Some e => Spec.live now e | None => false end.
Proof.
  intros Fo Hn. pose proof (wf_NoDup_contents _ (proj1 Fo)) as Hnd.
  destruct (Spec.find _ _) as [e|] eqn:Ef.
  - destruct (Spec_find_Some _ _ _ Hnd Ef) as [Hk Hp]. apply eq_true_iff_eq. rewrite seen_spec. split.
    + intros (m & Hm & Hr & <- & <-).
      assert (entry_of ttl m ∈ contents es /\ Spec.live now (entry_of ttl m) = true) as [Hin Hl]
        by (apply (follows_live ttl es h t); eauto).
      rewrite Hp in Hin. apply elem_of_cons in Hin as [<- |Hin]; [done|]. exfalso.
      rewrite list_elem_of_In in Hin. apply filter_In in Hin as [_ Hk2]. by rewrite bool_decide_eq_true_2 in Hk2.
    + intros Hl. assert (e ∈ contents es) as Hin by (rewrite Hp; by left).
      destruct (proj1 (follows_live ttl es h t now e Fo Hn) (conj Hin Hl)) as (m & ? & ? & ->).
      exists m. split_and!; try done; by apply replay_key_inj in Hk as [? ?].
  - apply not_true_iff_false. rewrite seen_spec. intros (m & Hm & Hr & <- & <-).
    assert (entry_of ttl m ∈ contents es) as Hin by (eapply (follows_live ttl es h t); eauto).
    apply Spec_find_None in Ef. rewrite Forall_forall in Ef. by specialize (Ef _ Hin).
Qed.

Lemma Permutation_follows ttl es es' h t :
  follows ttl es h t -> wf es' -> contents es' ≡ₚ contents es -> follows ttl es' h t.
Proof. intros [_ F] W Hp. split; [done|]. intros now Hn. rewrite Hp. by apply F. Qed.

(** Dropping an entry that is no longer live. *)
Lemma remove_dead now u (l : list (Entry bytes unit)) k e :
  NoDup (Key <$> l) -> Spec.find k l = Some e -> Spec.live now e = false -> now <= u ->
  List.filter (Spec.live u) (Spec.remove k l) ≡ₚ List.filter (Spec.live u) l.
Proof.
  intros Hnd Hf Hd Hu. destruct (Spec_find_Some _ _ _ Hnd Hf) as [_ Hp]. rewrite Hp at 2. simpl.
  replace (Spec.live u e) with false; [done|]. unfold Spec.live in *. apply Z.ltb_ge in Hd. symmetry. apply Z.ltb_ge. lia.
Qed.

Lemma follows_GetAt ttl es h t c n now :
  follows ttl es h t -> t <= now ->
  let '(v, es') := TTLLRU.GetAt (replay_key c n) now es in
  (if v is Some _ then true else false) = seen ttl h c n now /\ follows ttl es' h now /\
  TTLLRU.maxEntries es' = TTLLRU.maxEntries es /\ len (contents es') <= len (contents es).
Proof.
  intros Fo Hn. rewrite (follows_find _ _ _ _ _ _ _ Fo Hn). destruct (follows_later _ _ _ _ _ Fo Hn) as [W F].
  pose proof (wf_NoDup_contents _ W) as Hnd. pose proof (GetAt_spec es (replay_key c n) now W) as HG.
  destruct (TTLLRU.GetAt _ _ _) as [v es']. destruct HG as (W' & M & HG). simpl in HG.
  destruct (Spec.find _ _) as [e|] eqn:Ef; [destruct (Spec.live now e) eqn:El|]; injection HG as -> Ec.
  - pose proof (Spec_touch_Permutation _ _ _ Hnd Ef) as Ht. rewrite <- Ec in Ht.
    split_and!; [done| |done|].
    + by apply (Permutation_follows _ es).
    + unfold len. by rewrite Ht.
  - split_and!; [done| |done|].
    + split; [done|]. intros u Hu. rewrite Ec, (remove_dead now) by done. by apply F.
    + rewrite Ec. destruct (Spec_find_Some _ _ _ Hnd Ef) as [_ Hp]. unfold len. rewrite Hp at 2. simpl. lia.
  - split_and!; [done| |done|by rewrite Ec]. by apply (Permutation_follows _ es); rewrite ?Ec.
Qed.

Lemma follows_AddIfAbsent ttl es h t c n now :
  follows ttl es h t -> t <= now -> IsZero (now + ttl) = false ->
  len (contents es) < TTLLRU.maxEntries es ->
  let '(b, es') := TTLLRU.AddIfAbsent (replay_key c n) tt (now + ttl) now es in
  b = negb (seen ttl h c n now) /\
  follows ttl es' (if b then h ++ [mkMark c n now] else h) now /\
  TTLLRU.maxEntries es' = TTLLRU.maxEntries es /\
  len (contents es') <= len (contents es) + (if b then 1 else 0).
Proof.
  intros Fo Hn Hz Hlen. rewrite (follows_find _ _ _ _ _ _ _ Fo Hn). destruct (follows_later _ _ _ _ _ Fo Hn) as [W F].
  pose proof (wf_NoDup_contents _ W) as Hnd.
  pose proof (AddIfAbsent_spec es (replay_key c n) tt (now + ttl) now W) as HG.
  destruct (TTLLRU.AddIfAbsent _ _ _ _ _) as [b es']. destruct HG as (W' & M & HG). simpl in HG. rewrite Hz in HG.
  set (new := mkEntry (replay_key c n) tt (now + ttl)) in *.
  assert (forall l, contents es' = l ++ [new] ->
    (forall u, now <= u -> List.filter (Spec.live u) l ≡ₚ List.filter (Spec.live u) (contents es)) ->
    follows ttl es' (h ++ [mkMark c n now]) now) as Hadd.
  { intros l El Hl. split; [done|]. intros u Hu. rewrite El, !List.filter_app, fmap_app, (Hl u Hu), (F u Hu).
    apply Permutation_app_head. simpl. unfold Spec.live, remembered. simpl. by destruct (u <? now + ttl). }
  destruct (Spec.find _ _) as [e|] eqn:Ef; [destruct (Spec.live now e) eqn:El|]; injection HG as -> Ec.
  - pose proof (Spec_touch_Permutation _ _ _ Hnd Ef) as Ht. rewrite <- Ec in Ht.
    split_and!; [done| |done|].
    + by apply (Permutation_follows _ es).
    + unfold len. rewrite Ht. lia.
  - split_and!; [done| |done|].
    + apply (Hadd _ Ec). intros u Hu. by apply (remove_dead now _ _ _ e).
    + rewrite Ec, len_app. destruct (Spec_find_Some _ _ _ Hnd Ef) as [_ Hp]. unfold len. rewrite Hp at 2. simpl. lia.
  - rewrite Spec_make_room_id in Ec by done. split_and!; [done| |done|].
    + by apply (Hadd _ Ec).
    + rewrite Ec, len_app. unfold len. simpl. lia.
Qed.

Lemma follows_count ttl es h t now :
  follows ttl es h t -> t <= now -> len (List.filter (remembered ttl now) h) <= len (contents es).
Proof.
  intros [W F] Hn. unfold len. rewrite <- (length_fmap (entry_of ttl)), <- (F now Hn).
  pose proof (List.filter_length_le (Spec.live now) (contents es)). lia.
Qed.

(** The common end of both caches: refuse a full store, or try to add. *)
Lemma mark_full ttl es h t c n now :
  follows ttl es h t -> t <= now ->
  let '(v, es') := TTLLRU.GetAt (replay_key c n) now es in
  Some (if v is Some _ then auth_ErrReplayDetected else auth_ErrReplayCacheFull) =
    Some (if seen ttl h c n now then auth_ErrReplayDetected else auth_ErrReplayCacheFull) /\
  follows ttl es' h now /\ TTLLRU.maxEntries es' = TTLLRU.maxEntries es /\
  len (contents es') <= len (contents es).
Proof.
  intros Fo Hn. pose proof (follows_GetAt ttl es h t c n now Fo Hn) as HG.
  destruct (TTLLRU.GetAt _ _ _) as [v es']. destruct HG as (<- & ? & ? & ?). by destruct v.
Qed.

(** ** The in-memory cache *)

Section MemoryLaws.
Context (ttl max : Z) (Httl : 0 < ttl).

(** The invariant of [MemoryReplayCache]: the counter [active] never
    undercounts the stored entries and never exceeds the limit. *)
Record mem_inv (c : Memory.t) (h : list mark) (t : Z) : Prop := {
  mi_ttl : Memory.ttl c = ttl;
  mi_max : Memory.maxEntries c = max;
  mi_cap : TTLLRU.maxEntries (Memory.entries c) = max;
  mi_follows : follows ttl (Memory.entries c) h t;
  mi_active : len (contents (Memory.entries c)) <= Memory.active c <= max;
}.

Lemma mem_inv_later c h t u : mem_inv c h t -> t <= u -> mem_inv c h u.
Proof. intros [] Hu. split; try done. by eapply follows_later. Qed.

Lemma mem_inv_sweep c h t now x :
  mem_inv c h t -> t <= now ->
  let c' := Memory.set_nextSweep x (snd (Memory.sweepLocked now c)) in
  mem_inv c' h now /\ Memory.active c' = len (List.filter (remembered ttl now) h).
Proof.
  intros [Ht Hm Hc Hf Ha] Hn. destruct (follows_Sweep _ _ _ _ _ Hf Hn) as (F' & M' & L').
  unfold Memory.sweepLocked. destruct (TTLLRU.Sweep now (Memory.entries c)) as [k es'] eqn:E. cbn [snd] in *.
  split; [|exact L']. split; simpl; try done.
  - by rewrite M'.
  - rewrite <- (Len_spec _ (proj1 F')), L'. pose proof (follows_count _ _ _ _ _ Hf Hn). lia.
Qed.

Lemma mem_inv_prepared c h t now :
  mem_inv c h t -> t <= now ->
  let c' := Memory.sweep_if_full now (Memory.scheduled_sweep now c) in
  mem_inv c' h now /\
  (Memory.active c' < max \/ Memory.active c' = len (List.filter (remembered ttl now) h)).
Proof.
  intros I Hn. assert (mem_inv (Memory.scheduled_sweep now c) h now) as I1.
  { unfold Memory.scheduled_sweep. destruct (IsZero _).
    - destruct (mem_inv_later _ _ _ _ I Hn). by split.
    - destruct (negb _); [|by eapply mem_inv_later]. by eapply mem_inv_sweep. }
  cbv zeta. unfold Memory.sweep_if_full. rewrite (mi_max _ _ _ I1).
  destruct (Z.leb_spec max (Memory.active (Memory.scheduled_sweep now c))).
  - destruct (mem_inv_sweep _ _ _ now (now + Memory.sweepEvery
      (snd (Memory.sweepLocked now (Memory.scheduled_sweep now c)))) I1 ltac:(lia)) as [? ?]. auto.
  - split; [done|]. left. lia.
Qed.

#[export] Instance memory_replay_cache : ReplayCache (option Memory.t) := Memory.CheckAndMark.

#[export] Program Instance memory_replay_laws : ReplayLaws (option Memory.t) := {|
  rc_ttl := ttl; rc_max := max;
  rc_tracks p h t := exists c, p = Some c /\ mem_inv c h t;
|}.
Next Obligation.
  intros p h t c n now r p' (m & -> & I) Hn H0 E. cbv zeta. unfold check_and_mark, memory_replay_cache in E.
  cbn [Memory.CheckAndMark] in E. cbv zeta in E. destruct (mem_inv_prepared _ _ _ _ I Hn) as [I' Hact].
  set (m' := Memory.sweep_if_full now (Memory.scheduled_sweep now m)) in *. clearbody m'.
  destruct I' as [Ht Hm Hc Hf Ha]. rewrite Hm, Ht in E. pose proof (follows_count _ _ _ _ _ Hf (Z.le_refl now)).
  destruct (Z.leb_spec max (Memory.active m')) as [Hfull|Hroom].
  - pose proof (mark_full _ _ _ _ c n _ Hf (Z.le_refl now)) as HG. destruct (TTLLRU.GetAt _ _ _) as [v es'].
    destruct HG as (HG & F' & M' & L'). injection E as E <-. rewrite HG in E. subst r.
    assert (exists c0, Some (Memory.set_entries es' m') = Some c0 /\ mem_inv c0 h now) as Hi.
    { eexists. split; [done|]. split; simpl; try done; lia. }
    destruct (seen _ _ _ _ _); [done|]. by rewrite (proj2 (Z.leb_le _ _)) by lia.
  - assert (IsZero (now + ttl) = false) as Hz by (apply bool_decide_eq_false; unfold zero_time; lia).
    pose proof (follows_AddIfAbsent _ _ _ _ c n _ Hf (Z.le_refl now) Hz ltac:(lia)) as HG.
    destruct (TTLLRU.AddIfAbsent _ _ _ _ _) as [b es']. destruct HG as (-> & F' & M' & L').
    destruct (seen _ _ _ _ _); simpl in *; injection E as <- <-.
    + split; [done|]. eexists. split; [done|]. split; simpl; try done; lia.
    + rewrite (proj2 (Z.leb_gt _ _)) by lia. split; [done|]. eexists. split; [done|]. split; simpl; try done; lia.
Qed.

End MemoryLaws.

Lemma mem_tracks_New ttl max :
  0 < ttl -> 0 < max -> mem_inv ttl max (Memory.NewMemoryReplayCacheWithLimit ttl max) [] 0.
Proof.
  intros Ht Hm. unfold Memory.NewMemoryReplayCacheWithLimit. rewrite !(proj2 (Z.leb_gt _ 0)) by lia.
  split; try done; simpl.
  - by rewrite (proj2 (Z.leb_gt _ 0)) by lia.
  - apply follows_New.
  - unfold len. simpl. lia.
Qed.

(** ** The SYN replay cache *)

Section SynLaws.
Context (ttl : Z) (Httl : 0 < ttl).

Record syn_inv (c : Syn.t) (h : list mark) (t : Z) : Prop := {
  si_ttl : Syn.ttl c = ttl;
  si_cap : TTLLRU.maxEntries (Syn.entries c) = Syn.maxEntries c;
  si_max : Syn.maxEntries c = Syn.defaultSYNReplayCacheMaxEntries;
  si_follows : follows ttl (Syn.entries c) h t;
}.

Lemma syn_inv_later c h t u : syn_inv c h t -> t <= u -> syn_inv c h u.
Proof. intros [] Hu. split; try done. by eapply follows_later. Qed.

Lemma syn_inv_sweep c h t now :
  syn_inv c h t -> t <= now ->
  syn_inv (Syn.sweep_now now c) h now /\
  TTLLRU.Len (Syn.entries (Syn.sweep_now now c)) = len (List.filter (remembered ttl now) h).
Proof.
  intros [Ht Hm Hx Hf] Hn. destruct (follows_Sweep _ _ _ _ _ Hf Hn) as (F' & M' & L').
  split; [|exact L']. split; simpl; try done. by rewrite M'.
Qed.

Lemma syn_inv_prepared c h t now :
  syn_inv c h t -> t <= now ->
  let c' := Syn.sweep_if_full now (Syn.scheduled_sweep now c) in
  syn_inv c' h now /\
  (TTLLRU.Len (Syn.entries c') < Syn.maxEntries c' \/
   TTLLRU.Len (Syn.entries c') = len (List.filter (remembered ttl now) h)).
Proof.
  intros I Hn. assert (syn_inv (Syn.scheduled_sweep now c) h now) as I1.
  { unfold Syn.scheduled_sweep. destruct (IsZero _).
    - destruct (syn_inv_later _ _ _ _ I Hn). by split.
    - destruct (negb _); [|by eapply syn_inv_later]. by eapply syn_inv_sweep. }
  cbv zeta. unfold Syn.sweep_if_full.
  destruct (Z.leb_spec (Syn.maxEntries (Syn.scheduled_sweep now c))
             (TTLLRU.Len (Syn.entries (Syn.scheduled_sweep now c)))).
  - destruct (syn_inv_sweep _ _ _ now I1 ltac:(lia)) as [? ?]. auto.
  - split; [done|]. left. lia.
Qed.

#[export] Instance syn_replay_cache : ReplayCache (option Syn.t) := Syn.CheckAndMark.

#[export] Program Instance syn_replay_laws : ReplayLaws (option Syn.t) := {|
  rc_ttl := ttl; rc_max := Syn.defaultSYNReplayCacheMaxEntries;
  rc_tracks p h t := exists c, p = Some c /\ syn_inv c h t;
|}.
Next Obligation.
  intros p h t c n now r p' (m & -> & I) Hn H0 E. cbv zeta. unfold check_and_mark, syn_replay_cache in E.
  cbn [Syn.CheckAndMark] in E. cbv zeta in E. destruct (syn_inv_prepared _ _ _ _ I Hn) as [I' Hact].
  set (m' := Syn.sweep_if_full now (Syn.scheduled_sweep now m)) in *. clearbody m'.
  destruct I' as [Ht Hm Hx Hf]. rewrite Ht, <- Hx in *. pose proof (follows_count _ _ _ _ _ Hf (Z.le_refl now)).
  rewrite (Len_spec _ (proj1 Hf)) in *.
  destruct (Z.leb_spec (Syn.maxEntries m') (len (contents (Syn.entries m')))) as [Hfull|Hroom].
  - pose proof (mark_full _ _ _ _ c n _ Hf (Z.le_refl now)) as HG. destruct (TTLLRU.GetAt _ _ _) as [v es'].
    destruct HG as (HG & F' & M' & L'). injection E as E <-. rewrite HG in E. subst r.
    assert (exists c0, Some (Syn.set_entries es' m') = Some c0 /\ syn_inv c0 h now) as Hi.
    { eexists. split; [done|]. split; simpl; try done; congruence. }
    destruct (seen _ _ _ _ _); [done|]. by rewrite (proj2 (Z.leb_le _ _)) by lia.
  - assert (IsZero (now + ttl) = false) as Hz by (apply bool_decide_eq_false; unfold zero_time; lia).
    pose proof (follows_AddIfAbsent _ _ _ _ c n _ Hf (Z.le_refl now) Hz ltac:(lia)) as HG.
    destruct (TTLLRU.AddIfAbsent _ _ _ _ _) as [b es']. destruct HG as (-> & F' & M' & L').
    destruct (seen _ _ _ _ _); simpl in *; injection E as <- <-.
    + split; [done|]. eexists. split; [done|]. split; simpl; try done; congruence.
    + rewrite (proj2 (Z.leb_gt _ _)) by lia. split; [done|]. eexists. split; [done|]. split; simpl; try done; congruence.
Qed.

End SynLaws.

(** * Runs *)

(** What a history-keeping cache answers to a sequence of calls. *)
Fixpoint spec_marks (ttl max : Z) (h calls : list mark) : list (option error) :=
  match calls with
  | [] => []
  | m :: calls =>
      let now := m_time m in
      if seen ttl h (m_client m) (m_nonce m) now
      then Some auth_ErrReplayDetected :: spec_marks ttl max h calls
      else if Z.leb max (len (List.filter (remembered ttl now) h))
      then Some auth_ErrReplayCacheFull :: spec_marks ttl max h calls
      else None :: spec_marks ttl max (h ++ [m]) calls
  end.

Section Runs.
Context {S : Type} `{ReplayCache S}.

Fixpoint run_marks (calls : list mark) (s : S) : list (option error) * S :=
  match calls with
  | [] => ([], s)
  | m :: calls =>
      let '(r, s) := check_and_mark (m_client m) (m_nonce m) (m_time m) s in
      let '(rs, s) := run_marks calls s in (r :: rs, s)
  end.

(** The calls are made at the non-decreasing times of a clock that reads at
    least [t]. *)
Fixpoint clocked (t : Z) (calls : list mark) : Prop :=
  match calls with
  | [] => True
  | m :: calls => t <= m_time m /\ clocked (m_time m) calls
  end.

Lemma run_marks_spec `{L : !ReplayLaws S} calls : forall s h t,
  rc_tracks s h t -> 0 <= t -> clocked t calls -> (run_marks calls s).1 = spec_marks rc_ttl rc_max h calls.
Proof.
  induction calls as [|m calls IH]; intros s h t Ht H0 Hc; simpl; [done|]. destruct Hc as [Hm Hc].
  destruct (check_and_mark (m_client m) (m_nonce m) (m_time m) s) as [r s'] eqn:E.
  pose proof (rc_step _ _ _ _ _ _ _ _ Ht Hm ltac:(lia) E) as Hs. cbv zeta in Hs.
  pose proof (fun h' => IH s' h' (m_time m)) as IH'. clear IH. destruct (run_marks calls s') as [rs s'']. simpl in *.
  destruct (seen _ _ _ _ _); [|destruct (Z.leb _ _)]; destruct Hs as [-> Hs];
    rewrite (IH' _ Hs ltac:(lia) Hc); by destruct m.
Qed.

End Runs.

(** * Properties *)

(** Property C25. The auth replay cache is exact: over any sequence of calls
    whose clock does not go back, from a new cache of any positive TTL and
    size, [CheckAndMark] answers [ErrReplayDetected] exactly when the same nonce
    of the same client was accepted less than one TTL ago,
    [ErrReplayCacheFull] exactly when that many accepted nonces are still
    remembered, and accepts otherwise. In particular the bounded LRU store
    never drops a nonce that is still remembered. *)
Theorem memory_replay_exact (ttl max : Z) (calls : list mark) :
  0 < ttl -> 0 < max -> clocked 0 calls ->
  (run_marks calls (Some (Memory.NewMemoryReplayCacheWithLimit ttl max))).1 = spec_marks ttl max [] calls.
Proof.
  intros Ht Hm Hc. apply (run_marks_spec (L := memory_replay_laws ttl max Ht) calls _ [] 0); [|lia|done].
  eexists. split; [done|]. by apply mem_tracks_New.
Qed.

Definition ex_calls : list mark :=
  [mkMark (str "a") [Byte.x01] 10; mkMark (str "a") [Byte.x01] 19; mkMark (str "b") [Byte.x01] 19;
   mkMark (str "c") [Byte.x01] 19; mkMark (str "a") [Byte.x01] 20].

Lemma memory_replay_exact_witness :
  (run_marks ex_calls (Some (Memory.NewMemoryReplayCacheWithLimit 10 2))).1 =
  [None; Some auth_ErrReplayDetected; None; Some auth_ErrReplayCacheFull; None].
Proof. rewrite (memory_replay_exact 10 2 ex_calls); [reflexivity|lia|lia|]. simpl. lia. Defined.

(** The SYN replay cache answers the same way: a nonce is refused
    exactly while it is remembered, and the cache is full exactly when 65536
    nonces are. *)
Theorem syn_replay_exact (ttl : Z) (calls : list mark) :
  0 < ttl -> clocked 0 calls ->
  (run_marks calls (Some (Syn.newSYNReplayCache ttl))).1 = spec_marks ttl 65536 [] calls.
Proof.
  intros Ht Hc. apply (run_marks_spec (L := syn_replay_laws ttl Ht) calls _ [] 0); [|lia|done].
  eexists. split; [done|]. unfold Syn.newSYNReplayCache. rewrite (proj2 (Z.leb_gt _ 0)) by lia.
  split; try done. apply follows_New.
Qed.

Lemma syn_replay_exact_witness :
  (run_marks ex_calls (Some (Syn.newSYNReplayCache 10))).1 =
  [None; Some auth_ErrReplayDetected; None; None; None].
Proof. rewrite (syn_replay_exact 10 ex_calls); [reflexivity|lia|]. simpl. lia. Defined.

(** Every TTL the knock listeners, the gateways and knock-proxy
    choose is longer than the whole span, twice the window, in which one frame
    can be accepted, for any window up to 2^61 ns (about 73 years). *)
Theorem replay_ttl_covers_window (window configured : Z) :
  0 < window <= 2 ^ 61 ->
  2 * window < KnockReplayTTL window /\ 2 * window < replayCache_ttl window /\
  2 * window < authReplayTTL configured window.
Proof.
  intros Hw. unfold KnockReplayTTL, replayCache_ttl, authReplayTTL, DefaultKnockReplayTTL, Second, Minute.
  assert (forall v, is_int64 v -> int64 v = v) as Hid.
  { intros v Hv. unfold int64, is_int64 in *. rewrite Z.mod_small; lia. }
  rewrite !(proj2 (Z.leb_gt window 0)), !(proj2 (Z.ltb_lt 0 window)) by lia.
  rewrite (Hid (2 * window)), (Hid (2 * window + 10 ^ 9)) by (unfold is_int64; lia).
  cbn [andb]. zcases; lia.
Qed.

Lemma replay_ttl_covers_window_witness :
  2 * (90 * Second) < KnockReplayTTL (90 * Second) /\ 2 * (90 * Second) < replayCache_ttl (90 * Second) /\
  2 * (90 * Second) < authReplayTTL (3 * Minute) (90 * Second).
Proof. apply (replay_ttl_covers_window (90 * Second) (3 * Minute)). unfold Second. lia. Defined.
