(* ===== verification/Net.v ===== *)
(** Addresses: the parts of [net], [net/netip] and [strconv] the sources use,
    internal/gatewaycore/addr.go, and internal/iplimit, which groups sources
    for rate limits and caps the connections of one source. *)

From Stdlib Require Import ZArith Lia String.
From Stdlib Require Strings.Byte.
From stdpp Require Import base list gmap strings.
From S2P Require Import Prelude GoStd.

Open Scope Z_scope.

(** * Strings *)

Definition colon : byte := Byte.x3a.
Definition dot : byte := Byte.x2e.
Definition slash : byte := Byte.x2f.
Definition lbracket : byte := Byte.x5b.
Definition rbracket : byte := Byte.x5d.
Definition percent : byte := Byte.x25.

(** [strings.IndexByte] and [strings.LastIndexByte], [None] for -1. *)
Fixpoint IndexByte (s : bytes) (c : byte) : option nat :=
  match s with
  | [] => None
  | b :: s => if bool_decide (b = c) then Some 0%nat else S <$> IndexByte s c
  end.

Fixpoint LastIndexByte (s : bytes) (c : byte) : option nat :=
  match s with
  | [] => None
  | b :: s =>
      match LastIndexByte s c with
      | Some i => Some (S i)
      | None => if bool_decide (b = c) then Some 0%nat else None
      end
  end.

Definition has_byte (s : bytes) (c : byte) : bool := if IndexByte s c is Some _ then true else false.

(** [net.SplitHostPort] *)
Definition SplitHostPort (hostport : bytes) : option (bytes * bytes) :=
  match LastIndexByte hostport colon with
  | None => None
  | Some i =>
      let port := drop (S i) hostport in
      if bool_decide (nth 0 hostport Byte.x00 = lbracket) then
        match IndexByte hostport rbracket with
        | None => None
        | Some e =>
            if negb (Nat.eqb (S e) i) then None
            else if has_byte (drop 1 hostport) lbracket || has_byte (drop (S e) hostport) rbracket then None
            else Some (slice 1 e hostport, port)
        end
      else
        let host := take i hostport in
        if has_byte host colon then None
        else if has_byte hostport lbracket || has_byte hostport rbracket then None
        else Some (host, port)
  end.

(** [net.JoinHostPort] *)
Definition JoinHostPort (host port : bytes) : bytes :=
  if has_byte host colon then str "[" ++ host ++ str "]:" ++ port else host ++ str ":" ++ port.

Definition digit_val (b : byte) : option Z :=
  let v := byte_val b in if Z.leb 48 v && Z.leb v 57 then Some (v - 48) else None.

Fixpoint digits_val (acc : Z) (s : bytes) : option Z :=
  match s with
  | [] => Some acc
  | b :: s => match digit_val b with Some d => digits_val (acc * 10 + d) s | None => None end
  end.

(** [strconv.Atoi]: an optional sign, then digits, within the range of [int]. *)
Definition Atoi (s : bytes) : option Z :=
  let '(neg, ds) :=
    match s with
    | b :: t => if bool_decide (b = Byte.x2d) then (true, t)
                else if bool_decide (b = Byte.x2b) then (false, t) else (false, s)
    | [] => (false, [])
    end in
  if bool_decide (ds = []) then None
  else
    match digits_val 0 ds with
    | None => None
    | Some n =>
        let n := if neg : bool then - n else n in
        if Z.leb (- 2 ^ 63) n && Z.ltb n (2 ^ 63) then Some n else None
    end.

(** * netip.Addr *)

(** The zero [Addr], an IPv4 address (4 bytes) and an IPv6 address (16 bytes)
    with its zone. *)
Inductive netip_Addr :=
| AddrZero
| Addr4 (ip : bytes)
| Addr6 (ip : bytes) (zone : bytes).

#[export] Instance netip_Addr_eq_dec : EqDecision netip_Addr.
Proof. solve_decision. Defined.

#[export] Instance netip_Addr_countable : Countable netip_Addr.
Proof.
  refine (inj_countable'
    (fun a => match a with AddrZero => inl (inl ()) | Addr4 ip => inl (inr ip) | Addr6 ip z => inr (ip, z) end)
    (fun x => match x with inl (inl ()) => AddrZero | inl (inr ip) => Addr4 ip | inr (ip, z) => Addr6 ip z end) _).
  by intros [].
Defined.

Definition AddrFromSlice (ip : bytes) : option netip_Addr :=
  if Nat.eqb (length ip) 4 then Some (Addr4 ip)
  else if Nat.eqb (length ip) 16 then Some (Addr6 ip [])
  else None.

Definition v4_in_v6_prefix : bytes := zeros 10 ++ [Byte.xff; Byte.xff].

Definition Is4In6 (ip : bytes) : bool := bool_decide (take 12 ip = v4_in_v6_prefix).

Definition Unmap (a : netip_Addr) : netip_Addr :=
  match a with Addr6 ip _ => if Is4In6 ip then Addr4 (drop 12 ip) else a | _ => a end.

(** [a.WithZone("")] *)
Definition NoZone (a : netip_Addr) : netip_Addr :=
  match a with Addr6 ip _ => Addr6 ip [] | _ => a end.

Definition Is4 (a : netip_Addr) : bool := match a with Addr4 _ => true | _ => false end.

(** A byte in decimal and a 16-bit group in hexadecimal, without leading
    zeros. *)
Definition dec_byte (v : Z) : bytes :=
  (if Z.leb 100 v then [byte_of (48 + v / 100)] else [])
    ++ (if Z.leb 10 v then [byte_of (48 + v / 10 mod 10)] else []) ++ [byte_of (48 + v mod 10)].

Definition hex_group (v : Z) : bytes :=
  (if Z.leb 4096 v then [hex_digit (v / 4096)] else [])
    ++ (if Z.leb 256 v then [hex_digit (v / 256 mod 16)] else [])
    ++ (if Z.leb 16 v then [hex_digit (v / 16 mod 16)] else []) ++ [hex_digit (v mod 16)].

Definition string4 (ip : bytes) : bytes :=
  dec_byte (byte_val (nth 0 ip Byte.x00)) ++ dot :: dec_byte (byte_val (nth 1 ip Byte.x00))
    ++ dot :: dec_byte (byte_val (nth 2 ip Byte.x00)) ++ dot :: dec_byte (byte_val (nth 3 ip Byte.x00)).

(** The eight groups of an IPv6 address. *)
Definition groups6 (ip : bytes) : list Z :=
  (fun i => be_get (slice (2 * i) (2 * i + 2) ip)) <$> seq 0 8.

Fixpoint zero_run (gs : list Z) : nat :=
  match gs with g :: gs => if Z.eqb g 0 then S (zero_run gs) else 0%nat | [] => 0%nat end.

(** The first longest run of at least two zero groups: its start and length. *)
Fixpoint longest_zeros (i : nat) (gs : list Z) (best : nat * nat) : nat * nat :=
  match gs with
  | [] => best
  | g :: gs' =>
      let l := zero_run gs in
      longest_zeros (S i) gs' (if Nat.leb 2 l && Nat.ltb (snd best) l then (i, l) else best)
  end.

Fixpoint join_groups (gs : list Z) : bytes :=
  match gs with
  | [] => []
  | [g] => hex_group g
  | g :: gs => hex_group g ++ colon :: join_groups gs
  end.

Definition string6 (ip : bytes) : bytes :=
  let gs := groups6 ip in
  let '(start, n) := longest_zeros 0 gs (0%nat, 0%nat) in
  if Nat.eqb n 0 then join_groups gs
  else join_groups (take start gs) ++ [colon; colon] ++ join_groups (drop (start + n) gs).

Definition Addr_String (a : netip_Addr) : bytes :=
  match a with
  | AddrZero => str "invalid IP"
  | Addr4 ip => string4 ip
  | Addr6 ip zone =>
      (if Is4In6 ip then str "::ffff:" ++ string4 (drop 12 ip) else string6 ip)
        ++ (if bool_decide (zone = []) then [] else percent :: zone)
  end.

(** [ip.Prefix(64)] of an IPv6 address without a zone, printed. *)
Definition Prefix64_String (ip : bytes) : bytes :=
  Addr_String (Addr6 (take 8 ip ++ zeros 8) []) ++ str "/64".

(** ** Parsing *)

Definition hex_val (b : byte) : option Z :=
  let v := byte_val b in
  if Z.leb 48 v && Z.leb v 57 then Some (v - 48)
  else if Z.leb 97 v && Z.leb v 102 then Some (v - 87)
  else if Z.leb 65 v && Z.leb v 70 then Some (v - 55)
  else None.

(** [parseIPv4Fields]: four decimal fields of at most 255 without leading
    zeros. [cur] is the field being read, [None] before its first digit. *)
Fixpoint parse4 (s : bytes) (cur : option Z) (fields : list Z) : option (list Z) :=
  match s with
  | [] => match cur with Some v => if Nat.eqb (length fields) 3 then Some (fields ++ [v]) else None | None => None end
  | b :: s =>
      if bool_decide (b = dot) then
        match cur with
        | Some v => if Nat.ltb (length fields) 3 then parse4 s None (fields ++ [v]) else None
        | None => None
        end
      else
        match digit_val b, cur with
        | Some d, None => parse4 s (Some d) fields
        | Some d, Some v =>
            if Z.eqb v 0 || Z.ltb 255 (v * 10 + d) then None else parse4 s (Some (v * 10 + d)) fields
        | None, _ => None
        end
  end.

Definition parse4_bytes (s : bytes) : option bytes :=
  match parse4 s None [] with Some vs => Some (byte_of <$> vs) | None => None end.

(** A hexadecimal group of at most four digits: its value, its number of
    digits and the rest. *)
Fixpoint parse_group (s : bytes) (off : nat) (acc : Z) : option (Z * nat * bytes) :=
  match s with
  | b :: s' =>
      match hex_val b with
      | Some d => if Nat.ltb 3 off then None else parse_group s' (S off) (acc * 16 + d)
      | None => Some (acc, off, s)
      end
  | [] => Some (acc, off, [])
  end.

(** The loop of [parseIPv6] after a leading "::": the groups read so far
    ([ip], as bytes), the position of the ellipsis and the rest. *)
Fixpoint parse6 (fuel : nat) (s ip : bytes) (ellipsis : option nat) : option (bytes * option nat * bytes) :=
  match fuel with
  | O => Some (ip, ellipsis, s)
  | S fuel =>
      match parse_group s 0 0 with
      | None => None
      | Some (acc, off, s') =>
          if Nat.eqb off 0 then None
          else if bool_decide (head s' = Some dot) then
            if bool_decide (ellipsis = None) && negb (Nat.eqb (length ip) 12) then None
            else if Nat.ltb 16 (length ip + 4) then None
            else match parse4_bytes s with Some f => Some (ip ++ f, ellipsis, []) | None => None end
          else
            let ip := ip ++ be_put 2 acc in
            match s' with
            | [] => Some (ip, ellipsis, [])
            | c :: t =>
                if negb (bool_decide (c = colon)) then None
                else
                  match t with
                  | [] => None
                  | c2 :: t' =>
                      if bool_decide (c2 = colon) then
                        if bool_decide (ellipsis = None) then
                          let ellipsis := Some (length ip) in
                          if bool_decide (t' = []) then Some (ip, ellipsis, [])
                          else if Nat.ltb (length ip) 16 then parse6 fuel t' ip ellipsis else Some (ip, ellipsis, t')
                        else None
                      else if Nat.ltb (length ip) 16 then parse6 fuel t ip ellipsis else Some (ip, ellipsis, t)
                  end
            end
      end
  end.

Definition finish6 (ip : bytes) (ellipsis : option nat) (rest zone : bytes) : option netip_Addr :=
  if negb (bool_decide (rest = [])) then None
  else if Nat.ltb (length ip) 16 then
    match ellipsis with
    | None => None
    | Some e => Some (Addr6 (take e ip ++ zeros (16 - length ip) ++ drop e ip) zone)
    end
  else match ellipsis with Some _ => None | None => Some (Addr6 ip zone) end.

Definition parseIPv6 (input : bytes) : option netip_Addr :=
  let '(s, zone) :=
    match IndexByte input percent with
    | Some i => (take i input, Some (drop (S i) input))
    | None => (input, None)
    end in
  if bool_decide (zone = Some []) then None
  else
    let zone := default [] zone in
    let leading := bool_decide (take 2 s = [colon; colon]) in
    let s := if leading then drop 2 s else s in
    if leading && bool_decide (s = []) then Some (Addr6 (zeros 16) zone)
    else
      match parse6 8 s [] (if leading then Some 0%nat else None) with
      | Some (ip, ellipsis, rest) => finish6 ip ellipsis rest zone
      | None => None
      end.

(** [netip.ParseAddr]: the first '.', ':' or '%' decides the family. *)
Fixpoint parse_family (rest s : bytes) : option netip_Addr :=
  match rest with
  | [] => None
  | b :: rest =>
      if bool_decide (b = dot) then Addr4 <$> parse4_bytes s
      else if bool_decide (b = colon) then parseIPv6 s
      else if bool_decide (b = percent) then None
      else parse_family rest s
  end.

Definition ParseAddr (s : bytes) : option netip_Addr := parse_family s s.

(** * net.Addr *)

(** The dynamic types of a non-nil [net.Addr]: a TCP or UDP address (IP bytes
    and port), or any other type by its [Network()] and [String()]. *)
Inductive net_Addr :=
| TCPAddr (ip : bytes) (port : Z)
| UDPAddr (ip : bytes) (port : Z)
| OtherAddr (network text : bytes).

#[export] Instance net_Addr_eq_dec : EqDecision net_Addr.
Proof. solve_decision. Defined.

Definition ip_text (ip : bytes) : bytes :=
  if bool_decide (ip = []) then [] else default (str "?" ++ hex_EncodeToString ip) (Addr_String ∘ Unmap <$> AddrFromSlice ip).

Definition NetAddr_Network (a : net_Addr) : bytes :=
  match a with TCPAddr _ _ => str "tcp" | UDPAddr _ _ => str "udp" | OtherAddr n _ => n end.

Definition NetAddr_String (a : net_Addr) : bytes :=
  match a with
  | TCPAddr ip port | UDPAddr ip port => JoinHostPort (ip_text ip) (itoa port)
  | OtherAddr _ t => t
  end.

(** ** internal/gatewaycore/addr.go *)

Definition ListenerPort (addr : option net_Addr) : Z :=
  match addr with Some (TCPAddr _ port) => port | _ => 0 end.

(** The error of [Atoi] is dropped; [Atoi] returns 0 with a syntax error and
    the nearest [int] with a range error. *)
Definition Atoi_value (s : bytes) : Z :=
  match Atoi s with
  | Some n => n
  | None =>
      let '(neg, ds) := match s with
        | b :: t => if bool_decide (b = Byte.x2d) then (true, t)
                    else if bool_decide (b = Byte.x2b) then (false, t) else (false, s)
        | [] => (false, []) end in
      match (if bool_decide (ds = []) then None else digits_val 0 ds) with
      | Some _ => if neg : bool then - 2 ^ 63 else 2 ^ 63 - 1
      | None => 0
      end
  end.

Definition ListenerPortFromString (addr : bytes) : Z :=
  match SplitHostPort addr with None => 0 | Some (_, p) => Atoi_value p end.

Definition UDPListenStringForKnockPort (addr : bytes) (knockPort : Z) : bytes :=
  if Z.leb knockPort 0 then addr
  else match SplitHostPort addr with None => addr | Some (host, _) => JoinHostPort host (itoa knockPort) end.

Definition UDPListenForKnockPort (addr : net_Addr) (knockPort : Z) : bytes :=
  if Z.leb knockPort 0 then NetAddr_String addr
  else
    match SplitHostPort (NetAddr_String addr) with
    | None => NetAddr_String addr
    | Some (host, _) => JoinHostPort host (itoa knockPort)
    end.

Definition AddrFromIP (ip : bytes) : option netip_Addr := Unmap <$> AddrFromSlice ip.

Definition AddrFromNet (addr : option net_Addr) : option netip_Addr :=
  match addr with
  | Some (TCPAddr ip _) => Unmap <$> AddrFromSlice ip
  | None => None
  | Some a =>
      match SplitHostPort (NetAddr_String a) with
      | None => None
      | Some (host, _) => Unmap <$> ParseAddr host
      end
  end.

(** auth/net.go *)
Definition effectivePort (configured : Z) (addr : option net_Addr) : Z :=
  if Z.ltb 0 configured then configured
  else
    match addr with
    | Some (TCPAddr _ port) => port
    | None => 0
    | Some a =>
        match SplitHostPort (NetAddr_String a) with
        | None => 0
        | Some (_, port) =>
            match Atoi port with
            | None => 0
            | Some n => if Z.ltb n 0 || Z.ltb 65535 n then 0 else n
            end
        end
    end.

(** * internal/iplimit *)

Definition IPv6PrefixBits : Z := 64.

Definition KeyFromAddr (ip : netip_Addr) : bytes :=
  match NoZone (Unmap ip) with
  | Addr4 ip => Addr_String (Addr4 ip)
  | Addr6 ip _ => Prefix64_String ip
  | AddrZero => Addr_String AddrZero
  end.

Definition addrIP (addr : option net_Addr) : option netip_Addr :=
  match addr with
  | None => None
  | Some (TCPAddr ip _) => AddrFromSlice ip
  | Some (UDPAddr ip _) => AddrFromSlice ip
  | Some a =>
      let host := match SplitHostPort (NetAddr_String a) with Some (h, _) => h | None => NetAddr_String a end in
      ParseAddr host
  end.

Definition Key (addr : option net_Addr) : option bytes := KeyFromAddr <$> addrIP addr.

(** auth/server.go [policyKey] *)
Definition policyKey (addr : option net_Addr) : bytes :=
  match addr with
  | None => str "unknown:nil"
  | Some a =>
      match Key addr with
      | Some key => key
      | None =>
          match a with
          | TCPAddr _ _ => str "unknown:tcp"
          | _ =>
              if bool_decide (NetAddr_String a = []) then str "unknown:" ++ NetAddr_Network a
              else NetAddr_Network a ++ str ":" ++ NetAddr_String a
          end
      end
  end.

Example key_v6 :
  Key (Some (OtherAddr (str "x") (str "[2001:db8:1:2:aaaa::1%eth0]:7"))) = Some (str "2001:db8:1:2::/64").
Proof. vm_compute. reflexivity. Qed.

Example key_v4 : Key (Some (OtherAddr [] (str "::ffff:192.0.2.1"))) = Some (str "192.0.2.1").
Proof. vm_compute. reflexivity. Qed.

Example parse_bad :
  ParseAddr (str "1.2.3.04") = None /\ ParseAddr (str "1::2::3") = None /\ ParseAddr (str "1:2:3:4:5:6:7:8:9") = None
  /\ ParseAddr (str "12345::") = None /\ ParseAddr (str "::1%") = None /\ Atoi (str "-0x1") = None.
Proof. vm_compute. done. Qed.

(** ** The connection limiter *)

Module IPLimit.

(** [n] counts the open connections of a source. *)
Record Limiter := mk { max : Z; n : gmap bytes Z }.

Definition New (max : Z) : option Limiter := if Z.leb max 0 then None else Some (mk max ∅).

(** A release function: it does nothing, or it is the closure over a key with
    its [sync.Once]. *)
Inductive release :=
| Noop
| Lease (key : bytes) (done : bool).

(** [Acquire]: [None] is a refusal. *)
Definition Acquire (addr : option net_Addr) (l : option Limiter) : option release * option Limiter :=
  match l with
  | None => (Some Noop, l)
  | Some l =>
      match Key addr with
      | None => (Some Noop, Some l)
      | Some key =>
          let cur := default 0 (n l !! key) in
          if Z.leb (max l) cur then (None, Some l)
          else (Some (Lease key false), Some (mk (max l) (<[key := cur + 1]> (n l))))
      end
  end.

(** A call of a release function. *)
Definition Release (r : release) (l : option Limiter) : release * option Limiter :=
  match r, l with
  | Lease key false, Some l =>
      let cur := default 0 (n l !! key) in
      (Lease key true,
       Some (mk (max l) (if Z.leb cur 1 then delete key (n l) else <[key := cur - 1]> (n l))))
  | _, _ => (r, l)
  end.

(** A server that accepts and closes connections: the limiter and the release
    functions of the accepted connections. *)
Record world := mkWorld { lim : option Limiter; held : list release }.

Inductive event :=
| EAccept (addr : option net_Addr)
| EClose (i : nat).

(** The answer is whether a connection was accepted. *)
Definition step (w : world) (e : event) : bool * world :=
  match e with
  | EAccept addr =>
      match Acquire addr (lim w) with
      | (Some r, l) => (true, mkWorld l (held w ++ [r]))
      | (None, l) => (false, mkWorld l (held w))
      end
  | EClose i =>
      match held w !! i with
      | Some r => let '(r', l) := Release r (lim w) in (true, mkWorld l (<[i := r']> (held w)))
      | None => (false, w)
      end
  end.

Definition run (w : world) (es : list event) : world := fold_left (fun w e => snd (step w e)) es w.

(** Open connections of a source. *)
Definition is_open (k : bytes) (r : release) : bool :=
  match r with Lease key false => bool_decide (key = k) | _ => false end.

Definition open_conns (k : bytes) (w : world) : Z := len (List.filter (is_open k) (held w)).

(** The counter of every source is its number of open connections, at most the
    limit, and sources without connections have no entry. *)
Definition inv (m : Z) (w : world) : Prop :=
  exists l, lim w = Some l /\ max l = m /\
  forall k, n l !! k = (if Z.eqb (open_conns k w) 0 then None else Some (open_conns k w)) /\ open_conns k w <= m.

Lemma open_conns_nonneg k w : 0 <= open_conns k w.
Proof. apply len_nonneg. Qed.

Lemma cur_open m w l k : lim w = Some l -> inv m w -> default 0 (n l !! k) = open_conns k w.
Proof.
  intros Hl (l' & Hl' & _ & Hk). rewrite Hl in Hl'. injection Hl' as <-. destruct (Hk k) as [-> _].
  destruct (Z.eqb_spec (open_conns k w) 0); simpl; lia.
Qed.

Lemma filter_snoc_len {A} (p : A -> bool) (l : list A) x :
  len (List.filter p (l ++ [x])) = len (List.filter p l) + (if p x then 1 else 0).
Proof. rewrite List.filter_app, len_app. simpl. by destruct (p x). Qed.

Lemma filter_insert_len {A} (p : A -> bool) (l : list A) i x y :
  l !! i = Some x ->
  len (List.filter p (<[i := y]> l)) =
  len (List.filter p l) - (if p x then 1 else 0) + (if p y then 1 else 0).
Proof.
  intros Hi. rewrite (insert_take_drop l i y) by by eapply lookup_lt_Some.
  rewrite <- (take_drop_middle l i x Hi) at 3. rewrite !List.filter_app, !len_app. simpl.
  destruct (p x), (p y); unfold len; simpl; lia.
Qed.

Lemma step_inv m w e : 0 < m -> inv m w -> inv m (snd (step w e)).
Proof.
  intros Hm I. pose proof I as (l & Hl & Hmax & Hk). destruct e as [addr|i]; simpl.
  - unfold Acquire. rewrite Hl. destruct (Key addr) as [key|] eqn:Ek; simpl.
    + rewrite (cur_open m w l) by done. rewrite Hmax. destruct (Z.leb_spec m (open_conns key w)); simpl.
      * eexists. split; [done|]. split; [done|]. exact Hk.
      * eexists. split; [done|]. split; [done|]. intros k. unfold open_conns in *. simpl.
        rewrite filter_snoc_len. simpl. pose proof (open_conns_nonneg key w). pose proof (Hk k) as [Ek' Hle].
        unfold open_conns in *. destruct (decide (key = k)) as [->|Hne].
        -- rewrite lookup_insert_eq, bool_decide_eq_true_2 by done. split; [|lia].
           destruct (Z.eqb_spec (len (List.filter (is_open k) (held w)) + 1) 0); [lia|done].
        -- rewrite lookup_insert_ne, bool_decide_eq_false_2, Z.add_0_r by done. done.
    + eexists. split; [done|]. split; [done|]. intros k. unfold open_conns in *. simpl.
      rewrite filter_snoc_len. simpl. rewrite Z.add_0_r. apply Hk.
  - destruct (held w !! i) as [r|] eqn:Ei; [|done]. unfold Release. rewrite Hl.
    assert (forall k, r <> Lease k false -> inv m (mkWorld (Some l) (<[i := r]> (held w)))) as Hsame.
    { intros _ _. rewrite list_insert_id by done. exists l. split; [done|]. split; [done|]. exact Hk. }
    destruct r as [|key [|]]; simpl; [by apply (Hsame [])|by apply (Hsame key)|].
    rewrite (cur_open m w l) by done. eexists. split; [done|]. split; [done|]. intros k.
    pose proof (Hk k) as [Ek' Hle]. unfold open_conns in *. simpl.
    rewrite (filter_insert_len _ _ _ (Lease key false)) by done. simpl. rewrite Z.add_0_r.
    pose proof (filter_insert_len (is_open key) (held w) i (Lease key false) (Lease key true) Ei) as Hd.
    simpl in Hd. rewrite bool_decide_eq_true_2 in Hd by done.
    pose proof (len_nonneg (List.filter (is_open key) (<[i := Lease key true]> (held w)))).
    destruct (decide (key = k)) as [->|Hne].
    + rewrite bool_decide_eq_true_2 by done. split; [|lia].
      destruct (Z.leb_spec (len (List.filter (is_open k) (held w))) 1).
      * rewrite lookup_delete_eq. destruct (Z.eqb_spec (len (List.filter (is_open k) (held w)) - 1) 0); [done|lia].
      * rewrite lookup_insert_eq. destruct (Z.eqb_spec (len (List.filter (is_open k) (held w)) - 1) 0); [lia|done].
    + rewrite bool_decide_eq_false_2, Z.sub_0_r by done. split; [|done].
      destruct (Z.leb _ 1); [rewrite lookup_delete_ne by done|rewrite lookup_insert_ne by done]; done.
Qed.

Lemma limit_run_inv m es w : 0 < m -> inv m w -> inv m (run w es).
Proof. intros Hm. revert w. induction es as [|e es IH]; intros w I; simpl; [done|]. by apply IH, step_inv. Qed.

(** Over any history of accepted connections and of calls of
    their release functions (repeated calls included), the limiter's counter of
    each source is exactly its number of open connections and never exceeds the
    limit; a connection is refused exactly when its source, an IPv4 address or
    an IPv6 /64, has as many open connections as the limit. *)
Theorem iplimit_counts (m : Z) (es : list event) (addr : option net_Addr) (key : bytes) :
  0 < m -> Key addr = Some key ->
  let w := run (mkWorld (New m) []) es in
  inv m w /\ (fst (step w (EAccept addr)) = false <-> open_conns key w = m).
Proof.
  intros Hm Hkey w. assert (inv m w) as I.
  { apply limit_run_inv; [done|]. exists (mk m ∅). unfold New. rewrite (proj2 (Z.leb_gt m 0)) by lia.
    split; [done|]. split; [done|]. intros k. cbn [n]. rewrite lookup_empty. unfold open_conns, len. simpl. split; [done|lia]. }
  split; [done|]. pose proof I as (l & Hl & Hmax & Hk). destruct (Hk key) as [_ Hle].
  simpl. unfold Acquire. rewrite Hl, Hkey, (cur_open m w l), Hmax by done.
  destruct (Z.leb_spec m (open_conns key w)); simpl; split; try done; lia.
Qed.

Definition ex_addr : option net_Addr := Some (TCPAddr [Byte.x0a; Byte.x00; Byte.x00; Byte.x01] 5000).

Lemma iplimit_counts_witness :
  let w := run (mkWorld (New 2) []) [EAccept ex_addr; EAccept ex_addr; EClose 0; EClose 0; EAccept ex_addr] in
  open_conns (str "10.0.0.1") w = 2 /\ fst (step w (EAccept ex_addr)) = false.
Proof.
  intros w. assert (open_conns (str "10.0.0.1") w = 2) as E by (vm_compute; reflexivity). split; [exact E|].
  apply (iplimit_counts 2 [EAccept ex_addr; EAccept ex_addr; EClose 0; EClose 0; EAccept ex_addr] ex_addr
    (str "10.0.0.1")); [lia|vm_compute; reflexivity|exact E].
Defined.

End IPLimit.

(** * Lemmas: the keys of sources *)

(** A separator splits a string in one way when the first parts have none. *)
Lemma sep_inj (c : byte) (x y x' y' : bytes) :
  c ∉ x -> c ∉ x' -> x ++ c :: y = x' ++ c :: y' -> x = x' /\ y = y'.
Proof.
  revert x'. induction x as [|a x IH]; intros [|a' x'] Hx Hx' E; simplify_eq/=; [done|set_solver|set_solver|].
  destruct (IH x') as [-> ->]; [set_solver|set_solver|done|done].
Qed.

Lemma dec_byte_ok (b : byte) :
  digits_val 0 (dec_byte (byte_val b)) = Some (byte_val b) /\
  bool_decide (dot ∉ dec_byte (byte_val b)) = true /\ bool_decide (colon ∉ dec_byte (byte_val b)) = true.
Proof. destruct b; vm_compute; done. Qed.

Lemma dec_byte_no_dot b : dot ∉ dec_byte (byte_val b).
Proof. eapply bool_decide_eq_true, dec_byte_ok. Qed.

Lemma dec_byte_no_colon b : colon ∉ dec_byte (byte_val b).
Proof. eapply bool_decide_eq_true, dec_byte_ok. Qed.

Lemma dec_byte_inj a b : dec_byte (byte_val a) = dec_byte (byte_val b) -> a = b.
Proof.
  intros E. destruct (dec_byte_ok a) as [Ha _], (dec_byte_ok b) as [Hb _]. rewrite E, Hb in Ha.
  injection Ha as Ha. by apply byte_val_inj.
Qed.

Lemma has_byte_spec s c : has_byte s c = true <-> c ∈ s.
Proof.
  unfold has_byte. induction s as [|b s IH]; simpl; [split; [done|set_solver]|].
  case_bool_decide as Hb; [split; [|done]; subst; set_solver|].
  destruct (IndexByte s c); simpl; set_solver.
Qed.

Lemma hex_digit_no_colon n : 0 <= n < 16 -> colon <> hex_digit n.
Proof.
  intros Hn E. apply (f_equal byte_val) in E. unfold hex_digit in E. rewrite byte_val_of in E.
  change (byte_val colon) with 58 in E. revert E. zcases; rewrite Z.mod_small; lia.
Qed.

(** The digits of a group are hexadecimal digits. *)
Lemma group_digits v : is_uint16 v ->
  0 <= v / 4096 < 16 /\ 0 <= v / 256 mod 16 < 16 /\ 0 <= v / 16 mod 16 < 16 /\ 0 <= v mod 16 < 16 /\
  v = (((v / 4096) * 16 + v / 256 mod 16) * 16 + v / 16 mod 16) * 16 + v mod 16.
Proof. unfold is_uint16. intros Hv. Z.div_mod_to_equations. lia. Qed.

Lemma hex_group_facts v : is_uint16 v -> (colon ∉ hex_group v) /\ hex_group v <> [].
Proof.
  intros Hv. destruct (group_digits v Hv) as (H3 & H2 & H1 & H0 & _). split.
  - unfold hex_group. apply hex_digit_no_colon in H3, H2, H1, H0. zcases; set_solver.
  - unfold hex_group. by zcases.
Qed.

Lemma hex_group_inj v w : is_uint16 v -> is_uint16 w -> hex_group v = hex_group w -> v = w.
Proof.
  intros Hv Hw. destruct (group_digits v Hv) as (H3 & H2 & H1 & H0 & Ev).
  destruct (group_digits w Hw) as (G3 & G2 & G1 & G0 & Ew). unfold hex_group.
  zcases; simpl; intros E; simplify_list_eq; try discriminate; try lia;
    repeat match goal with
      | D : hex_digit _ = hex_digit _ |- _ => apply hex_digit_inj in D; [|done..]
      end;
    Z.div_mod_to_equations; lia.
Qed.

Lemma join_groups_inj gs hs :
  Forall is_uint16 gs -> Forall is_uint16 hs -> join_groups gs = join_groups hs -> gs = hs.
Proof.
  intros Hg. revert hs. induction Hg as [|g gs Hg Hgs IH]; intros hs Hh E.
  - destruct Hh as [|h hs Hh Hhs]; [done|]. destruct (hex_group_facts h Hh) as (_ & Hne).
    destruct hs; simpl in E; [by rewrite <- E in Hne|]. by destruct (hex_group h).
  - destruct (hex_group_facts g Hg) as (Hgc & Hgn).
    destruct Hh as [|h hs Hh Hhs].
    { destruct gs; simpl in E; [by rewrite E in Hgn|]. by destruct (hex_group g). }
    destruct (hex_group_facts h Hh) as (Hhc & Hhn).
    destruct gs as [|g2 gs], hs as [|h2 hs].
    + simpl in E. by apply hex_group_inj in E as ->.
    + exfalso. simpl in E. apply Hgc. rewrite E. set_solver.
    + exfalso. simpl in E. apply Hhc. rewrite <- E. set_solver.
    + change (hex_group g ++ colon :: join_groups (g2 :: gs) = hex_group h ++ colon :: join_groups (h2 :: hs)) in E.
      apply sep_inj in E as [E1 E2]; [|done..]. apply hex_group_inj in E1 as ->; [|done..].
      by rewrite (IH _ Hhs E2).
Qed.

(** The groups of a /64 without its trailing zero groups. *)
Fixpoint strip_zeros (gs : list Z) : list Z :=
  match gs with
  | [] => []
  | g :: gs =>
      match strip_zeros gs with
      | [] => if Z.eqb g 0 then [] else [g]
      | t => g :: t
      end
  end.

Lemma strip_zeros_inj gs hs : length gs = length hs -> strip_zeros gs = strip_zeros hs -> gs = hs.
Proof.
  revert hs. induction gs as [|g gs IH]; intros [|h hs] Hl E; simplify_eq/=; [done|].
  destruct (strip_zeros gs) as [|a s] eqn:Eg, (strip_zeros hs) as [|b t] eqn:Eh.
  - rewrite (IH hs) by (rewrite ?Eh; done).
    destruct (Z.eqb_spec g 0), (Z.eqb_spec h 0); simplify_eq; done.
  - destruct (Z.eqb_spec g 0); simplify_eq.
  - destruct (Z.eqb_spec h 0); simplify_eq.
  - injection E as -> -> ->. by rewrite (IH hs) by (rewrite ?Eh; done).
Qed.

Lemma string_prefix_groups a b c d :
  (let '(start, n) := longest_zeros 0 [a; b; c; d; 0; 0; 0; 0] (0%nat, 0%nat) in
   if Nat.eqb n 0 then join_groups [a; b; c; d; 0; 0; 0; 0]
   else join_groups (take start [a; b; c; d; 0; 0; 0; 0]) ++ [colon; colon]
          ++ join_groups (drop (start + n) [a; b; c; d; 0; 0; 0; 0])) =
  join_groups (strip_zeros [a; b; c; d]) ++ [colon; colon].
Proof.
  cbn [longest_zeros zero_run strip_zeros].
  destruct (Z.eqb a 0) eqn:Ea, (Z.eqb b 0) eqn:Eb, (Z.eqb c 0) eqn:Ec, (Z.eqb d 0) eqn:Ed; reflexivity.
Qed.

Lemma groups6_prefix (ip : bytes) : length ip = 16%nat ->
  groups6 (take 8 ip ++ zeros 8) =
  [be_get (slice 0 2 ip); be_get (slice 2 4 ip); be_get (slice 4 6 ip); be_get (slice 6 8 ip); 0; 0; 0; 0].
Proof.
  intros H. do 16 (destruct ip as [|? ip]; [done|]). destruct ip; [|done]. reflexivity.
Qed.

Lemma Prefix64_String_eq (ip : bytes) : length ip = 16%nat ->
  Prefix64_String ip =
  join_groups (strip_zeros [be_get (slice 0 2 ip); be_get (slice 2 4 ip); be_get (slice 4 6 ip); be_get (slice 6 8 ip)])
    ++ str "::/64".
Proof.
  intros H. unfold Prefix64_String, Addr_String.
  assert (Is4In6 (take 8 ip ++ zeros 8) = false) as ->.
  { apply bool_decide_eq_false. intros E. apply (f_equal (drop 8)) in E.
    do 16 (destruct ip as [|? ip]; [done|]). discriminate. }
  unfold string6. rewrite groups6_prefix by done. rewrite string_prefix_groups.
  rewrite bool_decide_eq_true_2 by done. rewrite app_nil_r, <- app_assoc. done.
Qed.

Lemma be_get_slice2_bound i (ip : bytes) : is_uint16 (be_get (slice i (i + 2) ip)).
Proof.
  pose proof (be_get_bound (slice i (i + 2) ip)) as H. unfold is_uint16. split; [lia|].
  eapply Z.lt_le_trans; [apply H|]. change (2 ^ 16) with (256 ^ 2). apply Z.pow_le_mono_r; [lia|].
  unfold slice. rewrite length_take. lia.
Qed.

(** The source an address counts as: an IPv4 address or an IPv6 /64. *)
Definition source_of (a : netip_Addr) : option (bytes + bytes) :=
  match Unmap a with
  | AddrZero => None
  | Addr4 ip => Some (inl ip)
  | Addr6 ip _ => Some (inr (take 8 ip))
  end.

Definition Addr_wf (a : netip_Addr) : Prop :=
  match a with AddrZero => False | Addr4 ip => length ip = 4%nat | Addr6 ip _ => length ip = 16%nat end.

Lemma Unmap_wf a : Addr_wf a -> Addr_wf (Unmap a).
Proof. destruct a as [|ip|ip z]; simpl; [done..|]. intros H. destruct (Is4In6 ip); simpl; [rewrite length_drop; lia|done]. Qed.

Lemma string4_inj a b : length a = 4%nat -> length b = 4%nat -> string4 a = string4 b -> a = b.
Proof.
  intros Ha Hb E. do 4 (destruct a as [|? a]; [done|]). destruct a; [|done].
  do 4 (destruct b as [|? b]; [done|]). destruct b; [|done]. unfold string4 in E. cbn [nth] in E.
  apply sep_inj in E as [E1 E]; [|apply dec_byte_no_dot..].
  apply sep_inj in E as [E2 E]; [|apply dec_byte_no_dot..].
  apply sep_inj in E as [E3 E]; [|apply dec_byte_no_dot..].
  by apply dec_byte_inj in E1 as ->, E2 as ->, E3 as ->, E as ->.
Qed.

Lemma string4_no_colon a : colon ∉ string4 a.
Proof.
  unfold string4. repeat (rewrite ?elem_of_app, ?elem_of_cons).
  pose proof (dec_byte_no_colon (nth 0 a Byte.x00)). pose proof (dec_byte_no_colon (nth 1 a Byte.x00)).
  pose proof (dec_byte_no_colon (nth 2 a Byte.x00)). pose proof (dec_byte_no_colon (nth 3 a Byte.x00)).
  intuition discriminate.
Qed.

Lemma slices_prefix (a b : bytes) : length a = 16%nat -> length b = 16%nat ->
  [be_get (slice 0 2 a); be_get (slice 2 4 a); be_get (slice 4 6 a); be_get (slice 6 8 a)] =
  [be_get (slice 0 2 b); be_get (slice 2 4 b); be_get (slice 4 6 b); be_get (slice 6 8 b)] ->
  take 8 a = take 8 b.
Proof.
  intros Ha Hb E. injection E as E1 E2 E3 E4.
  assert (forall x y : bytes, length x = length y -> be_get x = be_get y -> x = y) as Hinj.
  { intros x y Hl Hxy. by rewrite <- (be_put_get x), <- (be_put_get y), Hl, Hxy. }
  assert (forall x : bytes, length x = 16%nat ->
    take 8 x = slice 0 2 x ++ slice 2 4 x ++ slice 4 6 x ++ slice 6 8 x) as Hs.
  { intros x Hx. do 8 (destruct x as [|? x]; [done|]). done. }
  assert (forall i (x y : bytes), length x = 16%nat -> length y = 16%nat ->
    length (slice i (i + 2) x) = length (slice i (i + 2) y)) as Hl.
  { intros i x y Hx Hy. unfold slice. rewrite !length_take, !length_drop. lia. }
  apply Hinj in E1; [|by apply (Hl 0%nat)]. apply Hinj in E2; [|by apply (Hl 2%nat)].
  apply Hinj in E3; [|by apply (Hl 4%nat)]. apply Hinj in E4; [|by apply (Hl 6%nat)].
  by rewrite (Hs a Ha), (Hs b Hb), E1, E2, E3, E4.
Qed.

Lemma slices_uint16 (ip : bytes) : Forall is_uint16
  (strip_zeros [be_get (slice 0 2 ip); be_get (slice 2 4 ip); be_get (slice 4 6 ip); be_get (slice 6 8 ip)]).
Proof.
  assert (forall l, Forall is_uint16 l -> Forall is_uint16 (strip_zeros l)) as Hs.
  { induction 1 as [|x l Hx Hl IH]; simpl; [constructor|].
    destruct (strip_zeros l); [destruct (Z.eqb x 0)|]; auto using List.Forall_cons. }
  pose proof (be_get_slice2_bound 0 ip). pose proof (be_get_slice2_bound 2 ip).
  pose proof (be_get_slice2_bound 4 ip). pose proof (be_get_slice2_bound 6 ip).
  apply Hs. auto using List.Forall_cons.
Qed.

(** Two addresses get the same rate-limit and connection-limit
    key exactly when they are the same source: the same IPv4 address, in plain
    or IPv4-mapped form, or two IPv6 addresses of one /64, whatever the zone.
    So a site cannot change its key by moving inside its /64, and two different
    sources never share one. *)
Theorem source_key_exact (a b : netip_Addr) :
  Addr_wf a -> Addr_wf b -> (KeyFromAddr a = KeyFromAddr b <-> source_of a = source_of b).
Proof.
  intros Ha%Unmap_wf Hb%Unmap_wf. unfold KeyFromAddr, source_of.
  destruct (Unmap a) as [|x|x zx], (Unmap b) as [|y|y zy]; simpl in *; try done.
  - split; [intros E; f_equal; f_equal; by apply string4_inj|by intros [= ->]].
  - split; [|done]. rewrite Prefix64_String_eq by done. intros E. exfalso.
    apply (string4_no_colon x). rewrite E. apply elem_of_app. right. left.
  - split; [|done]. rewrite Prefix64_String_eq by done. intros E. exfalso.
    apply (string4_no_colon y). rewrite <- E. apply elem_of_app. right. left.
  - split.
    + rewrite !Prefix64_String_eq by done. intros E. apply app_inv_tail in E.
      apply join_groups_inj in E; [|apply slices_uint16..]. apply strip_zeros_inj in E; [|done].
      by rewrite (slices_prefix x y).
    + intros [= E]. unfold Prefix64_String. by rewrite E.
Qed.

Lemma source_key_exact_witness :
  KeyFromAddr (Addr6 (v4_in_v6_prefix ++ [Byte.x0a; Byte.x00; Byte.x00; Byte.x01]) (str "eth0")) =
  KeyFromAddr (Addr4 [Byte.x0a; Byte.x00; Byte.x00; Byte.x01]).
Proof.
  apply (source_key_exact (Addr6 (v4_in_v6_prefix ++ [Byte.x0a; Byte.x00; Byte.x00; Byte.x01]) (str "eth0"))
           (Addr4 [Byte.x0a; Byte.x00; Byte.x00; Byte.x01])); reflexivity.
Defined.
