(* ===== verification/AuthTypes.v ===== *)
(** auth/types.go: the configuration of servers and clients with its defaults
    and validation, and the secret resolvers. *)

From Stdlib Require Import ZArith Lia String.
From Stdlib Require Strings.Byte.
From stdpp Require Import base list gmap strings sorting.
From S2P Require Import Prelude GoStd Cryptox Codec Frame Envelope Net Replay.

Open Scope Z_scope.

(** * Data *)

Definition DefaultAuthTimeout : Z := 3 * Second.
Definition auth_DefaultMaxFrameSize : Z := 1024.
Definition DefaultMaxAuthAttempts : Z := 64.
Definition auth_MinSecretSize : Z := 16.

(** [AuthProtocol] is a string type. *)
Definition AuthProtocolFrameV1 : bytes := str "tcp-auth-frame-v1".
Definition AuthProtocolEnvelopeV2 : bytes := str "tcp-auth-envelope-v2".
Definition DefaultAuthProtocol : bytes := AuthProtocolEnvelopeV2.

Record PeerInfo := mkPeerInfo {
  pi_ClientID : bytes;
  pi_ClientIDHash : bytes;
  pi_KeyHint : Z;
  pi_Nonce : bytes;
  pi_Timestamp : Z;
  pi_ServerPort : Z;
  pi_Method : bytes;
  pi_SessionID : bytes;
  pi_Extensions : bytes;
  pi_RemoteAddr : option net_Addr;
  pi_Protocol : bytes;
  pi_Flags : byte;
}.

Record FrameMeta := mkFrameMeta {
  fm_Hint : Z;
  fm_Nonce : bytes;
  fm_ServerPort : Z;
  fm_Protocol : bytes;
  fm_HintMode : bytes;
  fm_PrefixRandom : bytes;
}.

Record SecretCandidate := mkCandidate { sc_ClientID : bytes; sc_Secret : bytes }.

#[export] Instance SecretCandidate_eq_dec : EqDecision SecretCandidate.
Proof. solve_decision. Defined.

(** The dynamic types of a [SecretResolver]: the two of this package, and a
    resolver of the application. *)
Inductive SecretResolver :=
| StaticSecrets (s : gmap bytes bytes)
| RotatingSecrets (s : gmap bytes (list bytes))
| CustomResolver (resolve : FrameMeta -> res (list SecretCandidate)).

(** The fields of [ServerConfig] that are plain data. The replay cache, the
    knock store, the policy and the event sink are interfaces to stateful
    objects and belong to the server's state; [ServerConfig.Secrets] is nil for
    [None]. *)
Record ServerConfig := mkServerConfig {
  sv_ServerPort : Z;
  sv_Secrets : option SecretResolver;
  sv_AuthTimeout : Z;
  sv_TimeWindow : Z;
  sv_MaxFrameSize : Z;
  sv_Protocol : bytes;
  sv_AcceptProtocols : list bytes;
  sv_EnvelopeV2 : EnvelopeV2Config;
  sv_RequireKnock : bool;
  sv_ServerProof : bool;
  sv_FailDelayJitterMin : Z;
  sv_FailDelayJitterMax : Z;
  sv_DrainOnFailBytes : Z;
  sv_DrainOnFailTimeout : Z;
  sv_MaxAuthAttempts : Z;
}.

Record ClientConfig := mkClientConfig {
  cl_ClientID : bytes;
  cl_Secret : bytes;
  cl_ServerPort : Z;
  cl_AuthTimeout : Z;
  cl_Protocol : bytes;
  cl_EnvelopeV2 : EnvelopeV2Config;
  cl_Method : bytes;
  cl_SessionID : bytes;
  cl_Extensions : bytes;
  cl_RequireServerProof : bool;
}.

(** * Resolvers *)

(** The order of [sort.Strings]. *)
Fixpoint string_le (a b : bytes) : bool :=
  match a, b with
  | [], _ => true
  | _ :: _, [] => false
  | x :: a, y :: b =>
      if Z.ltb (byte_val x) (byte_val y) then true
      else if Z.ltb (byte_val y) (byte_val x) then false else string_le a b
  end.

Definition sort_Strings (l : list bytes) : list bytes := merge_sort (fun a b => Is_true (string_le a b)) l.

(** The test both resolvers make of one secret: the body of their loops up to
    the [append]. *)
Definition candidate_matches (meta : FrameMeta) (secret : bytes) : bool :=
  if Z.eqb (len secret) 0 then false
  else if bool_decide (fm_Protocol meta = AuthProtocolEnvelopeV2) then
    if negb (bool_decide (fm_HintMode meta = EnvelopeV2HintModeNone)) then
      if negb (Nat.eqb (length (fm_PrefixRandom meta)) EnvelopeV2PrefixSize) then false
      else Z.eqb (ComputeEnvelopeV2RouteHint secret
                    (go_copy (zeros EnvelopeV2PrefixSize) (fm_PrefixRandom meta)) (fm_ServerPort meta))
             (fm_Hint meta)
    else true
  else Z.eqb (ComputeKeyHint secret (fm_Nonce meta) (fm_ServerPort meta)) (fm_Hint meta).

(** Both resolver constructors copy their maps. *)
Definition NewStaticSecretResolver (secrets : gmap bytes bytes) : SecretResolver := StaticSecrets secrets.
Definition NewRotatingSecretResolver (secrets : gmap bytes (list bytes)) : SecretResolver := RotatingSecrets secrets.

Definition static_ResolveCandidates (s : gmap bytes bytes) (meta : FrameMeta) : list SecretCandidate :=
  flat_map (fun id =>
    match s !! id with
    | Some secret => if candidate_matches meta secret then [mkCandidate id secret] else []
    | None => []
    end) (sort_Strings (elements (dom s))).

Definition rotating_ResolveCandidates (s : gmap bytes (list bytes)) (meta : FrameMeta) : list SecretCandidate :=
  flat_map (fun id =>
    mkCandidate id <$> List.filter (candidate_matches meta) (default [] (s !! id)))
    (sort_Strings (elements (dom s))).

Definition ResolveCandidates (r : SecretResolver) (meta : FrameMeta) : res (list SecretCandidate) :=
  match r with
  | StaticSecrets s => Ok (static_ResolveCandidates s meta)
  | RotatingSecrets s => Ok (rotating_ResolveCandidates s meta)
  | CustomResolver f => f meta
  end.

(** * Configuration *)

Definition acceptsProtocol (list : list bytes) (p : bytes) : bool :=
  existsb (fun v => bool_decide (v = p)) list.

Definition or_default (v d : Z) : Z := if Z.leb v 0 then d else v.

Definition sv_WithDefaults (c : ServerConfig) : ServerConfig :=
  let protocol := if bool_decide (sv_Protocol c = []) then DefaultAuthProtocol else sv_Protocol c in
  let jmin := if Z.ltb (sv_FailDelayJitterMin c) 0 then 0 else sv_FailDelayJitterMin c in
  let jmax := if Z.ltb (sv_FailDelayJitterMax c) 0 then 0 else sv_FailDelayJitterMax c in
  let swap := Z.ltb 0 jmax && Z.ltb jmax jmin in
  mkServerConfig (sv_ServerPort c) (sv_Secrets c)
    (or_default (sv_AuthTimeout c) DefaultAuthTimeout)
    (or_default (sv_TimeWindow c) DefaultTimeWindow)
    (or_default (sv_MaxFrameSize c) auth_DefaultMaxFrameSize)
    protocol
    (if decide (length (sv_AcceptProtocols c) = 0%nat) then [protocol] else sv_AcceptProtocols c)
    (ec_WithDefaults (sv_EnvelopeV2 c))
    (sv_RequireKnock c) (sv_ServerProof c)
    (if swap then jmax else jmin) (if swap then jmin else jmax)
    (if Z.ltb (sv_DrainOnFailBytes c) 0 then 0 else sv_DrainOnFailBytes c)
    (if Z.ltb (sv_DrainOnFailTimeout c) 0 then 0 else sv_DrainOnFailTimeout c)
    (or_default (sv_MaxAuthAttempts c) DefaultMaxAuthAttempts).

Definition staticCandidateCount (r : option SecretResolver) : Z :=
  match r with
  | Some (StaticSecrets s) => Z.of_nat (size s)
  | Some (RotatingSecrets s) => map_fold (fun _ versions count => count + len versions) 0 s
  | _ => 0
  end.

(** [candidates * buckets] is an [int] product. *)
Definition envelopeV2NoneAttemptCost (r : option SecretResolver) (envelope : EnvelopeV2Config) (maxFrameSize : Z) : Z :=
  let candidates := staticCandidateCount r in
  if Z.eqb candidates 0 then 0
  else
    let buckets := len (List.filter (fun b => Z.leb b maxFrameSize)
                          (EnvelopeV2Buckets (ec_FrameSizeBuckets (ec_WithDefaults envelope)))) in
    int64 (candidates * buckets).

Definition known_protocol (p : bytes) : bool :=
  bool_decide (p = AuthProtocolFrameV1) || bool_decide (p = AuthProtocolEnvelopeV2).

Definition sv_Validate (c : ServerConfig) : res unit :=
  let c := sv_WithDefaults c in
  let maxFrameSize := or_default (sv_MaxFrameSize c) auth_DefaultMaxFrameSize in
  if Z.ltb maxFrameSize HeaderSize then Err auth_ErrFrameTooLarge
  else if negb (bool_decide (sv_Protocol c = [])) && negb (known_protocol (sv_Protocol c))
  then Err auth_ErrUnsupportedVersion
  else if existsb (fun p => negb (known_protocol p)) (sv_AcceptProtocols c) then Err auth_ErrUnsupportedVersion
  else if bool_decide (sv_Protocol c = AuthProtocolEnvelopeV2)
            || Nat.eqb (length (sv_AcceptProtocols c)) 0
            || acceptsProtocol (sv_AcceptProtocols c) AuthProtocolEnvelopeV2 then
    _ ← ec_Validate (ec_WithDefaults (sv_EnvelopeV2 c)) maxFrameSize;
    if bool_decide (ec_HintMode (ec_WithDefaults (sv_EnvelopeV2 c)) = EnvelopeV2HintModeNone)
       && Z.ltb (sv_MaxAuthAttempts c) (envelopeV2NoneAttemptCost (sv_Secrets c) (sv_EnvelopeV2 c) maxFrameSize)
    then Err auth_ErrHintModeNoneTooBroad else Ok tt
  else Ok tt.

Definition cl_WithDefaults (c : ClientConfig) : ClientConfig :=
  mkClientConfig (cl_ClientID c) (cl_Secret c) (cl_ServerPort c)
    (or_default (cl_AuthTimeout c) DefaultAuthTimeout)
    (if bool_decide (cl_Protocol c = []) then DefaultAuthProtocol else cl_Protocol c)
    (ec_WithDefaults (cl_EnvelopeV2 c))
    (cl_Method c) (cl_SessionID c) (cl_Extensions c) (cl_RequireServerProof c).

Definition cl_ValidateRuntime (c : ClientConfig) : res unit :=
  let c := cl_WithDefaults c in
  if bool_decide (cl_ClientID c = []) || Z.ltb 65535 (len (cl_ClientID c)) || has_byte (cl_ClientID c) Byte.x00
  then Err auth_ErrInvalidClientID
  else if Z.ltb (len (cl_Secret c)) auth_MinSecretSize then Err auth_ErrInvalidSecret
  else if Z.ltb (cl_ServerPort c) 0 || Z.ltb 65535 (cl_ServerPort c) then Err auth_ErrInvalidFrame
  else if Z.leb (cl_AuthTimeout c) 0 then Err auth_ErrInvalidFrame
  else if negb (known_protocol (cl_Protocol c)) then Err auth_ErrUnsupportedVersion
  else if bool_decide (cl_Protocol c = AuthProtocolEnvelopeV2)
  then ec_Validate (ec_WithDefaults (cl_EnvelopeV2 c)) EnvelopeV2DefaultMaxSize
  else Ok tt.

(** [ClientConfig.Validate] and [ValidateClientAuthConfig] *)
Definition cl_Validate (c : ClientConfig) : res unit := cl_ValidateRuntime c.
Definition ValidateClientAuthConfig (c : ClientConfig) : res unit := cl_ValidateRuntime c.

(** * Lemmas and properties *)

Lemma or_default_pos v d : 0 < d -> 0 < or_default v d.
Proof. unfold or_default. zcases; lia. Qed.

Lemma or_default_idem v d : 0 < d -> or_default (or_default v d) d = or_default v d.
Proof. intros Hd. pose proof (or_default_pos v d Hd). unfold or_default at 1. zcases; lia. Qed.

Lemma elem_of_sort_Strings x l : x ∈ sort_Strings l <-> x ∈ l.
Proof. unfold sort_Strings. by rewrite merge_sort_Permutation. Qed.

Lemma elem_of_flat_map {A B} (f : A -> list B) l y : y ∈ flat_map f l <-> exists x, x ∈ l /\ y ∈ f x.
Proof.
  rewrite list_elem_of_In, in_flat_map. split; intros (x & ? & ?); exists x; by rewrite ?list_elem_of_In in *.
Qed.

Lemma static_candidates s meta c :
  c ∈ static_ResolveCandidates s meta <->
  s !! sc_ClientID c = Some (sc_Secret c) /\ candidate_matches meta (sc_Secret c) = true.
Proof.
  unfold static_ResolveCandidates. rewrite elem_of_flat_map. setoid_rewrite elem_of_sort_Strings.
  setoid_rewrite elem_of_elements. split.
  - intros (id & Hid & Hc). destruct (s !! id) as [secret|] eqn:E; [|set_solver].
    destruct (candidate_matches meta secret) eqn:Em; [|set_solver].
    apply list_elem_of_singleton in Hc as ->. done.
  - intros [Hs Hm]. exists (sc_ClientID c). split; [by eapply elem_of_dom_2|].
    rewrite Hs, Hm. destruct c. by left.
Qed.

Lemma length_flat_map_le {A B} (f : A -> list B) l :
  (forall x, (length (f x) <= 1)%nat) -> (length (flat_map f l) <= length l)%nat.
Proof. intros Hf. induction l as [|x l IH]; simpl; [lia|]. rewrite length_app. specialize (Hf x). lia. Qed.

Lemma length_sort_Strings l : length (sort_Strings l) = length l.
Proof. unfold sort_Strings. by rewrite merge_sort_Permutation. Qed.

Lemma static_candidates_len s meta : len (static_ResolveCandidates s meta) <= Z.of_nat (size s).
Proof.
  unfold len, static_ResolveCandidates.
  match goal with |- context [flat_map ?f ?l] => pose proof (length_flat_map_le f l) as Hl end.
  rewrite length_sort_Strings in Hl. rewrite <- size_dom. unfold size, set_size. simpl.
  apply Nat2Z.inj_le, Hl. intros id. repeat case_match; simpl; lia.
Qed.

Lemma rotating_candidates s meta c :
  c ∈ rotating_ResolveCandidates s meta <->
  exists versions, s !! sc_ClientID c = Some versions /\ sc_Secret c ∈ versions /\
    candidate_matches meta (sc_Secret c) = true.
Proof.
  unfold rotating_ResolveCandidates. rewrite elem_of_flat_map. setoid_rewrite elem_of_sort_Strings.
  setoid_rewrite elem_of_elements. setoid_rewrite list_elem_of_fmap. split.
  - intros (id & Hid & secret & -> & Hs). rewrite list_elem_of_In, filter_In, <- list_elem_of_In in Hs.
    destruct (s !! id) as [versions|] eqn:E; simpl in *; [|set_solver]. exists versions. by destruct Hs.
  - intros (versions & Hv & Hs & Hm). exists (sc_ClientID c). split; [by eapply elem_of_dom_2|].
    exists (sc_Secret c). split; [by destruct c|]. rewrite Hv. simpl.
    by rewrite list_elem_of_In, filter_In, <- list_elem_of_In.
Qed.

(** The resolvers offer exactly the configured secrets that can
    have made the frame: a candidate is offered if and only if it is configured
    for that client id (for rotating secrets: is one of its versions), is not
    empty, and its hint for this nonce and port is the frame's; in hint mode
    "none" every non-empty secret is offered. *)
Theorem resolvers_exact (s : gmap bytes bytes) (rs : gmap bytes (list bytes)) (meta : FrameMeta) (c : SecretCandidate) :
  let hint_ok :=
    sc_Secret c <> [] /\
    (fm_Protocol meta = AuthProtocolEnvelopeV2 ->
       fm_HintMode meta = EnvelopeV2HintModeNone \/
       length (fm_PrefixRandom meta) = 24%nat /\
       ComputeEnvelopeV2RouteHint (sc_Secret c) (fm_PrefixRandom meta) (fm_ServerPort meta) = fm_Hint meta) /\
    (fm_Protocol meta <> AuthProtocolEnvelopeV2 ->
       ComputeKeyHint (sc_Secret c) (fm_Nonce meta) (fm_ServerPort meta) = fm_Hint meta) in
  (c ∈ static_ResolveCandidates s meta <-> s !! sc_ClientID c = Some (sc_Secret c) /\ hint_ok) /\
  (c ∈ rotating_ResolveCandidates rs meta <->
     (exists versions, rs !! sc_ClientID c = Some versions /\ sc_Secret c ∈ versions) /\ hint_ok).
Proof.
  intros hint_ok. assert (candidate_matches meta (sc_Secret c) = true <-> hint_ok) as Hm.
  { unfold candidate_matches, hint_ok, len. change EnvelopeV2PrefixSize with 24%nat.
    destruct (sc_Secret c) as [|b secret]; [split; [done|by intros [? _]]|].
    rewrite (proj2 (Z.eqb_neq _ 0)) by (simpl; lia). case_bool_decide as Hp.
    - case_bool_decide as Hh; cbn [negb]; [naive_solver|].
      destruct (Nat.eqb_spec (length (fm_PrefixRandom meta)) 24) as [Hl|Hl]; cbn [negb].
      + rewrite go_copy_exact by done. rewrite Z.eqb_eq. naive_solver.
      + naive_solver.
    - rewrite Z.eqb_eq. naive_solver. }
  rewrite static_candidates, rotating_candidates, Hm. split; [done|]. split.
  - intros (v & ? & ? & ?%Hm). split; [by exists v|done].
  - intros ((v & ? & ?) & ?%Hm). by exists v.
Qed.

Lemma sv_WithDefaults_idem c : sv_WithDefaults (sv_WithDefaults c) = sv_WithDefaults c.
Proof.
  unfold sv_WithDefaults. cbn [sv_ServerPort sv_Secrets sv_AuthTimeout sv_TimeWindow sv_MaxFrameSize sv_Protocol
      sv_AcceptProtocols sv_EnvelopeV2 sv_RequireKnock sv_ServerProof sv_FailDelayJitterMin sv_FailDelayJitterMax
      sv_DrainOnFailBytes sv_DrainOnFailTimeout sv_MaxAuthAttempts].
  rewrite !or_default_idem, ec_WithDefaults_idem by (vm_compute; reflexivity).
  f_equal.
  - repeat case_bool_decide; done.
  - destruct (decide (length (sv_AcceptProtocols c) = 0%nat)) as [E|E]; [done|by rewrite decide_False].
  - zcases; lia.
  - zcases; lia.
  - zcases; lia.
  - zcases; lia.
Qed.

(** Configuration defaults are a fixed point: applying them twice
    changes nothing, validation does not depend on whether they were applied,
    and afterwards every timeout, window and limit is positive, some protocol
    is accepted, and the delay bounds are ordered. *)
Theorem server_defaults_fixed_point (c : ServerConfig) :
  let d := sv_WithDefaults c in
  sv_WithDefaults d = d /\ sv_Validate d = sv_Validate c /\
  0 < sv_AuthTimeout d /\ 0 < sv_TimeWindow d /\ 0 < sv_MaxFrameSize d /\ 0 < sv_MaxAuthAttempts d /\
  sv_AcceptProtocols d <> [] /\ 0 <= sv_DrainOnFailBytes d /\ 0 <= sv_DrainOnFailTimeout d /\
  0 <= sv_FailDelayJitterMin d /\ (0 < sv_FailDelayJitterMax d -> sv_FailDelayJitterMin d <= sv_FailDelayJitterMax d).
Proof.
  intros d. assert (sv_WithDefaults d = d) as Hid by apply sv_WithDefaults_idem.
  split; [done|]. split; [unfold sv_Validate; by rewrite Hid|].
  unfold d, sv_WithDefaults. simpl. split_and!; try (apply or_default_pos; vm_compute; reflexivity).
  - case_decide as Hl; [done|]. by intros E; rewrite E in Hl.
  - zcases; lia.
  - zcases; lia.
  - zcases; lia.
  - zcases; lia.
Qed.
