(* ===== verification/AuthServer.v ===== *)
(** auth/server.go: the server side of the authentication handshake, from the
    first byte of a connection to the authenticated stream, with its effects on
    the replay cache, the policy, the knock store and the event sink.

    [Section Server] takes the replay cache, the rate-limit policy and the knock
    session store as interfaces ([ReplayCache], [Policy], [KnockSessionStore]);
    its theorems use only the laws of the replay cache. *)

From Stdlib Require Import ZArith Lia String.
From Stdlib Require Strings.Byte.
From stdpp Require Import base list gmap strings.
From S2P Require Import Prelude GoStd Cryptox Codec Frame Envelope Net Replay AuthTypes.

Open Scope Z_scope.

(** * Interfaces *)

(** [auth.Policy] and [auth.KnockSessionStore]; the time is that of the call. *)
Class Policy (S : Type) := policy_Allow : bytes -> Z -> S -> bool * S.
Class KnockSessionStore (S : Type) :=
  store_CheckAndConsume : PeerInfo -> option net_Addr -> Z -> S -> option error * S.

(** The calls of the event sink. *)
Inductive AuthEvent :=
| OnAccept (remote : option net_Addr)
| OnAuthOK (peer : PeerInfo)
| OnAuthFail (remote : option net_Addr) (reason : error)
| OnReplay (remote : option net_Addr) (hint : Z)
| OnReplayCacheFull (remote : option net_Addr) (hint : Z)
| OnRateLimited (remote : option net_Addr)
| OnAuthenticated (peer : PeerInfo).

(** * Error mapping *)

Definition mapProtocolError (err : error) : error :=
  if errors_Is err protocol_ErrFrameTooLarge then auth_ErrFrameTooLarge
  else if errors_Is err protocol_ErrUnsupportedVersion then auth_ErrUnsupportedVersion
  else if errors_Is err protocol_ErrUnsupportedFlags then auth_ErrUnsupportedFlags
  else if errors_Is err protocol_ErrInvalidFrame then auth_ErrInvalidFrame
  else err.

Definition public_errors : list error :=
  [auth_ErrNilConn; auth_ErrInvalidFrame; auth_ErrFrameTooLarge; auth_ErrUnknownClient; auth_ErrAuthFailed;
   auth_ErrReplayDetected; auth_ErrTimeSkew; auth_ErrKnockRequired; auth_ErrUnsupportedVersion;
   auth_ErrUnsupportedFlags; auth_ErrSecretResolverFailed; auth_ErrRateLimited; auth_ErrServerProofRequired;
   auth_ErrServerProofFailed; auth_ErrTooManyCandidates; auth_ErrHintModeNoneTooBroad].

Definition publicError (err : error) : error :=
  if existsb (errors_Is err) public_errors then err else auth_ErrAuthFailed.

(** * Candidates *)

Definition newPeerInfoFromV1 (candidate : SecretCandidate) (payload : Payload) (h : Header)
    (remote : option net_Addr) : PeerInfo :=
  mkPeerInfo (sc_ClientID candidate) (p_ClientIDHash payload) (h_KeyHint h) (h_Nonce h)
    (p_TimestampUnixMS payload) (p_ServerPort payload) (p_Method payload) (p_SessionID payload)
    (p_Extensions payload) remote [] Byte.x00.

Definition newPeerInfoFromEnvelopeV2 (candidate : SecretCandidate) (payload : EnvelopeV2Payload)
    (h : EnvelopeV2Header) (remote : option net_Addr) : PeerInfo :=
  mkPeerInfo (sc_ClientID candidate) (ep_ClientIDHash payload) (eh_RouteHint h) (eh_PrefixRandom h)
    (ep_TimestampUnixMS payload) (ep_ServerPort payload) (ep_Method payload) (ep_SessionID payload)
    (ep_Extensions payload) remote AuthProtocolEnvelopeV2 (ep_Flags payload).

Definition chachaOverhead : Z := Overhead.

Section Candidates.
Context `{AEAD}.

Definition authenticateCandidate (candidate : SecretCandidate) (h : Header) (sealed : bytes) (serverPort : Z)
    (remote : option net_Addr) : res PeerInfo :=
  if bool_decide (sc_ClientID candidate = []) || Z.ltb (len (sc_Secret candidate)) auth_MinSecretSize
  then Err auth_ErrAuthFailed
  else if negb (Z.eqb (ComputeKeyHint (sc_Secret candidate) (h_Nonce h) serverPort) (h_KeyHint h))
  then Err auth_ErrAuthFailed
  else
    match OpenPayload (sc_Secret candidate) h sealed with
    | Err _ => Err auth_ErrAuthFailed
    | Ok plain =>
        match DecodePayload plain with
        | Err e => Err (mapProtocolError e)
        | Ok payload =>
            let wantHash := ComputeClientIDHash (sc_Secret candidate) (sc_ClientID candidate) in
            if negb (ConstantTimeEqual (p_ClientIDHash payload) wantHash) then Err auth_ErrAuthFailed
            else Ok (newPeerInfoFromV1 candidate payload h remote)
        end
    end.

Definition authenticateEnvelopeV2Candidate (candidate : SecretCandidate) (h : EnvelopeV2Header) (sealed : bytes)
    (serverPort : Z) (remote : option net_Addr) : res PeerInfo :=
  if bool_decide (sc_ClientID candidate = []) || Z.ltb (len (sc_Secret candidate)) auth_MinSecretSize
  then Err auth_ErrAuthFailed
  else if bool_decide (eh_HintMode h = EnvelopeV2HintModeRouteHint)
          && negb (Z.eqb (ComputeEnvelopeV2RouteHint (sc_Secret candidate) (eh_PrefixRandom h) serverPort)
                     (eh_RouteHint h))
  then Err auth_ErrAuthFailed
  else
    match OpenEnvelopeV2Payload (sc_Secret candidate) h serverPort sealed with
    | Err e => Err (mapProtocolError e)
    | Ok payload =>
        let wantHash := ComputeClientIDHash (sc_Secret candidate) (sc_ClientID candidate) in
        if negb (ConstantTimeEqual (ep_ClientIDHash payload) wantHash) then Err auth_ErrAuthFailed
        else Ok (newPeerInfoFromEnvelopeV2 candidate payload h remote)
    end.

(** The loop of [authenticateFrameV1]: the first candidate that
    authenticates. *)
Fixpoint first_candidate (candidates : list SecretCandidate) (h : Header) (sealed : bytes) (serverPort : Z)
    (remote : option net_Addr) : option (PeerInfo * SecretCandidate) :=
  match candidates with
  | [] => None
  | c :: candidates =>
      match authenticateCandidate c h sealed serverPort remote with
      | Ok p => Some (p, c)
      | Err _ => first_candidate candidates h sealed serverPort remote
      end
  end.

(** The inner loop of [authenticateEnvelopeV2]: try each candidate on one
    bucket, counting attempts. *)
Inductive scan_result :=
| ScanFound (p : PeerInfo) (c : SecretCandidate) (attempts : Z)
| ScanTooMany (attempts : Z)
| ScanNone (attempts : Z).

Fixpoint scan_candidates (maxAttempts attempts : Z) (candidates : list SecretCandidate) (h : EnvelopeV2Header)
    (sealed : bytes) (serverPort : Z) (remote : option net_Addr) : scan_result :=
  match candidates with
  | [] => ScanNone attempts
  | c :: candidates =>
      if Z.leb maxAttempts attempts then ScanTooMany attempts
      else
        let attempts := attempts + 1 in
        match authenticateEnvelopeV2Candidate c h sealed serverPort remote with
        | Err _ => scan_candidates maxAttempts attempts candidates h sealed serverPort remote
        | Ok p => ScanFound p c attempts
        end
  end.

Definition set_BucketSize (h : EnvelopeV2Header) (bucket : Z) : EnvelopeV2Header :=
  mkEnvelopeV2Header (eh_PrefixRandom h) (eh_RouteHint h) bucket (eh_HintMode h).

(** The outcome of the loop over the buckets: the peer with the header and
    candidate that matched and the number of bytes to discard, or an error; and
    the attempts made. *)
Fixpoint scan_buckets (cfg : ServerConfig) (prefixLen : Z) (candidates : list SecretCandidate) (br : reader)
    (serverPort : Z) (remote : option net_Addr) (h : EnvelopeV2Header) (attempts : Z) (buckets : list Z)
  : res (PeerInfo * SecretCandidate * EnvelopeV2Header * Z) * Z :=
  match buckets with
  | [] => (Err auth_ErrAuthFailed, attempts)
  | bucket :: buckets =>
      if Z.ltb (sv_MaxFrameSize cfg) bucket || Z.ltb bucket (prefixLen + chachaOverhead) then
        scan_buckets cfg prefixLen candidates br serverPort remote h attempts buckets
      else
        let need := bucket - prefixLen in
        match br_Peek (Z.to_nat need) br with
        | Err e => (Err (mapProtocolError e), attempts)
        | Ok sealed =>
            let h := set_BucketSize h bucket in
            match scan_candidates (sv_MaxAuthAttempts cfg) attempts candidates h sealed serverPort remote with
            | ScanTooMany n => (Err auth_ErrTooManyCandidates, n)
            | ScanNone n => scan_buckets cfg prefixLen candidates br serverPort remote h n buckets
            | ScanFound p c n => (Ok (p, c, h, need), n)
            end
        end
  end.

End Candidates.

(** * The handshake *)

(** The readings of the clock in one handshake, in the order of the code: the
    policy check, the deadline, the age check, the replay mark and the knock
    store. *)
Record clock := mkClock { at_policy : Z; at_deadline : Z; at_age : Z; at_mark : Z; at_store : Z }.

Record authResult := mkAuthResult {
  ar_peer : option PeerInfo;
  ar_hint : Z;
  ar_serverProofRequested : bool;
  ar_serverProof : bytes;
}.

Definition failResult (peer : option PeerInfo) (hint : Z) : authResult := mkAuthResult peer hint false [].

(** A connection: its addresses, the bytes to be read, the bytes written, the
    error of the next write, its deadline ([None]: none) and whether it was
    closed. *)
Record conn := mkConn {
  cn_local : option net_Addr;
  cn_remote : option net_Addr;
  cn_in : reader;
  cn_out : bytes;
  cn_write_err : option error;
  cn_deadline : option Z;
  cn_closed : bool;
}.

Definition conn_set_in (r : reader) (c : conn) : conn :=
  mkConn (cn_local c) (cn_remote c) r (cn_out c) (cn_write_err c) (cn_deadline c) (cn_closed c).
Definition conn_set_deadline (d : option Z) (c : conn) : conn :=
  mkConn (cn_local c) (cn_remote c) (cn_in c) (cn_out c) (cn_write_err c) d (cn_closed c).
Definition conn_close (c : conn) : conn :=
  mkConn (cn_local c) (cn_remote c) (cn_in c) (cn_out c) (cn_write_err c) (cn_deadline c) true.
Definition conn_write (data : bytes) (c : conn) : option error * conn :=
  match cn_write_err c with
  | Some e => (Some e, c)
  | None =>
      (None, mkConn (cn_local c) (cn_remote c) (cn_in c) (cn_out c ++ data) None (cn_deadline c) (cn_closed c))
  end.

(** [drainOnFail]: the read deadline it sets, if any. What it then reads is
    discarded. *)
Definition drainOnFail (cfg : ServerConfig) (ctx_deadline : option Z) (now : Z) (c : conn) : conn :=
  if Z.leb (sv_DrainOnFailBytes cfg) 0 || Z.leb (sv_DrainOnFailTimeout cfg) 0 then c
  else
    let max := now + sv_DrainOnFailTimeout cfg in
    let d := match ctx_deadline with Some d => if Before max d then max else d | None => max end in
    conn_set_in (br_Discard (Z.to_nat (sv_DrainOnFailBytes cfg)) (cn_in c)) (conn_set_deadline (Some d) c).

(** [delayOnFail]: how long it waits; [draw] is the 64-bit random number, [None]
    when the random source fails. *)
Definition delayOnFail (cfg : ServerConfig) (draw : option Z) : Z :=
  let max := sv_FailDelayJitterMax cfg in
  if Z.leb max 0 then 0
  else
    let min := sv_FailDelayJitterMin cfg in
    let '(min, max) := if Z.ltb max min then (max, min) else (min, max) in
    let spread := max - min in
    if Z.ltb 0 spread then
      match draw with
      | Some v => min + v mod (uint64 (spread + 1))
      | None => min
      end
    else min.

Section Server.
Context `{AEAD} {RC PS KS : Type} `{ReplayCache RC} `{Policy PS} `{KnockSessionStore KS}.

(** What outlives a connection. [Events] and [OnAuthenticated] record their
    calls when the sink is configured. *)
Record state := mkState {
  st_replay : RC;
  st_policy : option PS;
  st_store : option KS;
  st_sink : bool;
  st_callback : bool;
  st_events : list AuthEvent;
}.

Definition emit (e : AuthEvent) (s : state) : state :=
  if st_sink s then
    mkState (st_replay s) (st_policy s) (st_store s) (st_sink s) (st_callback s) (st_events s ++ [e])
  else s.

Definition callback (e : AuthEvent) (s : state) : state :=
  if st_callback s then
    mkState (st_replay s) (st_policy s) (st_store s) (st_sink s) (st_callback s) (st_events s ++ [e])
  else s.

Definition set_replay (r : RC) (s : state) : state :=
  mkState r (st_policy s) (st_store s) (st_sink s) (st_callback s) (st_events s).
Definition set_policy (p : option PS) (s : state) : state :=
  mkState (st_replay s) p (st_store s) (st_sink s) (st_callback s) (st_events s).
Definition set_store (k : option KS) (s : state) : state :=
  mkState (st_replay s) (st_policy s) k (st_sink s) (st_callback s) (st_events s).

Definition validatePeerCommon (cfg : ServerConfig) (peer : PeerInfo) (serverPort : Z) (remote : option net_Addr)
    (hint : Z) (ck : clock) (s : state) : option error * state :=
  if Z.ltb 0 serverPort && negb (Z.eqb (pi_ServerPort peer) serverPort) then (Some auth_ErrAuthFailed, s)
  else
    let age := Sub (at_age ck) (time_UnixMilli (pi_Timestamp peer)) in
    if Z.ltb age (- sv_TimeWindow cfg) || Z.ltb (sv_TimeWindow cfg) age then (Some auth_ErrTimeSkew, s)
    else
      let '(e, rc) := check_and_mark (pi_ClientID peer) (pi_Nonce peer) (at_mark ck) (st_replay s) in
      let s := set_replay rc s in
      match e with
      | Some err =>
          (Some err,
           if errors_Is err auth_ErrReplayDetected then emit (OnReplay remote hint) s
           else if errors_Is err auth_ErrReplayCacheFull then emit (OnReplayCacheFull remote hint) s
           else s)
      | None => (None, s)
      end.

Definition authenticateFrameV1 (br : reader) (remote : option net_Addr) (cfg : ServerConfig) (serverPort : Z)
    (resolver : SecretResolver) (ck : clock) (s : state) : authResult * option error * reader * state :=
  match ReadFrame br (sv_MaxFrameSize cfg) with
  | Err e => (failResult None 0, Some (mapProtocolError e), br, s)
  | Ok (h, sealed, br) =>
      match ResolveCandidates resolver (mkFrameMeta (h_KeyHint h) (h_Nonce h) serverPort [] [] []) with
      | Err e => (failResult None (h_KeyHint h), Some (EJoin auth_ErrSecretResolverFailed e), br, s)
      | Ok [] => (failResult None (h_KeyHint h), Some auth_ErrUnknownClient, br, s)
      | Ok candidates =>
          match first_candidate candidates h sealed serverPort remote with
          | None => (failResult None (h_KeyHint h), Some auth_ErrAuthFailed, br, s)
          | Some (peer, c) =>
              let '(e, s) := validatePeerCommon cfg peer serverPort remote (h_KeyHint h) ck s in
              match e with
              | Some err => (failResult (Some peer) (h_KeyHint h), Some err, br, s)
              | None =>
                  let requested := flags_set (h_Flags h) FlagServerProof in
                  (mkAuthResult (Some peer) (h_KeyHint h) requested
                     (if requested then BuildServerProof (sc_Secret c) h serverPort else []), None, br, s)
              end
          end
      end
  end.

Definition envelope_meta (envCfg : EnvelopeV2Config) (h : EnvelopeV2Header) (serverPort : Z) : FrameMeta :=
  if bool_decide (ec_HintMode envCfg = EnvelopeV2HintModeRouteHint)
  then mkFrameMeta (eh_RouteHint h) (go_copy (zeros 16) (take 16 (eh_PrefixRandom h))) serverPort
         AuthProtocolEnvelopeV2 (ec_HintMode envCfg) (eh_PrefixRandom h)
  else mkFrameMeta 0 (zeros 16) serverPort AuthProtocolEnvelopeV2 (ec_HintMode envCfg) (eh_PrefixRandom h).

Definition authenticateEnvelopeV2 (br : reader) (remote : option net_Addr) (cfg : ServerConfig) (serverPort : Z)
    (resolver : SecretResolver) (ck : clock) (s : state) : authResult * option error * reader * state :=
  let envCfg := ec_WithDefaults (sv_EnvelopeV2 cfg) in
  match ReadEnvelopeV2Prefix br (ec_HintMode envCfg) with
  | Err e => (failResult None 0, Some (mapProtocolError e), br, s)
  | Ok (h, br) =>
      match ResolveCandidates resolver (envelope_meta envCfg h serverPort) with
      | Err e => (failResult None (eh_RouteHint h), Some (EJoin auth_ErrSecretResolverFailed e), br, s)
      | Ok [] => (failResult None (eh_RouteHint h), Some auth_ErrUnknownClient, br, s)
      | Ok candidates =>
          if bool_decide (ec_HintMode envCfg = EnvelopeV2HintModeNone)
             && Z.ltb (sv_MaxAuthAttempts cfg) (len candidates)
          then (failResult None (eh_RouteHint h), Some auth_ErrTooManyCandidates, br, s)
          else
            let prefixLen :=
              Z.of_nat EnvelopeV2PrefixSize
                + (if bool_decide (ec_HintMode envCfg = EnvelopeV2HintModeRouteHint)
                   then Z.of_nat EnvelopeV2RouteHintSize else 0) in
            let buckets := EnvelopeV2Buckets (ec_FrameSizeBuckets envCfg) in
            match fst (scan_buckets cfg prefixLen candidates br serverPort remote h 0 buckets) with
            | Err e => (failResult None (eh_RouteHint h), Some e, br, s)
            | Ok (p, c, h, need) =>
                let br := br_Discard (Z.to_nat need) br in
                let '(e, s) := validatePeerCommon cfg p serverPort remote (eh_RouteHint h) ck s in
                match e with
                | Some err => (failResult (Some p) (eh_RouteHint h), Some err, br, s)
                | None =>
                    let requested := flags_set (pi_Flags p) EnvelopeV2FlagServerProof in
                    (mkAuthResult (Some p) (eh_RouteHint h) requested
                       (if requested then BuildEnvelopeV2ServerProof (sc_Secret c) h serverPort else []), None, br, s)
                end
            end
      end
  end.

Definition authenticateConfiguredProtocol (br : reader) (c : conn) (cfg : ServerConfig) (resolver : SecretResolver)
    (ck : clock) (s : state) : authResult * option error * reader * state :=
  let serverPort := effectivePort (sv_ServerPort cfg) (cn_local c) in
  let v1 := acceptsProtocol (sv_AcceptProtocols cfg) AuthProtocolFrameV1 in
  let v2 := acceptsProtocol (sv_AcceptProtocols cfg) AuthProtocolEnvelopeV2 in
  if v2 && negb v1 then authenticateEnvelopeV2 br (cn_remote c) cfg serverPort resolver ck s
  else if v1 && negb v2 then authenticateFrameV1 br (cn_remote c) cfg serverPort resolver ck s
  else if negb v1 && negb v2 then (failResult None 0, Some auth_ErrUnsupportedVersion, br, s)
  else
    match br_Peek 1 br with
    | Err e => (failResult None 0, Some e, br, s)
    | Ok b =>
        if bool_decide (nth 0 b Byte.x00 = Version)
        then authenticateFrameV1 br (cn_remote c) cfg serverPort resolver ck s
        else authenticateEnvelopeV2 br (cn_remote c) cfg serverPort resolver ck s
    end.

(** What a handshake returns: the peer and the clean stream, or the error; with
    the connection and the server's state after it. *)
Definition outcome : Type := res (PeerInfo * reader) * conn * state.

Definition fail (ctx_deadline : option Z) (now : Z) (c : conn) (cfg : ServerConfig) (peer : option PeerInfo)
    (err : error) (s : state) : outcome :=
  let err := publicError err in
  let remote :=
    match peer with
    | Some p => match pi_RemoteAddr p with Some a => Some a | None => cn_remote c end
    | None => cn_remote c
    end in
  let s := emit (OnAuthFail remote err) s in
  (Err err, conn_close (drainOnFail cfg ctx_deadline now c), s).

(** [serverAuthNormalized] with a non-nil connection; a nil [Secrets] is the
    first guard. *)
Definition serverAuthNormalized (ctx_deadline : option Z) (c : conn) (cfg : ServerConfig) (ck : clock) (s : state)
  : outcome :=
  match sv_Secrets cfg with
  | None => (Err auth_ErrMissingSecretResolver, conn_close c, s)
  | Some resolver =>
      let s := emit (OnAccept (cn_remote c)) s in
      let '(allowed, s) :=
        match st_policy s with
        | None => (true, s)
        | Some p =>
            let '(b, p) := policy_Allow (policyKey (cn_remote c)) (at_policy ck) p in (b, set_policy (Some p) s)
        end in
      if negb allowed then
        fail ctx_deadline (at_policy ck) c cfg None auth_ErrRateLimited (emit (OnRateLimited (cn_remote c)) s)
      else
        let authDeadline :=
          let d := at_deadline ck + sv_AuthTimeout cfg in
          match ctx_deadline with Some x => if Before x d then x else d | None => d end in
        let c := conn_set_deadline (Some authDeadline) c in
        let '(result, err, br, s) := authenticateConfiguredProtocol (cn_in c) c cfg resolver ck s in
        let c := conn_set_in br c in
        match err, ar_peer result with
        | Some e, p => fail ctx_deadline (at_store ck) c cfg p e s
        | None, None => fail ctx_deadline (at_store ck) c cfg None auth_ErrAuthFailed s
        | None, Some peer =>
            let '(e, s) :=
              if sv_RequireKnock cfg then
                match st_store s with
                | None => (Some auth_ErrKnockRequired, s)
                | Some k =>
                    let '(r, k) := store_CheckAndConsume peer (cn_remote c) (at_store ck) k in
                    (EJoin auth_ErrKnockRequired <$> r, set_store (Some k) s)
                end
              else (None, s) in
            match e with
            | Some e => fail ctx_deadline (at_store ck) c cfg (Some peer) e s
            | None =>
                let '(e, c) :=
                  if ar_serverProofRequested result then
                    if negb (sv_ServerProof cfg) then (Some auth_ErrServerProofRequired, c)
                    else conn_write (ar_serverProof result) c
                  else (None, c) in
                match e with
                | Some e => fail ctx_deadline (at_store ck) c cfg (Some peer) e s
                | None =>
                    let c := conn_set_deadline None c in
                    let s := callback (OnAuthenticated peer) (emit (OnAuthOK peer) s) in
                    (Ok (peer, cn_in c), c, s)
                end
            end
        end
  end.

(** [ServerAuth]: [has_cache] is [hasReplayCache(cfg.ReplayCache)]; a nil
    connection is [None]. *)
Definition ServerAuth (ctx_deadline : option Z) (c : option conn) (cfg : ServerConfig) (has_cache : bool)
    (ck : clock) (s : state) : res (PeerInfo * reader) * option conn * state :=
  match c with
  | None => (Err auth_ErrNilConn, None, s)
  | Some c =>
      let cfg := sv_WithDefaults cfg in
      match sv_Validate cfg with
      | Err e => (Err e, Some (conn_close c), s)
      | Ok _ =>
          if negb has_cache then (Err auth_ErrMissingReplayCache, Some (conn_close c), s)
          else let '(r, c, s) := serverAuthNormalized ctx_deadline c cfg ck s in (r, Some c, s)
      end
  end.

End Server.
Arguments state : clear implicits.
Arguments outcome : clear implicits.

(** [NewServer]: the checked configuration and the replay cache, created with
    twice the time window when none is configured. *)
Definition NewServer (cfg : ServerConfig) (cache : option Memory.t) : res (ServerConfig * Memory.t) :=
  let cfg := sv_WithDefaults cfg in
  _ ← sv_Validate cfg;
  match sv_Secrets cfg with
  | None => Err auth_ErrMissingSecretResolver
  | Some _ =>
      Ok (cfg, match cache with
               | Some c => c
               | None => Memory.NewMemoryReplayCache (default_auth_ttl (sv_TimeWindow cfg))
               end)
  end.

(** * What the server accepts *)

Section Spec.
Context `{AEAD}.

(** A v1 frame made with the secret of a candidate, for its client id and this
    port. *)
Record genuine_v1 (port : Z) (cand : SecretCandidate) (h : Header) (payload : Payload) (sealed : bytes) : Prop := {
  g1_id : sc_ClientID cand <> [];
  g1_secret : 16 <= len (sc_Secret cand);
  g1_hint : h_KeyHint h = ComputeKeyHint (sc_Secret cand) (h_Nonce h) port;
  g1_sealed : SealPayload (sc_Secret cand) h (payload_bytes payload) = Ok sealed;
  g1_wf : Payload_wf payload /\ Payload_fits payload = true;
  g1_hash : p_ClientIDHash payload = ComputeClientIDHash (sc_Secret cand) (sc_ClientID cand);
}.

(** A v2 envelope made with the secret of a candidate. *)
Record genuine_v2 (port : Z) (cand : SecretCandidate) (h : EnvelopeV2Header) (payload : EnvelopeV2Payload)
    (sealed : bytes) : Prop := {
  g2_id : sc_ClientID cand <> [];
  g2_secret : 16 <= len (sc_Secret cand);
  g2_hint : eh_HintMode h = EnvelopeV2HintModeRouteHint ->
            eh_RouteHint h = ComputeEnvelopeV2RouteHint (sc_Secret cand) (eh_PrefixRandom h) port;
  g2_wf : EnvelopeV2Payload_wf payload /\ EnvelopeV2Payload_fits payload = true;
  g2_version : ep_Version payload = EnvelopeV2Version;
  g2_flags : flags_outside (ep_Flags payload) EnvelopeV2FlagServerProof = false;
  g2_sealed : exists padding, len padding <= 65535 /\
    SealEnvelopeV2Payload (sc_Secret cand) h port (envelope_body payload padding) = Ok sealed;
  g2_hash : ep_ClientIDHash payload = ComputeClientIDHash (sc_Secret cand) (sc_ClientID cand);
}.

(** [authentic resolver cfg port remote data rest peer]: [data] starts with a
    frame of an accepted protocol, made with a secret the resolver offers for
    it; [rest] is what follows the frame and [peer] describes it. *)
Definition authentic_v1 (resolver : SecretResolver) (cfg : ServerConfig) (port : Z) (remote : option net_Addr)
    (data rest : bytes) (peer : PeerInfo) : Prop :=
  exists cand cands h payload sealed,
    acceptsProtocol (sv_AcceptProtocols cfg) AuthProtocolFrameV1 = true /\
    ResolveCandidates resolver (mkFrameMeta (h_KeyHint h) (h_Nonce h) port [] [] []) = Ok cands /\
    cand ∈ cands /\ genuine_v1 port cand h payload sealed /\
    h_Version h = Version /\ len sealed = h_SealedLen h /\ length (h_Nonce h) = 16%nat /\
    data = header_bytes h ++ sealed ++ rest /\ peer = newPeerInfoFromV1 cand payload h remote.

Definition authentic_v2 (resolver : SecretResolver) (cfg : ServerConfig) (port : Z) (remote : option net_Addr)
    (data rest : bytes) (peer : PeerInfo) : Prop :=
  let envCfg := ec_WithDefaults (sv_EnvelopeV2 cfg) in
  exists cand cands h payload hint sealed,
    acceptsProtocol (sv_AcceptProtocols cfg) AuthProtocolEnvelopeV2 = true /\
    ResolveCandidates resolver (envelope_meta envCfg h port) = Ok cands /\
    cand ∈ cands /\ genuine_v2 port cand h payload sealed /\
    eh_HintMode h = ec_HintMode envCfg /\ length (eh_PrefixRandom h) = 24%nat /\
    hint = (if bool_decide (eh_HintMode h = EnvelopeV2HintModeRouteHint) then be_put 8 (eh_RouteHint h) else []) /\
    eh_BucketSize h ∈ EnvelopeV2Buckets (ec_FrameSizeBuckets envCfg) /\
    24 + len hint + len sealed = eh_BucketSize h /\ eh_BucketSize h <= sv_MaxFrameSize cfg /\
    data = eh_PrefixRandom h ++ hint ++ sealed ++ rest /\
    peer = newPeerInfoFromEnvelopeV2 cand payload h remote.

Definition authentic (resolver : SecretResolver) (cfg : ServerConfig) (port : Z) (remote : option net_Addr)
    (data rest : bytes) (peer : PeerInfo) : Prop :=
  authentic_v1 resolver cfg port remote data rest peer \/ authentic_v2 resolver cfg port remote data rest peer.

End Spec.

(** * Lemmas: candidates *)

Section CandidateLemmas.
Context `{LA : AEADLaws}.

Lemma authenticateCandidate_Ok cand h sealed port remote p :
  authenticateCandidate cand h sealed port remote = Ok p <->
  exists payload, genuine_v1 port cand h payload sealed /\ p = newPeerInfoFromV1 cand payload h remote.
Proof.
  unfold authenticateCandidate. split.
  - case_bool_decide as Hid; [done|]. destruct (Z.ltb_spec (len (sc_Secret cand)) auth_MinSecretSize) as [|Hs]; [done|].
    cbn [orb]. destruct (Z.eqb_spec (ComputeKeyHint (sc_Secret cand) (h_Nonce h) port) (h_KeyHint h)) as [Hk|]; [|done].
    cbn [negb]. destruct (OpenPayload _ _ _) as [plain|] eqn:Eo; [|done].
    destruct (DecodePayload plain) as [payload|] eqn:Ed; [|done]. cbv zeta.
    destruct (ConstantTimeEqual _ _) eqn:Ec; [|done]. cbn [negb]. intros [= <-].
    apply DecodePayload_inv in Ed as (Hwf & Hfit & ->). apply OpenPayload_Ok in Eo.
    apply ConstantTimeEqual_spec in Ec. exists payload. split; [|done]. by split.
  - intros (payload & [Hid Hs Hk Hseal [Hwf Hfit] Hh] & ->).
    rewrite (bool_decide_eq_false_2 (sc_ClientID cand = [])) by done.
    rewrite (proj2 (Z.ltb_ge (len (sc_Secret cand)) auth_MinSecretSize)) by done. cbn [orb].
    rewrite <- Hk, Z.eqb_refl. cbn [negb]. apply OpenPayload_Ok in Hseal. rewrite Hseal.
    rewrite DecodePayload_payload_bytes by done. cbv zeta. by rewrite Hh, ConstantTimeEqual_refl.
Qed.

Lemma authenticateEnvelopeV2Candidate_Ok cand h sealed port remote p :
  authenticateEnvelopeV2Candidate cand h sealed port remote = Ok p <->
  exists payload, genuine_v2 port cand h payload sealed /\ p = newPeerInfoFromEnvelopeV2 cand payload h remote.
Proof.
  unfold authenticateEnvelopeV2Candidate. split.
  - case_bool_decide as Hid; [done|]. destruct (Z.ltb_spec (len (sc_Secret cand)) auth_MinSecretSize) as [|Hs]; [done|].
    cbn [orb]. destruct (bool_decide (eh_HintMode h = _) && _) eqn:Hb; [done|].
    destruct (OpenEnvelopeV2Payload _ _ _ _) as [payload|] eqn:Eo; [|done]. cbv zeta.
    destruct (ConstantTimeEqual _ _) eqn:Ec; [|done]. cbn [negb]. intros [= <-].
    apply OpenEnvelopeV2Payload_inv in Eo as (Hwf & Hfit & Hv & Hf & Hseal).
    apply ConstantTimeEqual_spec in Ec. exists payload. split; [|done]. split; try done.
    intros Hm. rewrite bool_decide_eq_true_2 in Hb by done. simpl in Hb. apply negb_false_iff, Z.eqb_eq in Hb. done.
  - intros (payload & [Hid Hs Hk [Hwf Hfit] Hv Hf (padding & Hpad & Hseal) Hh] & ->).
    rewrite (bool_decide_eq_false_2 (sc_ClientID cand = [])) by done.
    rewrite (proj2 (Z.ltb_ge (len (sc_Secret cand)) auth_MinSecretSize)) by done. cbn [orb].
    assert (bool_decide (eh_HintMode h = EnvelopeV2HintModeRouteHint)
      && negb (Z.eqb (ComputeEnvelopeV2RouteHint (sc_Secret cand) (eh_PrefixRandom h) port) (eh_RouteHint h)) = false)
      as ->.
    { case_bool_decide as Hm; [|done]. by rewrite (Hk Hm), Z.eqb_refl. }
    rewrite (OpenEnvelopeV2Payload_body _ _ _ _ payload padding) by done. cbv zeta.
    by rewrite Hh, ConstantTimeEqual_refl.
Qed.

Lemma first_candidate_Some cands h sealed port remote p c :
  first_candidate cands h sealed port remote = Some (p, c) ->
  c ∈ cands /\ authenticateCandidate c h sealed port remote = Ok p.
Proof.
  induction cands as [|x cands IH]; cbn [first_candidate]; [done|].
  destruct (authenticateCandidate x h sealed port remote) eqn:E.
  - intros [= <- <-]. split; [left|done].
  - intros Hf. destruct (IH Hf). split; [by right|done].
Qed.

Lemma scan_candidates_Found max n cands h sealed port remote p c n' :
  scan_candidates max n cands h sealed port remote = ScanFound p c n' ->
  c ∈ cands /\ authenticateEnvelopeV2Candidate c h sealed port remote = Ok p.
Proof.
  revert n. induction cands as [|x cands IH]; intros n; cbn [scan_candidates]; [done|].
  destruct (Z.leb max n); [done|]. cbv zeta.
  destruct (authenticateEnvelopeV2Candidate x h sealed port remote) eqn:E.
  - intros [= <- <- <-]. split; [left|done].
  - intros Hf. destruct (IH _ Hf). split; [by right|done].
Qed.

Lemma br_Peek_inv n br x : br_Peek n br = Ok x -> x = take n (rd_data br) /\ (n <= length (rd_data br))%nat.
Proof. unfold br_Peek. case_decide; [|done]. by intros [= <-]. Qed.

Lemma scan_buckets_Ok cfg pl cands br port remote h n buckets p c h' need n' :
  scan_buckets cfg pl cands br port remote h n buckets = (Ok (p, c, h', need), n') ->
  exists bucket, bucket ∈ buckets /\ h' = set_BucketSize h bucket /\ need = bucket - pl /\
    bucket <= sv_MaxFrameSize cfg /\ pl + Overhead <= bucket /\ c ∈ cands /\
    (Z.to_nat need <= length (rd_data br))%nat /\
    authenticateEnvelopeV2Candidate c h' (take (Z.to_nat need) (rd_data br)) port remote = Ok p.
Proof.
  revert h n. induction buckets as [|b buckets IH]; intros h n; cbn [scan_buckets]; [done|].
  destruct (Z.ltb (sv_MaxFrameSize cfg) b || Z.ltb b (pl + chachaOverhead)) eqn:Eb.
  - intros (b' & Hb & Hrest)%IH. exists b'. split; [by right|done].
  - apply orb_false_iff in Eb as [Eb1 Eb2]. cbv zeta. destruct (br_Peek _ br) as [sealed|e] eqn:Ep; [|done].
    apply br_Peek_inv in Ep as [-> Hlen].
    destruct (scan_candidates _ _ _ _ _ _ _) as [p0 c0 n0|n0|n0] eqn:Es; [|done|].
    + intros [= <- <- <- <- <-]. apply scan_candidates_Found in Es as [Hc Ha]. exists b.
      unfold chachaOverhead in Eb2. split_and!; try done; [left|lia|lia].
    + intros (b' & Hb & -> & Hrest)%IH. exists b'. split; [by right|done].
Qed.

End CandidateLemmas.

(** * Lemmas: the server *)

Section ServerLemmas.
Context `{LA : AEADLaws} {RC PS KS : Type} `{ReplayCache RC} `{Policy PS} `{KnockSessionStore KS}.

Abbreviation state := (state RC PS KS).

(** [age] is within the window; [age] saturates only beyond any window. *)
Definition in_window (cfg : ServerConfig) (ts now : Z) : Prop :=
  - sv_TimeWindow cfg <= now - time_UnixMilli ts <= sv_TimeWindow cfg.

Lemma validatePeerCommon_cases cfg peer port remote hint ck (s : state) e s' :
  0 <= sv_TimeWindow cfg < 2 ^ 63 - 1 ->
  validatePeerCommon cfg peer port remote hint ck s = (e, s') ->
  (st_replay s' = st_replay s /\ e <> None) \/
  (0 < port -> pi_ServerPort peer = port) /\ in_window cfg (pi_Timestamp peer) (at_age ck) /\
  check_and_mark (pi_ClientID peer) (pi_Nonce peer) (at_mark ck) (st_replay s) = (e, st_replay s') /\
  (e = None -> s' = set_replay (st_replay s') s).
Proof.
  intros Hw. unfold validatePeerCommon, in_window. cbv zeta.
  destruct (Z.ltb_spec 0 port) as [Hp|Hp], (Z.eqb_spec (pi_ServerPort peer) port) as [Hpp|Hpp]; cbn [andb negb];
    try (intros [= <- <-]; left; done).
  all: set (t := time_UnixMilli (pi_Timestamp peer));
    assert (Z.ltb (Sub (at_age ck) t) (- sv_TimeWindow cfg) || Z.ltb (sv_TimeWindow cfg) (Sub (at_age ck) t) = false ->
            - sv_TimeWindow cfg <= at_age ck - t <= sv_TimeWindow cfg) as Hin
      by (rewrite orb_false_iff; unfold Sub; lia);
    destruct (_ || _); [intros [= <- <-]; left; done|]; specialize (Hin eq_refl);
    destruct (check_and_mark _ _ _ _) as [r rc]; destruct r as [err|]; intros [= <- <-]; right;
    (split; [lia|]); (split; [done|]); (split; [f_equal|done]);
    repeat case_match; unfold emit; repeat case_match; done.
Qed.

Lemma emit_replay e (s : state) : st_replay (emit e s) = st_replay s.
Proof. unfold emit. by destruct (st_sink s). Qed.

Lemma callback_replay e (s : state) : st_replay (callback e s) = st_replay s.
Proof. unfold callback. by destruct (st_callback s). Qed.

(** Either nothing authentic was read, and the replay cache is untouched, or
    an authentic frame for this port and time was, and the answer of the
    replay cache decides. *)
Definition handshake_spec (cfg : ServerConfig) (resolver : SecretResolver) (port : Z) (remote : option net_Addr)
    (ck : clock) (s : state) (data : bytes) (result : authResult) (err : option error) (rest : bytes) (s' : state)
  : Prop :=
  (st_replay s' = st_replay s /\ err <> None) \/
  exists peer, ar_peer result = Some peer /\ authentic resolver cfg port remote data rest peer /\
    (0 < port -> pi_ServerPort peer = port) /\ in_window cfg (pi_Timestamp peer) (at_age ck) /\
    check_and_mark (pi_ClientID peer) (pi_Nonce peer) (at_mark ck) (st_replay s) = (err, st_replay s') /\
    (err = None -> s' = set_replay (st_replay s') s).

Lemma authenticateFrameV1_spec br remote cfg port resolver ck (s : state) result err br' s' :
  0 <= sv_TimeWindow cfg < 2 ^ 63 - 1 ->
  acceptsProtocol (sv_AcceptProtocols cfg) AuthProtocolFrameV1 = true ->
  authenticateFrameV1 br remote cfg port resolver ck s = (result, err, br', s') ->
  handshake_spec cfg resolver port remote ck s (rd_data br) result err (rd_data br') s'.
Proof.
  intros Hw Hacc. unfold authenticateFrameV1.
  destruct (ReadFrame br (sv_MaxFrameSize cfg)) as [[[h sealed] br1]|] eqn:Er; [|intros [= <- <- <- <-]; by left].
  apply ReadFrame_inv in Er as (Hd & _ & Hwf & Hv & _ & Hf & Hl & _ & _).
  destruct (ResolveCandidates _ _) as [[|c0 cs]|e] eqn:Ec; [intros [= <- <- <- <-]; by left| |intros [= <- <- <- <-]; by left].
  destruct (first_candidate _ _ _ _ _) as [[peer c]|] eqn:Ef; [|intros [= <- <- <- <-]; by left].
  apply first_candidate_Some in Ef as [Hin Hauth].
  apply authenticateCandidate_Ok in Hauth as (payload & Hg & ->).
  destruct (validatePeerCommon _ _ _ _ _ _ _) as [e s1] eqn:Ev.
  apply validatePeerCommon_cases in Ev; [|done].
  assert (authentic resolver cfg port remote (rd_data br) (rd_data br1) (newPeerInfoFromV1 c payload h remote)) as Ha.
  { left. exists c, (c0 :: cs), h, payload, sealed. split_and!; try done. apply Hwf. }
  intros Heq. destruct Ev as [[Hs He]|(Hp & Hi & Hm & Hn)].
  - destruct e; [|done]. injection Heq as <- <- <- <-. by left.
  - right. exists (newPeerInfoFromV1 c payload h remote). destruct e; injection Heq as <- <- <- <-; done.
Qed.

Lemma ReadEnvelopeV2Prefix_inv r mode h r' :
  ReadEnvelopeV2Prefix r mode = Ok (h, r') ->
  length (eh_PrefixRandom h) = 24%nat /\ eh_HintMode h = mode /\
  rd_data r = eh_PrefixRandom h
    ++ (if bool_decide (mode = EnvelopeV2HintModeRouteHint) then be_put 8 (eh_RouteHint h) else []) ++ rd_data r'.
Proof.
  unfold ReadEnvelopeV2Prefix. intros Hr. apply res_bind_Ok in Hr as ([prefix r1] & Hp & Hr).
  apply io_ReadFull_inv in Hp as (Hd & Hl & _). case_bool_decide as Hm.
  - apply res_bind_Ok in Hr as ([raw r2] & Hh & Hr). apply io_ReadFull_inv in Hh as (Hd2 & Hl2 & _).
    injection Hr as <- <-. simpl. split_and!; try done. rewrite Hd, Hd2. f_equal. f_equal.
    rewrite <- (be_put_get raw) at 1. by rewrite Hl2.
  - destruct (negb _); [done|]. injection Hr as <- <-. simpl. split_and!; done.
Qed.

Lemma authenticateEnvelopeV2_spec br remote cfg port resolver ck (s : state) result err br' s' :
  0 <= sv_TimeWindow cfg < 2 ^ 63 - 1 ->
  acceptsProtocol (sv_AcceptProtocols cfg) AuthProtocolEnvelopeV2 = true ->
  authenticateEnvelopeV2 br remote cfg port resolver ck s = (result, err, br', s') ->
  handshake_spec cfg resolver port remote ck s (rd_data br) result err (rd_data br') s'.
Proof.
  intros Hw Hacc. unfold authenticateEnvelopeV2. cbv zeta.
  set (envCfg := ec_WithDefaults (sv_EnvelopeV2 cfg)) in *.
  destruct (ReadEnvelopeV2Prefix br (ec_HintMode envCfg)) as [[h br1]|] eqn:Er; [|intros [= <- <- <- <-]; by left].
  apply ReadEnvelopeV2Prefix_inv in Er as (Hp24 & Hmode & Hd).
  destruct (ResolveCandidates _ _) as [[|c0 cs]|e] eqn:Ec; [intros [= <- <- <- <-]; by left| |intros [= <- <- <- <-]; by left].
  destruct (bool_decide (ec_HintMode envCfg = EnvelopeV2HintModeNone) && _); [intros [= <- <- <- <-]; by left|].
  set (pl := Z.of_nat EnvelopeV2PrefixSize + _) in *.
  destruct (scan_buckets _ _ _ _ _ _ _ _ _) as [[[[[p c] h'] need]|e] n] eqn:Es; cbn [fst];
    [|intros [= <- <- <- <-]; by left].
  apply scan_buckets_Ok in Es as (bucket & Hb & -> & -> & Hmax & Hmin & Hin & Hlen & Hauth).
  apply authenticateEnvelopeV2Candidate_Ok in Hauth as (payload & Hg & ->).
  set (sealed := take _ _) in *. set (hb := set_BucketSize h bucket) in *.
  set (peer := newPeerInfoFromEnvelopeV2 c payload hb remote) in *.
  set (hint := if bool_decide (ec_HintMode envCfg = EnvelopeV2HintModeRouteHint) then be_put 8 (eh_RouteHint h) else []) in *.
  assert (24 + len hint = pl) as Hpl.
  { unfold hint, pl. case_bool_decide; [rewrite len_be_put|]; done. }
  destruct (validatePeerCommon _ _ _ _ _ _ _) as [e s1] eqn:Ev.
  apply validatePeerCommon_cases in Ev; [|done].
  assert (authentic resolver cfg port remote (rd_data br) (rd_data (br_Discard (Z.to_nat (bucket - pl)) br1)) peer) as Ha.
  { right. exists c, (c0 :: cs), hb, payload, hint, sealed. split_and!; try done.
    - unfold hb, hint. simpl. by rewrite Hmode.
    - unfold hb. simpl. unfold sealed. unfold len at 2. rewrite length_take. unfold Overhead in Hmin. lia.
    - rewrite Hd. unfold sealed. simpl. by rewrite take_drop. }
  intros Heq. destruct Ev as [[Hs He]|(Hp & Hi & Hm & Hn)].
  - destruct e; [|done]. injection Heq as <- <- <- <-. by left.
  - right. exists peer. destruct e; injection Heq as <- <- <- <-; done.
Qed.

Lemma authenticateConfiguredProtocol_spec br c cfg resolver ck (s : state) result err br' s' :
  0 <= sv_TimeWindow cfg < 2 ^ 63 - 1 ->
  authenticateConfiguredProtocol br c cfg resolver ck s = (result, err, br', s') ->
  handshake_spec cfg resolver (effectivePort (sv_ServerPort cfg) (cn_local c)) (cn_remote c) ck s (rd_data br)
    result err (rd_data br') s'.
Proof.
  intros Hw. unfold authenticateConfiguredProtocol. cbv zeta.
  destruct (acceptsProtocol _ AuthProtocolFrameV1) eqn:E1, (acceptsProtocol _ AuthProtocolEnvelopeV2) eqn:E2;
    cbn [andb negb].
  - destruct (br_Peek 1 br) as [b|e]; [|intros [= <- <- <- <-]; by left].
    destruct (bool_decide _); [by apply authenticateFrameV1_spec|by apply authenticateEnvelopeV2_spec].
  - by apply authenticateFrameV1_spec.
  - by apply authenticateEnvelopeV2_spec.
  - intros [= <- <- <- <-]. by left.
Qed.

End ServerLemmas.

(** * Properties of the handshake *)

Section ServerProperties.
Context `{LA : AEADLaws} {RC PS KS : Type} `{ReplayCache RC} `{Policy PS} `{KnockSessionStore KS}.

Abbreviation state := (state RC PS KS).

(** The state in which the frame is read: after the accept event and the
    policy check. *)
Lemma policy_step_replay (p : option PS) (s : state) key now b s1 :
  match p with
  | None => (true, s)
  | Some p => let '(b, p) := policy_Allow key now p in (b, set_policy (Some p) s)
  end = (b, s1) -> st_replay s1 = st_replay s /\ st_store s1 = st_store s.
Proof. destruct p as [p|]; [destruct (policy_Allow _ _ _)|]; by intros [= <- <-]. Qed.

(** The knock store had a session for the peer and consumed it. *)
Definition consumed (c : conn) (ck : clock) (peer : PeerInfo) (s s' : state) : Prop :=
  exists k k', st_store s = Some k /\ st_store s' = Some k' /\
    store_CheckAndConsume peer (cn_remote c) (at_store ck) k = (None, k').

(** The handshake read an authentic frame of [peer], followed by [rest], and
    the replay cache answered [err]. *)
Definition verified (c : conn) (cfg : ServerConfig) (ck : clock) (s s' : state) (resolver : SecretResolver)
    (peer : PeerInfo) (err : option error) (rest : reader) : Prop :=
  let port := effectivePort (sv_ServerPort cfg) (cn_local c) in
  sv_Secrets cfg = Some resolver /\
  authentic resolver cfg port (cn_remote c) (rd_data (cn_in c)) (rd_data rest) peer /\
  (0 < port -> pi_ServerPort peer = port) /\ in_window cfg (pi_Timestamp peer) (at_age ck) /\
  check_and_mark (pi_ClientID peer) (pi_Nonce peer) (at_mark ck) (st_replay s) = (err, st_replay s').

Lemma verified_same_replay c cfg ck (s s1 s2 : state) resolver peer err rest :
  st_replay s2 = st_replay s1 -> verified c cfg ck s s1 resolver peer err rest ->
  verified c cfg ck s s2 resolver peer err rest.
Proof. unfold verified. by intros ->. Qed.

(** What the handshake does after an authentic frame: the knock check. *)
Lemma knock_step c cfg ck (s : state) peer e s3 :
  (if sv_RequireKnock cfg then
     match st_store s with
     | None => (Some auth_ErrKnockRequired, s)
     | Some k =>
         let '(r, k) := store_CheckAndConsume peer (cn_remote c) (at_store ck) k in
         (EJoin auth_ErrKnockRequired <$> r, set_store (Some k) s)
     end
   else (None, s)) = (e, s3) ->
  st_replay s3 = st_replay s /\ (e = None -> sv_RequireKnock cfg = true -> consumed c ck peer s s3).
Proof.
  destruct (sv_RequireKnock cfg); [|by intros [= <- <-]]. unfold consumed.
  destruct (st_store s) as [k|]; [|by intros [= <- <-]].
  destruct (store_CheckAndConsume _ _ _ _) as [re k'] eqn:Ec. intros [= <- <-].
  split; [done|]. intros He _. destruct re; [done|]. by exists k, k'.
Qed.

(** ... and the server proof. *)
Lemma proof_step cfg result (c : conn) e c2 :
  (if ar_serverProofRequested result then
     if negb (sv_ServerProof cfg) then (Some auth_ErrServerProofRequired, c)
     else conn_write (ar_serverProof result) c
   else (None, c)) = (e, c2) ->
  cn_in c2 = cn_in c /\ cn_closed c2 = cn_closed c /\ (e <> None -> c2 = c).
Proof.
  destruct (ar_serverProofRequested result); [|by intros [= <- <-]].
  destruct (negb _); [by intros [= <- <-]|]. unfold conn_write. destruct (cn_write_err c); by intros [= <- <-].
Qed.

Lemma serverAuthNormalized_cases ctx c cfg ck (s : state) r c' s' :
  0 <= sv_TimeWindow cfg < 2 ^ 63 - 1 ->
  serverAuthNormalized ctx c cfg ck s = (r, c', s') ->
  st_replay s' = st_replay s /\ is_ok r = false \/
  exists resolver peer err rest, verified c cfg ck s s' resolver peer err rest /\
    (is_ok r = true -> err = None /\ r = Ok (peer, rest) /\ cn_closed c' = cn_closed c /\ cn_deadline c' = None /\
      (sv_RequireKnock cfg = true -> consumed c ck peer s s')).
Proof.
  intros Hw. unfold serverAuthNormalized.
  destruct (sv_Secrets cfg) as [resolver|] eqn:Esec; [|intros [= <- <- <-]; by left].
  cbv zeta. destruct (match st_policy (emit (OnAccept (cn_remote c)) s) with Some _ => _ | None => _ end)
    as [allowed s1] eqn:Ep. apply policy_step_replay in Ep as [Hr1 Hs1]. rewrite emit_replay in Hr1.
  assert (st_store (emit (OnAccept (cn_remote c)) s) = st_store s) as Hse by (unfold emit; by destruct (st_sink s)).
  rewrite Hse in Hs1. clear Hse.
  destruct (negb allowed).
  { unfold fail. intros [= <- <- <-]. left. by rewrite !emit_replay. }
  set (c1 := conn_set_deadline _ c).
  destruct (authenticateConfiguredProtocol (cn_in c1) c1 cfg resolver ck s1) as [[[result err] br] s2] eqn:Ea.
  apply authenticateConfiguredProtocol_spec in Ea; [|done]. unfold c1 in Ea.
  cbn [cn_in cn_local cn_remote conn_set_deadline] in Ea.
  destruct Ea as [[Hsame Hne]|(peer & Hpeer & Hauth & Hport & Hwin & Hmark & Hset)].
  { destruct err as [e|]; [|done]. unfold fail. intros [= <- <- <-]. left. rewrite emit_replay. split; [congruence|done]. }
  rewrite Hpeer, Hr1 in *.
  assert (verified c cfg ck s s2 resolver peer err br) as Hv by (unfold verified; by split_and!).
  assert (forall e s3 c3, st_replay s3 = st_replay s2 -> fail ctx (at_store ck) c3 cfg (Some peer) e s3 = (r, c', s') ->
    verified c cfg ck s s' resolver peer err br /\ is_ok r = false) as Hfail.
  { intros e s3 c3 Hs3. unfold fail. intros [= <- <- <-]. split; [|done].
    apply (verified_same_replay _ _ _ _ s2); [by rewrite emit_replay|done]. }
  destruct err as [e|].
  { intros [? Hr]%Hfail; [|done]. right. exists resolver, peer, (Some e), br. by rewrite Hr. }
  specialize (Hset eq_refl). destruct (if sv_RequireKnock cfg then _ else _) as [e s3] eqn:Ek.
  apply (knock_step c) in Ek as [Hs3 Hknock].
  destruct e as [e|].
  { intros [? Hr]%Hfail; [|done]. right. exists resolver, peer, None, br. by rewrite Hr. }
  destruct (if ar_serverProofRequested result then _ else _) as [e c2] eqn:Ew.
  apply proof_step in Ew as (Hin & Hcl & _). destruct e as [e|].
  { intros [? Hr]%Hfail; [|done]. right. exists resolver, peer, None, br. by rewrite Hr. }
  intros [= <- <- <-]. right. exists resolver, peer, None, br. cbn [conn_set_deadline cn_in cn_closed cn_deadline].
  split; [apply (verified_same_replay _ _ _ _ s2); [by rewrite callback_replay, emit_replay|done]|].
  intros _. split_and!; try done; [by rewrite Hin|]. intros Hk. destruct (Hknock eq_refl Hk) as (k & k' & Hk1 & ? & ?).
  exists k, k'. split_and!; [rewrite Hset in Hk1; simpl in Hk1; congruence| |done]. unfold callback, emit. by repeat case_match.
Qed.

(** Property C1. The server authenticates only genuine frames. When the
    handshake succeeds, the stream begins with a complete v1 frame or v2
    envelope of an accepted protocol that was sealed, with the payload the
    server reports, under a secret of at least 16 bytes the resolver offered for
    it; its client-id hash is that client's, its port is the server's, its
    timestamp is within the time window, its nonce was new to the replay cache,
    which now remembers it, and, when a knock is required, the knock store had a
    matching session and consumed it. The returned stream starts at the first
    byte after the frame; the connection stays open with its deadline cleared. *)
Theorem server_auth_sound ctx c cfg ck (s : state) peer rest c' s' :
  0 <= sv_TimeWindow cfg < 2 ^ 63 - 1 ->
  serverAuthNormalized ctx c cfg ck s = (Ok (peer, rest), c', s') ->
  exists resolver, sv_Secrets cfg = Some resolver /\
    let port := effectivePort (sv_ServerPort cfg) (cn_local c) in
    authentic resolver cfg port (cn_remote c) (rd_data (cn_in c)) (rd_data rest) peer /\
    (0 < port -> pi_ServerPort peer = port) /\
    in_window cfg (pi_Timestamp peer) (at_age ck) /\
    check_and_mark (pi_ClientID peer) (pi_Nonce peer) (at_mark ck) (st_replay s) = (None, st_replay s') /\
    cn_closed c' = cn_closed c /\ cn_deadline c' = None /\
    (sv_RequireKnock cfg = true -> consumed c ck peer s s').
Proof.
  intros Hw Hok. apply serverAuthNormalized_cases in Hok; [|done].
  destruct Hok as [[_ ?]|(resolver & peer' & err & rest' & (Hs & Ha & Hp & Hi & Hm) & Hok)]; [done|].
  destruct (Hok eq_refl) as (-> & [= <- <-] & Hc & Hd & Hk). exists resolver. split_and!; done.
Qed.

(** Peers that cannot produce a genuine frame leave no trace in
    the replay cache: whatever a handshake does, either the cache is unchanged
    and the handshake failed, or the stream began with a genuine frame for this
    port and time window, and the cache was asked once about its nonce. So
    unauthenticated traffic can neither fill the cache nor burn nonces. *)
Theorem server_auth_replay_frame ctx c cfg ck (s : state) r c' s' :
  0 <= sv_TimeWindow cfg < 2 ^ 63 - 1 ->
  serverAuthNormalized ctx c cfg ck s = (r, c', s') ->
  st_replay s' = st_replay s /\ is_ok r = false \/
  exists resolver peer err rest, sv_Secrets cfg = Some resolver /\
    let port := effectivePort (sv_ServerPort cfg) (cn_local c) in
    authentic resolver cfg port (cn_remote c) (rd_data (cn_in c)) rest peer /\
    in_window cfg (pi_Timestamp peer) (at_age ck) /\
    check_and_mark (pi_ClientID peer) (pi_Nonce peer) (at_mark ck) (st_replay s) = (err, st_replay s') /\
    (is_ok r = true -> err = None).
Proof.
  intros Hw Hr. apply serverAuthNormalized_cases in Hr; [|done].
  destruct Hr as [?|(resolver & peer & err & rest & (Hs & Ha & Hp & Hi & Hm) & Hok)]; [by left|right].
  exists resolver, peer, err, (rd_data rest). cbv zeta. split_and!; try done. intros Hr. by destruct (Hok Hr).
Qed.


End ServerProperties.

(** * Replayed frames *)

Section ReplayOnce.
Context `{LA : AEADLaws} {RC PS KS : Type} `{Policy PS} `{KnockSessionStore KS}.
Context {CH : ReplayCache RC} {LW : ReplayLaws RC}.

Abbreviation state := (state RC PS KS).

(** One server handles connections one after the other, in the order in which
    they reach the replay cache. *)
Fixpoint serve (cfg : ServerConfig) (conns : list (option Z * conn * clock)) (s : state)
  : list (res (PeerInfo * reader)) * state :=
  match conns with
  | [] => ([], s)
  | (ctx, c, ck) :: conns =>
      let '(r, _, s) := serverAuthNormalized ctx c cfg ck s in
      let '(rs, s) := serve cfg conns s in (r :: rs, s)
  end.

Lemma serve_cons cfg ctx c ck conns (s : state) r c' s' :
  serverAuthNormalized ctx c cfg ck s = (r, c', s') ->
  (serve cfg ((ctx, c, ck) :: conns) s).1 = r :: (serve cfg conns s').1.
Proof. intros E. cbn [serve]. rewrite E. by destruct (serve cfg conns s'). Qed.

(** The clock does not go back, and a handshake reaches the replay cache at
    most [d] after it checked the age of the frame. *)
Fixpoint ticking (d t : Z) (conns : list (option Z * conn * clock)) : Prop :=
  match conns with
  | [] => True
  | (_, _, ck) :: conns =>
      t <= at_mark ck /\ at_age ck <= at_mark ck <= at_age ck + d /\ ticking d (at_mark ck) conns
  end.

Definition mark_of (peer : PeerInfo) (t : Z) : mark := mkMark (pi_ClientID peer) (pi_Nonce peer) t.

Lemma handshake_tracks ctx c cfg ck (s : state) h t r c' s' :
  0 <= sv_TimeWindow cfg < 2 ^ 63 - 1 -> rc_tracks (st_replay s) h t -> 0 <= t <= at_mark ck ->
  serverAuthNormalized ctx c cfg ck s = (r, c', s') ->
  exists h' t', rc_tracks (st_replay s') h' t' /\ 0 <= t' <= at_mark ck /\ (forall m, m ∈ h -> m ∈ h') /\
    (forall peer rest, r = Ok (peer, rest) ->
      in_window cfg (pi_Timestamp peer) (at_age ck) /\ mark_of peer (at_mark ck) ∈ h' /\
      seen rc_ttl h (pi_ClientID peer) (pi_Nonce peer) (at_mark ck) = false).
Proof.
  intros Hw Ht Hck Hr. apply serverAuthNormalized_cases in Hr; [|done].
  destruct Hr as [[-> Hno]|(resolver & peer & err & rest & (_ & _ & _ & Hwin & Hm) & Hok)].
  - exists h, t. split_and!; try done; try lia. intros peer rest ->. done.
  - pose proof (rc_step _ _ _ _ _ (at_mark ck) _ _ Ht ltac:(lia) ltac:(lia) Hm) as Hs. cbv zeta in Hs.
    assert (forall p q, r = Ok (p, q) -> err = None /\ p = peer) as Hp.
    { intros p q ->. destruct (Hok eq_refl) as (-> & [= -> ->] & _). done. }
    destruct (seen _ _ _ _ _) eqn:Eseen; [|destruct (Z.leb _ _)]; destruct Hs as [-> Hs].
    + exists h, (at_mark ck). split_and!; try done; try lia. intros p q Hpq. by destruct (Hp p q Hpq).
    + exists h, (at_mark ck). split_and!; try done; try lia. intros p q Hpq. by destruct (Hp p q Hpq).
    + exists (h ++ [mark_of peer (at_mark ck)]), (at_mark ck). split_and!; try done; try lia.
      * intros m Hm'. apply elem_of_app. by left.
      * intros p q Hpq. destruct (Hp p q Hpq) as [_ ->]. split_and!; try done. apply elem_of_app. right. by left.
Qed.

(** A frame whose mark is in the history is not accepted again. *)
Lemma no_second_accept cfg d conns : forall (s : state) h t m ts,
  0 <= sv_TimeWindow cfg < 2 ^ 63 - 1 -> 2 * sv_TimeWindow cfg + d < rc_ttl ->
  rc_tracks (st_replay s) h t -> 0 <= t -> ticking d t conns ->
  m ∈ h -> time_UnixMilli ts - sv_TimeWindow cfg <= m_time m ->
  forall peer rest, Ok (peer, rest) ∈ (serve cfg conns s).1 ->
  pi_ClientID peer = m_client m -> pi_Nonce peer = m_nonce m -> pi_Timestamp peer = ts -> False.
Proof.
  induction conns as [|[[ctx c] ck] conns IH]; intros s h t m ts Hw Httl Htr Ht0 Hck Hm Hts peer rest; cbn [serve].
  { set_solver. }
  destruct Hck as (Hck1 & Hck2 & Hck3).
  destruct (serverAuthNormalized ctx c cfg ck s) as [[r c'] s'] eqn:Er.
  destruct (handshake_tracks _ _ _ ck _ _ t _ _ _ Hw Htr ltac:(lia) Er) as (h' & t' & Htr' & Ht' & Hsub & Hacc).
  specialize (IH s' h' t' m ts Hw Httl Htr' (proj1 Ht')). destruct (serve cfg conns s') as [rs s'']. cbn [fst] in *.
  intros [Hr|Hin]%elem_of_cons Hid Hno Htm.
  - destruct (Hacc peer rest (eq_sym Hr)) as (Hwin & _ & Hseen). subst ts. unfold in_window in Hwin.
    assert (seen rc_ttl h (pi_ClientID peer) (pi_Nonce peer) (at_mark ck) = true) as Hyes; [|congruence].
    apply seen_spec. exists m. split_and!; try done. apply Z.ltb_lt. lia.
  - apply (IH ltac:(destruct conns as [|[[? ?] ?] ?]; simpl in *; [done|]; intuition lia)
      (Hsub m Hm) Hts peer rest Hin Hid Hno Htm).
Qed.

Lemma serve_once cfg d conns (s : state) h t i j pi ri pj rj :
  0 <= sv_TimeWindow cfg < 2 ^ 63 - 1 -> 2 * sv_TimeWindow cfg + d < rc_ttl ->
  rc_tracks (st_replay s) h t -> 0 <= t -> ticking d t conns ->
  (i < j)%nat ->
  (serve cfg conns s).1 !! i = Some (Ok (pi, ri)) -> (serve cfg conns s).1 !! j = Some (Ok (pj, rj)) ->
  ~ (pi_ClientID pj = pi_ClientID pi /\ pi_Nonce pj = pi_Nonce pi /\ pi_Timestamp pj = pi_Timestamp pi).
Proof.
  revert s h t i j. induction conns as [|[[ctx c] ck] conns IH]; intros s h t i j Hw Httl Htr Ht0 Hck Hij; cbn [serve].
  { done. }
  destruct Hck as (Hck1 & Hck2 & Hck3).
  destruct (serverAuthNormalized ctx c cfg ck s) as [[r c'] s'] eqn:Er.
  destruct (handshake_tracks _ _ _ ck _ _ t _ _ _ Hw Htr ltac:(lia) Er) as (h' & t' & Htr' & Ht' & Hsub & Hacc).
  assert (ticking d t' conns) as Htick by (destruct conns as [|[[? ?] ?] ?]; simpl in *; [done|]; intuition lia).
  pose proof (no_second_accept cfg d conns s' h' t') as Hno. specialize (IH s' h' t').
  destruct (serve cfg conns s') as [rs s'']. cbn [fst] in *.
  destruct j as [|j]; [lia|]. destruct i as [|i]; simpl.
  - intros [= ->] Hj (Hc & Hn & Hts). destruct (Hacc pi ri eq_refl) as (Hwin & Hmark & _). unfold in_window in Hwin.
    apply (Hno (mark_of pi (at_mark ck)) (pi_Timestamp pi) Hw Httl Htr' ltac:(lia) Htick Hmark
      ltac:(simpl; lia) pj rj); try done. by eapply list_elem_of_lookup_2.
  - intros Hi Hj. apply (IH i j); try done; lia.
Qed.

(** Property C2. A captured frame authenticates at most once. A server whose
    replay cache remembers nonces for longer than twice the time window (plus
    the delay between the age check and the replay check) never accepts two
    handshakes of one client with the same nonce and timestamp, so a recorded
    frame, of which both are parts, is never accepted again, in any sequence of
    connections, however long and whatever else they carry. *)
Theorem frame_accepted_once cfg d conns (s : state) h t i j pi ri pj rj :
  0 <= sv_TimeWindow cfg < 2 ^ 63 - 1 -> 2 * sv_TimeWindow cfg + d < rc_ttl ->
  rc_tracks (st_replay s) h t -> 0 <= t -> ticking d t conns ->
  (i < j)%nat ->
  (serve cfg conns s).1 !! i = Some (Ok (pi, ri)) -> (serve cfg conns s).1 !! j = Some (Ok (pj, rj)) ->
  ~ (pi_ClientID pj = pi_ClientID pi /\ pi_Nonce pj = pi_Nonce pi /\ pi_Timestamp pj = pi_Timestamp pi).
Proof. apply serve_once. Qed.

End ReplayOnce.

(** The replay cache a server creates by itself remembers a
    nonce for exactly twice the time window, and an entry is no longer live at
    its expiry time. So a frame that first arrives as early as the window
    allows is accepted a second time if it is replayed at the last instant of
    its window: both times the age check passes and the cache accepts. *)
Theorem default_cache_boundary (cfg : ServerConfig) (clientID nonce : bytes) (ts : Z) :
  let d := sv_WithDefaults cfg in
  let early := time_UnixMilli ts - sv_TimeWindow d in
  let late := time_UnixMilli ts + sv_TimeWindow d in
  sv_TimeWindow d < 2 ^ 62 -> 0 <= early -> sv_Secrets cfg <> None -> sv_Validate cfg = Ok tt ->
  exists cache, NewServer cfg None = Ok (d, cache) /\
    in_window d ts early /\ in_window d ts late /\
    (run_marks [mkMark clientID nonce early; mkMark clientID nonce late] (Some cache)).1 = [None; None].
Proof.
  intros d early late Hw He Hs Hv.
  assert (0 < sv_TimeWindow d) as Hpos by (apply or_default_pos; unfold DefaultTimeWindow, Second; lia).
  eexists. split.
  { unfold NewServer. fold d. cbv zeta.
    assert (sv_Validate d = Ok tt) as ->.
    { unfold sv_Validate, d. rewrite sv_WithDefaults_idem. exact Hv. }
    res_simpl. change (sv_Secrets d) with (sv_Secrets cfg). destruct (sv_Secrets cfg); done. }
  assert (default_auth_ttl (sv_TimeWindow d) = 2 * sv_TimeWindow d) as Ht.
  { unfold default_auth_ttl, int64. rewrite Z.mod_small; lia. }
  split; [unfold in_window; lia|]. split; [unfold in_window; lia|].
  rewrite Ht. unfold Memory.NewMemoryReplayCache. rewrite (proj2 (Z.leb_gt _ 0)) by lia.
  assert (0 < 2 * sv_TimeWindow d) as H2 by lia.
  rewrite (run_marks_spec (L := memory_replay_laws _ DefaultReplayCacheMaxEntries H2) _ _ [] 0);
    [|eexists; split; [done|]; by apply mem_tracks_New|lia|simpl; lia].
  assert (remembered (2 * sv_TimeWindow d) late (mkMark clientID nonce early) = false) as Hr
    by (apply Z.ltb_ge; cbn [m_time]; lia).
  unfold rc_ttl, rc_max, memory_replay_laws. cbn [spec_marks m_client m_nonce m_time]. unfold seen.
  cbn [List.filter existsb app]. rewrite Hr. done.
Qed.

Lemma default_cache_boundary_witness :
  exists cache,
    NewServer (mkServerConfig 0 (Some (StaticSecrets ∅)) 0 0 0 [] [] (mkEnvelopeV2Config [] [] []) false false 0 0 0 0 0) None =
      Ok (sv_WithDefaults (mkServerConfig 0 (Some (StaticSecrets ∅)) 0 0 0 [] []
            (mkEnvelopeV2Config [] [] []) false false 0 0 0 0 0), cache) /\
    (run_marks [mkMark ex_client ex_nonce (70 * Second); mkMark ex_client ex_nonce (130 * Second)] (Some cache)).1
      = [None; None].
Proof.
  destruct (default_cache_boundary
    (mkServerConfig 0 (Some (StaticSecrets ∅)) 0 0 0 [] [] (mkEnvelopeV2Config [] [] []) false false 0 0 0 0 0)
    ex_client ex_nonce 100000) as (cache & H1 & _ & _ & H2).
  - vm_compute. reflexivity.
  - vm_compute. discriminate.
  - discriminate.
  - vm_compute. reflexivity.
  - exists cache. split; [exact H1|exact H2].
Defined.
