(* ===== verification/AuthClient.v ===== *)
(** auth/client.go: the client side of the handshake, and the end-to-end
    theorems that connect it with the server of AuthServer.v. *)

From Stdlib Require Import ZArith Lia String Sorted.
From Stdlib Require Strings.Byte.
From stdpp Require Import base list gmap strings.
From S2P Require Import Prelude GoStd Cryptox Codec Frame Envelope Net Replay AuthTypes AuthServer.

Open Scope Z_scope.

(** * The client *)

Definition newClientFramePeer (cfg : ClientConfig) (h : Header) (serverPort now : Z) (remote : option net_Addr)
  : PeerInfo :=
  mkPeerInfo (cl_ClientID cfg) (ComputeClientIDHash (cl_Secret cfg) (cl_ClientID cfg)) (h_KeyHint h) (h_Nonce h)
    (UnixMilli now) serverPort (cl_Method cfg) (cl_SessionID cfg) (cl_Extensions cfg) remote [] Byte.x00.

Definition newClientEnvelopePeer (cfg : ClientConfig) (h : EnvelopeV2Header) (serverPort now : Z) (flags : byte)
    (remote : option net_Addr) : PeerInfo :=
  mkPeerInfo (cl_ClientID cfg) (ComputeClientIDHash (cl_Secret cfg) (cl_ClientID cfg)) (eh_RouteHint h)
    (eh_PrefixRandom h) (UnixMilli now) serverPort (cl_Method cfg) (cl_SessionID cfg) (cl_Extensions cfg) remote
    AuthProtocolEnvelopeV2 flags.

(** The flag byte of the request. *)
Definition client_flags (cfg : ClientConfig) : byte :=
  if cl_RequireServerProof cfg then FlagServerProof else Byte.x00.

Section Client.
Context `{AEAD}.

Definition buildClientFrameOptions (cfg : ClientConfig) (serverPort now : Z) (flags : byte) (r : rng) :=
  BuildFrame (cl_ClientID cfg) (cl_Secret cfg) serverPort now flags (cl_Method cfg) (cl_SessionID cfg)
    (cl_Extensions cfg) r.

Definition buildEnvelopeOptions (cfg : ClientConfig) (serverPort now : Z) (flags : byte) (r : rng) :=
  BuildEnvelopeV2 (cl_ClientID cfg) (cl_Secret cfg) serverPort now flags (cl_Method cfg) (cl_SessionID cfg)
    (cl_Extensions cfg) (cl_EnvelopeV2 cfg) r.

(** Reading and checking the server proof; [verify] is the protocol's check.
    The result is the stream after the proof. *)
Definition read_proof (required : bool) (verify : bytes -> res unit) (c : conn) : res conn :=
  if required then
    match io_ReadFull (Z.to_nat ServerProofSize) (cn_in c) with
    | Err _ => Err auth_ErrServerProofFailed
    | Ok (proof, r) =>
        match verify proof with
        | Err _ => Err auth_ErrServerProofFailed
        | Ok _ => Ok (conn_set_in r c)
        end
    end
  else Ok c.

(** [ClientAuthWithInfo]; every error path closes the connection. [at_deadline]
    and [now] are its two readings of the clock. *)
Definition ClientAuthWithInfo (ctx_deadline : option Z) (c : option conn) (cfg : ClientConfig)
    (deadline_now now : Z) (r : rng) : res PeerInfo * option conn :=
  match c with
  | None => (Err auth_ErrNilConn, None)
  | Some c =>
      let cfg := cl_WithDefaults cfg in
      match cl_ValidateRuntime cfg with
      | Err e => (Err e, Some (conn_close c))
      | Ok _ =>
          let c := conn_set_deadline
                     (Some (match ctx_deadline with Some d => d | None => deadline_now + cl_AuthTimeout cfg end)) c in
          let serverPort := effectivePort (cl_ServerPort cfg) (cn_remote c) in
          let flags := client_flags cfg in
          if bool_decide (cl_Protocol cfg = AuthProtocolEnvelopeV2) then
            match buildEnvelopeOptions cfg serverPort now flags r with
            | Err e => (Err (mapProtocolError e), Some (conn_close c))
            | Ok (frame, header, _) =>
                match conn_write frame c with
                | (Some e, c) => (Err e, Some (conn_close c))
                | (None, c) =>
                    match read_proof (cl_RequireServerProof cfg)
                            (fun p => VerifyEnvelopeV2ServerProof p (cl_Secret cfg) header serverPort) c with
                    | Err e => (Err e, Some (conn_close c))
                    | Ok c =>
                        (Ok (newClientEnvelopePeer cfg header serverPort now flags (cn_remote c)),
                         Some (conn_set_deadline None c))
                    end
                end
            end
          else
            match buildClientFrameOptions cfg serverPort now flags r with
            | Err e => (Err (mapProtocolError e), Some (conn_close c))
            | Ok (frame, header, _) =>
                match conn_write frame c with
                | (Some e, c) => (Err e, Some (conn_close c))
                | (None, c) =>
                    match read_proof (cl_RequireServerProof cfg)
                            (fun p => VerifyServerProof p (cl_Secret cfg) header serverPort) c with
                    | Err e => (Err e, Some (conn_close c))
                    | Ok c =>
                        (Ok (newClientFramePeer cfg header serverPort now (cn_remote c)),
                         Some (conn_set_deadline None c))
                    end
                end
            end
      end
  end.

Definition ClientAuth (ctx_deadline : option Z) (c : option conn) (cfg : ClientConfig) (deadline_now now : Z) (r : rng)
  : option error * option conn :=
  match ClientAuthWithInfo ctx_deadline c cfg deadline_now now r with
  | (Ok _, c) => (None, c)
  | (Err e, c) => (Some e, c)
  end.

End Client.

(** * Lemmas: finding the client's candidate *)

Section Finding.
Context `{LA : AEADLaws}.

(** The first candidate that authenticates is the sender, when no other one
    does. *)
Lemma first_candidate_unique cands cand h sealed port remote p :
  cand ∈ cands -> authenticateCandidate cand h sealed port remote = Ok p ->
  (forall c, c ∈ cands -> c <> cand -> is_ok (authenticateCandidate c h sealed port remote) = false) ->
  first_candidate cands h sealed port remote = Some (p, cand).
Proof.
  intros Hin Hok Hno. induction cands as [|c cands IH]; [set_solver|]. cbn [first_candidate].
  destruct (decide (c = cand)) as [->|Hne]; [by rewrite Hok|].
  specialize (Hno c ltac:(left) Hne) as Hc. destruct (authenticateCandidate c _ _ _ _); [done|].
  apply IH; [set_solver|]. intros c' Hc' Hne'. apply Hno; [by right|done].
Qed.

Lemma scan_candidates_none max n cands h sealed port remote :
  (forall c, c ∈ cands -> is_ok (authenticateEnvelopeV2Candidate c h sealed port remote) = false) ->
  n + len cands <= max -> scan_candidates max n cands h sealed port remote = ScanNone (n + len cands).
Proof.
  revert n. induction cands as [|c cands IH]; intros n Hno Hn; cbn [scan_candidates].
  - f_equal. unfold len. simpl. lia.
  - unfold len in *. cbn [length] in *. rewrite (proj2 (Z.leb_gt _ _)) by lia. cbv zeta.
    pose proof (Hno c ltac:(left)) as Hc. destruct (authenticateEnvelopeV2Candidate c _ _ _ _); [done|].
    rewrite IH; [f_equal; lia| |lia]. intros c' Hc'. apply Hno. by right.
Qed.

Lemma scan_candidates_unique max n cands cand h sealed port remote p :
  cand ∈ cands -> authenticateEnvelopeV2Candidate cand h sealed port remote = Ok p ->
  (forall c, c ∈ cands -> c <> cand -> is_ok (authenticateEnvelopeV2Candidate c h sealed port remote) = false) ->
  n + len cands <= max ->
  exists n', scan_candidates max n cands h sealed port remote = ScanFound p cand n' /\ n' <= n + len cands.
Proof.
  intros Hin Hok. revert n. induction cands as [|c cands IH]; intros n Hno Hn; [set_solver|].
  cbn [scan_candidates]. unfold len in *. cbn [length] in *. rewrite (proj2 (Z.leb_gt _ _)) by lia. cbv zeta.
  destruct (decide (c = cand)) as [->|Hne].
  { rewrite Hok. eexists. split; [done|lia]. }
  specialize (Hno c ltac:(left) Hne) as Hc. destruct (authenticateEnvelopeV2Candidate c _ _ _ _); [done|].
  destruct (IH ltac:(set_solver) (n + 1)) as (n' & Hs & Hn'); [|lia|].
  - intros c' Hc' Hne'. apply Hno; [by right|done].
  - exists n'. split; [done|lia].
Qed.

(** [only_sender]: of all the attempts the server can make on the stream after
    the prefix, with any candidate and any configured bucket, only the sender's
    own bucket and secret open it. *)
Definition only_sender (cands : list SecretCandidate) (cand : SecretCandidate) (buckets : list Z) (h : EnvelopeV2Header)
    (pl : Z) (data : bytes) (port : Z) (remote : option net_Addr) : Prop :=
  forall b c, b ∈ buckets -> c ∈ cands -> ~ (b = eh_BucketSize h /\ c = cand) ->
    is_ok (authenticateEnvelopeV2Candidate c (set_BucketSize h b) (take (Z.to_nat (b - pl)) data) port remote) = false.

Lemma set_BucketSize_twice h b b' : set_BucketSize (set_BucketSize h b) b' = set_BucketSize h b'.
Proof. done. Qed.

Lemma scan_buckets_unique cfg pl cands cand br port remote h h0 p buckets : forall n,
  set_BucketSize h0 (eh_BucketSize h) = h -> StronglySorted Z.lt buckets ->
  eh_BucketSize h ∈ buckets -> eh_BucketSize h <= sv_MaxFrameSize cfg -> pl + Overhead <= eh_BucketSize h ->
  eh_BucketSize h - pl <= len (rd_data br) -> cand ∈ cands ->
  authenticateEnvelopeV2Candidate cand h (take (Z.to_nat (eh_BucketSize h - pl)) (rd_data br)) port remote = Ok p ->
  only_sender cands cand buckets h pl (rd_data br) port remote ->
  n + len buckets * len cands <= sv_MaxAuthAttempts cfg ->
  exists n', scan_buckets cfg pl cands br port remote h0 n buckets = (Ok (p, cand, h, eh_BucketSize h - pl), n').
Proof.
  revert h0. induction buckets as [|b buckets IH]; intros h0 n Hh Hsort Hin Hmax Hmin Hlen Hc Hok Hno Hn; [set_solver|].
  assert (0 <= len cands) by apply len_nonneg. unfold len in Hn at 1. cbn [length] in Hn.
  assert (only_sender cands cand buckets h pl (rd_data br) port remote) as Hno'.
  { intros b' c' Hb'. apply Hno. by right. }
  apply StronglySorted_inv in Hsort as [Hsort HF]. rewrite Forall_forall in HF.
  cbn [scan_buckets]. destruct (decide (b = eh_BucketSize h)) as [->|Hne].
  - rewrite (proj2 (Z.ltb_ge _ _)), (proj2 (Z.ltb_ge _ _)) by (unfold chachaOverhead; lia). cbn [orb]. cbv zeta.
    unfold br_Peek. rewrite decide_True by (unfold len in Hlen; lia). rewrite Hh.
    destruct (scan_candidates_unique (sv_MaxAuthAttempts cfg) n cands cand h
      (take (Z.to_nat (eh_BucketSize h - pl)) (rd_data br)) port remote p Hc Hok) as (n' & -> & _); [|nia|by exists n'].
    intros c Hc' Hne. replace h with (set_BucketSize h (eh_BucketSize h)) at 1 by (by destruct h).
    apply Hno; [left|done|]. by intros [_ ?].
  - assert (eh_BucketSize h ∈ buckets) as Hin' by set_solver. specialize (HF _ Hin').
    destruct (_ || _) eqn:Eskip; [apply IH; try done; unfold len at 1; nia|].
    apply orb_false_iff in Eskip as [_ Eb]. cbv zeta. unfold br_Peek. rewrite decide_True by (unfold len in Hlen; lia).
    rewrite scan_candidates_none; [|..|nia].
    + apply IH; try done. unfold len at 2. nia.
    + intros c Hc'. rewrite <- (set_BucketSize_twice h0 (eh_BucketSize h)), Hh.
      apply Hno; [left|done|]. by intros [? _].
Qed.

End Finding.

(** * Lemmas: the server accepts the client's frame *)

Section EndToEnd.
Context `{LA : AEADLaws} {RC PS KS : Type} `{ReplayCache RC} `{Policy PS} `{KnockSessionStore KS}.

Abbreviation state := (state RC PS KS).

Lemma validatePeerCommon_accepts cfg peer port remote hint ck (s : state) rc :
  pi_ServerPort peer = port -> in_window cfg (pi_Timestamp peer) (at_age ck) -> sv_TimeWindow cfg < 2 ^ 63 - 1 ->
  check_and_mark (pi_ClientID peer) (pi_Nonce peer) (at_mark ck) (st_replay s) = (None, rc) ->
  validatePeerCommon cfg peer port remote hint ck s = (None, set_replay rc s).
Proof.
  intros Hp Hw Hmax Hm. unfold validatePeerCommon. cbv zeta. rewrite Hp, Z.eqb_refl, andb_false_r. unfold in_window in Hw.
  rewrite (proj2 (Z.ltb_ge _ _)), (proj2 (Z.ltb_ge _ _)) by (unfold Sub; lia). cbn [orb]. by rewrite Hm.
Qed.

(** The server finds, opens and accepts an envelope [BuildEnvelopeV2] made. *)
Lemma authenticateEnvelopeV2_accepts id secret port now flags method sid ext ccfg r out h r' cfg smap rest fin
    remote ck (s : state) rc :
  BuildEnvelopeV2 id secret port now flags method sid ext ccfg r = Ok (out, h, r') ->
  let envCfg := ec_WithDefaults (sv_EnvelopeV2 cfg) in
  let cand := mkCandidate id secret in
  let p := mkEnvelopeV2Payload EnvelopeV2Version flags (UnixMilli now) (ComputeClientIDHash secret id) port method sid ext in
  let cands := static_ResolveCandidates smap (envelope_meta envCfg h port) in
  let buckets := EnvelopeV2Buckets (ec_FrameSizeBuckets envCfg) in
  is_int64 (UnixMilli now) -> ec_HintMode (ec_WithDefaults ccfg) = ec_HintMode envCfg ->
  eh_BucketSize h ∈ buckets -> eh_BucketSize h <= sv_MaxFrameSize cfg ->
  smap !! id = Some secret -> len buckets * len cands <= sv_MaxAuthAttempts cfg ->
  only_sender cands cand buckets h (prefix_len envCfg) (drop (Z.to_nat (prefix_len envCfg)) out ++ rest) port remote ->
  in_window cfg (UnixMilli now) (at_age ck) -> sv_TimeWindow cfg < 2 ^ 63 - 1 ->
  check_and_mark id (eh_PrefixRandom h) (at_mark ck) (st_replay s) = (None, rc) ->
  authenticateEnvelopeV2 (mk_reader (out ++ rest) fin) remote cfg port (StaticSecrets smap) ck s =
  (mkAuthResult (Some (newPeerInfoFromEnvelopeV2 cand p h remote)) (eh_RouteHint h)
     (flags_set flags EnvelopeV2FlagServerProof)
     (if flags_set flags EnvelopeV2FlagServerProof then BuildEnvelopeV2ServerProof secret h port else []),
   None, mk_reader rest fin, set_replay rc s).
Proof.
  intros HB envCfg cand p cands buckets Hms Hmode Hb Hmax Hs Hatt Honly Hwin Hw63 Hmark.
  apply BuildEnvelopeV2_inv in HB. cbv zeta in HB. fold p in HB.
  destruct HB as (Hval & Hid & Hs16 & Hf & Hfit & Hp24 & Hp0 & Hhm & Hhint & _ & padding & sealed & Hpad & Hseal & Hsl & Hout).
  pose proof (ec_Validate_modes _ _ Hval) as [Hmodes _].
  unfold route_mode, prefix_len, route_mode in *. rewrite Hmode in *.
  set (route := bool_decide (ec_HintMode envCfg = EnvelopeV2HintModeRouteHint)) in *.
  set (hint := if route then be_put 8 (eh_RouteHint h) else []) in *.
  assert (is_uint64 (eh_RouteHint h)) as Hu64.
  { rewrite Hhint. destruct route; [apply ComputeEnvelopeV2RouteHint_bound|unfold is_uint64; lia]. }
  assert (len hint = (if route then 8 else 0)) as Hhl by (unfold hint; destruct route; [by rewrite len_be_put|done]).
  set (h0 := mkEnvelopeV2Header (eh_PrefixRandom h) (eh_RouteHint h) 0 (ec_HintMode envCfg)).
  assert (set_BucketSize h0 (eh_BucketSize h) = h) as Hh0 by (unfold h0; destruct h; simpl in *; by rewrite Hhm).
  assert (drop (Z.to_nat (24 + (if route then 8 else 0))) out = sealed) as Hdrop.
  { rewrite Hout, app_assoc. apply drop_app_length'. rewrite length_app. unfold len in Hhl. lia. }
  rewrite Hdrop in Honly.
  unfold authenticateEnvelopeV2. cbv zeta. fold envCfg.
  assert (ReadEnvelopeV2Prefix (mk_reader (out ++ rest) fin) (ec_HintMode envCfg) = Ok (h0, mk_reader (sealed ++ rest) fin)) as ->.
  { rewrite Hout, <- !app_assoc. unfold hint, route. rewrite ReadEnvelopeV2Prefix_app by done. unfold h0.
    repeat f_equal. fold route. destruct route; [done|]. by rewrite Hhint. }
  assert (envelope_meta envCfg h0 port = envelope_meta envCfg h port) as -> by done. cbn [ResolveCandidates]. fold cands.
  assert (cand ∈ cands) as Hcand.
  { apply static_candidates. split; [done|]. unfold candidate_matches. cbn [sc_Secret cand].
    rewrite (proj2 (Z.eqb_neq _ 0)) by lia. unfold envelope_meta. fold route.
    destruct route eqn:Er; cbn [fm_Protocol fm_HintMode fm_PrefixRandom fm_ServerPort fm_Hint];
      rewrite bool_decide_eq_true_2 by done.
    - assert (ec_HintMode envCfg = EnvelopeV2HintModeRouteHint) as -> by (by apply bool_decide_eq_true in Er).
      rewrite bool_decide_eq_false_2 by done. cbn [negb]. change EnvelopeV2PrefixSize with 24%nat.
      rewrite Hp24, Nat.eqb_refl, go_copy_exact by done. cbn [negb]. rewrite Hhint. apply Z.eqb_refl.
    - assert (ec_HintMode envCfg = EnvelopeV2HintModeNone) as ->
        by (destruct Hmodes as [Hm|Hm]; [by apply bool_decide_eq_false in Er|done]).
      by rewrite bool_decide_eq_true_2. }
  destruct cands as [|c0 cs] eqn:Ecands; [set_solver|]. rewrite <- Ecands in *.
  assert (0 < len cands) by (rewrite Ecands; unfold len; simpl; lia).
  assert (0 < len buckets) by (unfold len; destruct buckets; [set_solver|simpl; lia]).
  rewrite (proj2 (Z.ltb_ge (sv_MaxAuthAttempts cfg) (len cands))) by nia. rewrite andb_false_r. fold route.
  change (Z.of_nat EnvelopeV2PrefixSize + (if route then Z.of_nat EnvelopeV2RouteHintSize else 0))
    with (24 + (if route then 8 else 0)). fold buckets.
  assert (genuine_v2 port cand h p sealed) as Hg.
  { split; try done.
    - intros Hm. unfold route in Hhint. by rewrite <- Hhm, bool_decide_eq_true_2 in Hhint.
    - split; [split; [apply HMACTrunc128_length|done]|done].
    - eauto. }
  destruct (scan_buckets_unique cfg (24 + (if route then 8 else 0)) cands cand (mk_reader (sealed ++ rest) fin) port remote h h0
    (newPeerInfoFromEnvelopeV2 cand p h remote) buckets 0) as (n' & Hscan); try done.
  { apply EnvelopeV2Buckets_sorted. }
  { pose proof (SealEnvelopeV2Payload_len _ _ _ _ _ Hseal). pose proof (len_nonneg (envelope_body p padding)).
    unfold Overhead. lia. }
  { cbn [rd_data]. rewrite len_app. pose proof (len_nonneg rest). lia. }
  { cbn [rd_data]. rewrite take_app_length' by (unfold len in Hsl; lia).
    apply authenticateEnvelopeV2Candidate_Ok. by exists p. }
  rewrite Hscan. cbn [fst].
  rewrite (validatePeerCommon_accepts _ _ _ _ _ _ _ rc) by done.
  assert (br_Discard (Z.to_nat (eh_BucketSize h - (24 + (if route then 8 else 0)))) (mk_reader (sealed ++ rest) fin)
    = mk_reader rest fin) as ->.
  { unfold br_Discard. cbn [rd_data rd_fin]. f_equal. apply drop_app_length'. unfold len in Hsl. lia. }
  done.
Qed.

Lemma flags_set_client (d : ClientConfig) : flags_set (client_flags d) FlagServerProof = cl_RequireServerProof d.
Proof. unfold client_flags. by destruct (cl_RequireServerProof d). Qed.

Lemma read_proof_accepts (required : bool) verify (reply tail : bytes) fin c :
  cn_in c = mk_reader ((if required then reply else []) ++ tail) fin ->
  (required = true -> length reply = 50%nat /\ verify reply = Ok tt) ->
  read_proof required verify c = Ok (conn_set_in (mk_reader tail fin) c).
Proof.
  intros Hin Hv. unfold read_proof. destruct required.
  - destruct (Hv eq_refl) as [Hl Hok]. rewrite Hin, io_ReadFull_app by done. by rewrite Hok.
  - simpl in Hin. unfold conn_set_in. rewrite <- Hin. by destruct c.
Qed.

(** The dispatch on the first byte. *)
Lemma configured_v2 (out rest : bytes) fin c cfg resolver ck (s : state) :
  acceptsProtocol (sv_AcceptProtocols cfg) AuthProtocolEnvelopeV2 = true ->
  (1 <= length out)%nat -> nth 0 out Byte.x00 <> Version ->
  authenticateConfiguredProtocol (mk_reader (out ++ rest) fin) c cfg resolver ck s =
  authenticateEnvelopeV2 (mk_reader (out ++ rest) fin) (cn_remote c) cfg
    (effectivePort (sv_ServerPort cfg) (cn_local c)) resolver ck s.
Proof.
  intros Hacc Hl Hv. unfold authenticateConfiguredProtocol. cbv zeta. rewrite Hacc.
  destruct (acceptsProtocol _ AuthProtocolFrameV1); cbn [andb negb]; [|done].
  unfold br_Peek. cbn [rd_data]. rewrite length_app, decide_True by lia.
  destruct out as [|b out]; [simpl in Hl; lia|]. by rewrite bool_decide_eq_false_2.
Qed.

Lemma configured_v1 (b : byte) (out rest : bytes) fin c cfg resolver ck (s : state) :
  acceptsProtocol (sv_AcceptProtocols cfg) AuthProtocolFrameV1 = true -> b = Version ->
  authenticateConfiguredProtocol (mk_reader ((b :: out) ++ rest) fin) c cfg resolver ck s =
  authenticateFrameV1 (mk_reader ((b :: out) ++ rest) fin) (cn_remote c) cfg
    (effectivePort (sv_ServerPort cfg) (cn_local c)) resolver ck s.
Proof.
  intros Hacc ->. unfold authenticateConfiguredProtocol. cbv zeta. rewrite Hacc.
  destruct (acceptsProtocol _ AuthProtocolEnvelopeV2); cbn [andb negb]; [|done].
  unfold br_Peek. cbn [rd_data]. rewrite length_app, decide_True by (simpl; lia).
  by rewrite bool_decide_eq_true_2.
Qed.


(** The server finds, opens and accepts a frame [BuildFrame] made. *)
Lemma authenticateFrameV1_accepts id secret port now flags method sid ext r out h r' cfg smap rest fin
    remote ck (s : state) rc :
  BuildFrame id secret port now flags method sid ext r = Ok (out, h, r') ->
  let cand := mkCandidate id secret in
  let p := mkPayload (ComputeClientIDHash secret id) (UnixMilli now) port method sid ext in
  let cands := static_ResolveCandidates smap (mkFrameMeta (h_KeyHint h) (h_Nonce h) port [] [] []) in
  is_int64 (UnixMilli now) -> 1024 <= sv_MaxFrameSize cfg -> smap !! id = Some secret ->
  (forall c, c ∈ cands -> c <> cand -> is_ok (authenticateCandidate c h (drop 29 out) port remote) = false) ->
  in_window cfg (UnixMilli now) (at_age ck) -> sv_TimeWindow cfg < 2 ^ 63 - 1 ->
  check_and_mark id (h_Nonce h) (at_mark ck) (st_replay s) = (None, rc) ->
  authenticateFrameV1 (mk_reader (out ++ rest) fin) remote cfg port (StaticSecrets smap) ck s =
  (mkAuthResult (Some (newPeerInfoFromV1 cand p h remote)) (h_KeyHint h) (flags_set flags FlagServerProof)
     (if flags_set flags FlagServerProof then BuildServerProof secret h port else []),
   None, mk_reader rest fin, set_replay rc s).
Proof.
  intros HB cand p cands Hms Hmax Hs Honly Hwin Hw63 Hmark. apply BuildFrame_inv in HB. cbv zeta in HB. fold p in HB.
  destruct HB as (Hid & Hs16 & Hf & Hfit & Hwf & Hv & Hflags & Hres & Hhint & sealed & Hseal & Hsl & Hsz & Hout).
  assert (0 < h_SealedLen h) as Hpos.
  { rewrite <- Hsl, (SealPayload_len _ _ _ _ Hseal). pose proof (len_nonneg (payload_bytes p)). lia. }
  assert (drop 29 out = sealed) as Hdrop.
  { rewrite Hout. apply drop_app_length'. by rewrite length_header_bytes by apply Hwf. }
  rewrite Hdrop in Honly. unfold authenticateFrameV1.
  rewrite Hout, <- app_assoc, ReadFrame_header; try done;
    [|by rewrite Hflags|rewrite (proj2 (Z.leb_gt _ 0)) by lia; lia].
  cbn [ResolveCandidates]. fold cands.
  assert (cand ∈ cands) as Hcand.
  { apply static_candidates. split; [done|]. unfold candidate_matches. cbn [sc_Secret cand fm_Protocol].
    rewrite (proj2 (Z.eqb_neq _ 0)) by lia. rewrite bool_decide_eq_false_2 by done.
    cbn [fm_Nonce fm_ServerPort fm_Hint]. rewrite Hhint. apply Z.eqb_refl. }
  destruct cands as [|c0 cs] eqn:Ecands; [set_solver|]. rewrite <- Ecands in *.
  assert (genuine_v1 port cand h p sealed) as Hg.
  { split; try done. split; [split; [apply HMACTrunc128_length|done]|done]. }
  rewrite (first_candidate_unique cands cand h sealed port remote (newPeerInfoFromV1 cand p h remote)); try done;
    [|apply authenticateCandidate_Ok; by exists p].
  rewrite (validatePeerCommon_accepts _ _ _ _ _ _ _ rc) by done. by rewrite Hflags.
Qed.


End EndToEnd.

(** * Concrete handshakes *)

#[export] Instance allow_all : Policy unit := fun _ _ s => (true, s).
#[export] Instance no_store : KnockSessionStore unit := fun _ _ _ s => (None, s).

Definition ex_ccfg (protocol : bytes) : ClientConfig :=
  mkClientConfig ex_client ex_secret 9000 0 protocol ex_env_cfg (str "tcp") (str "session") [] true.

Definition ex_scfg : ServerConfig :=
  sv_WithDefaults (mkServerConfig 9000 (Some (StaticSecrets {[ex_client := ex_secret]})) 0 0 0 []
    [AuthProtocolFrameV1; AuthProtocolEnvelopeV2] (mkEnvelopeV2Config [] [128] []) false true 0 0 0 0 0).

Definition ex_addr : option net_Addr := Some (TCPAddr [Byte.x7f; Byte.x00; Byte.x00; Byte.x01] 40000).

Definition ex_conn (data : bytes) : conn :=
  mkConn (Some (TCPAddr [Byte.x7f; Byte.x00; Byte.x00; Byte.x01] 9000)) ex_addr (mk_reader data io_EOF) [] None None false.

Definition ex_state : state (option Memory.t) unit unit :=
  mkState (Some (Memory.NewMemoryReplayCacheWithLimit (61 * Second) 8)) None None true false [].

Definition ex_clock (now : Z) : clock := mkClock now now now now now.

Definition ex_payload1 : Payload :=
  mkPayload (ComputeClientIDHash ex_secret ex_client) (UnixMilli ex_now) 9000 (str "tcp") (str "session") [].

Definition ex_h1 (nonce : bytes) : Header :=
  mkHeader Version FlagServerProof Byte.x00 nonce (ComputeKeyHint ex_secret nonce 9000)
    (len (payload_bytes ex_payload1) + 16).

Definition ex_frame1 (nonce : bytes) : bytes :=
  header_bytes (ex_h1 nonce) ++ aead_seal (AEAD := mac_AEAD) (deriveAEADKey ex_secret (ex_h1 nonce))
    (aeadNonce (ex_h1 nonce)) (payload_bytes ex_payload1) (aad (ex_h1 nonce)).

Lemma ex_frame1_built nonce : length nonce = 16%nat ->
  @buildClientFrameOptions mac_AEAD (cl_WithDefaults (ex_ccfg AuthProtocolFrameV1)) 9000 ex_now FlagServerProof
    (nonce ++ []) = Ok (ex_frame1 nonce, ex_h1 nonce, []).
Proof.
  intros Hn. apply (BuildFrame_eq (LA := mac_AEAD_laws)); try (vm_compute; first [reflexivity|discriminate]). exact Hn.
Qed.

Definition ex_h2 : EnvelopeV2Header :=
  mkEnvelopeV2Header ex_prefix (ComputeEnvelopeV2RouteHint ex_secret ex_prefix 9000) 128 EnvelopeV2HintModeRouteHint.

Definition ex_sealed2 : bytes :=
  aead_seal (AEAD := mac_AEAD) (deriveEnvelopeV2Key ex_secret ex_prefix) (envelopeV2Nonce ex_prefix)
    ((envelope_payload_bytes (mkEnvelopeV2Payload EnvelopeV2Version FlagServerProof (UnixMilli ex_now)
        (ComputeClientIDHash ex_secret ex_client) 9000 (str "tcp") (str "session") []) ++ be_put 2 36) ++ zeros 36)
    (envelopeV2AAD ex_h2 9000).

Definition ex_frame2 : bytes := (ex_prefix ++ be_put 8 (eh_RouteHint ex_h2)) ++ ex_sealed2.

Lemma ex_frame2_built :
  @buildEnvelopeOptions mac_AEAD (cl_WithDefaults (ex_ccfg [])) 9000 ex_now FlagServerProof (ex_prefix ++ zeros 300) =
  Ok (ex_frame2, ex_h2, zeros 263).
Proof.
  unfold buildEnvelopeOptions.
  cbn [cl_ClientID cl_Secret cl_Method cl_SessionID cl_Extensions cl_EnvelopeV2 cl_WithDefaults ex_ccfg].
  set (c := ec_WithDefaults ex_env_cfg).
  assert (ec_WithDefaults c = c) as Hc by apply ec_WithDefaults_idem.
  assert (route_mode c = true) as Hr by (vm_compute; reflexivity).
  assert (128 - min_size c 42 - 2 = 36) as Hpad by (vm_compute; reflexivity).
  pose proof (BuildEnvelopeV2_drawn (A := mac_AEAD) ex_client ex_secret 9000 ex_now FlagServerProof (str "tcp")
    (str "session") [] c (ex_prefix ++ zeros 300) ex_prefix (zeros 300) 0 (zeros 299) c 42 128) as HB.
  rewrite Hpad, Hr in HB.
  rewrite (HB (eq_sym Hc) eq_refl ltac:(vm_compute; reflexivity) ltac:(vm_compute; reflexivity)
    ltac:(discriminate) ltac:(vm_compute; discriminate) ltac:(vm_compute; reflexivity) ltac:(vm_compute; reflexivity)
    ltac:(vm_compute; reflexivity) ltac:(vm_compute; reflexivity) _ eq_refl _ eq_refl).
  change (Z.ltb 36 0) with false. change (Z.ltb 0 36) with true. cbv iota.
  change (bool_decide (ec_PaddingPolicy c = EnvelopeV2PaddingRandomBucket)) with true. cbv iota.
  change (zeros 299) with (zeros 36 ++ zeros 263). rewrite (rand_Read_app (Z.to_nat 36) (zeros 36) (zeros 263)) by reflexivity.
  rewrite mbind_Ok, SealEnvelopeV2Payload_eq, mbind_Ok. reflexivity.
Qed.



(** A server that accepts the frame of the example, whatever its nonce. *)
Definition ex_peer (nonce : bytes) : PeerInfo :=
  newPeerInfoFromV1 (mkCandidate ex_client ex_secret) ex_payload1 (ex_h1 nonce) ex_addr.

Definition ex_served (nonce : bytes) (rc : option Memory.t) (evs : list AuthEvent)
  : outcome (option Memory.t) unit unit :=
  (Ok (ex_peer nonce, mk_reader (str "GET /") io_EOF),
   mkConn (cn_local (ex_conn [])) ex_addr (mk_reader (str "GET /") io_EOF)
     (BuildServerProof ex_secret (ex_h1 nonce) 9000) None None false,
   mkState rc None None true false (evs ++ [OnAccept ex_addr] ++ [OnAuthOK (ex_peer nonce)])).

Lemma ex_serves nonce rc0 rc evs : length nonce = 16%nat ->
  Memory.CheckAndMark ex_client nonce ex_now rc0 = (None, rc) ->
  @serverAuthNormalized mac_AEAD _ unit unit memory_replay_cache allow_all no_store None
    (ex_conn (ex_frame1 nonce ++ str "GET /")) ex_scfg
    (ex_clock ex_now) (mkState rc0 None None true false evs) = ex_served nonce rc evs.
Proof.
  intros Hn Hmark. unfold serverAuthNormalized. change (sv_Secrets ex_scfg) with (Some (StaticSecrets {[ex_client := ex_secret]})).
  unfold emit at 1. cbn [st_sink st_policy st_replay st_store st_callback st_events]. cbv beta iota zeta. cbn [negb].
  cbv iota. cbn [cn_in ex_conn conn_set_deadline cn_local cn_remote].
  assert (exists tl, ex_frame1 nonce = Version :: tl) as [tl Etl] by (by eexists).
  rewrite Etl, configured_v1, <- Etl by (vm_compute; reflexivity). cbn [cn_local cn_remote].
  change (effectivePort _ _) with 9000.
  rewrite (authenticateFrameV1_accepts (LA := mac_AEAD_laws) ex_client ex_secret 9000 ex_now FlagServerProof (str "tcp")
    (str "session") [] _ _ _ _ ex_scfg {[ex_client := ex_secret]} (str "GET /") io_EOF ex_addr (ex_clock ex_now) _ rc
    (ex_frame1_built nonce Hn)); [|vm_compute; split; [discriminate|reflexivity]|vm_compute; discriminate
    |vm_compute; reflexivity| |unfold in_window; vm_compute; split; discriminate|vm_compute; reflexivity|exact Hmark].
  2:{ intros c Hc Hne. exfalso. apply Hne. apply static_candidates in Hc as [Hc _].
      apply lookup_singleton_Some in Hc as [Hc1 Hc2].
      destruct c as [i k]. cbn [sc_ClientID sc_Secret] in *. rewrite <- Hc1, <- Hc2. reflexivity. }
  change (flags_set FlagServerProof FlagServerProof) with true.
  cbn [ar_peer ar_serverProofRequested ar_serverProof]. change (sv_RequireKnock ex_scfg) with false.
  change (sv_ServerProof ex_scfg) with true. cbv iota. cbn [negb]. cbv iota. cbn [conn_write conn_set_in cn_write_err].
  unfold ex_served, emit, callback, set_replay. simpl st_events. by rewrite <- app_assoc.
Qed.

Lemma server_auth_sound_witness :
  exists resolver, sv_Secrets ex_scfg = Some resolver /\
    authentic (H := mac_AEAD) resolver ex_scfg 9000 ex_addr (ex_frame1 ex_nonce ++ str "GET /") (str "GET /") (ex_peer ex_nonce).
Proof.
  destruct (server_auth_sound (LA := mac_AEAD_laws) None (ex_conn (ex_frame1 ex_nonce ++ str "GET /")) ex_scfg (ex_clock ex_now)
    ex_state (ex_peer ex_nonce) (mk_reader (str "GET /") io_EOF) _ _ ltac:(vm_compute; split; [discriminate|reflexivity])
    (ex_serves ex_nonce (st_replay ex_state) (snd (Memory.CheckAndMark ex_client ex_nonce ex_now (st_replay ex_state))) []
       eq_refl ltac:(vm_compute; reflexivity))) as (resolver & Hs & Ha & _).
  exists resolver. split; [exact Hs|exact Ha].
Defined.


Lemma server_auth_replay_frame_witness :
  let s' := snd (ex_served ex_nonce (snd (Memory.CheckAndMark ex_client ex_nonce ex_now (st_replay ex_state))) []) in
  st_replay s' = st_replay ex_state \/
  exists peer err, @check_and_mark _ memory_replay_cache (pi_ClientID peer) (pi_Nonce peer) ex_now (st_replay ex_state) =
    (err, st_replay s').
Proof.
  destruct (server_auth_replay_frame (LA := mac_AEAD_laws) None (ex_conn (ex_frame1 ex_nonce ++ str "GET /")) ex_scfg
    (ex_clock ex_now) ex_state _ _ _ ltac:(vm_compute; split; [discriminate|reflexivity])
    (ex_serves ex_nonce (st_replay ex_state) (snd (Memory.CheckAndMark ex_client ex_nonce ex_now (st_replay ex_state))) []
       eq_refl ltac:(vm_compute; reflexivity))) as [[H1 _]|(resolver & peer & err & rest & _ & _ & _ & Hm & _)].
  - left. exact H1.
  - right. exists peer, err. exact Hm.
Defined.

Definition ex_nonce2 : bytes := zeros 16.

Definition ex_rc1 : option Memory.t := snd (Memory.CheckAndMark ex_client ex_nonce ex_now (st_replay ex_state)).
Definition ex_rc2 : option Memory.t := snd (Memory.CheckAndMark ex_client ex_nonce2 ex_now ex_rc1).

Definition ex_conns : list (option Z * conn * clock) :=
  [(None, ex_conn (ex_frame1 ex_nonce ++ str "GET /"), ex_clock ex_now);
   (None, ex_conn (ex_frame1 ex_nonce2 ++ str "GET /"), ex_clock ex_now)].

Lemma ex_serve_two :
  fst (@serve mac_AEAD _ unit unit allow_all no_store memory_replay_cache ex_scfg ex_conns ex_state) =
  [Ok (ex_peer ex_nonce, mk_reader (str "GET /") io_EOF); Ok (ex_peer ex_nonce2, mk_reader (str "GET /") io_EOF)].
Proof.
  pose proof (ex_serves ex_nonce (st_replay ex_state) ex_rc1 [] eq_refl ltac:(vm_compute; reflexivity)) as E1.
  pose proof (ex_serves ex_nonce2 ex_rc1 ex_rc2 ([] ++ [OnAccept ex_addr] ++ [OnAuthOK (ex_peer ex_nonce)]) eq_refl
    ltac:(vm_compute; reflexivity)) as E2.
  etransitivity; [exact (serve_cons _ _ _ _ _ _ _ _ _ E1)|].
  apply (f_equal (cons _)). exact (serve_cons _ _ _ _ [] _ _ _ _ E2).
Qed.

Lemma frame_accepted_once_witness : pi_Nonce (ex_peer ex_nonce2) <> pi_Nonce (ex_peer ex_nonce).
Proof.
  intros E. assert (0 < 61 * Second) as Ht by (vm_compute; reflexivity).
  refine (frame_accepted_once (LA := mac_AEAD_laws) (LW := memory_replay_laws (61 * Second) 8 Ht) ex_scfg 0 ex_conns
    ex_state [] 0 0 1 (ex_peer ex_nonce) _ (ex_peer ex_nonce2) _ _ _ _ _ _ _ _ _ _).
  - vm_compute. split; [discriminate|reflexivity].
  - vm_compute. reflexivity.
  - eexists. split; [reflexivity|]. apply mem_tracks_New; vm_compute; reflexivity.
  - lia.
  - vm_compute. intuition discriminate.
  - lia.
  - rewrite ex_serve_two. reflexivity.
  - rewrite ex_serve_two. reflexivity.
  - split; [exact (eq_refl ex_client)|]. split; [exact E|exact (eq_refl (UnixMilli ex_now))].
Defined.
