(* ===== verification/PolicyRules.v ===== *)
(** Package policy: the ban list (ban.go), the fixed-window rate limiter
    (limiter.go, window.go) and the guard that combines them (guard.go).

    Ban list and limiter are compared with specifications that never forget
    anything and let time decide what counts: a map from keys to the end of
    their ban, and a map from keys to their last window. *)

From Stdlib Require Import ZArith Lia String.
From Stdlib Require Strings.Byte.
From stdpp Require Import base list gmap strings.
From S2P Require Import Prelude GoStd Cache.

Open Scope Z_scope.

(** * Maps with expiring values *)

(** The part of a map whose values expire after [now], and whether a key is in
    it. Time alone decides: values are never removed. *)
Section TimedMap.
Context {A : Type} (expiry : A -> Z).
Implicit Types m : gmap bytes A.

Definition timed_active (now : Z) m : gmap bytes A := filter (fun kv => now < expiry kv.2) m.

Definition timed_is_active (now : Z) (key : bytes) m : bool :=
  match m !! key with Some x => Z.ltb now (expiry x) | None => false end.

Lemma active_lookup now m k : timed_active now m !! k = if timed_is_active now k m then m !! k else None.
Proof.
  unfold timed_active, timed_is_active. destruct (m !! k) as [u|] eqn:E.
  - destruct (Z.ltb_spec now (expiry u)).
    + by apply map_lookup_filter_Some.
    + apply map_lookup_filter_None. right. intros x Hx. rewrite E in Hx. injection Hx as <-. simpl. lia.
  - apply map_lookup_filter_None. by left.
Qed.

Lemma is_active_lookup now k m :
  timed_is_active now k m = (if timed_active now m !! k is Some _ then true else false).
Proof. rewrite active_lookup. unfold timed_is_active. destruct (m !! k); [|done]. by destruct (Z.ltb _ _). Qed.

Lemma is_active_eq now k m m' :
  timed_active now m = timed_active now m' -> timed_is_active now k m = timed_is_active now k m'.
Proof. intros E. by rewrite !is_active_lookup, E. Qed.

Lemma active_insert u k x m m' :
  timed_active u m = timed_active u m' -> timed_active u (<[k := x]> m) = timed_active u (<[k := x]> m').
Proof.
  intros E. apply map_eq. intros k'. pose proof (f_equal (lookup k') E) as Ek. rewrite !active_lookup in Ek.
  rewrite !active_lookup. unfold timed_is_active in *. destruct (decide (k = k')) as [->|Hne].
  - by rewrite !lookup_insert_eq.
  - by rewrite !lookup_insert_ne.
Qed.

Lemma active_delete u k m m' :
  timed_active u m = timed_active u m' -> timed_active u (delete k m) = timed_active u (delete k m').
Proof. intros E. unfold timed_active in *. by rewrite !map_filter_delete, E. Qed.

Lemma active_active t u m : t <= u -> timed_active u (timed_active t m) = timed_active u m.
Proof.
  intros Htu. apply map_eq. intros k. rewrite active_lookup. unfold timed_is_active at 1. rewrite !active_lookup.
  unfold timed_is_active. destruct (m !! k) as [x|] eqn:E; [|done].
  destruct (Z.ltb_spec t (expiry x)), (Z.ltb_spec u (expiry x)); rewrite ?E; simpl; try done; try lia.
Qed.

(** Deleting a value that has expired changes nothing. *)
Lemma active_delete_dead t u k m :
  timed_is_active t k m = false -> t <= u -> timed_active u (delete k m) = timed_active u m.
Proof.
  intros Hd Hu. unfold timed_active. rewrite map_filter_delete. apply delete_id, map_lookup_filter_None. right.
  intros x Hx. unfold timed_is_active in Hd. rewrite Hx in Hd. apply Z.ltb_ge in Hd. simpl. lia.
Qed.

End TimedMap.

(** * The ban list *)

Module Ban.

Definition DefaultBanListMaxEntries : Z := 65536.

Record BanList := mk {
  entries : TTLLRU.t bytes unit;
  lastSweep : Z;
  sweepInterval : Z;
}.

Definition NewBanListWithClockAndLimit (maxEntries : Z) : BanList :=
  let maxEntries := if Z.leb maxEntries 0 then DefaultBanListMaxEntries else maxEntries in
  mk (TTLLRU.New maxEntries) zero_time Minute.

Definition NewBanListWithClock : BanList := NewBanListWithClockAndLimit DefaultBanListMaxEntries.
Definition NewBanList : BanList := NewBanListWithClock.

Definition set_entries (es : TTLLRU.t bytes unit) (b : BanList) : BanList := mk es (lastSweep b) (sweepInterval b).

Definition updateSweepIntervalLocked (ttl : Z) (b : BanList) : BanList :=
  if Z.leb ttl 0 then b
  else
    let interval := Z.quot ttl 2 in
    let interval := if Z.leb interval 0 then ttl else interval in
    let interval := if Z.ltb Minute interval then Minute else interval in
    if Z.leb (sweepInterval b) 0 || Z.ltb interval (sweepInterval b)
    then mk (entries b) (lastSweep b) interval else b.

(** [BanUntilE] at the time [now]; a nil receiver is [None]. *)
Definition BanUntilE (key : bytes) (until now : Z) (p : option BanList) : option error * option BanList :=
  match p with
  | None => (None, None)
  | Some b =>
      if bool_decide (key = []) || IsZero until then (None, Some b)
      else
        let b := updateSweepIntervalLocked (Sub until now) b in
        let es := snd (TTLLRU.Sweep now (entries b)) in
        let b := mk es now (sweepInterval b) in
        let exists_ := if TTLLRU.Peek key es is Some _ then true else false in
        if negb exists_ && Z.leb (TTLLRU.Cap es) (TTLLRU.Len es) then (Some policy_ErrBanListFull, Some b)
        else (None, Some (set_entries (TTLLRU.SetUntil key tt until es) b))
  end.

(** [BanE] reads the clock twice: for the end of the ban and in [BanUntilE]. *)
Definition BanE (key : bytes) (ttl now now' : Z) (p : option BanList) : option error * option BanList :=
  match p with
  | None => (None, None)
  | Some b => if bool_decide (key = []) || Z.leb ttl 0 then (None, Some b) else BanUntilE key (now + ttl) now' p
  end.

Definition BanUntil (key : bytes) (until now : Z) (p : option BanList) : option BanList := snd (BanUntilE key until now p).
Definition Ban (key : bytes) (ttl now now' : Z) (p : option BanList) : option BanList := snd (BanE key ttl now now' p).

Definition IsBannedAt (key : bytes) (now : Z) (p : option BanList) : bool * option BanList :=
  match p with
  | None => (false, None)
  | Some b =>
      if bool_decide (key = []) then (false, Some b)
      else
        let '(ok, es) := TTLLRU.GetAt key now (entries b) in
        let b := set_entries es b in
        if ok is Some _ then (true, Some b)
        else if Z.ltb (TTLLRU.Len es) (TTLLRU.Cap es) then (false, Some b)
        else (Z.leb (TTLLRU.Cap es) (TTLLRU.ActiveLen now es), Some b)
  end.

(** [IsBanned] at the time [now]. *)
Definition IsBanned (key : bytes) (now : Z) (p : option BanList) : bool * option BanList := IsBannedAt key now p.

Definition Unban (key : bytes) (p : option BanList) : option BanList :=
  match p with None => None | Some b => Some (set_entries (snd (TTLLRU.Delete key (entries b))) b) end.

Definition Sweep (now : Z) (p : option BanList) : Z * option BanList :=
  match p with
  | None => (0, None)
  | Some b => let '(n, es) := TTLLRU.Sweep now (entries b) in (n, Some (set_entries es b))
  end.

Definition Len (p : option BanList) : Z := match p with None => 0 | Some b => TTLLRU.Len (entries b) end.

(** ** Operations as data, and the specification *)

Inductive op :=
| OBanUntil (key : bytes) (until now : Z)
| OIsBanned (key : bytes) (now : Z)
| OUnban (key : bytes)
| OSweep (now : Z).

Inductive ret := RErr (e : option error) | RBool (b : bool) | RUnit.

Definition impl_step (o : op) (p : option BanList) : ret * option BanList :=
  match o with
  | OBanUntil k u now => let '(e, p) := BanUntilE k u now p in (RErr e, p)
  | OIsBanned k now => let '(b, p) := IsBannedAt k now p in (RBool b, p)
  | OUnban k => (RUnit, Unban k p)
  | OSweep now => (RUnit, snd (Sweep now p))
  end.

(** The state of the specification: the bans that were accepted, with their
    ends. *)
Abbreviation active := (timed_active (fun until : Z => until)).
Abbreviation is_active := (timed_is_active (fun until : Z => until)).

Definition saturated (cap now : Z) (m : gmap bytes Z) : bool := Z.leb cap (Z.of_nat (size (active now m))).

Definition spec_step (cap : Z) (o : op) (m : gmap bytes Z) : ret * gmap bytes Z :=
  match o with
  | OBanUntil k u now =>
      if bool_decide (k = []) || IsZero u then (RErr None, m)
      else if negb (is_active now k m) && saturated cap now m then (RErr (Some policy_ErrBanListFull), m)
      else (RErr None, <[k := u]> m)
  | OIsBanned k now =>
      (RBool (negb (bool_decide (k = [])) && (is_active now k m || saturated cap now m)), m)
  | OUnban k => (RUnit, delete k m)
  | OSweep _ => (RUnit, m)
  end.

Definition op_time (o : op) (t : Z) : Z :=
  match o with OBanUntil _ _ now | OIsBanned _ now | OSweep now => now | OUnban _ => t end.

Fixpoint impl_run (os : list op) (p : option BanList) : list ret :=
  match os with [] => [] | o :: os => let '(r, p) := impl_step o p in r :: impl_run os p end.

Fixpoint spec_run (cap : Z) (os : list op) (m : gmap bytes Z) : list ret :=
  match os with [] => [] | o :: os => let '(r, m) := spec_step cap o m in r :: spec_run cap os m end.

Fixpoint clocked (t : Z) (os : list op) : Prop :=
  match os with [] => True | o :: os => t <= op_time o t /\ clocked (op_time o t) os end.

(** ** Lemmas: the store follows the bans *)

Abbreviation view es := (list_view (contents es)).

Definition follows (cap : Z) (es : TTLLRU.t bytes unit) (m : gmap bytes Z) (t : Z) : Prop :=
  wf es /\ TTLLRU.maxEntries es = cap /\ forall u, t <= u -> active u (view es) = active u m.

Lemma ban_follows_later cap es m t u : follows cap es m t -> t <= u -> follows cap es m u.
Proof. intros (W & M & F) Hu. split_and!; try done. intros v Hv. apply F. lia. Qed.

Lemma wf_view_live (es : TTLLRU.t bytes unit) now : wf es -> view (snd (TTLLRU.Sweep now es)) = active now (view es) /\
  wf (snd (TTLLRU.Sweep now es)) /\ TTLLRU.maxEntries (snd (TTLLRU.Sweep now es)) = TTLLRU.maxEntries es.
Proof.
  intros W. pose proof (Sweep_spec es now W) as HS. destruct (TTLLRU.Sweep now es) as [n es'].
  destruct HS as (W' & M & E & _). cbn [snd]. rewrite E. split_and!; try done.
  by apply list_view_live, wf_NoDup_contents.
Qed.

Lemma ban_follows_Sweep cap es m t now :
  follows cap es m t -> t <= now ->
  follows cap (snd (TTLLRU.Sweep now es)) m now /\ view (snd (TTLLRU.Sweep now es)) = active now m.
Proof.
  intros (W & M & F) Hn. destruct (wf_view_live es now W) as (Ev & W' & M').
  rewrite <- (F now Hn). split; [|done]. split_and!; [done|congruence|]. intros u Hu.
  rewrite Ev, active_active by done. apply F. lia.
Qed.

Lemma Len_view (es : TTLLRU.t bytes unit) : wf es -> TTLLRU.Len es = Z.of_nat (size (view es)).
Proof. intros W. rewrite Len_spec by done. by rewrite list_view_size by by apply wf_NoDup_contents. Qed.

Lemma ActiveLen_view (es : TTLLRU.t bytes unit) now : wf es -> TTLLRU.ActiveLen now es = Z.of_nat (size (active now (view es))).
Proof.
  intros W. unfold TTLLRU.ActiveLen. rewrite active_loop_spec. fold (contents es).
  pose proof (wf_NoDup_contents es W). unfold timed_active. rewrite <- list_view_live by done.
  rewrite list_view_size by by apply filter_keys_NoDup. unfold len. lia.
Qed.

Lemma follows_SetUntil cap es m t k x :
  follows cap es m t -> IsZero x = false -> is_Some (view es !! k) \/ TTLLRU.Len es < cap ->
  follows cap (TTLLRU.SetUntil k tt x es) (<[k := x]> m) t.
Proof.
  intros (W & M & F) Hz Hroom. unfold TTLLRU.SetUntil. rewrite Hz.
  destruct (setLocked_spec es k tt x W) as [W' Ec]. split_and!; [done|by rewrite setLocked_max|]. intros u Hu.
  rewrite Ec, list_view_set; [apply active_insert; by apply F|].
  rewrite list_view_lookup, fmap_is_Some, Len_spec in Hroom by done. by rewrite M.
Qed.

Lemma follows_Delete cap es m t k : follows cap es m t -> follows cap (snd (TTLLRU.Delete k es)) (delete k m) t.
Proof.
  intros (W & M & F). destruct (impl_step_refines (ODelete k) es (Cache.RBool (fst (TTLLRU.Delete k es)))
    (snd (TTLLRU.Delete k es)) W) as (W' & M' & Es).
  { simpl. by destruct (TTLLRU.Delete k es). }
  split_and!; [done|congruence|]. intros u Hu. simpl in Es.
  destruct (Spec.find k (contents es)) as [e|] eqn:Ef; injection Es as _ Ec; rewrite <- Ec.
  - rewrite list_view_remove. apply active_delete. by apply F.
  -
    assert (view es = delete k (view es)) as ->.
    { symmetry. apply delete_id. by rewrite list_view_lookup, Ef. }
    apply active_delete. by apply F.
Qed.

(** [GetAt] finds the key exactly when it is active. *)
Lemma ban_follows_GetAt cap es m t k now :
  follows cap es m t -> t <= now ->
  let '(v, es') := TTLLRU.GetAt k now es in
  (if v is Some _ then true else false) = is_active now k m /\ follows cap es' m now.
Proof.
  intros Fo Hn. destruct (ban_follows_later _ _ _ _ _ Fo Hn) as (W & M & F).
  pose proof (wf_NoDup_contents es W) as Hnd. pose proof (GetAt_spec es k now W) as HG.
  destruct (TTLLRU.GetAt k now es) as [v es']. destruct HG as (W' & M' & Es). simpl in Es.
  rewrite <- (is_active_eq _ now k _ _ (F now ltac:(lia))). unfold timed_is_active. rewrite list_view_lookup.
  destruct (Spec.find k (contents es)) as [e|] eqn:Ef; cbn [fmap option_fmap option_map].
  - change (Z.ltb now (ExpiresAt e)) with (Spec.live now e). destruct (Spec.live now e) eqn:El; injection Es as -> Ec.
    + split; [done|]. split_and!; [done|congruence|]. intros u Hu. rewrite <- (F u Hu), Ec.
      f_equal. apply list_view_Permutation; [|by eapply Spec_touch_Permutation].
      by rewrite (Spec_touch_Permutation k _ e Hnd Ef).
    + split; [done|]. split_and!; [done|congruence|]. intros u Hu. rewrite <- (F u Hu), Ec, list_view_remove.
      apply (active_delete_dead _ now); [|done]. unfold timed_is_active. by rewrite list_view_lookup, Ef.
  - injection Es as -> Ec. split; [done|]. split_and!; [done|congruence|]. intros u Hu. rewrite Ec. by apply F.
Qed.

Definition tracks (cap : Z) (p : option BanList) (m : gmap bytes Z) (t : Z) : Prop :=
  exists b, p = Some b /\ follows cap (entries b) m t.

Lemma entries_updateSweepInterval ttl b : entries (updateSweepIntervalLocked ttl b) = entries b.
Proof. unfold updateSweepIntervalLocked. repeat case_match; done. Qed.

Lemma step_refines cap o p m t r p' :
  tracks cap p m t -> t <= op_time o t -> impl_step o p = (r, p') ->
  (spec_step cap o m).1 = r /\ tracks cap p' (spec_step cap o m).2 (op_time o t).
Proof.
  intros (b & -> & Fo) Ht E. destruct o as [k x now|k now|k|now]; cbn [impl_step spec_step op_time] in *.
  - unfold BanUntilE in E. destruct (bool_decide (k = []) || IsZero x) eqn:Eg.
    { injection E as <- <-. split; [done|]. exists b. split; [done|]. by eapply ban_follows_later. }
    apply orb_false_iff in Eg as [_ Hz]. cbv zeta in E. rewrite entries_updateSweepInterval in E.
    destruct (ban_follows_Sweep _ _ _ _ _ Fo Ht) as [Fo' Ev]. set (es := snd (TTLLRU.Sweep now (entries b))) in *.
    pose proof Fo' as (W & M & F). unfold TTLLRU.Cap in E. rewrite M in E.
    assert ((if TTLLRU.Peek k es is Some _ then true else false) = is_active now k m) as Hp.
    { rewrite is_active_lookup, <- Ev, list_view_lookup.
      destruct (impl_step_refines (OPeek k) es _ _ W eq_refl) as (_ & _ & Es). simpl in Es.
      injection Es as ->. by destruct (TTLLRU.Peek k es). }
    rewrite Hp, Len_view, Ev in E by done. fold (saturated cap now m) in E.
    destruct (negb (is_active now k m) && saturated cap now m) eqn:Ef; injection E as <- <-; (split; [done|]).
    { eexists. split; [done|]. done. }
    eexists. split; [done|]. apply follows_SetUntil; [done..|]. rewrite Len_view, Ev by done.
    apply andb_false_iff in Ef as [Ef|Ef].
    + left. apply negb_false_iff in Ef. rewrite is_active_lookup in Ef. by destruct (active now m !! k).
    + right. by apply Z.leb_gt in Ef.
  - unfold IsBannedAt in E. destruct (bool_decide (k = [])).
    { injection E as <- <-. split; [done|]. exists b. split; [done|]. by eapply ban_follows_later. }
    pose proof (ban_follows_GetAt _ _ _ _ k now Fo Ht) as HG. destruct (TTLLRU.GetAt k now (entries b)) as [v es].
    destruct HG as [Hv Fo']. pose proof Fo' as (W & M & F). unfold TTLLRU.Cap in E. rewrite M in E.
    rewrite <- Hv. destruct v; [injection E as <- <-; split; [done|]; by eexists|]. cbn [negb andb orb].
    rewrite ActiveLen_view, (F now ltac:(lia)), Len_view in E by done. unfold saturated.
    assert (size (active now m) <= size (view es))%nat as Hle.
    { rewrite <- (F now ltac:(lia)). apply map_size_filter. }
    destruct (Z.ltb_spec (Z.of_nat (size (view es))) cap); injection E as <- <-.
    + split; [|by eexists]. simpl. by rewrite (proj2 (Z.leb_gt _ _)) by lia.
    + split; [done|]. by eexists.
  - injection E as <- <-. split; [done|]. eexists. split; [done|]. by apply follows_Delete.
  - cbn [Sweep] in E. destruct (ban_follows_Sweep _ _ _ _ _ Fo Ht) as [Fo' _].
    destruct (TTLLRU.Sweep now (entries b)) as [n es]. injection E as <- <-. split; [done|]. by eexists.
Qed.

Lemma run_refines cap os : forall p m t,
  tracks cap p m t -> clocked t os -> impl_run os p = spec_run cap os m.
Proof.
  induction os as [|o os IH]; intros p m t Htr Hc; [done|]. cbn [impl_run spec_run]. destruct Hc as [Ht Hc].
  destruct (impl_step o p) as [r p'] eqn:E. destruct (step_refines _ _ _ _ _ _ _ Htr Ht E) as [Hr Htr'].
  destruct (spec_step cap o m) as [r' m']. simpl in *. subst r'. f_equal. by eapply IH.
Qed.

(** The ban list keeps every ban it accepted for its whole
    length. Over any sequence of bans, queries, unbans and sweeps whose clock
    does not go back, a query answers "banned" exactly when a ban of the key is
    still running or as many bans are running as the list can hold (the list
    fails closed), and a new ban is refused with [ErrBanListFull] exactly when
    the list is full of other running bans: no running ban is ever evicted. *)
Theorem ban_list_exact (cap t : Z) (os : list op) :
  0 < cap -> clocked t os ->
  impl_run os (Some (NewBanListWithClockAndLimit cap)) = spec_run cap os ∅.
Proof.
  intros Hc Ho. eapply run_refines; [|done]. eexists. split; [done|].
  unfold NewBanListWithClockAndLimit. rewrite (proj2 (Z.leb_gt cap 0)) by lia. simpl. split_and!.
  - apply wf_New.
  - simpl. by rewrite (proj2 (Z.leb_gt cap 0)) by lia.
  - done.
Qed.

Lemma ban_list_exact_witness :
  impl_run [OBanUntil (str "a") 10 1; OBanUntil (str "b") 20 2; OIsBanned (str "c") 3; OIsBanned (str "a") 10]
    (Some (NewBanListWithClockAndLimit 1)) =
  [RErr None; RErr (Some policy_ErrBanListFull); RBool true; RBool false].
Proof.
  rewrite (ban_list_exact 1 0); [vm_compute; reflexivity|lia|]. simpl. lia.
Defined.

End Ban.

(** * The rate limiter *)

Module Limit.

Definition DefaultLimiterMaxEntries : Z := 65536.

Record Window := mkWindow { w_Limit : Z; w_Every : Z }.

Definition Window_WithDefaults (w : Window) : Window :=
  mkWindow (if Z.leb (w_Limit w) 0 then 1 else w_Limit w) (if Z.leb (w_Every w) 0 then Second else w_Every w).

(** A bucket; its key is its key in the map and its list element is the entry
    of that key in [order]. *)
Record bucket := mkBucket { start : Z; used : Z }.

Record Limiter := mk {
  window : Window;
  entries : gmap bytes bucket;
  order : list bytes;
  lastSweep : Z;
  maxEntries : Z;
}.

Definition NewLimiterWithClockAndLimit (w : Window) (maxEntries : Z) : Limiter :=
  mk (Window_WithDefaults w) ∅ [] zero_time (if Z.leb maxEntries 0 then DefaultLimiterMaxEntries else maxEntries).

Definition NewLimiterWithClock (w : Window) : Limiter := NewLimiterWithClockAndLimit w DefaultLimiterMaxEntries.
Definition NewLimiter (w : Window) : Limiter := NewLimiterWithClock w.

(** When a bucket's window ends. *)
Definition bucket_end (w : Window) (b : bucket) : Z := start b + w_Every w.

Definition removeBucketLocked (key : bytes) (l : Limiter) : Limiter :=
  mk (window l) (delete key (entries l)) (List.filter (fun k => negb (bool_decide (k = key))) (order l))
     (lastSweep l) (maxEntries l).

(** [removeBucketLocked] of every bucket whose window is over: the loops of
    [sweepPeriodicallyLocked] and [sweepLocked]. *)
Definition remove_expired (now : Z) (l : Limiter) : Limiter :=
  let kept := timed_active (bucket_end (window l)) now (entries l) in
  mk (window l) kept (List.filter (fun k => if kept !! k is Some _ then true else false) (order l))
     (lastSweep l) (maxEntries l).

Definition set_lastSweep (t : Z) (l : Limiter) : Limiter := mk (window l) (entries l) (order l) t (maxEntries l).

Definition sweepPeriodicallyLocked (now : Z) (l : Limiter) : Limiter :=
  if Z.leb (w_Every (window l)) 0 then l
  else if IsZero (lastSweep l) then set_lastSweep now l
  else
    let interval := Z.quot (w_Every (window l)) 2 in
    let interval := if Z.leb interval 0 || Z.ltb Minute interval then Minute else interval in
    if Z.ltb (Sub now (lastSweep l)) interval then l
    else set_lastSweep now (remove_expired now l).

Definition sweepLocked (now : Z) (l : Limiter) : Z * Limiter :=
  let l' := remove_expired now l in (Z.of_nat (size (entries l)) - Z.of_nat (size (entries l')), l').

Definition AllowAt (key : bytes) (now : Z) (p : option Limiter) : bool * option Limiter :=
  match p with
  | None => (true, None)
  | Some l =>
      let key := if bool_decide (key = []) then str "default" else key in
      let l := sweepPeriodicallyLocked now l in
      let l := if Z.leb (maxEntries l) (Z.of_nat (size (entries l))) then snd (sweepLocked now l) else l in
      match entries l !! key with
      | None =>
          if Z.leb (maxEntries l) (Z.of_nat (size (entries l))) then (false, Some l)
          else (true, Some (mk (window l) (<[key := mkBucket now 1]> (entries l)) (order l ++ [key])
                              (lastSweep l) (maxEntries l)))
      | Some b =>
          if negb (Before now (bucket_end (window l) b)) then
            let l := removeBucketLocked key l in
            (true, Some (mk (window l) (<[key := mkBucket now 1]> (entries l)) (order l ++ [key])
                           (lastSweep l) (maxEntries l)))
          else
            let order := List.filter (fun k => negb (bool_decide (k = key))) (order l) ++ [key] in
            if Z.leb (w_Limit (window l)) (used b) then
              (false, Some (mk (window l) (entries l) order (lastSweep l) (maxEntries l)))
            else
              (true, Some (mk (window l) (<[key := mkBucket (start b) (used b + 1)]> (entries l)) order
                             (lastSweep l) (maxEntries l)))
      end
  end.

(** [Allow] and [Check] at the time [now]. *)
Definition Allow (key : bytes) (now : Z) (p : option Limiter) : bool * option Limiter := AllowAt key now p.

Definition Check (key : bytes) (now : Z) (p : option Limiter) : option error * option Limiter :=
  let '(ok, p) := Allow key now p in (if ok then None else Some policy_ErrRateLimited, p).

Definition Sweep (now : Z) (p : option Limiter) : Z * option Limiter :=
  match p with None => (0, None) | Some l => let '(n, l) := sweepLocked now l in (n, Some l) end.

Definition Len (p : option Limiter) : Z := match p with None => 0 | Some l => Z.of_nat (size (entries l)) end.

(** ** Specification: the last window of every key *)

Definition the_key (key : bytes) : bytes := if bool_decide (key = []) then str "default" else key.

(** A call counts in the running window of its key; without one it opens a
    window, unless [max] keys have a running window. *)
Definition spec_allow (w : Window) (max : Z) (key : bytes) (now : Z) (m : gmap bytes bucket) : bool * gmap bytes bucket :=
  let key := the_key key in
  match timed_active (bucket_end w) now m !! key with
  | Some b => if Z.leb (w_Limit w) (used b) then (false, m) else (true, <[key := mkBucket (start b) (used b + 1)]> m)
  | None =>
      if Z.leb max (Z.of_nat (size (timed_active (bucket_end w) now m))) then (false, m)
      else (true, <[key := mkBucket now 1]> m)
  end.

(** Calls, as key and time. *)
Fixpoint impl_calls (calls : list (bytes * Z)) (p : option Limiter) : list bool :=
  match calls with [] => [] | (k, now) :: calls => let '(b, p) := AllowAt k now p in b :: impl_calls calls p end.

Fixpoint spec_calls (w : Window) (max : Z) (calls : list (bytes * Z)) (m : gmap bytes bucket) : list bool :=
  match calls with [] => [] | (k, now) :: calls => let '(b, m) := spec_allow w max k now m in b :: spec_calls w max calls m end.

Fixpoint clocked (t : Z) (calls : list (bytes * Z)) : Prop :=
  match calls with [] => True | (_, now) :: calls => t <= now /\ clocked now calls end.

(** ** Lemmas *)

Definition follows (w : Window) (max : Z) (l : Limiter) (m : gmap bytes bucket) (t : Z) : Prop :=
  window l = w /\ maxEntries l = max /\
  forall u, t <= u -> timed_active (bucket_end w) u (entries l) = timed_active (bucket_end w) u m.

Lemma limit_follows_later w max l m t u : follows w max l m t -> t <= u -> follows w max l m u.
Proof. intros (? & ? & F) Hu. split_and!; try done. intros v Hv. apply F. lia. Qed.

Lemma follows_remove_expired w max l m t now :
  follows w max l m t -> t <= now ->
  follows w max (remove_expired now l) m now /\ entries (remove_expired now l) = timed_active (bucket_end w) now m.
Proof.
  intros (<- & Hm & F) Hn. rewrite <- (F now Hn). split; [|done]. split_and!; try done.
  intros u Hu. simpl. rewrite active_active by done. apply F. lia.
Qed.

Lemma follows_set_lastSweep w max l m t u : follows w max l m t -> follows w max (set_lastSweep u l) m t.
Proof. by intros (? & ? & ?). Qed.

Lemma follows_periodic w max l m t now :
  follows w max l m t -> t <= now -> follows w max (sweepPeriodicallyLocked now l) m now.
Proof.
  intros Fo Hn. pose proof (limit_follows_later _ _ _ _ _ _ Fo Hn) as Fo'. unfold sweepPeriodicallyLocked.
  destruct (Z.leb _ _); [done|]. destruct (IsZero _); [by apply follows_set_lastSweep|]. cbv zeta.
  destruct (Z.ltb (Sub _ _) _); [done|]. apply follows_set_lastSweep. by apply (follows_remove_expired _ _ _ _ t).
Qed.

Lemma AllowAt_refines w max l m t key now b p' :
  follows w max l m t -> t <= now -> AllowAt key now (Some l) = (b, p') ->
  exists l', p' = Some l' /\ (spec_allow w max key now m).1 = b /\ follows w max l' (spec_allow w max key now m).2 now.
Proof.
  intros Fo Hn E. unfold AllowAt in E. cbv zeta in E. fold (the_key key) in E.
  pose proof (follows_periodic _ _ _ _ _ _ Fo Hn) as Fo1. set (l1 := sweepPeriodicallyLocked now l) in *.
  set (l2 := if Z.leb (maxEntries l1) (Z.of_nat (size (entries l1))) then snd (sweepLocked now l1) else l1) in *.
  assert (follows w max l2 m now /\
    (entries l2 = timed_active (bucket_end w) now m \/ Z.of_nat (size (entries l2)) < max)) as [Fo2 Hsz].
  { unfold l2. rewrite (proj1 (proj2 Fo1)). destruct (Z.leb_spec max (Z.of_nat (size (entries l1)))); [|auto with lia].
    destruct (follows_remove_expired _ _ _ _ _ now Fo1 ltac:(lia)). auto. }
  clearbody l2. destruct Fo2 as (Hw & Hmax & F). rewrite Hw, Hmax in E.
  pose proof (F now ltac:(lia)) as Fnow. unfold spec_allow. cbv zeta. rewrite <- Fnow in Hsz |- *.
  assert (size (timed_active (bucket_end w) now (entries l2)) <= size (entries l2))%nat as Hle by apply map_size_filter.
  rewrite active_lookup. unfold timed_is_active.
  destruct (entries l2 !! the_key key) as [bk|] eqn:Ek.
  - unfold Before in E. destruct (Z.ltb_spec now (bucket_end w bk)) as [Hlive|Hdead]; cbn [negb] in E.
    + destruct (Z.leb (w_Limit w) (used bk)); injection E as <- <-; (eexists; split; [done|]; split; [done|]).
      * split_and!; try done.
      * split_and!; try done. intros u Hu. simpl. apply active_insert. by apply F.
    + injection E as <- <-. eexists. split; [done|].
      rewrite (proj2 (Z.leb_gt _ _)).
      * split; [done|]. split_and!; try done. intros u Hu. simpl. apply active_insert.
        rewrite (active_delete_dead _ now); [by apply F| |done]. unfold timed_is_active. rewrite Ek. by apply Z.ltb_ge.
      * destruct Hsz as [Hs|]; [|lia]. exfalso. rewrite Hs, active_lookup in Ek. unfold timed_is_active in Ek.
        destruct (entries l2 !! the_key key) as [b0|]; [|done].
        destruct (Z.ltb_spec now (bucket_end w b0)); [|done]. injection Ek as ->. lia.
  - destruct (Z.leb_spec max (Z.of_nat (size (entries l2)))) as [Hfull|Hroom]; injection E as <- <-; eexists; (split; [done|]).
    + destruct Hsz as [Hs|]; [|lia]. rewrite <- Hs, (proj2 (Z.leb_le _ _)) by lia. split; [done|]. by split_and!.
    + rewrite (proj2 (Z.leb_gt _ _)) by lia. split; [done|]. split_and!; try done.
      intros u Hu. simpl. apply active_insert. by apply F.
Qed.

Lemma limit_calls_refine w max calls : forall l m t,
  follows w max l m t -> clocked t calls -> impl_calls calls (Some l) = spec_calls w max calls m.
Proof.
  induction calls as [|[k now] calls IH]; intros l m t Fo Hc; [done|]. cbn [impl_calls spec_calls].
  destruct Hc as [Hn Hc]. destruct (AllowAt k now (Some l)) as [b p'] eqn:E.
  destruct (AllowAt_refines _ _ _ _ _ _ _ _ _ Fo Hn E) as (l' & -> & Hb & Fo').
  destruct (spec_allow w max k now m) as [b' m']. simpl in *. subst b'. f_equal. by eapply IH.
Qed.

(** The rate limiter is exact: with a clock that does not go
    back, its sweeps never change an answer. A call is allowed if and only if
    its key has a running window with calls left, or has no running window and
    fewer keys than the capacity have one; a key's window starts with its first
    allowed call. *)
Theorem limiter_exact (w : Window) (max t : Z) (calls : list (bytes * Z)) :
  0 < max -> clocked t calls ->
  impl_calls calls (Some (NewLimiterWithClockAndLimit w max)) = spec_calls (Window_WithDefaults w) max calls ∅.
Proof.
  intros Hm Hc. eapply limit_calls_refine; [|done]. unfold NewLimiterWithClockAndLimit.
  rewrite (proj2 (Z.leb_gt max 0)) by lia. by split_and!.
Qed.

Lemma limiter_exact_witness :
  impl_calls [(str "a", 0); (str "a", 1); (str "a", 2); (str "b", 3); (str "a", 10)]
    (Some (NewLimiterWithClockAndLimit (mkWindow 2 10) 1)) = [true; true; false; false; true].
Proof. rewrite (limiter_exact (mkWindow 2 10) 1 0); [vm_compute; reflexivity|lia|]. simpl. lia. Defined.

(** The allowed calls of a key. *)
Fixpoint grants (key : bytes) (calls : list (bytes * Z)) (rs : list bool) : Z :=
  match calls, rs with
  | (k, _) :: calls, r :: rs => (if bool_decide (the_key k = the_key key) && r then 1 else 0) + grants key calls rs
  | _, _ => 0
  end.

Lemma spec_grants_bound w max key calls : forall m n,
  0 < w_Limit w ->
  (forall c, c ∈ calls -> n <= snd c < n + w_Every w) ->
  (forall b, m !! the_key key = Some b -> n <= start b) ->
  let left := match m !! the_key key with Some b => Z.max 0 (w_Limit w - used b) | None => w_Limit w end in
  grants key calls (spec_calls w max calls m) <= left.
Proof.
  induction calls as [|[k now] calls IH]; intros m n Hpos Ht Hs left; cbn [spec_calls grants].
  { unfold left. repeat case_match; lia. }
  pose proof (Ht (k, now) ltac:(left)) as Hnow. simpl in Hnow.
  assert (forall c, c ∈ calls -> n <= snd c < n + w_Every w) as Ht' by (intros c Hc; apply Ht; by right).
  unfold spec_allow. cbv zeta. rewrite active_lookup. unfold timed_is_active.
  destruct (decide (the_key k = the_key key)) as [Hk|Hk].
  - rewrite (bool_decide_eq_true_2 (the_key k = _)) by done. rewrite Hk.
    destruct (m !! the_key key) as [b|] eqn:Eb; unfold left.
    + specialize (Hs b eq_refl) as Hb. rewrite (proj2 (Z.ltb_lt _ _)) by (unfold bucket_end; lia).
      destruct (Z.leb_spec (w_Limit w) (used b)); cbn [andb].
      * specialize (IH m n Hpos Ht'). rewrite Eb in IH. apply IH. by intros ? [= <-].
      * specialize (IH (<[the_key key := mkBucket (start b) (used b + 1)]> m) n Hpos Ht').
        rewrite lookup_insert_eq in IH. simpl in IH. specialize (IH ltac:(by intros ? [= <-])). lia.
    + destruct (Z.leb _ _); cbn [andb].
      * specialize (IH m n Hpos Ht'). rewrite Eb in IH. by apply IH.
      * specialize (IH (<[the_key key := mkBucket now 1]> m) n Hpos Ht').
        rewrite lookup_insert_eq in IH. simpl in IH. specialize (IH ltac:(intros ? [= <-]; simpl; lia)). lia.
  - rewrite (bool_decide_eq_false_2 (the_key k = _)) by done. cbn [andb].
    assert (forall m', m' !! the_key key = m !! the_key key -> grants key calls (spec_calls w max calls m') <= left) as Hsame.
    { intros m' Em. unfold left. rewrite <- Em. apply IH with (n := n); try done. by rewrite Em. }
    repeat case_match; simplify_eq/=; rewrite ?Z.add_0_l; apply Hsame; rewrite ?lookup_insert_ne; done.
Qed.

(** The limit is a limit: over any calls within one window
    length, no key is allowed more than the configured number of times, whatever
    the other keys do. *)
Theorem limiter_bound (w : Window) (max t : Z) (key : bytes) (calls : list (bytes * Z)) :
  0 < max -> clocked t calls ->
  (forall c, c ∈ calls -> t <= snd c < t + w_Every (Window_WithDefaults w)) ->
  grants key calls (impl_calls calls (Some (NewLimiterWithClockAndLimit w max))) <= w_Limit (Window_WithDefaults w).
Proof.
  intros Hm Hc Ht. rewrite (limit_calls_refine (Window_WithDefaults w) max calls _ ∅ t); [..|done].
  - pose proof (spec_grants_bound (Window_WithDefaults w) max key calls ∅ t) as Hb. cbv zeta in Hb.
    rewrite lookup_empty in Hb. apply Hb; try done. simpl. zcases; lia.
  - unfold NewLimiterWithClockAndLimit. rewrite (proj2 (Z.leb_gt max 0)) by lia. by split_and!.
Qed.

Lemma limiter_bound_witness :
  grants (str "a") [(str "a", 0); (str "a", 1); (str "a", 2); (str "b", 3)]
    (impl_calls [(str "a", 0); (str "a", 1); (str "a", 2); (str "b", 3)]
       (Some (NewLimiterWithClockAndLimit (mkWindow 2 10) 5))) <= 2.
Proof.
  apply (limiter_bound (mkWindow 2 10) 5 0 (str "a")); [lia|simpl; lia|].
  intros c Hc. repeat (apply elem_of_cons in Hc as [->|Hc]; [simpl; lia|]). by apply elem_of_nil in Hc.
Defined.

End Limit.

(** * The guard *)

Module Guard.

Record Guard := mk {
  Limiter : option Limit.Limiter;
  Bans : option Ban.BanList;
  BanTTL : Z;
}.

Definition NewGuard (window : Limit.Window) (banTTL : Z) : Guard :=
  mk (Some (Limit.NewLimiter window)) (Some Ban.NewBanList) banTTL.

(** The clock as one call reads it: in [IsBanned], in [Limiter.Allow], and
    twice in [Ban]. *)
Record reads := mkReads { at_banned : Z; at_limiter : Z; at_ban : Z; at_ban_until : Z }.

Definition Allow (key : bytes) (ck : reads) (p : option Guard) : bool * option Guard :=
  match p with
  | None => (true, None)
  | Some g =>
      let '(banned, bans) := Ban.IsBanned key (at_banned ck) (Bans g) in
      if banned then (false, Some (mk (Limiter g) bans (BanTTL g)))
      else
        let '(ok, lim) := Limit.Allow key (at_limiter ck) (Limiter g) in
        if negb ok then
          let bans := if Z.ltb 0 (BanTTL g) then Ban.Ban key (BanTTL g) (at_ban ck) (at_ban_until ck) bans else bans in
          (false, Some (mk lim bans (BanTTL g)))
        else (true, Some (mk lim bans (BanTTL g)))
  end.

Definition Check (key : bytes) (ck : reads) (p : option Guard) : option error * option Guard :=
  let '(ok, p) := Allow key ck p in (if ok then None else Some policy_ErrRateLimited, p).

(** Calls of [Allow], with the state they leave. *)
Fixpoint calls (cs : list (bytes * reads)) (p : option Guard) : list bool * option Guard :=
  match cs with
  | [] => ([], p)
  | (k, ck) :: cs =>
      let '(b, p) := Allow k ck p in
      let '(bs, p) := calls cs p in (b :: bs, p)
  end.

(** Within a call the clock does not go back. *)
Definition ordered (ck : reads) : Prop :=
  at_banned ck <= at_limiter ck /\ at_limiter ck <= at_ban ck /\ at_ban ck <= at_ban_until ck.

Fixpoint clocked (t : Z) (cs : list (bytes * reads)) : Prop :=
  match cs with
  | [] => True
  | (_, ck) :: cs => t <= at_banned ck /\ ordered ck /\ clocked (at_ban_until ck) cs
  end.

(** ** Specification *)

(** A guard is the running windows and the bans: a key with a running ban is
    refused, any other is left to the limiter, and a key that the limiter
    refuses is banned. No capacity of the ban list is involved, other than that
    a list full of running bans refuses every key. *)
Definition spec_Allow (w : Limit.Window) (ttl : Z) (key : bytes) (ck : reads) (ms : gmap bytes Limit.bucket * gmap bytes Z)
    : bool * (gmap bytes Limit.bucket * gmap bytes Z) :=
  let '(windows, bans) := ms in
  if negb (bool_decide (key = [])) &&
     (Ban.is_active (at_banned ck) key bans || Ban.saturated Ban.DefaultBanListMaxEntries (at_banned ck) bans)
  then (false, ms)
  else
    let '(ok, windows) := Limit.spec_allow w Limit.DefaultLimiterMaxEntries key (at_limiter ck) windows in
    (ok, (windows, if negb ok && negb (bool_decide (key = [])) && Z.ltb 0 ttl
                   then <[key := at_ban ck + ttl]> bans else bans)).

Fixpoint spec_calls (w : Limit.Window) (ttl : Z) (cs : list (bytes * reads)) (ms : gmap bytes Limit.bucket * gmap bytes Z)
    : list bool * (gmap bytes Limit.bucket * gmap bytes Z) :=
  match cs with
  | [] => ([], ms)
  | (k, ck) :: cs =>
      let '(b, ms) := spec_Allow w ttl k ck ms in
      let '(bs, ms) := spec_calls w ttl cs ms in (b :: bs, ms)
  end.

(** ** Lemmas *)

Definition tracks (w : Limit.Window) (ttl : Z) (p : option Guard) (ms : gmap bytes Limit.bucket * gmap bytes Z) (t : Z) : Prop :=
  exists g l, p = Some g /\ Limiter g = Some l /\ BanTTL g = ttl /\
    Limit.follows w Limit.DefaultLimiterMaxEntries l ms.1 t /\
    Ban.tracks Ban.DefaultBanListMaxEntries (Bans g) ms.2 t.

Lemma Ban_tracks_later cap p m t u : Ban.tracks cap p m t -> t <= u -> Ban.tracks cap p m u.
Proof. intros (b & -> & Fo) Hu. exists b. split; [done|]. by eapply Ban.ban_follows_later. Qed.

Lemma saturated_later cap t u m : Ban.saturated cap t m = false -> t <= u -> Ban.saturated cap u m = false.
Proof.
  unfold Ban.saturated. rewrite !Z.leb_gt. intros Hs Hu.
  assert (size (Ban.active u m) <= size (Ban.active t m))%nat; [|lia].
  rewrite <- (active_active _ t u m Hu). apply map_size_filter.
Qed.

(** A query and a ban, against the specification of the ban list. *)
Lemma IsBanned_tracks cap p m t k now :
  Ban.tracks cap p m t -> t <= now ->
  let '(b, p') := Ban.IsBanned k now p in
  b = negb (bool_decide (k = [])) && (Ban.is_active now k m || Ban.saturated cap now m) /\ Ban.tracks cap p' m now.
Proof.
  intros Ht Hn. destruct (Ban.IsBanned k now p) as [b p'] eqn:E.
  destruct (Ban.step_refines cap (Ban.OIsBanned k now) p m t (Ban.RBool b) p' Ht Hn) as [Hr Ht'].
  { cbn [Ban.impl_step]. unfold Ban.IsBanned in E. by rewrite E. }
  simpl in Hr, Ht'. injection Hr as <-. done.
Qed.

Lemma Ban_tracks_Ban cap p m t k ttl now now' :
  Ban.tracks cap p m t -> t <= now' -> k <> [] -> 0 < ttl -> zero_time < now + ttl ->
  Ban.saturated cap now' m = false -> Ban.tracks cap (Ban.Ban k ttl now now' p) (<[k := now + ttl]> m) now'.
Proof.
  intros Ht Hn Hk Httl Hz Hs. pose proof Ht as (b & -> & _). unfold Ban.Ban, Ban.BanE.
  rewrite (bool_decide_eq_false_2 _ Hk), (proj2 (Z.leb_gt _ _)) by done. cbn [orb].
  destruct (Ban.BanUntilE k (now + ttl) now' (Some b)) as [e p'] eqn:E.
  destruct (Ban.step_refines cap (Ban.OBanUntil k (now + ttl) now') (Some b) m t (Ban.RErr e) p' Ht Hn) as [_ Ht'].
  { cbn [Ban.impl_step]. by rewrite E. }
  simpl in Ht'. rewrite (bool_decide_eq_false_2 _ Hk), Hs, andb_false_r in Ht'. cbn [orb] in Ht'.
  unfold IsZero in Ht'. rewrite (bool_decide_eq_false_2 (now + ttl = zero_time)) in Ht' by lia. done.
Qed.

Lemma Allow_refines w ttl p ms t k ck b p' :
  tracks w ttl p ms t -> zero_time < t -> t <= at_banned ck -> ordered ck -> Allow k ck p = (b, p') ->
  (spec_Allow w ttl k ck ms).1 = b /\ tracks w ttl p' (spec_Allow w ttl k ck ms).2 (at_ban_until ck).
Proof.
  intros (g & l & -> & El & Ettl & FoL & TrB) Hz Ht (O1 & O2 & O3) E. destruct ms as [mw mb]. simpl in *.
  pose proof (IsBanned_tracks _ _ _ _ k (at_banned ck) TrB Ht) as HB. unfold spec_Allow.
  destruct (Ban.IsBanned k (at_banned ck) (Bans g)) as [banned bans]. destruct HB as [Eb TrB'].
  rewrite <- Eb. destruct banned.
  { injection E as <- <-. split; [done|]. exists (mk (Limiter g) bans (BanTTL g)), l. split_and!; try done; simpl.
    - eapply Limit.limit_follows_later; [done|lia].
    - eapply Ban_tracks_later; [done|lia]. }
  destruct (Limit.Allow k (at_limiter ck) (Limiter g)) as [ok lim] eqn:EL. rewrite El in EL.
  destruct (Limit.AllowAt_refines w _ l mw t k (at_limiter ck) ok lim FoL ltac:(lia) EL) as (l' & -> & Hok & FoL').
  destruct (Limit.spec_allow w _ k (at_limiter ck) mw) as [ok' mw']. simpl in Hok, FoL'. subst ok'.
  pose proof (Limit.limit_follows_later _ _ _ _ _ (at_ban_until ck) FoL' ltac:(lia)) as FoL2.
  destruct ok; cbn [negb] in E; injection E as <- <-; (split; [done|]).
  { eexists _, l'. split_and!; try done. simpl. eapply Ban_tracks_later; [done|lia]. }
  eexists _, l'. split_and!; try done. simpl. rewrite Ettl.
  destruct (Z.ltb_spec 0 ttl); [|rewrite andb_false_r; eapply Ban_tracks_later; [done|lia]].
  rewrite andb_true_r. destruct (bool_decide_reflect (k = [])) as [->|Hk]; cbn [negb].
  { destruct TrB' as (b & -> & Fo). unfold Ban.Ban. cbn. exists b. split; [done|]. eapply Ban.ban_follows_later; [done|lia]. }
  apply (Ban_tracks_Ban _ _ _ (at_banned ck)); try done; try lia.
  cbn [negb andb] in Eb. symmetry in Eb. apply orb_false_iff in Eb as [_ Hs].
  eapply saturated_later; [done|lia].
Qed.

Lemma guard_calls_refine w ttl cs : forall p ms t,
  tracks w ttl p ms t -> zero_time < t -> clocked t cs ->
  (calls cs p).1 = (spec_calls w ttl cs ms).1.
Proof.
  induction cs as [|[k ck] cs IH]; intros p ms t Tr Hz Hc; [done|]. destruct Hc as (Ht & Ho & Hc).
  cbn [calls spec_calls]. destruct (Allow k ck p) as [b p'] eqn:E.
  destruct (Allow_refines _ _ _ _ _ _ _ _ _ Tr Hz Ht Ho E) as [Hb Tr'].
  destruct (spec_Allow w ttl k ck ms) as [b' ms']. simpl in Hb, Tr'. subst b'.
  assert (zero_time < at_ban_until ck) as Hz' by (destruct Ho as (? & ? & ?); lia).
  specialize (IH _ _ _ Tr' Hz' Hc).
  destruct (calls cs p') as [bs q], (spec_calls w ttl cs ms') as [bs' q']. simpl in *. by f_equal.
Qed.

(** The state that some calls leave, for a call that follows them. *)
Lemma calls_track w ttl cs : forall p ms t, tracks w ttl p ms t -> zero_time < t -> forall rest, clocked t (cs ++ rest) ->
  match rest with
  | (_, ck) :: rest => exists t' ms', tracks w ttl (calls cs p).2 ms' t' /\ zero_time < t' /\ t' <= at_banned ck /\ ordered ck /\ clocked (at_ban_until ck) rest
  | [] => True
  end.
Proof.
  induction cs as [|[k ck] cs IH]; intros p ms t Tr Hz rest Hc.
  { destruct rest as [|[k ck] rest]; [done|]. destruct Hc as (? & ? & ?). exists t, ms. done. }
  destruct Hc as (Ht & Ho & Hc). cbn [calls]. destruct (Allow k ck p) as [b p'] eqn:E.
  destruct (Allow_refines _ _ _ _ _ _ _ _ _ Tr Hz Ht Ho E) as [_ Tr'].
  assert (zero_time < at_ban_until ck) as Hz' by (destruct Ho as (? & ? & ?); lia).
  specialize (IH _ _ _ Tr' Hz' rest Hc). by destruct (calls cs p') as [bs q].
Qed.

Lemma NewGuard_tracks w ttl t : tracks (Limit.Window_WithDefaults w) ttl (Some (NewGuard w ttl)) (∅, ∅) t.
Proof.
  eexists _, _. split_and!; try done. exists Ban.NewBanList. split; [done|]. split_and!; [apply wf_New|done|done].
Qed.

(** The guard composes the limiter and the ban list without
    loss: over any calls whose clock does not go back its answers are those of
    the specification, in which a refusal by the limiter always bans the key.
    The error that [Guard.Allow] discards when it bans is never
    [ErrBanListFull]: a full list is seen first, by [IsBanned]. *)
Theorem guard_exact (w : Limit.Window) (ttl t : Z) (cs : list (bytes * reads)) :
  zero_time < t -> clocked t cs ->
  (calls cs (Some (NewGuard w ttl))).1 = (spec_calls (Limit.Window_WithDefaults w) ttl cs (∅, ∅)).1.
Proof. intros Hz Hc. eapply guard_calls_refine; [apply NewGuard_tracks|done..]. Qed.

Definition const_reads (now : Z) : reads := mkReads now now now now.

Lemma guard_exact_witness :
  (calls [(str "a", const_reads 0); (str "a", const_reads 1); (str "a", const_reads 10); (str "b", const_reads 11);
          (str "a", const_reads 101)] (Some (NewGuard (Limit.mkWindow 1 10) 100))).1 =
  [true; false; false; true; true].
Proof. rewrite (guard_exact (Limit.mkWindow 1 10) 100 0); [vm_compute; reflexivity|done|]. simpl. unfold ordered. simpl. lia. Defined.

(** While a ban of a key runs, the specification keeps it and refuses the key. *)
Lemma spec_ban_runs w ttl key until cs : forall mw mb,
  key <> [] -> mb !! key = Some until -> (forall c, c ∈ cs -> at_banned c.2 < until) ->
  forall c b, In (c, b) (combine cs (spec_calls w ttl cs (mw, mb)).1) -> c.1 = key -> b = false.
Proof.
  induction cs as [|[k ck] cs IH]; intros mw mb Hk Hm Ht c b Hin Hc; [done|]. cbn [spec_calls] in Hin.
  pose proof (Ht (k, ck) ltac:(left)) as Hck. simpl in Hck.
  assert (k = key -> spec_Allow w ttl k ck (mw, mb) = (false, (mw, mb))) as Hban.
  { intros ->. unfold spec_Allow, timed_is_active. rewrite Hm, (proj2 (Z.ltb_lt _ _)) by done.
    by rewrite (bool_decide_eq_false_2 _ Hk). }
  assert ((spec_Allow w ttl k ck (mw, mb)).2.2 !! key = Some until) as Hm'.
  { destruct (decide (k = key)) as [E|Hne]; [by rewrite (Hban E)|]. unfold spec_Allow.
    destruct (negb _ && _); [done|]. destruct (Limit.spec_allow _ _ _ _ _) as [ok mw']. simpl.
    destruct (negb ok && _ && _); [|done]. by rewrite lookup_insert_ne. }
  destruct (spec_Allow w ttl k ck (mw, mb)) as [b' [mw' mb']] eqn:E. simpl in Hm'.
  destruct (spec_calls w ttl cs (mw', mb')) as [bs ms] eqn:Es. cbn [fst combine] in Hin.
  destruct Hin as [[= <- <-]|Hin].
  - simpl in Hc. specialize (Hban Hc). by injection Hban as ->.
  - apply (IH mw' mb' Hk Hm' ltac:(intros c' Hc'; apply Ht; by right) c b); [|done]. by rewrite Es.
Qed.

(** A key that the limiter refuses stays out for the whole ban:
    if a call of the key finds no ban and the limiter refuses it, then every
    later call of the key that starts before the ban's end is refused, whatever
    happens to the other keys in between. *)
Theorem guard_refusal_bans (w : Limit.Window) (ttl t : Z) (before after : list (bytes * reads)) (key : bytes) (ck : reads)
    (answers : list bool) (g : Guard) (p : option Guard) :
  zero_time < t -> clocked t (before ++ (key, ck) :: after) -> key <> [] -> 0 < ttl ->
  calls before (Some (NewGuard w ttl)) = (answers, Some g) ->
  (Ban.IsBanned key (at_banned ck) (Bans g)).1 = false ->
  Allow key ck (Some g) = (false, p) ->
  (forall c, c ∈ after -> at_banned c.2 < at_ban ck + ttl) ->
  forall c b, In (c, b) (combine after (calls after p).1) -> c.1 = key -> b = false.
Proof.
  intros Hz Hc Hk Httl Eg Hnb E Hafter c b Hin Hck.
  destruct (calls_track _ _ before _ _ _ (NewGuard_tracks w ttl t) Hz _ Hc) as (t' & ms & Tr & Hz' & Ht' & Ho & Hc').
  rewrite Eg in Tr. cbn [snd] in Tr. destruct (Allow_refines _ _ _ _ _ _ _ _ _ Tr Hz' Ht' Ho E) as [Hb Tr'].
  pose proof Tr as (g' & l & [= <-] & _ & _ & _ & TrB).
  pose proof (IsBanned_tracks _ _ _ _ key (at_banned ck) TrB Ht') as HB.
  destruct (Ban.IsBanned key (at_banned ck) (Bans g)) as [banned bans]. simpl in Hnb. subst banned. destruct HB as [HB _].
  destruct ms as [mw mb]. unfold spec_Allow in Hb, Tr'. simpl in HB. rewrite <- HB in Hb, Tr'.
  destruct (Limit.spec_allow _ _ key _ mw) as [ok mw']. simpl in Hb. subst ok.
  rewrite (bool_decide_eq_false_2 _ Hk), (proj2 (Z.ltb_lt _ _)) in Tr' by done. cbn [negb andb snd] in Tr'.
  rewrite (guard_calls_refine _ _ after _ _ _ Tr') in Hin; [|destruct Ho as (? & ? & ?); lia|done].
  eapply spec_ban_runs; [done| |exact Hafter|done..]. by rewrite lookup_insert_eq.
Qed.

Lemma guard_refusal_bans_witness :
  nth 1 (calls [(str "b", const_reads 20); (str "a", const_reads 100)]
    (calls [(str "a", const_reads 0); (str "a", const_reads 1)] (Some (NewGuard (Limit.mkWindow 1 10) 100))).2).1 true
  = false.
Proof.
  eapply (guard_refusal_bans (Limit.mkWindow 1 10) 100 0 [(str "a", const_reads 0)]
    [(str "b", const_reads 20); (str "a", const_reads 100)] (str "a") (const_reads 1)).
  - done.
  - simpl. unfold ordered. simpl. lia.
  - done.
  - done.
  - vm_compute; reflexivity.
  - vm_compute; reflexivity.
  - vm_compute; reflexivity.
  - intros c Hc. repeat (apply elem_of_cons in Hc as [->|Hc]; [simpl; lia|]). by apply elem_of_nil in Hc.
  - vm_compute. right. left. reflexivity.
  - reflexivity.
Defined.

End Guard.
