(* ===== verification/Session.v ===== *)
(** relay/session.go: the store of knock sessions and firewall leases that the
    gateways keep between an accepted knock and the TCP connection it admits.

    The store is two TTL/LRU caches and a counter of lease identities. Its
    sessions are the knock sessions the authenticating server asks for: the
    instance at the end makes the store a [KnockSessionStore] of AuthServer. *)

From Stdlib Require Import ZArith Lia String.
From Stdlib Require Strings.Byte.
From stdpp Require Import base list gmap strings.
From S2P Require Import Prelude GoStd Cache Net AuthTypes AuthServer.

Open Scope Z_scope.

Definition DefaultMaxKnockSessions : Z := 4096.

Record session := mkSession { remaining : Z; port : Z; sessionID : bytes }.

Record firewallLease := mkLease { id : Z }.

Record sessionKey := mkSessionKey { sk_Remote : netip_Addr; sk_ClientID : bytes; sk_Port : Z }.

#[export] Instance sessionKey_eq_dec : EqDecision sessionKey.
Proof. solve_decision. Defined.

#[export] Instance sessionKey_countable : Countable sessionKey.
Proof.
  refine (inj_countable' (fun k => (sk_Remote k, sk_ClientID k, sk_Port k))
    (fun '(r, c, p) => mkSessionKey r c p) _). by intros [].
Defined.

Definition newSessionKeyForPort (addr : netip_Addr) (clientID : bytes) (port : Z) : sessionKey :=
  let port := if Z.ltb port 0 || Z.ltb 65535 port then 0 else port in
  mkSessionKey addr clientID (uint16 port).

Definition newSessionKey (addr : netip_Addr) (clientID : bytes) : sessionKey := newSessionKeyForPort addr clientID 0.

Definition sessionKeyMatches (key : sessionKey) (addr : netip_Addr) (clientID : bytes) : bool :=
  bool_decide (sk_Remote key = addr) && bool_decide (sk_ClientID key = clientID).

Definition firewallKey (addr : netip_Addr) (port : Z) : bytes := Addr_String addr ++ [Byte.x00] ++ itoa port.

Definition Addr_IsValid (a : netip_Addr) : bool := match a with AddrZero => false | _ => true end.

(** [sess.remaining--] goes through the pointer the cache holds: the value of
    an entry changes in place, without a use of the entry. *)
Definition store_value {K V} `{Countable K} (key : K) (v : V) (c : TTLLRU.t K V) : TTLLRU.t K V :=
  match TTLLRU.find_elem key c with
  | Some (i, e) =>
      TTLLRU.mk (TTLLRU.entries c) (TTLLRU.elem_store i (mkEntry (Cache.Key e) v (ExpiresAt e)) (TTLLRU.order c))
        (TTLLRU.fresh c) (TTLLRU.maxEntries c)
  | None => c
  end.

Record SessionStore := mkStore {
  sessions : TTLLRU.t sessionKey session;
  firewall : TTLLRU.t bytes firewallLease;
  nextID : Z;
}.

Definition NewKnockSessionStoreWithLimit (max : Z) : SessionStore :=
  let max := if Z.leb max 0 then DefaultMaxKnockSessions else max in
  mkStore (TTLLRU.New max) (TTLLRU.New max) 0.

Definition NewKnockSessionStore : SessionStore := NewKnockSessionStoreWithLimit DefaultMaxKnockSessions.

Definition set_sessions (c : TTLLRU.t sessionKey session) (s : SessionStore) : SessionStore :=
  mkStore c (firewall s) (nextID s).

Definition set_firewall (c : TTLLRU.t bytes firewallLease) (s : SessionStore) : SessionStore :=
  mkStore (sessions s) c (nextID s).

(** The methods run under [s.mu]; a nil receiver is [None]. [now] is the
    [time.Now()] of the call. *)
Definition AddSessionForPort (remote : netip_Addr) (clientID sessionID : bytes) (port ttl uses now : Z)
    (p : option SessionStore) : option SessionStore :=
  match p with
  | None => None
  | Some s =>
      if negb (Addr_IsValid remote) || bool_decide (clientID = []) then Some s
      else
        let uses := if Z.leb uses 0 then 1 else uses in
        Some (set_sessions (TTLLRU.SetUntil (newSessionKeyForPort remote clientID port)
                (mkSession uses port sessionID) (now + ttl) (sessions s)) s)
  end.

Definition AddSession (remote : netip_Addr) (clientID sessionID : bytes) (ttl uses now : Z) (p : option SessionStore) :=
  AddSessionForPort remote clientID sessionID 0 ttl uses now p.

Definition Add (remote : netip_Addr) (clientID : bytes) (ttl uses now : Z) (p : option SessionStore) :=
  AddSession remote clientID [] ttl uses now p.

(** The session, whether it was found, and whether it was found expired. *)
Definition getSessionLocked (key : sessionKey) (now : Z) (s : SessionStore) : option session * bool * SessionStore :=
  match TTLLRU.Peek key (sessions s) with
  | None => (None, false, s)
  | Some entry =>
      if negb (After (ExpiresAt entry) now)
      then (None, true, set_sessions (snd (TTLLRU.Delete key (sessions s))) s)
      else (Some (Value entry), false, s)
  end.

Definition CheckAndConsume (peer : PeerInfo) (remote : option net_Addr) (now : Z) (p : option SessionStore)
    : option error * option SessionStore :=
  match p with
  | None => (Some (EMsg (str "missing knock session store")), None)
  | Some s =>
      match AddrFromNet remote with
      | None => (Some (EMsg (str "remote address has no IP")), Some s)
      | Some addr =>
          let key := newSessionKeyForPort addr (pi_ClientID peer) (pi_ServerPort peer) in
          let '(sess, expired, s) := getSessionLocked key now s in
          let again := (if sess is None then true else false) && negb expired && Z.eqb (pi_ServerPort peer) 0 in
          let key := if again then newSessionKey addr (pi_ClientID peer) else key in
          let '(sess, expired, s) := if again then getSessionLocked key now s else (sess, expired, s) in
          if expired : bool then (Some (EMsg (str "knock session expired")), Some s)
          else
            match sess with
            | None => (Some (EMsg (str "no accepted knock session")), Some s)
            | Some sess =>
                if Z.ltb 0 (len (sessionID sess)) && negb (bool_decide (sessionID sess = pi_SessionID peer)) then
                  (Some (EMsg (str "knock session id mismatch")), Some s)
                else if Z.ltb 0 (port sess) && Z.ltb 0 (pi_ServerPort peer) && negb (Z.eqb (port sess) (pi_ServerPort peer)) then
                  (Some (EMsg (str "knock session port mismatch")), Some s)
                else
                  let sess := mkSession (remaining sess - 1) (port sess) (sessionID sess) in
                  let s := set_sessions (store_value key sess (sessions s)) s in
                  if Z.leb (remaining sess) 0
                  then (None, Some (set_sessions (snd (TTLLRU.Delete key (sessions s))) s))
                  else (None, Some s)
            end
      end
  end.

Definition removeSessionsLocked (remote : netip_Addr) (clientID : bytes) (s : SessionStore) : Z * SessionStore :=
  let '(n, c) := TTLLRU.DeleteWhere (fun entry => sessionKeyMatches (Cache.Key entry) remote clientID) (sessions s) in
  (n, set_sessions c s).

Definition Remove (remote : netip_Addr) (clientID : bytes) (p : option SessionStore) : bool * option SessionStore :=
  match p with
  | None => (false, None)
  | Some s => let '(n, s) := removeSessionsLocked remote clientID s in (Z.ltb 0 n, Some s)
  end.

Definition RemoveForPort (remote : netip_Addr) (clientID : bytes) (port : Z) (p : option SessionStore)
    : bool * option SessionStore :=
  match p with
  | None => (false, None)
  | Some s =>
      let '(b, c) := TTLLRU.Delete (newSessionKeyForPort remote clientID port) (sessions s) in (b, Some (set_sessions c s))
  end.

Definition Expire (remote : netip_Addr) (clientID : bytes) (now : Z) (p : option SessionStore) : bool * option SessionStore :=
  match p with
  | None => (false, None)
  | Some s =>
      let '(n, c) := TTLLRU.DeleteWhere (fun entry =>
        sessionKeyMatches (Cache.Key entry) remote clientID && negb (Before now (ExpiresAt entry))) (sessions s) in
      (Z.ltb 0 n, Some (set_sessions c s))
  end.

Definition ExpireForPort (remote : netip_Addr) (clientID : bytes) (port now : Z) (p : option SessionStore)
    : bool * option SessionStore :=
  match p with
  | None => (false, None)
  | Some s =>
      let '(n, c) := TTLLRU.DeleteWhere (fun entry =>
        bool_decide (newSessionKeyForPort remote clientID port = Cache.Key entry) && negb (Before now (ExpiresAt entry)))
        (sessions s) in
      (Z.ltb 0 n, Some (set_sessions c s))
  end.

(** The lease identity and whether a lease was made; [nextID] is a [uint64]. *)
Definition MarkFirewall (remote : netip_Addr) (port ttl now : Z) (p : option SessionStore)
    : (Z * bool) * option SessionStore :=
  match p with
  | None => ((0, false), None)
  | Some s =>
      if negb (Addr_IsValid remote) || Z.leb port 0 || Z.leb ttl 0 then ((0, false), Some s)
      else
        let fw := snd (TTLLRU.Sweep now (firewall s)) in
        let key := firewallKey remote port in
        let i := uint64 (nextID s + 1) in
        let renewed := mkStore (sessions s) (TTLLRU.SetUntil key (mkLease i) (now + ttl) fw) i in
        match TTLLRU.Peek key fw with
        | Some entry =>
            if After (ExpiresAt entry) now then ((i, true), Some renewed)
            else if Z.leb (TTLLRU.Cap fw) (TTLLRU.Len fw) then ((0, false), Some (set_firewall fw s))
            else ((i, true), Some renewed)
        | None =>
            if Z.leb (TTLLRU.Cap fw) (TTLLRU.Len fw) then ((0, false), Some (set_firewall fw s))
            else ((i, true), Some renewed)
        end
  end.

Definition ExpireFirewall (remote : netip_Addr) (port i now : Z) (p : option SessionStore) : bool * option SessionStore :=
  match p with
  | None => (false, None)
  | Some s =>
      if Z.eqb i 0 then (false, Some s)
      else
        let key := firewallKey remote port in
        match TTLLRU.Peek key (firewall s) with
        | None => (false, Some s)
        | Some lease =>
            if negb (Z.eqb (id (Value lease)) i) || Before now (ExpiresAt lease) then (false, Some s)
            else let '(b, c) := TTLLRU.Delete key (firewall s) in (b, Some (set_firewall c s))
        end
  end.

Definition RemoveFirewall (remote : netip_Addr) (port : Z) (p : option SessionStore) : bool * option SessionStore :=
  match p with
  | None => (false, None)
  | Some s => let '(b, c) := TTLLRU.Delete (firewallKey remote port) (firewall s) in (b, Some (set_firewall c s))
  end.

#[export] Instance session_store : KnockSessionStore (option SessionStore) := CheckAndConsume.

(** * The caches of the store, by lookup *)

Section Lookup.
Context {K V : Type} `{Countable K}.
Implicit Types c : TTLLRU.t K V.

(** The entry of a key. *)
Definition entry_of (k : K) c : option (Entry K V) := Spec.find k (contents c).

Lemma Peek_entry k c : wf c -> TTLLRU.Peek k c = entry_of k c.
Proof. intros W. destruct (impl_step_refines (OPeek k) c _ _ W eq_refl) as (_ & _ & E). simpl in E. injection E as E. symmetry. exact E. Qed.

Lemma entry_key k c e : entry_of k c = Some e -> Cache.Key e = k.
Proof. intros E. apply List.find_some in E as [_ E]. by apply bool_decide_eq_true in E. Qed.

Lemma Delete_entry k c : wf c ->
  wf (snd (TTLLRU.Delete k c)) /\ TTLLRU.maxEntries (snd (TTLLRU.Delete k c)) = TTLLRU.maxEntries c /\
  forall k', entry_of k' (snd (TTLLRU.Delete k c)) = if bool_decide (k = k') then None else entry_of k' c.
Proof.
  intros W. destruct (TTLLRU.Delete k c) as [b c'] eqn:E.
  destruct (impl_step_refines (ODelete k) c (RBool b) c' W) as (W' & M & Es); [simpl; by rewrite E|].
  split_and!; try done. intros k'. unfold entry_of. simpl in Es. cbn [snd].
  destruct (Spec.find k (contents c)) eqn:Ef; injection Es as _ <-; [apply Spec_find_remove|].
  case_bool_decide as Hk; [by subst|done].
Qed.

Lemma DeleteWhere_entry p c : wf c ->
  let '(n, c') := TTLLRU.DeleteWhere p c in
  wf c' /\ TTLLRU.maxEntries c' = TTLLRU.maxEntries c /\
  forall k, entry_of k c' = match entry_of k c with Some e => if p e then None else Some e | None => None end.
Proof.
  intros W. destruct (TTLLRU.DeleteWhere p c) as [n c'] eqn:E.
  destruct (impl_step_refines (ODeleteWhere p) c (RInt n) c' W) as (W' & M & Es); [simpl; by rewrite E|].
  split_and!; try done. intros k. unfold entry_of. simpl in Es. injection Es as _ <-.
  rewrite Spec_find_filter by by apply wf_NoDup_contents. destruct (Spec.find k (contents c)) as [e|]; [|done].
  by destruct (p e).
Qed.

Lemma Sweep_entry now c : wf c ->
  wf (snd (TTLLRU.Sweep now c)) /\ TTLLRU.maxEntries (snd (TTLLRU.Sweep now c)) = TTLLRU.maxEntries c /\
  forall k, entry_of k (snd (TTLLRU.Sweep now c)) =
    match entry_of k c with Some e => if Spec.live now e then Some e else None | None => None end.
Proof.
  intros W. pose proof (Sweep_spec c now W) as HS. destruct (TTLLRU.Sweep now c) as [n c'].
  destruct HS as (W' & M & E & _). split_and!; try done. intros k. unfold entry_of. cbn [snd]. rewrite E.
  apply Spec_find_filter. by apply wf_NoDup_contents.
Qed.

Lemma find_drop (k : K) n (l : list (Entry K V)) :
  NoDup (Cache.Key <$> l) -> Spec.find k (drop n l) = None \/ Spec.find k (drop n l) = Spec.find k l.
Proof.
  intros Hnd. rewrite <- (take_drop n l), fmap_app in Hnd. apply NoDup_app in Hnd as (_ & Hd & _).
  destruct (Spec.find k (drop n l)) as [e|] eqn:E; [right|by left]. rewrite <- (take_drop n l), Spec_find_app, E.
  destruct (Spec.find k (take n l)) as [e'|] eqn:E'; [|done]. exfalso.
  apply List.find_some in E as [Hin He], E' as [Hin' He']. rewrite bool_decide_eq_true in He, He'. subst k.
  apply (Hd (Cache.Key e')); [|rewrite He']; apply list_elem_of_fmap_2; by apply list_elem_of_In.
Qed.

(** Setting a key may evict others, but not when there is room for it. *)
Lemma SetUntil_entry k v x c : wf c -> IsZero x = false ->
  wf (TTLLRU.SetUntil k v x c) /\ TTLLRU.maxEntries (TTLLRU.SetUntil k v x c) = TTLLRU.maxEntries c /\
  entry_of k (TTLLRU.SetUntil k v x c) = Some (mkEntry k v x) /\
  forall k', k' <> k ->
    (entry_of k' (TTLLRU.SetUntil k v x c) = None \/ entry_of k' (TTLLRU.SetUntil k v x c) = entry_of k' c) /\
    (is_Some (entry_of k c) \/ TTLLRU.Len c < TTLLRU.Cap c -> entry_of k' (TTLLRU.SetUntil k v x c) = entry_of k' c).
Proof.
  intros W Hz. unfold TTLLRU.SetUntil. rewrite Hz. destruct (setLocked_spec c k v x W) as [W' Ec].
  split; [done|]. split; [by apply setLocked_max|]. unfold entry_of. rewrite Ec. unfold Spec.set.
  assert (forall l k', Spec.find k' (l ++ [mkEntry k v x]) =
    match Spec.find k' l with Some e => Some e | None => if bool_decide (k = k') then Some (mkEntry k v x) else None end) as Hsnoc.
  { intros l k'. rewrite Spec_find_app. unfold Spec.find at 2. simpl. by case_bool_decide. }
  destruct (Spec.find k (contents c)) as [e|] eqn:Ef.
  - split; [by rewrite Hsnoc, Spec_find_remove, bool_decide_eq_true_2|]. intros k' Hk'.
    rewrite Hsnoc, Spec_find_remove, bool_decide_eq_false_2 by done.
    split; [right|intros _]; by destruct (Spec.find k' (contents c)).
  - assert (forall k', Spec.find k' (Spec.make_room (TTLLRU.maxEntries c) (contents c)) = None \/
      Spec.find k' (Spec.make_room (TTLLRU.maxEntries c) (contents c)) = Spec.find k' (contents c)) as Hd.
    { intros k'. unfold Spec.make_room. apply find_drop. by apply wf_NoDup_contents. }
    split.
    { rewrite Hsnoc. destruct (Hd k) as [->| ->]; [|rewrite Ef]; by rewrite bool_decide_eq_true_2. }
    intros k' Hk'. rewrite Hsnoc, bool_decide_eq_false_2 by done. split.
    + destruct (Hd k') as [->| ->]; [by left|right]. by destruct (Spec.find k' (contents c)).
    + intros [[? ?]|Hroom]; [done|]. rewrite Len_spec in Hroom by done. rewrite Spec_make_room_id by done.
      by destruct (Spec.find k' (contents c)).
Qed.

Lemma store_value_entry k v c e : wf c -> entry_of k c = Some e ->
  wf (store_value k v c) /\ TTLLRU.maxEntries (store_value k v c) = TTLLRU.maxEntries c /\
  forall k', entry_of k' (store_value k v c) = if bool_decide (k = k') then Some (mkEntry k v (ExpiresAt e)) else entry_of k' c.
Proof.
  intros W Hk. unfold store_value. destruct (TTLLRU.find_elem k c) as [[i e']|] eqn:Ef.
  2: { destruct (find_elem_None _ _ W Ef) as [_ ?]. unfold entry_of in Hk. congruence. }
  destruct (find_elem_Some _ _ _ _ W Ef) as (l1 & l2 & L). pose proof (located_find _ _ _ _ _ _ L) as Hf.
  unfold entry_of in Hk. rewrite Hf in Hk. injection Hk as ->. pose proof (loc_key _ _ _ _ _ _ L) as He. rewrite He.
  rewrite (located_store _ _ _ _ _ _ L). split_and!; [|done|].
  - destruct W as [Hi Hk Hm Hfr Hx Hl]. rewrite (loc_order _ _ _ _ _ _ L) in *.
    assert (index (l1 ++ (i, mkEntry k v (ExpiresAt e)) :: l2) = index (l1 ++ (i, e) :: l2)) as Hix.
    { unfold index. rewrite !fmap_app. csimpl. by rewrite He. }
    split; simpl; [| |by rewrite Hix| |done|].
    + by rewrite fmap_app in *.
    + rewrite keys_app in *. unfold keys in *. csimpl in *. by rewrite He in Hk.
    + apply Forall_app in Hfr as [? [? ?]%Forall_cons]. apply Forall_app. split; [done|]. by apply Forall_cons.
    + rewrite len_app in Hl |- *. exact Hl.
  - intros k'. unfold entry_of, contents. simpl. rewrite (loc_order _ _ _ _ _ _ L), !fmap_app, !Spec_find_app.
    pose proof (loc_keys _ _ _ _ _ _ L) as [Hn1 _]%Forall_app.
    assert (Spec.find k l1.*2 = None) as Hn.
    { apply find_none_Forall, Forall_fmap. eapply Forall_impl; [exact Hn1|]. intros y Hy. by apply bool_decide_eq_false. }
    case_bool_decide as Hkk.
    + subst k'. rewrite Hn. unfold Spec.find. csimpl. by rewrite bool_decide_eq_true_2.
    + destruct (Spec.find k' l1.*2); [done|]. unfold Spec.find. csimpl. rewrite He. by rewrite bool_decide_eq_false_2.
Qed.

End Lookup.

(** * Runs *)

Inductive op :=
| OAdd (remote : netip_Addr) (clientID sessionID : bytes) (port ttl uses now : Z)
| OCheck (peer : PeerInfo) (remote : option net_Addr) (now : Z)
| ORemove (remote : netip_Addr) (clientID : bytes)
| ORemoveForPort (remote : netip_Addr) (clientID : bytes) (port : Z)
| OExpire (remote : netip_Addr) (clientID : bytes) (now : Z)
| OExpireForPort (remote : netip_Addr) (clientID : bytes) (port now : Z)
| OMarkFirewall (remote : netip_Addr) (port ttl now : Z)
| OExpireFirewall (remote : netip_Addr) (port i now : Z)
| ORemoveFirewall (remote : netip_Addr) (port : Z).

Inductive ret := RNone | RErr (e : option error) | RFlag (b : bool) | RLease (r : Z * bool).

Definition step (o : op) (p : option SessionStore) : ret * option SessionStore :=
  match o with
  | OAdd r c sid port ttl uses now => (RNone, AddSessionForPort r c sid port ttl uses now p)
  | OCheck peer r now => let '(e, p) := CheckAndConsume peer r now p in (RErr e, p)
  | ORemove r c => let '(b, p) := Remove r c p in (RFlag b, p)
  | ORemoveForPort r c port => let '(b, p) := RemoveForPort r c port p in (RFlag b, p)
  | OExpire r c now => let '(b, p) := Expire r c now p in (RFlag b, p)
  | OExpireForPort r c port now => let '(b, p) := ExpireForPort r c port now p in (RFlag b, p)
  | OMarkFirewall r port ttl now => let '(x, p) := MarkFirewall r port ttl now p in (RLease x, p)
  | OExpireFirewall r port i now => let '(b, p) := ExpireFirewall r port i now p in (RFlag b, p)
  | ORemoveFirewall r port => let '(b, p) := RemoveFirewall r port p in (RFlag b, p)
  end.

Fixpoint run (os : list op) (p : option SessionStore) : list ret * option SessionStore :=
  match os with
  | [] => ([], p)
  | o :: os => let '(r, p) := step o p in let '(rs, p) := run os p in (r :: rs, p)
  end.

(** The admissions an operation adds to a session key, and the ones a call
    took from it. *)
Definition added (k : sessionKey) (o : op) : Z :=
  match o with
  | OAdd r c _ port _ uses _ => if bool_decide (newSessionKeyForPort r c port = k) then Z.max 1 uses else 0
  | _ => 0
  end.

Definition taken (k : sessionKey) (o : op) (r : ret) : Z :=
  match o, r with
  | OCheck peer remote _, RErr None =>
      match AddrFromNet remote with
      | Some a => if bool_decide (newSessionKeyForPort a (pi_ClientID peer) (pi_ServerPort peer) = k) then 1 else 0
      | None => 0
      end
  | _, _ => 0
  end.

Fixpoint total_added (k : sessionKey) (os : list op) : Z :=
  match os with [] => 0 | o :: os => added k o + total_added k os end.

Fixpoint total_taken (k : sessionKey) (os : list op) (rs : list ret) : Z :=
  match os, rs with o :: os, r :: rs => taken k o r + total_taken k os rs | _, _ => 0 end.

(** ** Sessions *)

(** What is left of a session, for a store that keeps only sessions with
    admissions left. *)
Definition budget (k : sessionKey) (s : SessionStore) : Z :=
  match entry_of k (sessions s) with Some e => remaining (Value e) | None => 0 end.

Record store_wf (s : SessionStore) : Prop := {
  swf_sessions : wf (sessions s);
  swf_firewall : wf (firewall s);
  swf_left : forall k e, entry_of k (sessions s) = Some e -> 1 <= remaining (Value e);
}.

(** A step that only drops sessions keeps the invariant and adds no budget. *)
Lemma drops_ok s c : store_wf s -> wf c ->
  (forall k, entry_of k c = None \/ entry_of k c = entry_of k (sessions s)) ->
  store_wf (set_sessions c s) /\ forall k, budget k (set_sessions c s) <= budget k s.
Proof.
  intros [W Wf Hl] W' Hd. split.
  - split; simpl; try done. intros k e He. destruct (Hd k) as [E|E]; [congruence|]. apply (Hl k). congruence.
  - intros k. unfold budget. simpl. destruct (Hd k) as [->| ->]; [|done].
    destruct (entry_of k (sessions s)) as [e|] eqn:E; [|done]. specialize (Hl k e E). lia.
Qed.

Lemma Delete_drops s k : store_wf s ->
  store_wf (set_sessions (snd (TTLLRU.Delete k (sessions s))) s) /\
  (forall k', budget k' (set_sessions (snd (TTLLRU.Delete k (sessions s))) s) <= budget k' s) /\
  budget k (set_sessions (snd (TTLLRU.Delete k (sessions s))) s) = 0.
Proof.
  intros W. destruct (Delete_entry k (sessions s) (swf_sessions s W)) as (W' & _ & Hd).
  destruct (drops_ok s _ W W') as [? ?].
  { intros k'. rewrite Hd. case_bool_decide; auto. }
  split_and!; try done. unfold budget. simpl. by rewrite Hd, bool_decide_eq_true_2.
Qed.

Lemma DeleteWhere_drops s p n c : store_wf s -> TTLLRU.DeleteWhere p (sessions s) = (n, c) ->
  store_wf (set_sessions c s) /\ forall k, budget k (set_sessions c s) <= budget k s.
Proof.
  intros W E. pose proof (DeleteWhere_entry p (sessions s) (swf_sessions s W)) as HD. rewrite E in HD.
  destruct HD as (W' & _ & Hd). apply drops_ok; [done..|]. intros k. rewrite Hd.
  destruct (entry_of k (sessions s)) as [e|]; [destruct (p e)|]; auto.
Qed.

(** [getSessionLocked] finds live sessions, and drops one that has expired. *)
Lemma getSessionLocked_spec k now s : store_wf s ->
  match entry_of k (sessions s) with
  | None => getSessionLocked k now s = (None, false, s)
  | Some e =>
      if Z.ltb now (ExpiresAt e) then getSessionLocked k now s = (Some (Value e), false, s)
      else exists s', getSessionLocked k now s = (None, true, s') /\ store_wf s' /\ forall k', budget k' s' <= budget k' s
  end.
Proof.
  intros W. unfold getSessionLocked. rewrite Peek_entry by apply W.
  destruct (entry_of k (sessions s)) as [e|] eqn:E; [|done]. unfold After. destruct (Z.ltb now (ExpiresAt e)); [done|].
  destruct (Delete_drops s k W) as (? & ? & _). by eexists.
Qed.

(** The answer [CheckAndConsume] owes for a session found under its key. *)
Definition admission (e : option (Entry sessionKey session)) (peer : PeerInfo) (now : Z) : option error :=
  match e with
  | None => Some (EMsg (str "no accepted knock session"))
  | Some e =>
      if Z.leb (ExpiresAt e) now then Some (EMsg (str "knock session expired"))
      else if negb (bool_decide (sessionID (Value e) = [])) && negb (bool_decide (sessionID (Value e) = pi_SessionID peer))
      then Some (EMsg (str "knock session id mismatch"))
      else if Z.ltb 0 (port (Value e)) && Z.ltb 0 (pi_ServerPort peer) && negb (Z.eqb (port (Value e)) (pi_ServerPort peer))
      then Some (EMsg (str "knock session port mismatch"))
      else None
  end.

(** Taking one admission from a session. *)
Lemma consume_ok s k e : store_wf s -> entry_of k (sessions s) = Some e ->
  let sess := mkSession (remaining (Value e) - 1) (port (Value e)) (sessionID (Value e)) in
  let s1 := set_sessions (store_value k sess (sessions s)) s in
  let s2 := if Z.leb (remaining sess) 0 then set_sessions (snd (TTLLRU.Delete k (sessions s1))) s1 else s1 in
  store_wf s2 /\ forall k', budget k' s2 = budget k' s - (if bool_decide (k = k') then 1 else 0).
Proof.
  intros W E sess s1 s2. destruct (store_value_entry k sess (sessions s) e (swf_sessions s W) E) as (W1 & _ & H1).
  pose proof (swf_left s W k e E) as Hr. unfold s2. simpl.
  destruct (Z.leb_spec (remaining (Value e) - 1) 0) as [Hz|Hz].
  - destruct (Delete_entry k (store_value k sess (sessions s)) W1) as (W2 & _ & H2). split.
    + split; simpl; [done|apply W|]. intros k' e'. rewrite H2, H1. case_bool_decide; [done|]. apply (swf_left s W).
    + intros k'. unfold budget. simpl. rewrite H2, H1. case_bool_decide as Hk; [|lia]. subst. rewrite E. lia.
  - split.
    + split; simpl; [done|apply W|]. intros k' e'. rewrite H1. case_bool_decide; [intros [= <-]; simpl; lia|].
      apply (swf_left s W).
    + intros k'. unfold budget. simpl. rewrite H1. case_bool_decide as Hk; [|lia]. subst. rewrite E. simpl. lia.
Qed.

Lemma CheckAndConsume_spec s peer remote now r p' a : store_wf s ->
  AddrFromNet remote = Some a -> CheckAndConsume peer remote now (Some s) = (r, p') ->
  let k := newSessionKeyForPort a (pi_ClientID peer) (pi_ServerPort peer) in
  r = admission (entry_of k (sessions s)) peer now /\
  exists s', p' = Some s' /\ store_wf s' /\ firewall s' = firewall s /\ nextID s' = nextID s /\
    (forall k', budget k' s' <= budget k' s - (if r is None then if bool_decide (k = k') then 1 else 0 else 0)).
Proof.
  intros W Ha E k. unfold CheckAndConsume in E. rewrite Ha in E. fold k in E.
  pose proof (getSessionLocked_spec k now s W) as HG. unfold admission.
  destruct (entry_of k (sessions s)) as [e|] eqn:Ee.
  - rewrite Z.leb_antisym. destruct (Z.ltb now (ExpiresAt e)) eqn:El; cbn [negb].
    + rewrite HG in E. cbn [andb negb] in E.
      assert (Z.ltb 0 (len (sessionID (Value e))) = negb (bool_decide (sessionID (Value e) = []))) as Hlen.
      { destruct (sessionID (Value e)); [done|]. unfold len. simpl. by apply Z.ltb_lt. }
      rewrite Hlen in E. destruct (negb _ && negb _); [injection E as <- <-; split; [done|]|].
      { exists s. split_and!; try done. intros. lia. }
      destruct (_ && _ && _); [injection E as <- <-; split; [done|]|].
      { exists s. split_and!; try done. intros. lia. }
      destruct (consume_ok s k e W Ee) as [W2 Hb]. cbv zeta in E, W2, Hb.
      destruct (Z.leb (remaining _) 0); injection E as <- <-; (split; [done|]); eexists; split_and!; try done;
        intros k'; rewrite Hb; lia.
    + destruct HG as (s' & HG & W' & Hb). unfold getSessionLocked in *.
      destruct (TTLLRU.Peek k (sessions s)) as [e'|]; [|done]. destruct (negb _); [|done]. injection HG as <-.
      cbn [andb negb] in E. injection E as <- <-. split; [done|]. eexists. split_and!; try done. intros k'.
      specialize (Hb k'). lia.
  - rewrite HG in E. cbn [andb negb] in E.
    assert (getSessionLocked (if Z.eqb (pi_ServerPort peer) 0 then newSessionKey a (pi_ClientID peer) else k) now s = (None, false, s)) as HG'.
    { destruct (Z.eqb_spec (pi_ServerPort peer) 0) as [Hp|]; [|done]. unfold newSessionKey. rewrite <- Hp. exact HG. }
    destruct (Z.eqb (pi_ServerPort peer) 0); rewrite ?HG' in E; injection E as <- <-; (split; [done|]);
      exists s; split_and!; try done; intros; lia.
Qed.

Lemma Add_ok s r c sid pt ttl uses now : store_wf s ->
  exists s', AddSessionForPort r c sid pt ttl uses now (Some s) = Some s' /\ store_wf s' /\
    firewall s' = firewall s /\ nextID s' = nextID s /\
    forall k, budget k s' <= budget k s + added k (OAdd r c sid pt ttl uses now).
Proof.
  intros W. unfold AddSessionForPort. simpl.
  assert (forall k, 0 <= added k (OAdd r c sid pt ttl uses now)) as Hpos.
  { intros k. simpl. case_bool_decide; lia. }
  destruct (negb _ || _).
  { exists s. split_and!; try done. intros k. specialize (Hpos k). simpl in Hpos. lia. }
  eexists. split; [done|]. destruct (IsZero (now + ttl)) eqn:Ez.
  { unfold TTLLRU.SetUntil. rewrite Ez. destruct s; simpl in *. split_and!; try done.
    intros k. specialize (Hpos k). simpl in Hpos. unfold set_sessions. simpl. lia. }
  set (sess := mkSession _ pt sid). set (key := newSessionKeyForPort r c pt).
  destruct (SetUntil_entry key sess (now + ttl) (sessions s) (swf_sessions s W) Ez) as (W' & _ & Hk & Hne).
  assert (forall k e, entry_of k (TTLLRU.SetUntil key sess (now + ttl) (sessions s)) = Some e ->
    k = key /\ Value e = sess \/ k <> key /\ entry_of k (sessions s) = Some e) as Hcase.
  { intros k e He. destruct (decide (k = key)) as [->|Hd]; [left|right].
    - rewrite Hk in He. by injection He as <-.
    - split; [done|]. destruct (proj1 (Hne k Hd)); congruence. }
  assert (1 <= remaining sess <= Z.max 1 uses) as Hs by (unfold sess; simpl; zcases; lia).
  split_and!; try done.
  - split; simpl; [done|apply W|]. intros k e He.
    destruct (Hcase k e He) as [[_ ->]|[_ He']]; [lia|by apply (swf_left s W k)].
  - intros k. unfold budget. simpl. fold key.
    destruct (entry_of k (TTLLRU.SetUntil _ _ _ _)) as [e|] eqn:He.
    + destruct (Hcase k e He) as [[-> ->]|[Hd He']].
      * rewrite bool_decide_eq_true_2 by done. destruct (entry_of key (sessions s)) as [e'|] eqn:E'; [|lia].
        pose proof (swf_left s W key e' E'). lia.
      * rewrite He', bool_decide_eq_false_2 by done. lia.
    + specialize (Hpos k). simpl in Hpos. fold key in Hpos.
      destruct (entry_of k (sessions s)) as [e'|] eqn:E'; [pose proof (swf_left s W k e' E'); lia|lia].
Qed.

(** ** Leases *)

(** The clock of an operation is past Go's zero time. *)
Definition timely (o : op) : Prop := match o with OMarkFirewall _ _ _ now => zero_time < now | _ => True end.

(** An operation that leaves a lease under [k], of expiry [x], alone: it is not
    about that key, or it is a timer, and it comes before the expiry. *)
Definition quiet (k : bytes) (x : Z) (o : op) : Prop :=
  match o with
  | OMarkFirewall r pt _ now => firewallKey r pt <> k /\ now < x
  | OExpireFirewall _ _ _ now => now < x
  | ORemoveFirewall r pt => firewallKey r pt <> k
  | _ => True
  end.

(** What one call of [MarkFirewall] may do to the leases. *)
Lemma MarkFirewall_spec s r pt ttl now x p' : store_wf s -> zero_time < now ->
  MarkFirewall r pt ttl now (Some s) = (x, p') ->
  exists s', p' = Some s' /\ sessions s' = sessions s /\ wf (firewall s') /\
    (forall k e, entry_of k (firewall s) = Some e -> now < ExpiresAt e -> k <> firewallKey r pt \/ x.2 = false ->
      entry_of k (firewall s') = Some e) /\
    (forall k e, entry_of k (firewall s') = Some e ->
      entry_of k (firewall s) = Some e \/ x.2 = true /\ id (Value e) = nextID s') /\
    (if x.2 then x.1 = uint64 (nextID s + 1) /\ nextID s' = x.1 /\
       entry_of (firewallKey r pt) (firewall s') = Some (mkEntry (firewallKey r pt) (mkLease x.1) (now + ttl))
     else nextID s' = nextID s).
Proof.
  intros W Hnow E. unfold MarkFirewall in E. destruct (negb _ || _ || Z.leb ttl 0) eqn:Eg.
  { injection E as <- <-. exists s. split_and!; try done; [apply W|auto]. }
  apply orb_false_iff in Eg as [_ Httl]. apply Z.leb_gt in Httl. cbv zeta in E.
  destruct (Sweep_entry now (firewall s) (swf_firewall s W)) as (W1 & M1 & H1).
  set (fw := snd (TTLLRU.Sweep now (firewall s))) in *. set (key := firewallKey r pt) in *.
  assert (forall k e, entry_of k (firewall s) = Some e -> now < ExpiresAt e -> entry_of k fw = Some e) as Hlive.
  { intros k e He Hl. rewrite H1, He. unfold Spec.live. by rewrite (proj2 (Z.ltb_lt _ _)). }
  assert (forall k e, entry_of k fw = Some e -> entry_of k (firewall s) = Some e) as Hback.
  { intros k e. rewrite H1. destruct (entry_of k (firewall s)) as [e'|]; [|done]. by destruct (Spec.live now e'). }
  assert (IsZero (now + ttl) = false) as Hz by (apply bool_decide_eq_false_2; lia).
  rewrite Peek_entry in E by done.
  assert ((x, p') = ((0, false), Some (set_firewall fw s)) \/
    (is_Some (entry_of key fw) \/ TTLLRU.Len fw < TTLLRU.Cap fw) /\
    (x, p') = ((uint64 (nextID s + 1), true),
      Some (mkStore (sessions s) (TTLLRU.SetUntil key (mkLease (uint64 (nextID s + 1))) (now + ttl) fw) (uint64 (nextID s + 1)))))
    as [[= -> ->]|[Hroom [= -> ->]]].
  { rewrite <- E. destruct (entry_of key fw) as [e|] eqn:Ek; [destruct (After _ _)|];
      try destruct (Z.leb_spec (TTLLRU.Cap fw) (TTLLRU.Len fw)); (by left) || (right; split; [by eauto|done]). }
  - exists (set_firewall fw s). split_and!; simpl; try done; auto.
  - destruct (SetUntil_entry key (mkLease (uint64 (nextID s + 1))) (now + ttl) fw W1 Hz) as (W2 & _ & Hk & Hne).
    eexists. split; [done|]. simpl. split_and!; try done.
    + intros k e He Hl [Hd|]; [|done]. rewrite (proj2 (Hne k Hd) Hroom). by apply Hlive.
    + intros k e He. destruct (decide (k = key)) as [->|Hd].
      * rewrite Hk in He. injection He as <-. by right.
      * rewrite (proj2 (Hne k Hd) Hroom) in He. left. by apply Hback.
Qed.

(** What one step may do to the leases: quiet operations keep them, and a new
    lease has a new identity. *)
Record leases_ok (o : op) (s s' : SessionStore) : Prop := {
  lo_wf : wf (firewall s');
  lo_kept : forall k e, entry_of k (firewall s) = Some e -> quiet k (ExpiresAt e) o -> entry_of k (firewall s') = Some e;
  lo_next : 0 <= nextID s < 2 ^ 64 - 1 -> nextID s <= nextID s' <= nextID s + 1;
  lo_ids : 0 <= nextID s < 2 ^ 64 - 1 -> forall k e, entry_of k (firewall s') = Some e ->
    entry_of k (firewall s) = Some e \/ nextID s < id (Value e);
}.

Lemma leases_same o s s' : store_wf s -> firewall s' = firewall s -> nextID s' = nextID s -> leases_ok o s s'.
Proof. intros W Hf Hn. split; rewrite ?Hf, ?Hn; [apply W|done|lia|auto]. Qed.

Lemma leases_delete o s key : store_wf s ->
  (forall e, entry_of key (firewall s) = Some e -> ~ quiet key (ExpiresAt e) o) ->
  leases_ok o s (set_firewall (snd (TTLLRU.Delete key (firewall s))) s).
Proof.
  intros W Hq. destruct (Delete_entry key (firewall s) (swf_firewall s W)) as (W' & _ & Hd).
  split; simpl; [done| |lia|intros _]; intros k e; rewrite Hd.
  - intros He Hq'. rewrite bool_decide_eq_false_2; [done|]. intros ->. by apply (Hq e).
  - case_bool_decide; [done|auto].
Qed.

Lemma leases_mark s r pt ttl now x p' : store_wf s -> zero_time < now -> MarkFirewall r pt ttl now (Some s) = (x, p') ->
  exists s', p' = Some s' /\ leases_ok (OMarkFirewall r pt ttl now) s s'.
Proof.
  intros W Ht Em. destruct (MarkFirewall_spec _ _ _ _ _ _ _ W Ht Em) as (s' & -> & _ & W' & Hk & Hb & Hx).
  exists s'. split; [done|].
  assert (0 <= nextID s < 2 ^ 64 - 1 -> nextID s' = if x.2 then nextID s + 1 else nextID s) as Hn'.
  { intros Hn. destruct x.2; [|done]. destruct Hx as (Hx & -> & _). rewrite Hx. apply Z.mod_small. lia. }
  split; [done| | |].
  - intros k e He [Hne Hnow]. apply Hk; auto.
  - intros Hn. specialize (Hn' Hn). destruct x.2; lia.
  - intros Hn k e He. specialize (Hn' Hn). destruct (Hb k e He) as [?|[Hx2 Hid]]; [by left|right]. rewrite Hx2 in Hn'. lia.
Qed.

Lemma leases_expire s r pt i now b p' : store_wf s -> ExpireFirewall r pt i now (Some s) = (b, p') ->
  exists s', p' = Some s' /\ leases_ok (OExpireFirewall r pt i now) s s'.
Proof.
  intros W E. unfold ExpireFirewall in E.
  assert (leases_ok (OExpireFirewall r pt i now) s s) as Hs by by apply leases_same.
  destruct (Z.eqb i 0); [injection E as <- <-; by eexists|]. rewrite Peek_entry in E by apply W.
  destruct (entry_of _ _) as [lease|] eqn:El; [|injection E as <- <-; by eexists].
  destruct (negb _ || _) eqn:Eg; [injection E as <- <-; by eexists|].
  destruct (TTLLRU.Delete _ _) as [b' c'] eqn:Ed. injection E as <- <-. eexists. split; [done|].
  replace c' with (snd (TTLLRU.Delete (firewallKey r pt) (firewall s))) by by rewrite Ed.
  apply leases_delete; [done|]. intros e He Hq. simpl in Hq. rewrite El in He. injection He as ->.
  apply orb_false_iff in Eg as [_ Eg]. apply Z.ltb_ge in Eg. lia.
Qed.

(** One step: the invariant, the budgets and the leases. *)
Record step_facts (o : op) (s : SessionStore) (r : ret) (s' : SessionStore) : Prop := {
  sf_wf : store_wf s';
  sf_budget : forall k, budget k s' + taken k o r <= budget k s + added k o;
  sf_leases : leases_ok o s s';
}.

(** A step on the sessions that drops some of them. *)
Lemma drop_facts o r s c : store_wf s ->
  store_wf (set_sessions c s) /\ (forall k, budget k (set_sessions c s) <= budget k s) ->
  (forall k, taken k o r = 0) -> (forall k, added k o = 0) -> step_facts o s r (set_sessions c s).
Proof.
  intros W [W' Hb] Ht Ha. split; [done| |by apply leases_same]. intros k. specialize (Hb k). rewrite Ht, Ha. lia.
Qed.

(** A step on the leases. *)
Lemma lease_facts o r s s' : store_wf s -> leases_ok o s s' -> sessions s' = sessions s ->
  (forall k, taken k o r = 0) -> (forall k, added k o = 0) -> step_facts o s r s'.
Proof.
  intros W L Hs Ht Ha. split; [|intros k; rewrite Ht, Ha; unfold budget; rewrite Hs; lia|done].
  split; [rewrite Hs; apply W|apply L|rewrite Hs; apply W].
Qed.

Lemma check_facts s peer remote now e p' : store_wf s -> CheckAndConsume peer remote now (Some s) = (e, p') ->
  exists s', p' = Some s' /\ step_facts (OCheck peer remote now) s (RErr e) s'.
Proof.
  intros W E. destruct (AddrFromNet remote) as [a|] eqn:Ea.
  - destruct (CheckAndConsume_spec _ _ _ _ _ _ _ W Ea E) as (_ & s' & -> & W' & Hf & Hn & Hb).
    exists s'. split; [done|]. split; [done| |by apply leases_same]. intros k. specialize (Hb k). simpl. rewrite Ea.
    destruct e; [lia|]. case_bool_decide; lia.
  - unfold CheckAndConsume in E. rewrite Ea in E. injection E as <- <-. exists s. split; [done|].
    split; [done|simpl; lia|by apply leases_same].
Qed.

Lemma step_ok o s r p' : store_wf s -> timely o -> step o (Some s) = (r, p') ->
  exists s', p' = Some s' /\ step_facts o s r s'.
Proof.
  intros W Ht E.
  destruct o as [r0 c sid pt ttl uses now|peer remote now|r0 c|r0 c pt|r0 c now|r0 c pt now|r0 pt ttl now|r0 pt i now|r0 pt];
    cbn [step] in E.
  - destruct (Add_ok s r0 c sid pt ttl uses now W) as (s' & Ea & W' & Hf & Hn & Hb). rewrite Ea in E.
    injection E as <- <-. exists s'. split; [done|]. split; [done| |by apply leases_same]. intros k. specialize (Hb k). simpl in *. lia.
  - destruct (CheckAndConsume peer remote now (Some s)) as [e q] eqn:Ec. injection E as <- <-. by apply check_facts.
  - unfold Remove, removeSessionsLocked in E. destruct (TTLLRU.DeleteWhere _ _) as [n c'] eqn:Ed. injection E as <- <-.
    eexists. split; [done|]. apply drop_facts; [done|by eapply DeleteWhere_drops|done..].
  - unfold RemoveForPort in E. destruct (Delete_drops s (newSessionKeyForPort r0 c pt) W) as (W' & Hb & _).
    destruct (TTLLRU.Delete _ _) as [b c']. injection E as <- <-. eexists. split; [done|]. by apply drop_facts.
  - unfold Expire in E. destruct (TTLLRU.DeleteWhere _ _) as [n c'] eqn:Ed. injection E as <- <-.
    eexists. split; [done|]. apply drop_facts; [done|by eapply DeleteWhere_drops|done..].
  - unfold ExpireForPort in E. destruct (TTLLRU.DeleteWhere _ _) as [n c'] eqn:Ed. injection E as <- <-.
    eexists. split; [done|]. apply drop_facts; [done|by eapply DeleteWhere_drops|done..].
  - destruct (MarkFirewall r0 pt ttl now (Some s)) as [x q] eqn:Em. injection E as <- <-.
    destruct (MarkFirewall_spec _ _ _ _ _ _ _ W Ht Em) as (s1 & Hs1 & Hs & _).
    destruct (leases_mark _ _ _ _ _ _ _ W Ht Em) as (s' & -> & L). injection Hs1 as <-. eexists. split; [done|]. by apply lease_facts.
  - destruct (ExpireFirewall r0 pt i now (Some s)) as [b q] eqn:Em. injection E as <- <-.
    destruct (leases_expire _ _ _ _ _ _ _ W Em) as (s' & -> & L). eexists. split; [done|]. apply lease_facts; try done.
    unfold ExpireFirewall in Em. destruct (Z.eqb i 0); [by injection Em as _ <-|].
    destruct (TTLLRU.Peek _ _); [|by injection Em as _ <-]. destruct (negb _ || _); [by injection Em as _ <-|].
    destruct (TTLLRU.Delete _ _). by injection Em as _ <-.
  - unfold RemoveFirewall in E. destruct (TTLLRU.Delete _ _) as [b c'] eqn:Ed. injection E as <- <-.
    eexists. split; [done|]. apply lease_facts; try done.
    replace c' with (snd (TTLLRU.Delete (firewallKey r0 pt) (firewall s))) by by rewrite Ed.
    apply leases_delete; [done|]. intros e _ Hq. by apply Hq.
Qed.

Lemma New_wf max : store_wf (NewKnockSessionStoreWithLimit max).
Proof. split; [apply wf_New|apply wf_New|done]. Qed.

Lemma run_ok os : forall s rs p', store_wf s -> Forall timely os -> run os (Some s) = (rs, p') ->
  exists s', p' = Some s' /\ store_wf s' /\ forall k, budget k s' + total_taken k os rs <= budget k s + total_added k os.
Proof.
  induction os as [|o os IH]; intros s rs p' W Ht E; cbn [run] in E.
  { injection E as <- <-. exists s. split_and!; done. }
  apply Forall_cons in Ht as [Ho Ht]. destruct (step o (Some s)) as [r q] eqn:Es.
  destruct (step_ok _ _ _ _ W Ho Es) as (s1 & -> & [W1 Hb _]). destruct (run os (Some s1)) as [rs1 q] eqn:Er.
  injection E as <- <-. destruct (IH _ _ _ W1 Ht Er) as (s' & -> & W' & Hb'). exists s'. split_and!; try done.
  intros k. specialize (Hb k). specialize (Hb' k). cbn [total_taken total_added]. lia.
Qed.

(** Knock sessions cannot be spent twice: over any sequence of
    the store's operations, the connections admitted for a source address, a
    client and a port are at most the admissions that knocks added for exactly
    that address, client and port. *)
Theorem session_budget (max : Z) (os : list op) (k : sessionKey) :
  Forall timely os ->
  total_taken k os (run os (Some (NewKnockSessionStoreWithLimit max))).1 <= total_added k os.
Proof.
  intros Ht. destruct (run os _) as [rs p'] eqn:E. destruct (run_ok _ _ _ _ (New_wf max) Ht E) as (s' & _ & W' & Hb).
  specialize (Hb k). simpl. unfold budget at 2 in Hb. simpl in Hb. cbn [entry_of] in Hb.
  assert (0 <= budget k s'); [|unfold entry_of in Hb; simpl in Hb; lia].
  unfold budget. destruct (entry_of k (sessions s')) as [e|] eqn:Ee; [|done]. pose proof (swf_left s' W' k e Ee). lia.
Qed.

(** One admission of a session that is there. *)
Lemma check_grant s peer remote now a e : store_wf s -> AddrFromNet remote = Some a ->
  let k := newSessionKeyForPort a (pi_ClientID peer) (pi_ServerPort peer) in
  entry_of k (sessions s) = Some e -> admission (Some e) peer now = None ->
  exists s', CheckAndConsume peer remote now (Some s) = (None, Some s') /\ store_wf s' /\
    entry_of k (sessions s') =
      if Z.leb (remaining (Value e)) 1 then None
      else Some (mkEntry k (mkSession (remaining (Value e) - 1) (port (Value e)) (sessionID (Value e))) (ExpiresAt e)).
Proof.
  intros W Ha k He Hadm. destruct (CheckAndConsume peer remote now (Some s)) as [r p'] eqn:E.
  destruct (CheckAndConsume_spec _ _ _ _ _ _ _ W Ha E) as (Hr & s' & -> & W' & _). fold k in Hr. rewrite He, Hadm in Hr. subst r.
  exists s'. split_and!; try done. unfold CheckAndConsume in E. rewrite Ha in E. fold k in E.
  pose proof (getSessionLocked_spec k now s W) as HG. rewrite He in HG. unfold admission in Hadm. rewrite Z.leb_antisym in Hadm.
  destruct (Z.ltb now (ExpiresAt e)); [|done]. rewrite HG in E. cbn [andb negb] in E.
  destruct (Z.ltb 0 (len _) && _); [done|]. destruct (_ && _ && _); [done|]. cbv zeta in E. cbn [remaining] in E.
  destruct (store_value_entry k (mkSession (remaining (Value e) - 1) (port (Value e)) (sessionID (Value e))) (sessions s) e
    (swf_sessions s W) He) as (W1 & _ & H1).
  destruct (Z.leb_spec (remaining (Value e)) 1).
  - rewrite (proj2 (Z.leb_le _ _)) in E by lia. injection E as <-.
    destruct (Delete_entry k (store_value k (mkSession (remaining (Value e) - 1) (port (Value e)) (sessionID (Value e)))
      (sessions s)) W1) as (_ & _ & H2).
    simpl. by rewrite H2, bool_decide_eq_true_2.
  - rewrite (proj2 (Z.leb_gt _ _)) in E by lia. injection E as <-. simpl. by rewrite H1, bool_decide_eq_true_2.
Qed.

(** Repeated checks of one peer. *)
Fixpoint checks (peer : PeerInfo) (remote : option net_Addr) (times : list Z) (p : option SessionStore) : list (option error) :=
  match times with
  | [] => []
  | now :: times => let '(r, p) := CheckAndConsume peer remote now p in r :: checks peer remote times p
  end.

Lemma checks_none peer remote a times : forall s, store_wf s -> AddrFromNet remote = Some a ->
  entry_of (newSessionKeyForPort a (pi_ClientID peer) (pi_ServerPort peer)) (sessions s) = None ->
  checks peer remote times (Some s) = replicate (length times) (Some (EMsg (str "no accepted knock session"))).
Proof.
  induction times as [|now times IH]; intros s W Ha He; [done|]. cbn [checks length replicate].
  destruct (CheckAndConsume peer remote now (Some s)) as [r p'] eqn:E.
  destruct (CheckAndConsume_spec _ _ _ _ _ _ _ W Ha E) as (Hr & s' & -> & W' & _ & _ & Hb). rewrite He in Hr. cbn [admission] in Hr. subst r. f_equal.
  apply IH; [done..|]. specialize (Hb (newSessionKeyForPort a (pi_ClientID peer) (pi_ServerPort peer))).
  unfold budget in Hb. rewrite He in Hb. destruct (entry_of _ (sessions s')) as [e|] eqn:Ee; [|done].
  pose proof (swf_left s' W' _ e Ee). lia.
Qed.

Lemma checks_spend peer remote a times : forall s e, store_wf s -> AddrFromNet remote = Some a ->
  entry_of (newSessionKeyForPort a (pi_ClientID peer) (pi_ServerPort peer)) (sessions s) = Some e ->
  sessionID (Value e) = [] \/ sessionID (Value e) = pi_SessionID peer -> port (Value e) = pi_ServerPort peer ->
  Forall (fun now => now < ExpiresAt e) times ->
  checks peer remote times (Some s) =
    replicate (Nat.min (length times) (Z.to_nat (remaining (Value e)))) None ++
    replicate (length times - Z.to_nat (remaining (Value e))) (Some (EMsg (str "no accepted knock session"))).
Proof.
  induction times as [|now times IH]; intros s e W Ha He Hsid Hport Ht; [done|].
  apply Forall_cons in Ht as [Hnow Ht]. pose proof (swf_left s W _ e He) as Hleft.
  assert (admission (Some e) peer now = None) as Hadm.
  { unfold admission. rewrite (proj2 (Z.leb_gt _ _)) by done. rewrite Hport, Z.eqb_refl. cbn [negb]. rewrite andb_false_r.
    destruct Hsid as [-> | ->]; [done|]. rewrite (bool_decide_eq_true_2 (pi_SessionID peer = pi_SessionID peer)) by done.
    cbn [negb]. by rewrite andb_false_r. }
  destruct (check_grant s peer remote now a e W Ha He Hadm) as (s' & E & W' & He'). cbn [checks]. rewrite E.
  replace (Z.to_nat (remaining (Value e))) with (S (Z.to_nat (remaining (Value e) - 1))) by lia.
  cbn [length Nat.min replicate Nat.sub app]. f_equal. destruct (Z.leb_spec (remaining (Value e)) 1).
  - rewrite (checks_none peer remote a) by done. replace (Z.to_nat (remaining (Value e) - 1)) with 0%nat by lia.
    by rewrite Nat.min_0_r, Nat.sub_0_r.
  - rewrite (IH s' _ W' Ha He'); try done.
Qed.

(** A knock admits the connections it announces: after an
    accepted knock has added a session with [uses] admissions, a peer with the
    session's address, client, port and session id that connects before the
    expiry is admitted on its first [uses] attempts and refused after that.
    This holds in every state the store can be in, a full one included. *)
Theorem session_uses_exact (max : Z) (os : list op) (rs : list ret) (s : SessionStore)
    (peer : PeerInfo) (remote : option net_Addr) (a : netip_Addr) (sid : bytes) (ttl uses now : Z) (times : list Z) :
  Forall timely os -> run os (Some (NewKnockSessionStoreWithLimit max)) = (rs, Some s) ->
  AddrFromNet remote = Some a -> Addr_IsValid a = true -> pi_ClientID peer <> [] ->
  sid = [] \/ sid = pi_SessionID peer -> zero_time < now + ttl -> Forall (fun t => t < now + ttl) times ->
  let n := Z.to_nat (Z.max 1 uses) in
  checks peer remote times (AddSessionForPort a (pi_ClientID peer) sid (pi_ServerPort peer) ttl uses now (Some s)) =
  replicate (Nat.min (length times) n) None ++
  replicate (length times - n) (Some (EMsg (str "no accepted knock session"))).
Proof.
  intros Ht Er Ha Hv Hc Hsid Hz Htimes n. destruct (run_ok _ _ _ _ (New_wf max) Ht Er) as (s0 & [= <-] & W & _).
  destruct (Add_ok s a (pi_ClientID peer) sid (pi_ServerPort peer) ttl uses now W) as (s' & Ea & W' & _).
  pose proof Ea as Ea'. unfold AddSessionForPort in Ea'. rewrite Hv, (bool_decide_eq_false_2 _ Hc) in Ea'. cbn [negb orb] in Ea'.
  injection Ea' as Es'. assert (IsZero (now + ttl) = false) as Hz' by (apply bool_decide_eq_false_2; lia).
  destruct (SetUntil_entry (newSessionKeyForPort a (pi_ClientID peer) (pi_ServerPort peer))
    (mkSession (if Z.leb uses 0 then 1 else uses) (pi_ServerPort peer) sid) (now + ttl) (sessions s) (swf_sessions s W) Hz')
    as (_ & _ & Hk & _).
  pose proof (f_equal sessions Es') as He. cbn [sessions set_sessions] in He. rewrite He in Hk.
  rewrite Ea, (checks_spend peer remote a times s' _ W' Ha Hk) by done. cbn [Value remaining].
  replace (Z.to_nat (if Z.leb uses 0 then 1 else uses)) with n; [done|]. unfold n. destruct (Z.leb_spec uses 0); lia.
Qed.

Definition ex_remote : netip_Addr := Addr4 [Byte.x0a; Byte.x00; Byte.x00; Byte.x01].
Definition ex_conn : option net_Addr := Some (TCPAddr [Byte.x0a; Byte.x00; Byte.x00; Byte.x01] 40000).
Definition ex_client (sid : bytes) : PeerInfo :=
  mkPeerInfo (str "alice") [] 0 [] 0 22 [] sid [] ex_conn [] Byte.x00.

Lemma session_budget_witness :
  total_taken (newSessionKeyForPort ex_remote (str "alice") 22)
    [OAdd ex_remote (str "alice") [] 22 100 1 0; OCheck (ex_client []) ex_conn 1; OCheck (ex_client []) ex_conn 2]
    (run [OAdd ex_remote (str "alice") [] 22 100 1 0; OCheck (ex_client []) ex_conn 1; OCheck (ex_client []) ex_conn 2]
       (Some (NewKnockSessionStoreWithLimit 8))).1 <= 1.
Proof. apply session_budget. by repeat (apply Forall_cons; split; [done|]). Defined.

Lemma session_uses_exact_witness :
  checks (ex_client (str "s1")) ex_conn [1; 2; 3]
    (AddSessionForPort ex_remote (str "alice") (str "s1") 22 100 2 0 (Some (NewKnockSessionStoreWithLimit 8))) =
  [None; None; Some (EMsg (str "no accepted knock session"))].
Proof.
  refine (session_uses_exact 8 [] [] _ (ex_client (str "s1")) ex_conn ex_remote (str "s1") 100 2 0 [1; 2; 3]
    _ eq_refl eq_refl eq_refl _ _ _ _); try done; [by right|]. by repeat (apply Forall_cons; split; [lia|]).
Defined.

Lemma run_leases os k e : forall s rs p', store_wf s -> Forall timely os ->
  entry_of k (firewall s) = Some e -> Forall (quiet k (ExpiresAt e)) os -> run os (Some s) = (rs, p') ->
  exists s', p' = Some s' /\ entry_of k (firewall s') = Some e.
Proof.
  induction os as [|o os IH]; intros s rs p' W Ht He Hq E; cbn [run] in E; [injection E as <- <-; by exists s|].
  apply Forall_cons in Ht as [Ho Ht]. apply Forall_cons in Hq as [Hqo Hq]. destruct (step o (Some s)) as [r q] eqn:Es.
  destruct (step_ok _ _ _ _ W Ho Es) as (s1 & -> & [W1 _ L]). destruct (run os (Some s1)) as [rs1 q] eqn:Er.
  injection E as <- <-. eapply IH; try done. by apply (lo_kept _ _ _ L).
Qed.

(** A firewall lease lasts as long as it was granted: once
    [MarkFirewall] has made a lease, no operation before its expiry takes it
    away, be it a timer, a knock of another source or a table that is full,
    except an explicit removal or a renewal of that very lease. A renewed lease
    is again protected for its new length. *)
Theorem lease_kept (max : Z) (os after : list op) (rs rs' : list ret) (s : SessionStore)
    (remote : netip_Addr) (pt ttl now i : Z) (p1 p2 : option SessionStore) :
  Forall timely os -> Forall timely after -> zero_time < now ->
  run os (Some (NewKnockSessionStoreWithLimit max)) = (rs, Some s) ->
  MarkFirewall remote pt ttl now (Some s) = ((i, true), p1) ->
  Forall (quiet (firewallKey remote pt) (now + ttl)) after ->
  run after p1 = (rs', p2) ->
  exists s2, p2 = Some s2 /\
    TTLLRU.Peek (firewallKey remote pt) (firewall s2) = Some (mkEntry (firewallKey remote pt) (mkLease i) (now + ttl)).
Proof.
  intros Ht Ht' Hz Er Em Hq Ea. destruct (run_ok _ _ _ _ (New_wf max) Ht Er) as (s0 & [= <-] & W & _).
  destruct (MarkFirewall_spec _ _ _ _ _ _ _ W Hz Em) as (s1 & -> & _ & _ & _ & _ & Hx). simpl in Hx. destruct Hx as (_ & _ & He).
  assert (store_wf s1) as W1.
  { destruct (step_ok (OMarkFirewall remote pt ttl now) s (RLease (i, true)) (Some s1) W Hz) as (s2 & [= <-] & F).
    - cbn [step]. by rewrite Em.
    - apply F. }
  destruct (run_leases after _ _ s1 rs' p2 W1 Ht' He Hq Ea) as (s2 & -> & He2).
  destruct (run_ok _ _ _ _ W1 Ht' Ea) as (s3 & [= <-] & W2 & _). exists s2. split; [done|].
  by rewrite Peek_entry by apply W2.
Qed.

Lemma lease_kept_witness :
  exists s2,
    (run [OMarkFirewall (Addr4 [Byte.x0a; Byte.x00; Byte.x00; Byte.x02]) 22 50 5; OExpireFirewall ex_remote 22 1 99]
      (MarkFirewall ex_remote 22 100 0 (Some (NewKnockSessionStoreWithLimit 1))).2).2 = Some s2 /\
    TTLLRU.Peek (firewallKey ex_remote 22) (firewall s2) = Some (mkEntry (firewallKey ex_remote 22) (mkLease 1) 100).
Proof.
  eapply (lease_kept 1 [] [OMarkFirewall (Addr4 [Byte.x0a; Byte.x00; Byte.x00; Byte.x02]) 22 50 5; OExpireFirewall ex_remote 22 1 99]
    [] _ _ ex_remote 22 100 0 1).
  - done.
  - by repeat (apply Forall_cons; split; [done|]).
  - done.
  - reflexivity.
  - vm_compute. reflexivity.
  - apply Forall_cons. split; [split; [by vm_compute|lia]|]. apply Forall_cons. split; [simpl; lia|done].
  - vm_compute. reflexivity.
Defined.

Lemma run_app os1 : forall os2 p, run (os1 ++ os2) p =
  let '(rs1, p1) := run os1 p in let '(rs2, p2) := run os2 p1 in (rs1 ++ rs2, p2).
Proof.
  induction os1 as [|o os1 IH]; intros os2 p; cbn [run app].
  - by destruct (run os2 p).
  - destruct (step o p) as [r p']. rewrite IH. destruct (run os1 p') as [rs1 p1]. by destruct (run os2 p1).
Qed.

(** Lease identities grow, as long as the counter does not wrap around. *)
Lemma run_ids os k i : forall s rs p', store_wf s -> Forall timely os ->
  0 <= nextID s -> nextID s + len os < 2 ^ 64 - 1 -> run os (Some s) = (rs, p') ->
  exists s', p' = Some s' /\ store_wf s' /\ nextID s <= nextID s' <= nextID s + len os /\
    (i <= nextID s -> (forall e, entry_of k (firewall s) = Some e -> i < id (Value e)) ->
     forall e, entry_of k (firewall s') = Some e -> i < id (Value e)).
Proof.
  induction os as [|o os IH]; intros s rs p' W Ht H0 Hn E; cbn [run] in E.
  { injection E as <- <-. exists s. unfold len. simpl. split_and!; try done; lia. }
  apply Forall_cons in Ht as [Ho Ht]. destruct (step o (Some s)) as [r q] eqn:Es.
  rewrite len_cons in Hn |- *. pose proof (len_nonneg os).
  destruct (step_ok _ _ _ _ W Ho Es) as (s1 & -> & [W1 _ [_ _ L1 L2]]).
  specialize (L1 ltac:(lia)). specialize (L2 ltac:(lia)).
  destruct (run os (Some s1)) as [rs1 q] eqn:Er. injection E as <- <-.
  destruct (IH s1 _ _ W1 Ht ltac:(lia) ltac:(lia) Er) as (s' & -> & W' & Hn' & Hids). exists s'. split_and!; try done; [lia..|].
  intros Hi He. apply Hids; [lia|]. intros e He1. destruct (L2 k e He1) as [He0|]; [by apply He|lia].
Qed.

(** A stale timer is harmless: when a lease has been renewed,
    the timer of the older lease, which carries the older identity, removes
    nothing, whatever happened since and whenever it fires. (Fewer operations
    than the range of the 64-bit identity are assumed.) *)
Theorem stale_timer_harmless (max : Z) (os1 os2 os3 : list op) (rs1 rs2 rs3 : list ret) (s1 s3 s5 : SessionStore)
    (remote : netip_Addr) (pt ttl now i ttl' now' j t : Z) (p2 p4 : option SessionStore) :
  Forall timely (os1 ++ os2 ++ os3) -> zero_time < now -> zero_time < now' ->
  len os1 + len os2 + len os3 + 2 < 2 ^ 64 - 1 ->
  run os1 (Some (NewKnockSessionStoreWithLimit max)) = (rs1, Some s1) ->
  MarkFirewall remote pt ttl now (Some s1) = ((i, true), p2) ->
  run os2 p2 = (rs2, Some s3) ->
  MarkFirewall remote pt ttl' now' (Some s3) = ((j, true), p4) ->
  run os3 p4 = (rs3, Some s5) ->
  ExpireFirewall remote pt i t (Some s5) = (false, Some s5).
Proof.
  intros Ht Hz Hz' Hlen E1 E2 E3 E4 E5. apply Forall_app in Ht as [Ht1 [Ht2 Ht3]%Forall_app].
  set (key := firewallKey remote pt).
  pose proof (len_nonneg os1). pose proof (len_nonneg os2). pose proof (len_nonneg os3).
  destruct (run_ids os1 key 0 _ _ _ (New_wf max) Ht1 ltac:(simpl; lia) ltac:(simpl; lia) E1) as (? & [= <-] & W1 & N1 & _).
  simpl in N1.
  assert (run [OMarkFirewall remote pt ttl now] (Some s1) = ([RLease (i, true)], p2)) as E2'.
  { cbn [run step]. by rewrite E2. }
  destruct (run_ids [OMarkFirewall remote pt ttl now] key 0 _ _ _ W1 ltac:(by repeat constructor) ltac:(lia) ltac:(unfold len; simpl; lia) E2') as (s2 & -> & W2 & N2 & _).
  destruct (MarkFirewall_spec _ _ _ _ _ _ _ W1 Hz E2) as (? & [= <-] & _ & _ & _ & _ & Hi). simpl in Hi. destruct Hi as (_ & Hi & _).
  unfold len in N2; simpl in N2.
  destruct (run_ids os2 key 0 _ _ _ W2 Ht2 ltac:(lia) ltac:(lia) E3) as (? & [= <-] & W3 & N3 & _).
  destruct (MarkFirewall_spec _ _ _ _ _ _ _ W3 Hz' E4) as (s4 & -> & _ & _ & _ & _ & Hj). simpl in Hj. destruct Hj as (Hj & Hj' & He).
  assert (j = nextID s3 + 1) as -> by (rewrite Hj; apply Z.mod_small; lia).
  assert (store_wf s4) as W4.
  { destruct (step_ok (OMarkFirewall remote pt ttl' now') s3 (RLease (nextID s3 + 1, true)) (Some s4) W3 Hz') as (? & [= <-] & F).
    - cbn [step]. by rewrite E4.
    - apply F. }
  destruct (run_ids os3 key i _ _ _ W4 Ht3 ltac:(lia) ltac:(lia) E5) as (? & [= <-] & W5 & _ & Hids).
  unfold ExpireFirewall. destruct (Z.eqb i 0); [done|]. rewrite Peek_entry by apply W5. fold key.
  destruct (entry_of key (firewall s5)) as [lease|] eqn:El; [|done].
  assert (i < id (Value lease)).
  { apply Hids; [lia| |done]. intros e. fold key in He. rewrite He. intros [= <-]. simpl. lia. }
  by rewrite (proj2 (Z.eqb_neq _ _)) by lia.
Qed.

Lemma stale_timer_harmless_witness :
  let s := (MarkFirewall ex_remote 22 100 50 (MarkFirewall ex_remote 22 100 0 (Some (NewKnockSessionStoreWithLimit 4))).2).2 in
  ExpireFirewall ex_remote 22 1 200 s = (false, s).
Proof.
  eapply (stale_timer_harmless 4 [] [] [] [] [] [] (NewKnockSessionStoreWithLimit 4) _ _ ex_remote 22 100 0 1 100 50 2 200);
    try done; [vm_compute; reflexivity..].
Defined.
