(* ===== verification/KnockFrame.v ===== *)
(** knock/binary_frame.go: the encrypted UDP knock frame, with the client and
    port checks of knock/types.go and knock/frame.go.

    A frame is a 28-byte header (nonce, key hint, length, flags) followed by a
    sealed payload. [BuildKnockFrame] makes one, [OpenKnockFrame] decides on the
    server whether it is a knock of one of the configured clients. *)

From Stdlib Require Import ZArith Lia String.
From Stdlib Require Strings.Byte.
From stdpp Require Import base list gmap strings.
From S2P Require Import Prelude GoStd Cryptox Codec Frame Cache Replay.

Open Scope Z_scope.

Definition KnockFrameVersion : byte := Byte.x01.
Definition KnockFrameHeaderSize : Z := 16 + 8 + 2 + 1 + 1.
Definition DefaultMaxKnockFrameSize : Z := 1024.
Definition KnockNonceBytes : Z := 16.
Definition KnockSessionIDMinBytes : Z := 16.
Definition KnockSequenceIDBytes : Z := 16.
Definition KnockClientRandomBytes : nat := 16.
Definition KnockFrameTypeUDP : byte := Byte.x01.
Definition KnockFrameTypeUDPSequence : byte := Byte.x02.
Definition KnockFlagSequence : byte := Byte.x01.
Definition KnockFlagSession : byte := Byte.x02.
Definition KnockFlagExtensions : byte := Byte.x04.
Definition allowedKnockFlags : byte := Byte.x07.
Definition DefaultSequenceMaxParts : Z := 8.
Definition UDPMethod : bytes := str "udp".

(** * Clients and ports *)

Record ClientSecret := mkClientSecret { cs_ClientID : bytes; cs_Secret : bytes }.

Definition ValidateClientSecret (client : ClientSecret) : option error :=
  if bool_decide (cs_ClientID client = []) || Z.ltb 65535 (len (cs_ClientID client))
     || bool_decide (Byte.x00 ∈ cs_ClientID client)
  then Some auth_ErrInvalidClientID
  else if Z.ltb (len (cs_Secret client)) MinSecretSize then Some auth_ErrInvalidSecret
  else None.

Fixpoint validate_all (clients : list ClientSecret) : option error :=
  match clients with
  | [] => None
  | c :: clients => match ValidateClientSecret c with Some e => Some e | None => validate_all clients end
  end.

Definition ValidateClientSecrets (clients : list ClientSecret) : option error :=
  if bool_decide (clients = []) then Some auth_ErrMissingSecretResolver else validate_all clients.

Definition validateProtectedPort (port : Z) : option error :=
  if Z.ltb port 1 || Z.ltb 65535 port then Some (EMsg (str "protected port must be in 1..65535")) else None.

(** * Data *)

Record KnockFrameOptions := mkKnockFrameOptions {
  ko_ClientID : bytes; ko_Secret : bytes; ko_Method : bytes; ko_ServerPort : Z;
  ko_SessionID : bytes; ko_SequenceID : bytes; ko_SequenceIndex : Z; ko_SequenceTotal : Z;
  ko_ClientRandom : bytes; ko_Extensions : list TLV; ko_Nonce : bytes; ko_KeyHint : Z;
  ko_Timestamp : Z; ko_MaxFrameSize : Z;
}.

(** The replay cache of the configuration is an argument of the operations. *)
Record ServerConfig := mkServerConfig {
  sc_Clients : list ClientSecret; sc_ServerPort : Z; sc_Method : bytes; sc_TimeWindow : Z;
  sc_MaxFrameSize : Z; sc_AllowSequence : bool;
}.

Record KnockInfo := mkKnockInfo {
  ki_ClientID : bytes; ki_ClientIDHash : bytes; ki_Method : bytes; ki_ServerPort : Z; ki_Timestamp : Z;
  ki_SessionID : bytes; ki_SequenceID : bytes; ki_SequenceIndex : Z; ki_SequenceTotal : Z;
  ki_ClientRandom : bytes; ki_Extensions : list TLV; ki_Nonce : bytes; ki_KeyHint : Z;
  ki_FrameType : byte; ki_Flags : byte;
}.

Record knockFrameHeader := mkKnockHeader {
  kh_Nonce : bytes; kh_KeyHint : Z; kh_SealedLen : Z; kh_Flags : byte; kh_Reserved : byte;
}.

Definition knockFrameHeader_zero : knockFrameHeader := mkKnockHeader (zeros 16) 0 0 Byte.x00 Byte.x00.

Record knockPayload := mkKnockPayload {
  kp_FrameType : byte; kp_ClientIDHash : bytes; kp_TimestampMS : Z; kp_Method : bytes; kp_ServerPort : Z;
  kp_SessionID : bytes; kp_SequenceID : bytes; kp_SequenceIndex : Z; kp_SequenceTotal : Z;
  kp_ClientRandom : bytes; kp_Extensions : list TLV;
}.

(** * Header and payload *)

Definition mapProtocolFrameError (err : error) : error :=
  if errors_Is err protocol_ErrFrameTooLarge then auth_ErrFrameTooLarge
  else if errors_Is err protocol_ErrInvalidFrame then auth_ErrInvalidFrame
  else err.

(** A call whose error goes through [mapProtocolFrameError]. *)
Definition map_frame_error {A} (r : res A) : res A :=
  match r with Ok a => Ok a | Err e => Err (mapProtocolFrameError e) end.

(** The new contents of [dst]. *)
Definition encodeKnockHeader (dst : bytes) (h : knockFrameHeader) : bytes :=
  if Z.ltb (len dst) KnockFrameHeaderSize then dst
  else go_copy (slice 0 16 dst) (kh_Nonce h) ++ be_put 8 (kh_KeyHint h) ++ be_put 2 (kh_SealedLen h)
         ++ [kh_Flags h] ++ [kh_Reserved h] ++ drop 28 dst.

Definition decodeKnockHeader (src : bytes) : knockFrameHeader :=
  if Z.ltb (len src) KnockFrameHeaderSize then knockFrameHeader_zero
  else mkKnockHeader (slice 0 16 src) (be_get (slice 16 24 src)) (be_get (slice 24 26 src))
         (nth 26 src Byte.x00) (nth 27 src Byte.x00).

Definition encodeKnockPayload (p : knockPayload) : res bytes :=
  if bool_decide (kp_Method p = []) || Z.ltb 255 (len (kp_Method p)) || Z.ltb 255 (len (kp_SessionID p))
     || Z.ltb 255 (len (kp_SequenceID p)) || Z.ltb 255 (len (kp_ClientRandom p))
  then Err auth_ErrInvalidFrame
  else if Z.ltb (kp_ServerPort p) 1 || Z.ltb 65535 (kp_ServerPort p) then Err auth_ErrInvalidFrame
  else
    ext ← map_frame_error (protocol_EncodeTLVs (kp_Extensions p));
    if Z.ltb 65535 (len ext) then Err auth_ErrFrameTooLarge
    else Ok ([kp_FrameType p] ++ kp_ClientIDHash p ++ be_put 8 (uint64 (kp_TimestampMS p))
          ++ [byte_of (len (kp_Method p))] ++ kp_Method p ++ be_put 2 (uint16 (kp_ServerPort p))
          ++ [byte_of (len (kp_SessionID p))] ++ kp_SessionID p
          ++ [byte_of (len (kp_SequenceID p))] ++ kp_SequenceID p
          ++ [byte_of (kp_SequenceIndex p)] ++ [byte_of (kp_SequenceTotal p)]
          ++ [byte_of (len (kp_ClientRandom p))] ++ kp_ClientRandom p
          ++ be_put 2 (uint16 (len ext)) ++ ext).

Definition readByteLen (r : BinaryReader) : res (bytes * BinaryReader) :=
  '(n, r) ← ReadByte r;
  ReadVarBytes (byte_val n) true r.

Definition readSequenceIndexes (r : BinaryReader) : res (Z * Z * BinaryReader) :=
  '(index, r) ← ReadByte r;
  '(total, r) ← ReadByte r;
  Ok (byte_val index, byte_val total, r).

Definition decodeKnockPayload (raw : bytes) : res knockPayload :=
  let r := NewReader raw auth_ErrInvalidFrame in
  '(frameType, r) ← ReadByte r;
  '(id, r) ← ReadFixed 16 r;
  '(ts, r) ← ReadUint64 r;
  '(methodLen, r) ← (match ReadByte r with Ok x => Ok x | Err _ => Err auth_ErrInvalidFrame end);
  if Z.eqb (byte_val methodLen) 0 then Err auth_ErrInvalidFrame
  else
    '(method, r) ← ReadVarBytes (byte_val methodLen) false r;
    '(port, r) ← ReadUint16 r;
    '(session, r) ← readByteLen r;
    '(sequence, r) ← readByteLen r;
    '(index, total, r) ← readSequenceIndexes r;
    '(random, r) ← readByteLen r;
    '(extLen, r) ← ReadUint16 r;
    if negb (Z.eqb extLen (Remaining r)) then Err auth_ErrInvalidFrame
    else
      '(ext, r) ← ReadFixed extLen r;
      tlvs ← map_frame_error (protocol_DecodeTLVs ext);
      if Z.ltb 0 (len session) && Z.ltb (len session) KnockSessionIDMinBytes then Err auth_ErrInvalidFrame
      else Ok (mkKnockPayload frameType (go_copy (zeros 16) id) (int64 ts) method port session sequence index total
                 random tlvs).

(** * Keys and hints *)

Definition ComputeKnockKeyHint (secret nonce : bytes) (serverPort : Z) : Z :=
  if Z.ltb serverPort 1 || Z.ltb 65535 serverPort then 0
  else HMACTrunc64 secret ((str "libknock udp-knock hint v1" ++ nonce) ++ be_put 2 (uint16 serverPort)).

Definition ComputeKnockClientIDHash (secret clientID : bytes) : bytes :=
  HMACTrunc128 secret (str "libknock client-id v1" ++ clientID).

Definition deriveKnockAEADKey (secret nonce : bytes) : bytes :=
  MustHKDFSHA256 secret nonce (str "libknock udp-knock frame v1") KeySize.

Definition knockAAD (h : knockFrameHeader) (serverPort : Z) : bytes :=
  encodeKnockHeader (zeros 28) h ++ [KnockFrameVersion] ++ be_put 2 (uint16 serverPort).

Definition validateKnockFlags (flags : byte) (payload : knockPayload) : option error :=
  if flags_outside flags allowedKnockFlags then Some auth_ErrUnsupportedFlags
  else if negb (Bool.eqb (flags_set flags KnockFlagSequence) (bool_decide (kp_FrameType payload = KnockFrameTypeUDPSequence)))
  then Some auth_ErrInvalidFrame
  else if negb (Bool.eqb (flags_set flags KnockFlagSession) (Z.leb KnockSessionIDMinBytes (len (kp_SessionID payload))))
  then Some auth_ErrInvalidFrame
  else if negb (Bool.eqb (flags_set flags KnockFlagExtensions) (Z.ltb 0 (len (kp_Extensions payload))))
  then Some auth_ErrInvalidFrame
  else None.

Definition requireSessionID (sessionID : bytes) : option error :=
  if Z.ltb (len sessionID) KnockSessionIDMinBytes
  then Some (EMsg (str "session_id must be at least " ++ itoa KnockSessionIDMinBytes ++ str " bytes")) else None.

(** [a |= b] on bytes *)
Definition flag_or (a b : byte) : byte := byte_of (Z.lor (byte_val a) (byte_val b)).

(** * Building and opening frames *)

Section WithAEAD.
Context `{AEAD}.

Definition sealKnockPayload (secret : bytes) (h : knockFrameHeader) (serverPort : Z) (plain : bytes) : res bytes :=
  key ← aead_New (deriveKnockAEADKey secret (kh_Nonce h));
  Ok (aead_Seal key (take NonceSize (kh_Nonce h)) plain (knockAAD h serverPort)).

Definition openKnockPayload (secret : bytes) (h : knockFrameHeader) (serverPort : Z) (sealed : bytes) : res bytes :=
  key ← aead_New (deriveKnockAEADKey secret (kh_Nonce h));
  aead_Open key (take NonceSize (kh_Nonce h)) sealed (knockAAD h serverPort).

(** The part of the payload that the options decide, with the checks of the
    session and of the sequence. *)
Definition knock_payload_of (opts : KnockFrameOptions) : res knockPayload :=
  if Z.ltb 0 (len (ko_SessionID opts)) && Z.ltb (len (ko_SessionID opts)) KnockSessionIDMinBytes
  then Err auth_ErrInvalidFrame
  else
    let payload frameType seqID idx total :=
      mkKnockPayload frameType (ComputeKnockClientIDHash (ko_Secret opts) (ko_ClientID opts))
        (UnixMilli (ko_Timestamp opts)) (ko_Method opts) (ko_ServerPort opts) (ko_SessionID opts) seqID idx total
        (ko_ClientRandom opts) (ko_Extensions opts) in
    if Z.ltb 0 (ko_SequenceTotal opts) || Z.ltb 0 (len (ko_SequenceID opts)) then
      if negb (Z.eqb (len (ko_SequenceID opts)) KnockSequenceIDBytes) then Err auth_ErrInvalidFrame
      else if Z.ltb (ko_SequenceTotal opts) 2 || Z.ltb DefaultSequenceMaxParts (ko_SequenceTotal opts)
              || Z.ltb (ko_SequenceIndex opts) 0 || Z.leb (ko_SequenceTotal opts) (ko_SequenceIndex opts)
      then Err auth_ErrInvalidFrame
      else Ok (payload KnockFrameTypeUDPSequence (ko_SequenceID opts) (ko_SequenceIndex opts) (ko_SequenceTotal opts))
    else Ok (payload KnockFrameTypeUDP [] 0 0).

Definition with_random (p : knockPayload) (random : bytes) : knockPayload :=
  mkKnockPayload (kp_FrameType p) (kp_ClientIDHash p) (kp_TimestampMS p) (kp_Method p) (kp_ServerPort p)
    (kp_SessionID p) (kp_SequenceID p) (kp_SequenceIndex p) (kp_SequenceTotal p) random (kp_Extensions p).

Definition knock_flags_of (p : knockPayload) : byte :=
  let f := Byte.x00 in
  let f := if bool_decide (kp_FrameType p = KnockFrameTypeUDPSequence) then flag_or f KnockFlagSequence else f in
  let f := if Z.ltb 0 (len (kp_SessionID p)) then flag_or f KnockFlagSession else f in
  if Z.ltb 0 (len (kp_Extensions p)) then flag_or f KnockFlagExtensions else f.

(** The options with their defaults. *)
Definition knock_defaults (opts : KnockFrameOptions) (now : Z) : KnockFrameOptions :=
  mkKnockFrameOptions (ko_ClientID opts) (ko_Secret opts)
    (if bool_decide (ko_Method opts = []) then UDPMethod else ko_Method opts)
    (ko_ServerPort opts) (ko_SessionID opts) (ko_SequenceID opts) (ko_SequenceIndex opts) (ko_SequenceTotal opts)
    (ko_ClientRandom opts) (ko_Extensions opts) (ko_Nonce opts) (ko_KeyHint opts)
    (if IsZero (ko_Timestamp opts) then now else ko_Timestamp opts)
    (if Z.leb (ko_MaxFrameSize opts) 0 then DefaultMaxKnockFrameSize else ko_MaxFrameSize opts).

(** [BuildKnockFrame] at the time [now], with the random source as an explicit
    argument and result. *)
Definition BuildKnockFrame (opts : KnockFrameOptions) (now : Z) (r : rng) : res (bytes * rng) :=
  let opts := knock_defaults opts now in
  match ValidateClientSecret (mkClientSecret (ko_ClientID opts) (ko_Secret opts)) with
  | Some err => Err err
  | None =>
      match validateProtectedPort (ko_ServerPort opts) with
      | Some err => Err err
      | None =>
          payload ← knock_payload_of opts;
          '(random, r) ← (if Z.eqb (len (ko_ClientRandom opts)) 0 then rand_Read KnockClientRandomBytes r
                          else Ok (ko_ClientRandom opts, r));
          let payload := with_random payload random in
          plain ← encodeKnockPayload payload;
          '(nonce, r) ← (if Z.ltb 0 (len (ko_Nonce opts)) then
                           if negb (Z.eqb (len (ko_Nonce opts)) KnockNonceBytes) then Err auth_ErrInvalidFrame
                           else Ok (go_copy (zeros 16) (ko_Nonce opts), r)
                         else rand_Read 16 r);
          let keyHint := if negb (Z.eqb (ko_KeyHint opts) 0) then ko_KeyHint opts
                         else ComputeKnockKeyHint (ko_Secret opts) nonce (ko_ServerPort opts) in
          let flags := knock_flags_of payload in
          let sealedLen := len plain + Overhead in
          if Z.ltb 65535 sealedLen || Z.ltb (ko_MaxFrameSize opts) (KnockFrameHeaderSize + sealedLen)
          then Err auth_ErrFrameTooLarge
          else
            let h := mkKnockHeader nonce keyHint (uint16 sealedLen) flags Byte.x00 in
            sealed ← sealKnockPayload (ko_Secret opts) h (ko_ServerPort opts) plain;
            let out := zeros (28 + length sealed) in
            Ok (encodeKnockHeader (take 28 out) h ++ go_copy (drop 28 out) sealed, r)
      end
  end.

Context {C : Type} `{ReplayCache C}.

(** What the loop over the clients does with one client that has the key hint
    of the frame: go on with the next client, or return. *)
Inductive verdict := Continue | Return (r : res KnockInfo * option C).

Definition try_client (client : ClientSecret) (h : knockFrameHeader) (sealed : bytes) (cfg : ServerConfig) (now : Z)
    (rc : option C) : verdict :=
  match openKnockPayload (cs_Secret client) h (sc_ServerPort cfg) sealed with
  | Err _ => Continue
  | Ok plain =>
      match decodeKnockPayload plain with
      | Err err => Return (Err err, rc)
      | Ok payload =>
          let wantHash := ComputeKnockClientIDHash (cs_Secret client) (cs_ClientID client) in
          if negb (ConstantTimeEqual (kp_ClientIDHash payload) wantHash) then Continue
          else if negb (Z.eqb (kp_ServerPort payload) (sc_ServerPort cfg)) then Return (Err auth_ErrAuthFailed, rc)
          else
            match validateKnockFlags (kh_Flags h) payload with
            | Some err => Return (Err err, rc)
            | None =>
                if negb (bool_decide (sc_Method cfg = [])) && negb (bool_decide (kp_Method payload = sc_Method cfg))
                then Return (Err auth_ErrAuthFailed, rc)
                else
                  let sequence := bool_decide (kp_FrameType payload = KnockFrameTypeUDPSequence) in
                  if sequence && negb (sc_AllowSequence cfg) then Return (Err auth_ErrInvalidFrame, rc)
                  else if sequence && (negb (Z.eqb (len (kp_SequenceID payload)) KnockSequenceIDBytes)
                            || Z.ltb (kp_SequenceTotal payload) 2 || Z.ltb DefaultSequenceMaxParts (kp_SequenceTotal payload)
                            || Z.ltb (kp_SequenceIndex payload) 0 || Z.leb (kp_SequenceTotal payload) (kp_SequenceIndex payload))
                  then Return (Err auth_ErrInvalidFrame, rc)
                  else if negb sequence && negb (bool_decide (kp_FrameType payload = KnockFrameTypeUDP))
                  then Return (Err auth_ErrInvalidFrame, rc)
                  else
                    let ts := time_UnixMilli (kp_TimestampMS payload) in
                    let age := Sub now ts in
                    if Z.ltb age (- sc_TimeWindow cfg) || Z.ltb (sc_TimeWindow cfg) age then Return (Err auth_ErrTimeSkew, rc)
                    else
                      let '(err, rc) := match rc with
                        | Some c => let '(err, c) := check_and_mark (cs_ClientID client) (kh_Nonce h) now c in (err, Some c)
                        | None => (None, None)
                        end in
                      match err with
                      | Some err => Return (Err err, rc)
                      | None =>
                          Return (Ok (mkKnockInfo (cs_ClientID client) (kp_ClientIDHash payload) (kp_Method payload)
                            (kp_ServerPort payload) ts (kp_SessionID payload) (kp_SequenceID payload)
                            (kp_SequenceIndex payload) (kp_SequenceTotal payload) (kp_ClientRandom payload)
                            (kp_Extensions payload) (kh_Nonce h) (kh_KeyHint h) (kp_FrameType payload) (kh_Flags h)), rc)
                      end
            end
      end
  end.

Fixpoint try_clients (clients : list ClientSecret) (sawHint : bool) (h : knockFrameHeader) (sealed : bytes)
    (cfg : ServerConfig) (now : Z) (rc : option C) : res KnockInfo * option C :=
  match clients with
  | [] => (Err (if sawHint then auth_ErrAuthFailed else auth_ErrUnknownClient), rc)
  | client :: clients =>
      if ValidateClientSecret client is Some _ then try_clients clients sawHint h sealed cfg now rc
      else if negb (Z.eqb (ComputeKnockKeyHint (cs_Secret client) (kh_Nonce h) (sc_ServerPort cfg)) (kh_KeyHint h))
      then try_clients clients sawHint h sealed cfg now rc
      else
        match try_client client h sealed cfg now rc with
        | Continue => try_clients clients true h sealed cfg now rc
        | Return r => r
        end
  end.

Definition server_defaults (cfg : ServerConfig) : ServerConfig :=
  mkServerConfig (sc_Clients cfg) (sc_ServerPort cfg) (sc_Method cfg)
    (if Z.leb (sc_TimeWindow cfg) 0 then 30 * Second else sc_TimeWindow cfg)
    (if Z.leb (sc_MaxFrameSize cfg) 0 then DefaultMaxKnockFrameSize else sc_MaxFrameSize cfg) (sc_AllowSequence cfg).

(** [openKnockFrame] at the time [now]. *)
Definition openKnockFrame (packet : bytes) (cfg : ServerConfig) (now : Z) (rc : option C) : res KnockInfo * option C :=
  let cfg := server_defaults cfg in
  match validateProtectedPort (sc_ServerPort cfg) with
  | Some err => (Err err, rc)
  | None =>
      if Z.ltb (len packet) KnockFrameHeaderSize then (Err auth_ErrInvalidFrame, rc)
      else if Z.ltb (sc_MaxFrameSize cfg) (len packet) then (Err auth_ErrFrameTooLarge, rc)
      else
        let h := decodeKnockHeader (take 28 packet) in
        if negb (bool_decide (kh_Reserved h = Byte.x00)) then (Err auth_ErrInvalidFrame, rc)
        else if flags_outside (kh_Flags h) allowedKnockFlags then (Err auth_ErrUnsupportedFlags, rc)
        else if Z.eqb (kh_SealedLen h) 0 then (Err auth_ErrInvalidFrame, rc)
        else if negb (Z.eqb (KnockFrameHeaderSize + kh_SealedLen h) (len packet)) then
          if Z.ltb (sc_MaxFrameSize cfg) (KnockFrameHeaderSize + kh_SealedLen h) then (Err auth_ErrFrameTooLarge, rc)
          else (Err auth_ErrInvalidFrame, rc)
        else try_clients (sc_Clients cfg) false h (drop 28 packet) cfg now rc
  end.

Definition OpenKnockFrame (packet : bytes) (cfg : ServerConfig) (now : Z) (rc : option C) : res KnockInfo * option C :=
  match rc with
  | None => (Err auth_ErrMissingReplayCache, None)
  | Some _ => openKnockFrame packet cfg now rc
  end.

(** [ParseKnockFrameUnsafe] runs with the cache of its configuration, if any. *)
Definition ParseKnockFrameUnsafe (packet : bytes) (cfg : ServerConfig) (now : Z) (rc : option C) : res KnockInfo * option C :=
  openKnockFrame packet cfg now rc.

End WithAEAD.
Arguments verdict : clear implicits.

(** * Wire forms *)

Definition knock_header_bytes (h : knockFrameHeader) : bytes :=
  kh_Nonce h ++ be_put 8 (kh_KeyHint h) ++ be_put 2 (kh_SealedLen h) ++ [kh_Flags h; kh_Reserved h].

#[global] Arguments knock_header_bytes : simpl never.

Definition knock_header_wf (h : knockFrameHeader) : Prop :=
  length (kh_Nonce h) = 16%nat /\ is_uint64 (kh_KeyHint h) /\ is_uint16 (kh_SealedLen h).

Lemma length_knock_header_bytes h : length (kh_Nonce h) = 16%nat -> length (knock_header_bytes h) = 28%nat.
Proof. intros Hn. unfold knock_header_bytes. rewrite !length_app, !length_be_put, Hn. done. Qed.

Lemma encodeKnockHeader_zeros h : length (kh_Nonce h) = 16%nat -> encodeKnockHeader (zeros 28) h = knock_header_bytes h.
Proof.
  intros Hn. unfold encodeKnockHeader, knock_header_bytes. change (Z.ltb (len (zeros 28)) KnockFrameHeaderSize) with false.
  cbn [negb]. rewrite go_copy_exact by by rewrite Hn. done.
Qed.

Lemma decodeKnockHeader_bytes h : knock_header_wf h -> decodeKnockHeader (knock_header_bytes h) = h.
Proof.
  intros (Hn & Hk & Hs). unfold decodeKnockHeader, len. rewrite length_knock_header_bytes by done.
  change (Z.ltb (Z.of_nat 28) KnockFrameHeaderSize) with false. cbn [negb].
  destruct h as [nonce kh sl fl rs]; simpl in *. unfold knock_header_bytes; simpl. f_equal.
  - by apply (slice_mid []).
  - rewrite (slice_mid nonce); [|done|by rewrite length_be_put]. rewrite be_get_put. by apply Z.mod_small.
  - rewrite (app_assoc nonce). rewrite slice_mid; [|rewrite length_app, length_be_put; lia|by rewrite length_be_put].
    rewrite be_get_put. by apply Z.mod_small.
  - rewrite !app_assoc, app_nth2; rewrite !length_app, !length_be_put, Hn; [done|lia].
  - rewrite !app_assoc, app_nth2; rewrite !length_app, !length_be_put, Hn; [done|lia].
Qed.

Lemma knock_header_bytes_decode (raw : bytes) :
  length raw = 28%nat -> knock_header_bytes (decodeKnockHeader raw) = raw /\ knock_header_wf (decodeKnockHeader raw).
Proof.
  intros Hl. destruct (split_at raw 16) as (nonce & y & -> & Hn); [lia|]. rewrite length_app in Hl.
  destruct (split_at y 8) as (k & z & -> & Hk); [lia|]. rewrite length_app in Hl.
  destruct (split_at z 2) as (s & fr & -> & Hs); [lia|]. rewrite length_app in Hl.
  destruct fr as [|fl [|rs [|? ?]]]; simpl in Hl; try lia.
  set (h := mkKnockHeader nonce (be_get k) (be_get s) fl rs).
  assert (knock_header_wf h) as Hwf.
  { split_and!; simpl; [done| |].
    - pose proof (be_get_bound k) as B. by rewrite Hk in B.
    - pose proof (be_get_bound s) as B. by rewrite Hs in B. }
  assert (knock_header_bytes h = nonce ++ k ++ s ++ [fl; rs]) as E.
  { unfold knock_header_bytes, h. simpl. by rewrite be_get_8, be_get_2. }
  rewrite <- E, decodeKnockHeader_bytes by done. done.
Qed.

Definition knock_payload_bytes (p : knockPayload) : bytes :=
  kp_FrameType p :: kp_ClientIDHash p ++ be_put 8 (kp_TimestampMS p)
    ++ byte_of (len (kp_Method p)) :: kp_Method p ++ be_put 2 (kp_ServerPort p)
    ++ byte_of (len (kp_SessionID p)) :: kp_SessionID p
    ++ byte_of (len (kp_SequenceID p)) :: kp_SequenceID p
    ++ byte_of (kp_SequenceIndex p) :: byte_of (kp_SequenceTotal p)
    :: byte_of (len (kp_ClientRandom p)) :: kp_ClientRandom p
    ++ be_put 2 (tlvs_size (kp_Extensions p)) ++ concat (map tlv_bytes (kp_Extensions p)).

#[global] Arguments knock_payload_bytes : simpl never.

Definition knock_payload_wf (p : knockPayload) : Prop :=
  length (kp_ClientIDHash p) = 16%nat /\ is_int64 (kp_TimestampMS p) /\
  0 <= kp_SequenceIndex p <= 255 /\ 0 <= kp_SequenceTotal p <= 255 /\ Forall TLV_wf (kp_Extensions p).

(** The lengths a wire form can carry. *)
Definition knock_payload_fits (p : knockPayload) : Prop :=
  kp_Method p <> [] /\ len (kp_Method p) <= 255 /\ len (kp_SessionID p) <= 255 /\ len (kp_SequenceID p) <= 255 /\
  len (kp_ClientRandom p) <= 255 /\ tlvs_size (kp_Extensions p) <= 65535.

Definition session_length_ok (sid : bytes) : Prop := sid = [] \/ 16 <= len sid.

Lemma session_check_false (sid : bytes) :
  Z.ltb 0 (len sid) && Z.ltb (len sid) KnockSessionIDMinBytes = false <-> session_length_ok sid.
Proof.
  unfold session_length_ok, KnockSessionIDMinBytes. rewrite andb_false_iff, !Z.ltb_ge. split.
  - intros [Hs|Hs]; [left|by right]. destruct sid; [done|]. rewrite len_cons in Hs. pose proof (len_nonneg sid). lia.
  - intros [->|Hs]; [by left|by right].
Qed.

Lemma encodeKnockPayload_Ok p raw :
  encodeKnockPayload p = Ok raw <->
  1 <= kp_ServerPort p <= 65535 /\ knock_payload_fits p /\ raw = knock_payload_bytes p.
Proof.
  unfold encodeKnockPayload, knock_payload_fits, knock_payload_bytes.
  rewrite be_put_8_uint64, be_put_2_uint16. unfold protocol_EncodeTLVs. rewrite EncodeTLVs_spec.
  destruct (bool_decide_reflect (kp_Method p = [])) as [Hm|Hm]; [split; [done|by intros (_ & (? & _) & _)]|].
  destruct (Z.ltb_spec 255 (len (kp_Method p))); [split; [done|lia]|].
  destruct (Z.ltb_spec 255 (len (kp_SessionID p))); [split; [done|lia]|].
  destruct (Z.ltb_spec 255 (len (kp_SequenceID p))); [split; [done|lia]|].
  destruct (Z.ltb_spec 255 (len (kp_ClientRandom p))); [split; [done|lia]|]. cbn [orb].
  destruct (Z.ltb_spec (kp_ServerPort p) 1); [split; [done|lia]|].
  destruct (Z.ltb_spec 65535 (kp_ServerPort p)); [split; [done|lia]|]. cbn [orb].
  destruct (Z.leb_spec (tlvs_size (kp_Extensions p)) 65535); [|split; [done|lia]].
  cbn [map_frame_error]. rewrite mbind_Ok, len_tlvs_bytes, (proj2 (Z.ltb_ge _ _)), be_put_2_uint16 by lia. split.
  - intros [= <-]. split_and!; try done; lia.
  - by intros (_ & _ & ->).
Qed.

Lemma readByteLen_at pre (x y : bytes) e :
  len x <= 255 -> readByteLen (reader_at pre (byte_of (len x) :: x ++ y) e) =
  Ok (x, reader_at (pre ++ [byte_of (len x)] ++ x) y e).
Proof.
  intros Hx. unfold readByteLen. rewrite ReadByte_at. rewrite mbind_Ok. rewrite byte_val_len by done.
  rewrite ReadVarBytes_at by done. by rewrite <- app_assoc.
Qed.

Lemma decodeKnockPayload_bytes p :
  knock_payload_wf p -> knock_payload_fits p -> 0 <= kp_ServerPort p <= 65535 -> session_length_ok (kp_SessionID p) ->
  decodeKnockPayload (knock_payload_bytes p) = Ok p.
Proof.
  intros (Hh & Ht & Hi & Hn & Hx) (Hm0 & Hm & Hs & Hq & Hr & He) Hp Hsid.
  unfold decodeKnockPayload, knock_payload_bytes. rewrite NewReader_at.
  rewrite ReadByte_at, mbind_Ok. rewrite ReadFixed_at by (unfold len; by rewrite Hh). rewrite mbind_Ok.
  rewrite ReadUint64_at, mbind_Ok. rewrite ReadByte_at, mbind_Ok.
  rewrite byte_val_len by done.
  assert (Z.eqb (len (kp_Method p)) 0 = false) as ->.
  { apply Z.eqb_neq. destruct (kp_Method p); [done|]. rewrite len_cons. pose proof (len_nonneg l). lia. }
  rewrite ReadVarBytes_at by done. rewrite mbind_Ok. rewrite ReadUint16_at, mbind_Ok.
  rewrite readByteLen_at by done. rewrite mbind_Ok. rewrite readByteLen_at by done. rewrite mbind_Ok.
  unfold readSequenceIndexes. rewrite ReadByte_at, mbind_Ok, ReadByte_at, mbind_Ok, mbind_Ok.
  rewrite readByteLen_at by done. rewrite mbind_Ok. rewrite ReadUint16_at, mbind_Ok.
  pose proof (tlvs_size_nonneg (kp_Extensions p)). rewrite (uint16_id (tlvs_size _)) by (unfold is_uint16; lia).
  rewrite Remaining_at, len_tlvs_bytes, Z.eqb_refl. cbn [negb]. rewrite ReadFixed_end by by rewrite len_tlvs_bytes.
  rewrite mbind_Ok. unfold protocol_DecodeTLVs.
  rewrite (decode_encode_tlvs (kp_Extensions p) _ protocol_ErrFrameTooLarge); [|done|].
  2: { by rewrite EncodeTLVs_spec, (proj2 (Z.leb_le _ _)). }
  cbn [map_frame_error]. rewrite mbind_Ok. rewrite (proj2 (session_check_false _)) by done.
  rewrite go_copy_exact by by rewrite Hh. rewrite int64_uint64 by done.
  rewrite uint16_id by (unfold is_uint16; lia). rewrite !byte_val_of, !Z.mod_small by lia. by destruct p.
Qed.

Lemma readByteLen_inv pre suf e x r :
  readByteLen (reader_at pre suf e) = Ok (x, r) ->
  len x <= 255 /\ exists y, suf = byte_of (len x) :: x ++ y /\ r = reader_at (pre ++ [byte_of (len x)] ++ x) y e.
Proof.
  unfold readByteLen. intros Hr. read_inv. rewrite (len_byte b x B), <- app_assoc.
  split; [pose proof (byte_val_bound b); lia|by eexists].
Qed.

Lemma readSequenceIndexes_inv pre suf e i n r :
  readSequenceIndexes (reader_at pre suf e) = Ok (i, n, r) ->
  0 <= i <= 255 /\ 0 <= n <= 255 /\
  exists y, suf = byte_of i :: byte_of n :: y /\ r = reader_at (pre ++ [byte_of i] ++ [byte_of n]) y e.
Proof.
  unfold readSequenceIndexes. intros Hr. read_inv. injection Hr as <- <- <-. rewrite !byte_of_val, <- app_assoc.
  pose proof (byte_val_bound b). pose proof (byte_val_bound b1). split_and!; try lia. by eexists.
Qed.

Lemma decodeKnockPayload_inv raw p :
  decodeKnockPayload raw = Ok p ->
  knock_payload_wf p /\ knock_payload_fits p /\ 0 <= kp_ServerPort p <= 65535 /\ session_length_ok (kp_SessionID p) /\
  raw = knock_payload_bytes p.
Proof.
  unfold decodeKnockPayload. rewrite NewReader_at. intros Hd.
  apply res_bind_Ok in Hd as ([ft r1] & E1 & Hd). apply ReadByte_inv in E1 as (s1 & -> & ->).
  apply res_bind_Ok in Hd as ([hash r2] & E2 & Hd). apply ReadFixed_inv in E2 as (s2 & -> & Bh & ->).
  apply res_bind_Ok in Hd as ([ts r3] & E3 & Hd). apply ReadUint64_inv in E3 as (Bt & s3 & -> & ->).
  apply res_bind_Ok in Hd as ([ml r4] & E4 & Hd).
  destruct (ReadByte _) as [[ml' r4']|] eqn:E4'; [|done]. injection E4 as -> ->.
  apply ReadByte_inv in E4' as (s4 & -> & ->). destruct (Z.eqb_spec (byte_val ml) 0) as [|Hml]; [done|].
  apply res_bind_Ok in Hd as ([method r5] & E5 & Hd). apply ReadVarBytes_inv in E5 as (s5 & -> & Bm & ->).
  apply res_bind_Ok in Hd as ([port r6] & E6 & Hd). apply ReadUint16_inv in E6 as (Bp & s6 & -> & ->).
  apply res_bind_Ok in Hd as ([session r7] & E7 & Hd). apply readByteLen_inv in E7 as (Bs & s7 & -> & ->).
  apply res_bind_Ok in Hd as ([sequence r8] & E8 & Hd). apply readByteLen_inv in E8 as (Bq & s8 & -> & ->).
  apply res_bind_Ok in Hd as ([[index total] r9] & E9 & Hd). apply readSequenceIndexes_inv in E9 as (Bi & Bn & s9 & -> & ->).
  apply res_bind_Ok in Hd as ([random r10] & E10 & Hd). apply readByteLen_inv in E10 as (Br & s10 & -> & ->).
  apply res_bind_Ok in Hd as ([extLen r11] & E11 & Hd). apply ReadUint16_inv in E11 as (Be & s11 & -> & ->).
  rewrite Remaining_at in Hd. destruct (Z.eqb_spec extLen (len s11)) as [Hext|]; [|done]. cbn [negb] in Hd.
  apply res_bind_Ok in Hd as ([ext r12] & E12 & Hd). apply ReadFixed_inv in E12 as (s12 & -> & Bx & ->).
  rewrite len_app in Hext.
  assert (s12 = []) as -> by (destruct s12; [done|]; rewrite len_cons in Hext; pose proof (len_nonneg s12); lia).
  apply res_bind_Ok in Hd as (tlvs & E13 & Hd).
  destruct (protocol_DecodeTLVs ext) as [tlvs'|] eqn:Ed; [|done]. injection E13 as ->.
  destruct (encode_decode_tlvs ext tlvs protocol_ErrFrameTooLarge _ Ed) as (Hwf & -> & _). rewrite len_tlvs_bytes in Bx.
  destruct (Z.ltb 0 _ && _) eqn:Hs; [done|]. apply session_check_false in Hs. injection Hd as <-. unfold is_uint16 in *.
  pose proof (byte_val_bound ml).
  assert (go_copy (zeros 16) hash = hash) as -> by (apply go_copy_exact; unfold len in Bh; simpl; lia).
  split; [split_and!; simpl; try done; try apply int64_range; unfold len in Bh; lia|].
  split; [split_and!; simpl; try done; try lia; by intros ->|].
  split; [simpl; lia|]. split; [done|].
  unfold knock_payload_bytes. simpl. rewrite (len_byte ml method Bm), app_nil_r, <- Bx.
  by rewrite <- (be_put_8_uint64 (int64 ts)), uint64_int64 by done.
Qed.

(** * What an accepted frame is *)

(** Past a guard whose branch cannot be the result at hand. *)
Ltac pass_guard E := match goal with |- (if ?c then _ else _) = _ -> _ => destruct c eqn:E; [done|] end.

Definition info_of (client : ClientSecret) (h : knockFrameHeader) (p : knockPayload) : KnockInfo :=
  mkKnockInfo (cs_ClientID client) (kp_ClientIDHash p) (kp_Method p) (kp_ServerPort p) (time_UnixMilli (kp_TimestampMS p))
    (kp_SessionID p) (kp_SequenceID p) (kp_SequenceIndex p) (kp_SequenceTotal p) (kp_ClientRandom p) (kp_Extensions p)
    (kh_Nonce h) (kh_KeyHint h) (kp_FrameType p) (kh_Flags h).

(** The frame types a server takes. *)
Definition type_allowed (cfg : ServerConfig) (p : knockPayload) : Prop :=
  kp_FrameType p = KnockFrameTypeUDP \/
  kp_FrameType p = KnockFrameTypeUDPSequence /\ sc_AllowSequence cfg = true /\ len (kp_SequenceID p) = 16 /\
  2 <= kp_SequenceTotal p <= 8 /\ 0 <= kp_SequenceIndex p < kp_SequenceTotal p.

(** What the server checks of a payload it has opened for a client. *)
Record payload_ok (cfg : ServerConfig) (now : Z) (client : ClientSecret) (h : knockFrameHeader) (p : knockPayload) : Prop := {
  po_hash : kp_ClientIDHash p = ComputeKnockClientIDHash (cs_Secret client) (cs_ClientID client);
  po_port : kp_ServerPort p = sc_ServerPort cfg;
  po_flags : validateKnockFlags (kh_Flags h) p = None;
  po_method : sc_Method cfg = [] \/ kp_Method p = sc_Method cfg;
  po_type : type_allowed cfg p;
  po_time : - sc_TimeWindow cfg <= Sub now (time_UnixMilli (kp_TimestampMS p)) <= sc_TimeWindow cfg;
}.

(** The frame of a client: its header announces the sealed bytes and the hint
    of the client's secret, and the sealed bytes hold the payload. *)
Record frame_of `{AEAD} (port : Z) (client : ClientSecret) (h : knockFrameHeader) (p : knockPayload) (packet : bytes) : Prop := {
  fo_header : knock_header_wf h;
  fo_payload : knock_payload_wf p;
  fo_reserved : kh_Reserved h = Byte.x00;
  fo_hint : kh_KeyHint h = ComputeKnockKeyHint (cs_Secret client) (kh_Nonce h) port;
  fo_packet : exists sealed, sealKnockPayload (cs_Secret client) h port (knock_payload_bytes p) = Ok sealed /\
    kh_SealedLen h = len sealed /\ packet = knock_header_bytes h ++ sealed;
}.

Lemma type_check_spec cfg p :
  bool_decide (kp_FrameType p = KnockFrameTypeUDPSequence) && negb (sc_AllowSequence cfg) = false ->
  bool_decide (kp_FrameType p = KnockFrameTypeUDPSequence) && (negb (Z.eqb (len (kp_SequenceID p)) KnockSequenceIDBytes)
    || Z.ltb (kp_SequenceTotal p) 2 || Z.ltb DefaultSequenceMaxParts (kp_SequenceTotal p)
    || Z.ltb (kp_SequenceIndex p) 0 || Z.leb (kp_SequenceTotal p) (kp_SequenceIndex p)) = false ->
  negb (bool_decide (kp_FrameType p = KnockFrameTypeUDPSequence)) && negb (bool_decide (kp_FrameType p = KnockFrameTypeUDP)) = false ->
  type_allowed cfg p.
Proof.
  unfold type_allowed, KnockSequenceIDBytes, DefaultSequenceMaxParts. case_bool_decide as Hs; cbn [andb negb].
  - intros Ha%negb_false_iff Hq _. right. rewrite !orb_false_iff, negb_false_iff in Hq. split_and!; try done; lia.
  - intros _ _ Hu%negb_false_iff. left. by apply bool_decide_eq_true in Hu.
Qed.

Lemma type_allowed_checks cfg p :
  type_allowed cfg p ->
  bool_decide (kp_FrameType p = KnockFrameTypeUDPSequence) && negb (sc_AllowSequence cfg) = false /\
  bool_decide (kp_FrameType p = KnockFrameTypeUDPSequence) && (negb (Z.eqb (len (kp_SequenceID p)) KnockSequenceIDBytes)
    || Z.ltb (kp_SequenceTotal p) 2 || Z.ltb DefaultSequenceMaxParts (kp_SequenceTotal p)
    || Z.ltb (kp_SequenceIndex p) 0 || Z.leb (kp_SequenceTotal p) (kp_SequenceIndex p)) = false /\
  negb (bool_decide (kp_FrameType p = KnockFrameTypeUDPSequence)) && negb (bool_decide (kp_FrameType p = KnockFrameTypeUDP)) = false.
Proof.
  unfold KnockSequenceIDBytes, DefaultSequenceMaxParts. intros [->|(-> & -> & Hl & Ht & Hi)]; [done|].
  rewrite (bool_decide_eq_true_2 (KnockFrameTypeUDPSequence = _)) by done. cbn [andb negb]. split_and!; try done.
  rewrite Hl, (proj2 (Z.ltb_ge (kp_SequenceTotal p) 2)), (proj2 (Z.ltb_ge 8 (kp_SequenceTotal p))),
    (proj2 (Z.ltb_ge (kp_SequenceIndex p) 0)), (proj2 (Z.leb_gt _ _)) by lia. done.
Qed.

Section Accept.
Context `{LA : AEADLaws} {C : Type} `{ReplayCache C}.
Implicit Types rc : option C.

Lemma deriveKnockAEADKey_length secret nonce : length (deriveKnockAEADKey secret nonce) = KeySize.
Proof. apply MustHKDFSHA256_length. unfold KeySize. lia. Qed.

Lemma sealKnockPayload_eq secret h port plain :
  sealKnockPayload secret h port plain =
  Ok (aead_seal (deriveKnockAEADKey secret (kh_Nonce h)) (take NonceSize (kh_Nonce h)) plain (knockAAD h port)).
Proof. unfold sealKnockPayload. by rewrite aead_New_Ok by apply deriveKnockAEADKey_length. Qed.

Lemma openKnockPayload_Ok secret h port sealed plain :
  openKnockPayload secret h port sealed = Ok plain <-> sealKnockPayload secret h port plain = Ok sealed.
Proof.
  rewrite sealKnockPayload_eq. unfold openKnockPayload. rewrite aead_New_Ok by apply deriveKnockAEADKey_length.
  rewrite mbind_Ok. unfold aead_Open. split.
  - destruct (aead_open _ _ _ _) eqn:E; [|done]. intros [= ->]. by apply open_sound in E as ->.
  - intros [= <-]. by rewrite open_seal.
Qed.

(** The replay check of an accepted frame. *)
Definition marked (clientID nonce : bytes) (now : Z) rc : option error * option C :=
  match rc with
  | Some c => let '(err, c) := check_and_mark clientID nonce now c in (err, Some c)
  | None => (None, None)
  end.

(** A payload that passes the checks is accepted, unless the nonce was used. *)
Lemma try_client_ok client h p sealed cfg now rc :
  sealKnockPayload (cs_Secret client) h (sc_ServerPort cfg) (knock_payload_bytes p) = Ok sealed ->
  decodeKnockPayload (knock_payload_bytes p) = Ok p -> payload_ok cfg now client h p ->
  try_client client h sealed cfg now rc =
  Return (let '(err, rc') := marked (cs_ClientID client) (kh_Nonce h) now rc in
          (match err with Some e => Err e | None => Ok (info_of client h p) end, rc')).
Proof.
  intros Hseal Hd [Hh Hp Hf Hm Ht Hw]. unfold try_client. rewrite (proj2 (openKnockPayload_Ok _ _ _ _ _) Hseal), Hd. cbv zeta.
  rewrite Hh, ConstantTimeEqual_refl, Hp, Z.eqb_refl, Hf. cbn [negb].
  assert (negb (bool_decide (sc_Method cfg = [])) && negb (bool_decide (kp_Method p = sc_Method cfg)) = false) as ->.
  { destruct Hm as [-> | ->]; [done|]. rewrite (bool_decide_eq_true_2 (sc_Method cfg = sc_Method cfg)) by done. apply andb_false_r. }
  destruct (type_allowed_checks cfg p Ht) as (-> & -> & ->).
  rewrite (proj2 (Z.ltb_ge _ (- sc_TimeWindow cfg))), (proj2 (Z.ltb_ge (sc_TimeWindow cfg) _)) by lia. cbn [orb].
  fold (marked (cs_ClientID client) (kh_Nonce h) now rc). destruct (marked _ _ _ _) as [[e|] rc']; [done|].
  unfold info_of. by rewrite Hh, Hp.
Qed.

(** Only such payloads are accepted. *)
Lemma try_client_inv client h sealed cfg now rc info rc' :
  try_client client h sealed cfg now rc = Return (Ok info, rc') ->
  exists p, sealKnockPayload (cs_Secret client) h (sc_ServerPort cfg) (knock_payload_bytes p) = Ok sealed /\
    decodeKnockPayload (knock_payload_bytes p) = Ok p /\ payload_ok cfg now client h p /\ info = info_of client h p /\
    marked (cs_ClientID client) (kh_Nonce h) now rc = (None, rc').
Proof.
  unfold try_client. destruct (openKnockPayload _ _ _ _) as [plain|] eqn:Eo; [|done].
  destruct (decodeKnockPayload plain) as [p|] eqn:Ed; [|done]. pose proof Ed as (_ & _ & _ & _ & ->)%decodeKnockPayload_inv.
  apply openKnockPayload_Ok in Eo. cbv zeta.
  destruct (ConstantTimeEqual _ _) eqn:Eh; [|done]. apply ConstantTimeEqual_spec in Eh. cbn [negb].
  destruct (Z.eqb_spec (kp_ServerPort p) (sc_ServerPort cfg)) as [Ep|]; [|done]. cbn [negb].
  destruct (validateKnockFlags (kh_Flags h) p) eqn:Ef; [done|].
  pass_guard Em. pass_guard E1. pass_guard E2. pass_guard E3. pass_guard Ew. apply orb_false_iff in Ew as [?%Z.ltb_ge ?%Z.ltb_ge].
  fold (marked (cs_ClientID client) (kh_Nonce h) now rc). destruct (marked _ _ _ _) as [[e|] rc1]; [done|]. intros [= <- <-].
  exists p. split_and!; try done. split; try done; [|by apply type_check_spec].
  apply andb_false_iff in Em as [Em|Em]; apply negb_false_iff, bool_decide_eq_true in Em; [by left|by right].
Qed.

Lemma try_clients_inv clients : forall saw h sealed cfg now rc info rc',
  try_clients clients saw h sealed cfg now rc = (Ok info, rc') ->
  exists client, client ∈ clients /\ ValidateClientSecret client = None /\
    kh_KeyHint h = ComputeKnockKeyHint (cs_Secret client) (kh_Nonce h) (sc_ServerPort cfg) /\
    try_client client h sealed cfg now rc = Return (Ok info, rc').
Proof.
  induction clients as [|c clients IH]; intros saw h sealed cfg now rc info rc'; cbn [try_clients]; [done|].
  assert (forall saw', try_clients clients saw' h sealed cfg now rc = (Ok info, rc') -> exists client, client ∈ c :: clients /\
    ValidateClientSecret client = None /\ kh_KeyHint h = ComputeKnockKeyHint (cs_Secret client) (kh_Nonce h) (sc_ServerPort cfg) /\
    try_client client h sealed cfg now rc = Return (Ok info, rc')) as Hrest.
  { intros saw' (c' & Hin & ?)%IH. exists c'. split; [by right|done]. }
  destruct (ValidateClientSecret c) eqn:Ev; [apply Hrest|].
  destruct (Z.eqb_spec (ComputeKnockKeyHint (cs_Secret c) (kh_Nonce h) (sc_ServerPort cfg)) (kh_KeyHint h)); cbn [negb]; [|apply Hrest].
  destruct (try_client c h sealed cfg now rc) eqn:Et; [apply Hrest|]. intros ->. exists c. split; [by left|done].
Qed.

Lemma openKnockFrame_inv packet cfg now rc info rc' :
  openKnockFrame packet cfg now rc = (Ok info, rc') ->
  let d := server_defaults cfg in
  exists client h p, client ∈ sc_Clients cfg /\ ValidateClientSecret client = None /\
    frame_of (sc_ServerPort cfg) client h p packet /\ payload_ok d now client h p /\
    len packet <= sc_MaxFrameSize d /\ 1 <= sc_ServerPort cfg <= 65535 /\
    info = info_of client h p /\ marked (cs_ClientID client) (kh_Nonce h) now rc = (None, rc').
Proof.
  unfold openKnockFrame. set (d := server_defaults cfg). change (sc_ServerPort d) with (sc_ServerPort cfg).
  unfold validateProtectedPort. destruct (Z.ltb (sc_ServerPort cfg) 1 || _) eqn:Ep; [done|].
  apply orb_false_iff in Ep as [?%Z.ltb_ge ?%Z.ltb_ge]. destruct (Z.ltb_spec (len packet) KnockFrameHeaderSize) as [|Hlen]; [done|].
  destruct (Z.ltb_spec (sc_MaxFrameSize d) (len packet)); [done|]. unfold KnockFrameHeaderSize in *.
  destruct (split_at packet 28) as (hd & sealed & -> & Hhd); [unfold len in Hlen; lia|].
  rewrite take_app_length', drop_app_length' by done.
  destruct (knock_header_bytes_decode hd Hhd) as [Eh Hwf]. set (h := decodeKnockHeader hd) in *.
  destruct (bool_decide_reflect (kh_Reserved h = Byte.x00)) as [Hr|]; [|done]. cbn [negb].
  destruct (flags_outside _ _); [done|]. destruct (Z.eqb_spec (kh_SealedLen h) 0); [done|].
  destruct (Z.eqb_spec (16 + 8 + 2 + 1 + 1 + kh_SealedLen h) (len (hd ++ sealed))) as [Hs|]; [|by destruct (Z.ltb _ _)]. cbn [negb].
  rewrite len_app in Hs. unfold len in Hs at 1. rewrite Hhd in Hs.
  intros (client & Hin & Hv & Hk & Ht)%try_clients_inv.
  apply try_client_inv in Ht as (p & Hseal & Hdec & Hok & -> & Hm). apply decodeKnockPayload_inv in Hdec as (Hpw & _).
  exists client, h, p. split_and!; try done. split; try done.
  exists sealed. rewrite Eh. split_and!; try done. lia.
Qed.

End Accept.

(** * What [BuildKnockFrame] makes *)

Lemma knock_flags_valid p : session_length_ok (kp_SessionID p) ->
  flags_outside (knock_flags_of p) allowedKnockFlags = false /\ validateKnockFlags (knock_flags_of p) p = None.
Proof.
  intros Hs. unfold validateKnockFlags, knock_flags_of.
  assert (Z.leb KnockSessionIDMinBytes (len (kp_SessionID p)) = Z.ltb 0 (len (kp_SessionID p))) as ->.
  { unfold KnockSessionIDMinBytes. destruct Hs as [->|Hs]; [done|]. by rewrite (proj2 (Z.leb_le _ _)), (proj2 (Z.ltb_lt _ _)) by lia. }
  destruct (bool_decide (kp_FrameType p = _)), (Z.ltb 0 (len (kp_SessionID p))), (Z.ltb 0 (len (kp_Extensions p)));
    split; vm_compute; reflexivity.
Qed.

(** The payload that goes with the options. *)
Definition sequenced (opts : KnockFrameOptions) : bool :=
  Z.ltb 0 (ko_SequenceTotal opts) || Z.ltb 0 (len (ko_SequenceID opts)).

Definition payload_of_opts (opts : KnockFrameOptions) (random : bytes) : knockPayload :=
  let seq := sequenced opts in
  mkKnockPayload (if seq then KnockFrameTypeUDPSequence else KnockFrameTypeUDP)
    (ComputeKnockClientIDHash (ko_Secret opts) (ko_ClientID opts)) (UnixMilli (ko_Timestamp opts))
    (ko_Method opts) (ko_ServerPort opts) (ko_SessionID opts) (if seq then ko_SequenceID opts else [])
    (if seq then ko_SequenceIndex opts else 0) (if seq then ko_SequenceTotal opts else 0) random (ko_Extensions opts).

Lemma knock_payload_of_inv opts p random :
  knock_payload_of opts = Ok p ->
  with_random p random = payload_of_opts opts random /\ session_length_ok (ko_SessionID opts) /\
  (sequenced opts = true -> len (ko_SequenceID opts) = 16 /\ 2 <= ko_SequenceTotal opts <= 8 /\
    0 <= ko_SequenceIndex opts < ko_SequenceTotal opts).
Proof.
  unfold knock_payload_of, payload_of_opts, sequenced, KnockSequenceIDBytes, DefaultSequenceMaxParts. pass_guard Es.
  apply session_check_false in Es. cbv zeta. destruct (_ || _).
  - destruct (Z.eqb_spec (len (ko_SequenceID opts)) 16); [|done]. cbn [negb]. pass_guard Hq. rewrite !orb_false_iff in Hq.
    intros [= <-]. split_and!; try done; lia.
  - intros [= <-]. done.
Qed.

Section Build.
Context `{LA : AEADLaws}.

Lemma sealKnockPayload_len secret h port plain sealed :
  sealKnockPayload secret h port plain = Ok sealed -> len sealed = len plain + 16.
Proof. rewrite sealKnockPayload_eq. intros [= <-]. unfold len. rewrite seal_length. lia. Qed.

Lemma frame_out h (sealed : bytes) : length (kh_Nonce h) = 16%nat ->
  encodeKnockHeader (take 28 (zeros (28 + length sealed))) h ++ go_copy (drop 28 (zeros (28 + length sealed))) sealed =
  knock_header_bytes h ++ sealed.
Proof.
  intros Hn. change (take 28 (zeros (28 + length sealed))) with (zeros 28).
  change (drop 28 (zeros (28 + length sealed))) with (zeros (length sealed)).
  rewrite encodeKnockHeader_zeros by done. by rewrite go_copy_exact by (unfold zeros; by rewrite length_replicate).
Qed.

Lemma BuildKnockFrame_inv opts now r packet r' :
  BuildKnockFrame opts now r = Ok (packet, r') -> ko_KeyHint opts = 0 -> Forall TLV_wf (ko_Extensions opts) ->
  let o := knock_defaults opts now in
  let client := mkClientSecret (ko_ClientID opts) (ko_Secret opts) in
  is_int64 (UnixMilli (ko_Timestamp o)) ->
  exists h random, let p := payload_of_opts o random in
    ValidateClientSecret client = None /\ frame_of (ko_ServerPort opts) client h p packet /\
    decodeKnockPayload (knock_payload_bytes p) = Ok p /\ kh_Flags h = knock_flags_of p /\ session_length_ok (ko_SessionID opts) /\
    (sequenced o = true -> len (ko_SequenceID o) = 16 /\ 2 <= ko_SequenceTotal o <= 8 /\ 0 <= ko_SequenceIndex o < ko_SequenceTotal o) /\
    1 <= ko_ServerPort opts <= 65535 /\ len packet <= ko_MaxFrameSize o.
Proof.
  intros HB Hhint Htlv o client Hts. unfold BuildKnockFrame in HB. fold o in HB.
  change (ko_ClientID o) with (ko_ClientID opts) in HB. change (ko_Secret o) with (ko_Secret opts) in HB.
  change (ko_ServerPort o) with (ko_ServerPort opts) in HB. fold client in HB.
  destruct (ValidateClientSecret client) eqn:Hv; [done|]. unfold validateProtectedPort in HB.
  destruct (Z.ltb (ko_ServerPort opts) 1 || _) eqn:Hp; [done|]. apply orb_false_iff in Hp as [Hp1%Z.ltb_ge Hp2%Z.ltb_ge].
  apply res_bind_Ok in HB as (p0 & Hp0 & HB).
  apply res_bind_Ok in HB as ([random r1] & _ & HB). cbv zeta in HB.
  destruct (knock_payload_of_inv o p0 random Hp0) as (Epay & Hsid & Hseq). rewrite Epay in HB. set (p := payload_of_opts o random) in *.
  apply res_bind_Ok in HB as (plain & Henc & HB). apply encodeKnockPayload_Ok in Henc as (Hport & Hfit & ->).
  apply res_bind_Ok in HB as ([nonce r2] & Hnon & HB). cbv zeta in HB.
  assert (length nonce = 16%nat) as Hn16.
  { revert Hnon. destruct (Z.ltb 0 _).
    - destruct (Z.eqb_spec (len (ko_Nonce o)) KnockNonceBytes) as [Hl|]; [|done]. intros [= <- <-].
      unfold KnockNonceBytes, len in Hl. change (ko_Nonce o) with (ko_Nonce opts) in Hl. rewrite go_copy_exact; [lia|]. change (length (zeros 16)) with 16%nat. lia.
    - unfold rand_Read. case_decide; [|done]. intros [= <- _]. rewrite length_take. lia. }
  change (ko_KeyHint o) with (ko_KeyHint opts) in HB. rewrite Hhint in HB. cbn [Z.eqb negb] in HB.
  destruct (Z.ltb 65535 _ || _) eqn:Hsz; [done|]. apply orb_false_iff in Hsz as [Hsz1%Z.ltb_ge Hsz2%Z.ltb_ge].
  apply res_bind_Ok in HB as (sealed & Hseal & HB). pose proof (sealKnockPayload_len _ _ _ _ _ Hseal) as Hsl.
  unfold Overhead, KnockFrameHeaderSize in *. pose proof (len_nonneg (knock_payload_bytes p)).
  set (h := mkKnockHeader _ _ _ _ _) in *. rewrite (frame_out h) in HB by done. injection HB as <- <-.
  assert (kh_SealedLen h = len sealed) as Hhl by (simpl; rewrite uint16_id by (unfold is_uint16; lia); lia).
  assert (knock_payload_wf p) as Hpw.
  { split; [apply HMACTrunc128_length|]. split; [done|]. unfold p, payload_of_opts. cbn [kp_SequenceIndex kp_SequenceTotal kp_Extensions].
    destruct (sequenced o); [destruct (Hseq eq_refl) as (? & ? & ?)|]; split_and!; try done; lia. }
  exists h, random. cbv zeta. fold p. split; [done|]. split; [|split; [|split_and!; try done]].
  - split; try done; [|by exists sealed]. split; [done|]. split.
    + simpl. unfold ComputeKnockKeyHint. destruct (_ || _); [done|apply HMACTrunc64_bound].
    + rewrite Hhl. unfold is_uint16. pose proof (len_nonneg sealed). lia.
  - apply decodeKnockPayload_bytes; try done. simpl. change (ko_ServerPort o) with (ko_ServerPort opts). lia.
  - rewrite len_app, Hsl. unfold len at 1. rewrite length_knock_header_bytes by done. lia.
Qed.

End Build.

(** * Properties *)

(** Knock headers and payloads have one wire form each: the 28
    header bytes and a header determine each other, and a byte string decodes to
    a payload for a protected port exactly when it is what [encodeKnockPayload]
    writes for that payload (for session ids that are absent or at least 16
    bytes long, as the builder demands). *)
Theorem knock_codec_bijection (h : knockFrameHeader) (hraw : bytes) (p : knockPayload) (raw : bytes) :
  knock_header_wf h -> length hraw = 28%nat -> knock_payload_wf p -> session_length_ok (kp_SessionID p) ->
  (encodeKnockHeader (zeros 28) h = hraw <-> decodeKnockHeader hraw = h) /\
  (encodeKnockPayload p = Ok raw <-> decodeKnockPayload raw = Ok p /\ 1 <= kp_ServerPort p).
Proof.
  intros Hh Hr Hp Hs. rewrite encodeKnockHeader_zeros by apply Hh. split; split.
  - intros <-. by apply decodeKnockHeader_bytes.
  - intros <-. by apply knock_header_bytes_decode.
  - intros (Hport & Hf & ->)%encodeKnockPayload_Ok. split; [|lia]. apply decodeKnockPayload_bytes; [done..|lia|done].
  - intros [(_ & Hf & Hport & _ & ->)%decodeKnockPayload_inv Hpos]. apply encodeKnockPayload_Ok. split_and!; try done; lia.
Qed.

Definition ex_knock_header : knockFrameHeader := mkKnockHeader ex_nonce 77 40 Byte.x03 Byte.x00.
Definition ex_knock_payload : knockPayload :=
  mkKnockPayload KnockFrameTypeUDPSequence ex_nonce (-5) (str "udp-seq") 443 (str "0123456789abcdef") ex_nonce 1 3 (str "r")
    [mkTLV 7 (str "x")].

Lemma knock_codec_bijection_witness :
  decodeKnockHeader (encodeKnockHeader (zeros 28) ex_knock_header) = ex_knock_header /\
  decodeKnockPayload (knock_payload_bytes ex_knock_payload) = Ok ex_knock_payload.
Proof.
  split.
  - by apply (knock_codec_bijection ex_knock_header _ ex_knock_payload []);
      [split_and!; done|done|split_and!; try done; by repeat constructor|right; vm_compute; discriminate|].
  - apply (knock_codec_bijection ex_knock_header (zeros 28) ex_knock_payload (knock_payload_bytes ex_knock_payload));
      [split_and!; done|done|split_and!; try done; by repeat constructor|right; vm_compute; discriminate|by vm_compute].
Defined.

(** The server accepts only genuine knocks. When
    [OpenKnockFrame] accepts a packet, the packet is exactly a header and the
    AEAD sealing, under the secret of one of the configured clients and bound to
    the protected port, of a payload that names that client and port; flags,
    method and sequence fields are consistent, the timestamp is within the
    window, the packet within the size limit, and the replay cache has accepted
    the client and nonce. The result reports that client and that payload. *)
Theorem knock_open_sound `{LA : AEADLaws} {C : Type} `{ReplayCache C} (packet : bytes) (cfg : ServerConfig) (now : Z)
    (rc rc' : option C) (info : KnockInfo) :
  OpenKnockFrame packet cfg now rc = (Ok info, rc') ->
  let d := server_defaults cfg in
  exists client h p c c', client ∈ sc_Clients cfg /\ ValidateClientSecret client = None /\
    frame_of (sc_ServerPort cfg) client h p packet /\ payload_ok d now client h p /\
    len packet <= sc_MaxFrameSize d /\ info = info_of client h p /\
    rc = Some c /\ rc' = Some c' /\ check_and_mark (cs_ClientID client) (kh_Nonce h) now c = (None, c').
Proof.
  unfold OpenKnockFrame. destruct rc as [c|]; [|done].
  intros (client & h & p & Hin & Hv & Hf & Hp & Hl & _ & Hi & Hm)%openKnockFrame_inv. unfold marked in Hm.
  destruct (check_and_mark _ _ _ _) as [err c'] eqn:Ec. injection Hm as -> <-. by exists client, h, p, c, c'.
Qed.

(** Where the loop over the clients gets to. *)
Lemma try_clients_skip `{AEAD} {C : Type} `{ReplayCache C} before client after h sealed cfg now (rc : option C) r : forall saw,
  Forall (fun c => ComputeKnockKeyHint (cs_Secret c) (kh_Nonce h) (sc_ServerPort cfg) <> kh_KeyHint h) before ->
  ValidateClientSecret client = None -> kh_KeyHint h = ComputeKnockKeyHint (cs_Secret client) (kh_Nonce h) (sc_ServerPort cfg) ->
  try_client client h sealed cfg now rc = Return r ->
  try_clients (before ++ client :: after) saw h sealed cfg now rc = r.
Proof.
  intros saw Hb Hv Hk Ht. revert saw. induction Hb as [|c before Hc Hb IH]; intros saw; cbn [try_clients app].
  - by rewrite Hv, <- Hk, Z.eqb_refl, Ht.
  - rewrite (proj2 (Z.eqb_neq _ _) Hc). cbn [negb]. destruct (ValidateClientSecret c); apply IH.
Qed.

(** The path of a well-formed frame through [openKnockFrame]. *)
Lemma openKnockFrame_ok `{LA : AEADLaws} {C : Type} `{ReplayCache C} packet cfg now (rc : option C) before client after h p :
  let d := server_defaults cfg in
  sc_Clients cfg = before ++ client :: after -> ValidateClientSecret client = None -> 1 <= sc_ServerPort cfg <= 65535 ->
  frame_of (sc_ServerPort cfg) client h p packet -> decodeKnockPayload (knock_payload_bytes p) = Ok p ->
  payload_ok d now client h p -> flags_outside (kh_Flags h) allowedKnockFlags = false -> len packet <= sc_MaxFrameSize d ->
  Forall (fun c => ComputeKnockKeyHint (cs_Secret c) (kh_Nonce h) (sc_ServerPort cfg) <> kh_KeyHint h) before ->
  openKnockFrame packet cfg now rc =
  (let '(err, rc') := marked (cs_ClientID client) (kh_Nonce h) now rc in
   (match err with Some e => Err e | None => Ok (info_of client h p) end, rc')).
Proof.
  intros d Hc Hv Hport [Hwf Hpw Hres Hhint (sealed & Hseal & Hsl & ->)] Hdec Hok Hfl Hmax Hbefore.
  unfold openKnockFrame. fold d. change (sc_ServerPort d) with (sc_ServerPort cfg). unfold validateProtectedPort.
  rewrite (proj2 (Z.ltb_ge _ 1)), (proj2 (Z.ltb_ge 65535 _)) by lia. cbn [orb].
  assert (len (knock_header_bytes h ++ sealed) = 28 + len sealed) as Hlen.
  { rewrite len_app. unfold len at 1. by rewrite length_knock_header_bytes by apply Hwf. }
  pose proof (sealKnockPayload_len _ _ _ _ _ Hseal) as Hl16. pose proof (len_nonneg (knock_payload_bytes p)).
  unfold KnockFrameHeaderSize. rewrite (proj2 (Z.ltb_ge _ (16 + 8 + 2 + 1 + 1))), (proj2 (Z.ltb_ge (sc_MaxFrameSize d) _)) by lia.
  rewrite take_app_length', drop_app_length' by (symmetry; apply length_knock_header_bytes, Hwf).
  rewrite decodeKnockHeader_bytes, Hres, Hfl by done. cbn [negb]. rewrite bool_decide_eq_true_2 by done. cbn [negb].
  rewrite (proj2 (Z.eqb_neq (kh_SealedLen h) 0)) by lia. rewrite (proj2 (Z.eqb_eq _ _)) by lia. cbn [negb].
  change (sc_Clients d) with (sc_Clients cfg). rewrite Hc. apply try_clients_skip; try done.
  by apply try_client_ok.
Qed.

(** What the server reports of a frame that the client built. *)
Lemma knock_opens `{LA : AEADLaws} {C : Type} `{ReplayCache C} (opts : KnockFrameOptions) (now now' : Z) (r r' : rng)
    (packet : bytes) (cfg : ServerConfig) (before after : list ClientSecret) (c c' : C) :
  let o := knock_defaults opts now in
  let d := server_defaults cfg in
  let ts := time_UnixMilli (UnixMilli (ko_Timestamp o)) in
  BuildKnockFrame opts now r = Ok (packet, r') ->
  ko_KeyHint opts = 0 -> Forall TLV_wf (ko_Extensions opts) -> is_int64 (UnixMilli (ko_Timestamp o)) ->
  sc_Clients cfg = before ++ mkClientSecret (ko_ClientID opts) (ko_Secret opts) :: after ->
  Forall (fun k => ComputeKnockKeyHint (cs_Secret k) (take 16 packet) (sc_ServerPort cfg) <>
                   ComputeKnockKeyHint (ko_Secret opts) (take 16 packet) (sc_ServerPort cfg)) before ->
  sc_ServerPort cfg = ko_ServerPort opts -> sc_Method cfg = [] \/ sc_Method cfg = ko_Method o ->
  (sequenced o = true -> sc_AllowSequence cfg = true) -> len packet <= sc_MaxFrameSize d ->
  - sc_TimeWindow d <= Sub now' ts <= sc_TimeWindow d ->
  check_and_mark (ko_ClientID opts) (take 16 packet) now' c = (None, c') ->
  exists h random, kh_Nonce h = take 16 packet /\
    OpenKnockFrame packet cfg now' (Some c) =
      (Ok (info_of (mkClientSecret (ko_ClientID opts) (ko_Secret opts)) h (payload_of_opts o random)), Some c').
Proof.
  intros o d ts HB Hhint Htlv Hts Hcl Hbefore Hport Hmethod Hseq Hmax Hwin Hmark.
  destruct (BuildKnockFrame_inv opts now r packet r' HB Hhint Htlv Hts) as (h & random & Hv & Hf & Hdec & Hfl & Hsid & Hsq & Hp & _).
  fold o in Hf, Hdec, Hfl, Hsq. set (p := payload_of_opts o random) in *. set (client := mkClientSecret _ _) in *.
  assert (take 16 packet = kh_Nonce h) as Hnonce.
  { pose proof (fo_packet _ _ _ _ _ Hf) as (sealed & _ & _ & ->). unfold knock_header_bytes. rewrite <- app_assoc.
    apply take_app_length'. symmetry. apply (fo_header _ _ _ _ _ Hf). }
  rewrite Hnonce in *. destruct (knock_flags_valid p Hsid) as [Hout Hvf].
  assert (payload_ok d now' client h p) as Hok.
  { split; [done|done|by rewrite Hfl| | |done].
    - destruct Hmethod as [?| ?]; [by left|right]. by symmetry.
    - unfold type_allowed, p, payload_of_opts. cbn [kp_FrameType kp_SequenceID kp_SequenceTotal kp_SequenceIndex].
      destruct (sequenced o); [right|by left]. destruct (Hsq eq_refl) as (? & ? & ?). split_and!; try done; try lia. by apply Hseq. }
  rewrite <- Hport in Hf. exists h, random. split; [done|].
  unfold OpenKnockFrame. rewrite (openKnockFrame_ok packet cfg now' (Some c) before client after h p); try done; [|lia|by rewrite Hfl|].
  - unfold marked. simpl. by rewrite Hmark.
  - rewrite (fo_hint _ _ _ _ _ Hf). exact Hbefore.
Qed.

(** A knock works end to end: a frame that [BuildKnockFrame]
    makes is accepted by every server that lists the client (behind clients
    whose key hints differ), for the same port and method, that takes sequence
    frames if it is one, whose size limit and time window it meets and whose
    replay cache takes the nonce. The server then reports exactly the client's
    id, method, port, session id, sequence fields and extensions, and its
    timestamp in milliseconds. *)
Theorem knock_roundtrip `{LA : AEADLaws} {C : Type} `{ReplayCache C} (opts : KnockFrameOptions) (now now' : Z) (r r' : rng)
    (packet : bytes) (cfg : ServerConfig) (before after : list ClientSecret) (c c' : C) :
  let o := knock_defaults opts now in
  let d := server_defaults cfg in
  let ts := time_UnixMilli (UnixMilli (ko_Timestamp o)) in
  BuildKnockFrame opts now r = Ok (packet, r') ->
  ko_KeyHint opts = 0 -> Forall TLV_wf (ko_Extensions opts) -> is_int64 (UnixMilli (ko_Timestamp o)) ->
  sc_Clients cfg = before ++ mkClientSecret (ko_ClientID opts) (ko_Secret opts) :: after ->
  Forall (fun k => ComputeKnockKeyHint (cs_Secret k) (take 16 packet) (sc_ServerPort cfg) <>
                   ComputeKnockKeyHint (ko_Secret opts) (take 16 packet) (sc_ServerPort cfg)) before ->
  sc_ServerPort cfg = ko_ServerPort opts -> sc_Method cfg = [] \/ sc_Method cfg = ko_Method o ->
  (sequenced o = true -> sc_AllowSequence cfg = true) -> len packet <= sc_MaxFrameSize d ->
  - sc_TimeWindow d <= Sub now' ts <= sc_TimeWindow d ->
  check_and_mark (ko_ClientID opts) (take 16 packet) now' c = (None, c') ->
  exists info, OpenKnockFrame packet cfg now' (Some c) = (Ok info, Some c') /\
    ki_ClientID info = ko_ClientID opts /\ ki_Method info = ko_Method o /\ ki_ServerPort info = ko_ServerPort opts /\
    ki_Timestamp info = ts /\ ki_SessionID info = ko_SessionID opts /\ ki_Extensions info = ko_Extensions opts /\
    ki_Nonce info = take 16 packet /\
    (sequenced o = true -> ki_SequenceID info = ko_SequenceID opts /\ ki_SequenceIndex info = ko_SequenceIndex opts /\
      ki_SequenceTotal info = ko_SequenceTotal opts).
Proof.
  intros o d ts HB Hhint Htlv Hts Hcl Hbefore Hport Hmethod Hseq Hmax Hwin Hmark.
  destruct (knock_opens opts now now' r r' packet cfg before after c c' HB Hhint Htlv Hts Hcl Hbefore Hport Hmethod Hseq Hmax Hwin Hmark)
    as (h & random & Hn & Hopen).
  eexists. split; [exact Hopen|]. unfold info_of, payload_of_opts. simpl. split_and!; try done. fold o. by intros ->.
Qed.

Section Once.
Context `{LA : AEADLaws} {C : Type} `{RL : ReplayLaws C}.

(** A server that receives packets, each at its time. *)
Fixpoint receive (cfg : ServerConfig) (packets : list (bytes * Z)) (rc : option C) : list (res KnockInfo) :=
  match packets with
  | [] => []
  | (packet, now) :: packets => let '(r, rc) := OpenKnockFrame packet cfg now rc in r :: receive cfg packets rc
  end.

(** The cache is left alone or asked once. *)
Definition asked (now : Z) (c : C) (rc : option C) : Prop :=
  rc = Some c \/ exists clientID nonce e c', check_and_mark clientID nonce now c = (e, c') /\ rc = Some c'.

Lemma try_client_asked client h sealed cfg now c r rc :
  try_client client h sealed cfg now (Some c) = Return (r, rc) -> asked now c rc.
Proof.
  unfold try_client, asked. intros E. repeat case_match; simplify_eq; try (by left); right; by eauto 10.
Qed.

Lemma try_clients_asked clients : forall saw h sealed cfg now c r rc,
  try_clients clients saw h sealed cfg now (Some c) = (r, rc) -> asked now c rc.
Proof.
  induction clients as [|k clients IH]; intros saw h sealed cfg now c r rc; cbn [try_clients]; [intros [= <- <-]; by left|].
  destruct (ValidateClientSecret k); [apply IH|]. destruct (negb _); [apply IH|].
  destruct (try_client k h sealed cfg now (Some c)) as [|[r' rc']] eqn:E; [apply IH|]. intros [= <- <-]. by eapply try_client_asked.
Qed.

Lemma OpenKnockFrame_asked packet cfg now c r rc :
  OpenKnockFrame packet cfg now (Some c) = (r, rc) -> asked now c rc.
Proof.
  unfold OpenKnockFrame, openKnockFrame. intros E. repeat case_match; simplify_eq; try (by left).
  by eapply try_clients_asked.
Qed.

(** One packet: the marks of the cache only grow; an accepted one is in its
    window, was not remembered and is now. *)
Lemma OpenKnockFrame_tracks packet cfg now c h t r rc :
  sc_TimeWindow (server_defaults cfg) < 2 ^ 63 - 1 -> rc_tracks c h t -> 0 <= t <= now ->
  OpenKnockFrame packet cfg now (Some c) = (r, rc) ->
  exists c' h' t', rc = Some c' /\ rc_tracks c' h' t' /\ t <= t' <= now /\ (forall m, m ∈ h -> m ∈ h') /\
    forall info, r = Ok info ->
      Z.abs (now - ki_Timestamp info) <= sc_TimeWindow (server_defaults cfg) /\
      seen rc_ttl h (ki_ClientID info) (ki_Nonce info) now = false /\ mkMark (ki_ClientID info) (ki_Nonce info) now ∈ h'.
Proof.
  intros Hw Htr Ht E.
  assert (0 < sc_TimeWindow (server_defaults cfg)) as Hpos by (simpl; unfold Second; zcases; lia).
  assert (forall clientID nonce e c', check_and_mark clientID nonce now c = (e, c') -> exists h', rc_tracks c' h' now /\
    (forall m, m ∈ h -> m ∈ h') /\ (e = None -> seen rc_ttl h clientID nonce now = false /\ mkMark clientID nonce now ∈ h')) as Hstep.
  { intros clientID nonce e c' Em. pose proof (rc_step c h t clientID nonce now e c' Htr ltac:(lia) ltac:(lia) Em) as Hs. cbv zeta in Hs.
    destruct (seen _ _ _ _ _); [|destruct (Z.leb _ _)]; destruct Hs as [-> Hs]; [by exists h..|].
    exists (h ++ [mkMark clientID nonce now]). split_and!; try done.
    - intros m Hm. apply elem_of_app. by left.
    - intros _. split; [done|]. apply elem_of_app. right. by left. }
  destruct r as [info|e].
  - unfold OpenKnockFrame in E.
    apply openKnockFrame_inv in E as (client & hd & p & _ & _ & _ & Hok & _ & _ & -> & Hm). unfold marked in Hm.
    destruct (check_and_mark _ _ _ c) as [e c'] eqn:Em. injection Hm as -> <-.
    destruct (Hstep _ _ _ _ Em) as (h' & Htr' & Hsub & Hnew). exists c', h', now. split_and!; try done; [lia..|].
    intros info [= <-]. split; [|by apply Hnew]. pose proof (po_time _ _ _ _ _ Hok) as Hwin. unfold Sub in Hwin. simpl in *. lia.
  - destruct (OpenKnockFrame_asked _ _ _ _ _ _ E) as [->|(cid & nonce & e' & c' & Em & ->)].
    + exists c, h, t. split_and!; try done; lia.
    + destruct (Hstep _ _ _ _ Em) as (h' & Htr' & Hsub & _). exists c', h', now. split_and!; try done; lia.
Qed.

Fixpoint ordered (t : Z) (packets : list (bytes * Z)) : Prop :=
  match packets with [] => True | (_, now) :: packets => t <= now /\ ordered now packets end.

Lemma ordered_weaken t t' packets : t' <= t -> ordered t packets -> ordered t' packets.
Proof. destruct packets as [|[? ?] ?]; simpl; [done|]. intros ? [? ?]. split; [lia|done]. Qed.

Lemma no_second_knock cfg packets : forall c h t m ts,
  sc_TimeWindow (server_defaults cfg) < 2 ^ 63 - 1 -> 2 * sc_TimeWindow (server_defaults cfg) < rc_ttl ->
  rc_tracks c h t -> 0 <= t -> ordered t packets -> m ∈ h -> ts - sc_TimeWindow (server_defaults cfg) <= m_time m ->
  forall info, Ok info ∈ receive cfg packets (Some c) ->
  ki_ClientID info = m_client m -> ki_Nonce info = m_nonce m -> ki_Timestamp info <> ts.
Proof.
  induction packets as [|[packet now] packets IH]; intros c h t m ts Hw Httl Htr Ht Hord Hm Hts info Hin Hc Hn Hti.
  { cbn [receive] in Hin. by apply elem_of_nil in Hin. }
  destruct Hord as [Hnow Hord]. cbn [receive] in Hin. destruct (OpenKnockFrame packet cfg now (Some c)) as [r rc] eqn:E.
  destruct (OpenKnockFrame_tracks packet cfg now c h t r rc Hw Htr ltac:(lia) E) as (c' & h' & t' & -> & Htr' & Ht' & Hsub & Hacc).
  apply elem_of_cons in Hin as [Hr|Hin].
  - destruct (Hacc info (eq_sym Hr)) as (Hwin & Hseen & _).
    assert (seen rc_ttl h (ki_ClientID info) (ki_Nonce info) now = true) as Hyes; [|congruence].
    apply seen_spec. exists m. split_and!; try done. apply Z.ltb_lt. lia.
  - apply (IH c' h' t' m ts Hw Httl Htr' ltac:(lia) (ordered_weaken now t' _ ltac:(lia) Hord) (Hsub m Hm) Hts info Hin Hc Hn Hti).
Qed.

(** The clients that the loop passes over do not depend on time and cache, so
    a packet that is accepted twice is accepted for the same client. *)
Lemma try_client_continue client h sealed cfg now now' (rc rc' : option C) :
  try_client client h sealed cfg now rc = Continue -> try_client client h sealed cfg now' rc' = Continue.
Proof.
  unfold try_client. destruct (openKnockPayload _ _ _ _) as [plain|]; [|done]. destruct (decodeKnockPayload plain) as [p|]; [|done].
  cbv zeta. destruct (negb (ConstantTimeEqual _ _)); [done|]. intros E. exfalso. repeat case_match; done.
Qed.

Lemma try_client_same client h sealed cfg now now' (rc rc' : option C) a b rc1 rc2 :
  try_client client h sealed cfg now rc = Return (Ok a, rc1) -> try_client client h sealed cfg now' rc' = Return (Ok b, rc2) -> a = b.
Proof.
  intros (p & Hs & Hd & _ & -> & _)%try_client_inv (p' & Hs' & Hd' & _ & -> & _)%try_client_inv.
  apply openKnockPayload_Ok in Hs, Hs'. rewrite Hs in Hs'.
  assert (knock_payload_bytes p = knock_payload_bytes p') as Hp by congruence. rewrite <- Hp, Hd in Hd'. by injection Hd' as ->.
Qed.

Lemma try_clients_same clients : forall saw saw' h sealed cfg now now' (rc rc' : option C) a b rc1 rc2,
  try_clients clients saw h sealed cfg now rc = (Ok a, rc1) -> try_clients clients saw' h sealed cfg now' rc' = (Ok b, rc2) -> a = b.
Proof.
  induction clients as [|k clients IH]; intros saw saw' h sealed cfg now now' rc rc' a b rc1 rc2; cbn [try_clients]; [done|].
  destruct (ValidateClientSecret k); [apply IH|]. destruct (negb _); [apply IH|].
  destruct (try_client k h sealed cfg now rc) as [|r] eqn:E.
  - rewrite (try_client_continue _ _ _ _ _ now' _ rc' E). apply IH.
  - destruct (try_client k h sealed cfg now' rc') as [|r'] eqn:E'.
    { by rewrite (try_client_continue _ _ _ _ _ now _ rc E') in E. }
    intros -> ->. by eapply try_client_same.
Qed.

Lemma OpenKnockFrame_same packet cfg now now' (rc rc' : option C) a b rc1 rc2 :
  OpenKnockFrame packet cfg now rc = (Ok a, rc1) -> OpenKnockFrame packet cfg now' rc' = (Ok b, rc2) -> a = b.
Proof.
  unfold OpenKnockFrame, openKnockFrame. cbv zeta. intros E E'.
  repeat (case_match; simplify_eq; try done). by eapply try_clients_same.
Qed.

Lemma receive_lookup cfg packets : forall c i a, receive cfg packets (Some c) !! i = Some (Ok a) ->
  exists packet now rc rc', packets !! i = Some (packet, now) /\ OpenKnockFrame packet cfg now rc = (Ok a, rc').
Proof.
  induction packets as [|[packet now] packets IH]; intros c i a; cbn [receive]; [done|].
  destruct (OpenKnockFrame packet cfg now (Some c)) as [r rc] eqn:E.
  destruct i as [|i]; simpl; [intros [= ->]; by exists packet, now, (Some c), rc|].
  destruct (OpenKnockFrame_asked _ _ _ _ _ _ E) as [->|(? & ? & ? & c' & _ & ->)]; apply IH.
Qed.

Lemma receive_once (cfg : ServerConfig) (packets : list (bytes * Z)) (c : C) (h : list mark) (t : Z)
    (i j : nat) (a b : KnockInfo) :
  sc_TimeWindow (server_defaults cfg) < 2 ^ 63 - 1 -> 2 * sc_TimeWindow (server_defaults cfg) < rc_ttl ->
  rc_tracks c h t -> 0 <= t -> ordered t packets -> (i < j)%nat ->
  receive cfg packets (Some c) !! i = Some (Ok a) -> receive cfg packets (Some c) !! j = Some (Ok b) ->
  ~ (ki_ClientID b = ki_ClientID a /\ ki_Nonce b = ki_Nonce a /\ ki_Timestamp b = ki_Timestamp a).
Proof.
  revert c h t i j. induction packets as [|[packet now] packets IH]; intros c h t i j Hw Httl Htr Ht Hord Hij; cbn [receive]; [done|].
  destruct Hord as [Hnow Hord]. destruct (OpenKnockFrame packet cfg now (Some c)) as [r rc] eqn:E.
  destruct (OpenKnockFrame_tracks packet cfg now c h t r rc Hw Htr ltac:(lia) E) as (c' & h' & t' & -> & Htr' & Ht' & _ & Hacc).
  assert (ordered t' packets) as Hord' by (eapply ordered_weaken; [|done]; lia).
  destruct j as [|j]; [lia|]. destruct i as [|i]; simpl.
  - intros [= ->] Hj (Hc & Hn & Hts). destruct (Hacc a eq_refl) as (Hwin & _ & Hmark).
    apply (no_second_knock cfg packets c' h' t' (mkMark (ki_ClientID a) (ki_Nonce a) now) (ki_Timestamp a) Hw Httl Htr' ltac:(lia) Hord' Hmark ltac:(cbn [m_time]; lia) b); try done.
    by eapply list_elem_of_lookup_2.
  - intros Hi Hj. apply (IH c' h' t' i j); try done; lia.
Qed.


End Once.

(** * Evaluation on concrete inputs *)

Definition ex_opts (nonce : bytes) : KnockFrameOptions :=
  mkKnockFrameOptions ex_client ex_secret (str "udp") 9000 (str "0123456789abcdef") [] 0 0 (str "random") [mkTLV 7 (str "x")]
    nonce 0 ex_now 0.

Definition ex_server : ServerConfig :=
  mkServerConfig [mkClientSecret ex_client ex_secret] 9000 (str "udp") 0 0 false.

Definition ex_kpayload (nonce : bytes) : knockPayload := payload_of_opts (knock_defaults (ex_opts nonce) 0) (str "random").

Definition ex_kheader (nonce : bytes) : knockFrameHeader :=
  mkKnockHeader nonce (ComputeKnockKeyHint ex_secret nonce 9000) (uint16 (len (knock_payload_bytes (ex_kpayload nonce)) + 16))
    (knock_flags_of (ex_kpayload nonce)) Byte.x00.

Definition ex_packet (nonce : bytes) : bytes :=
  knock_header_bytes (ex_kheader nonce) ++
  @aead_seal mac_AEAD (deriveKnockAEADKey ex_secret nonce) (take NonceSize nonce) (knock_payload_bytes (ex_kpayload nonce))
    (knockAAD (ex_kheader nonce) 9000).

Lemma len_knock_payload_bytes p :
  len (knock_payload_bytes p) =
  1 + len (kp_ClientIDHash p) + 8 + 1 + len (kp_Method p) + 2 + 1 + len (kp_SessionID p) + 1 + len (kp_SequenceID p) + 3 +
  len (kp_ClientRandom p) + 2 + tlvs_size (kp_Extensions p).
Proof.
  unfold knock_payload_bytes. repeat rewrite ?len_cons, ?len_app, ?len_be_put. rewrite len_tlvs_bytes. lia.
Qed.

Lemma ex_kpayload_len nonce : len (knock_payload_bytes (ex_kpayload nonce)) = 65.
Proof.
  rewrite len_knock_payload_bytes. unfold ex_kpayload, payload_of_opts. cbn [kp_ClientIDHash]. unfold len at 1.
  unfold ComputeKnockClientIDHash. rewrite HMACTrunc128_length. reflexivity.
Qed.

Lemma ex_kpayload_fits nonce : knock_payload_fits (ex_kpayload nonce).
Proof. split_and!; lazy; discriminate. Qed.

Lemma ex_built nonce : length nonce = 16%nat -> @BuildKnockFrame mac_AEAD (ex_opts nonce) 0 [] = Ok (ex_packet nonce, []).
Proof.
  intros Hn. unfold BuildKnockFrame. set (o := knock_defaults (ex_opts nonce) 0).
  change (ValidateClientSecret _) with (@None error). change (validateProtectedPort _) with (@None error). cbv iota.
  change (knock_payload_of o) with (Ok (ex_kpayload nonce)). rewrite mbind_Ok.
  change (Z.eqb (len (ko_ClientRandom o)) 0) with false. cbv iota. rewrite mbind_Ok. cbv zeta.
  change (with_random _ _) with (ex_kpayload nonce).
  rewrite (proj2 (encodeKnockPayload_Ok (ex_kpayload nonce) (knock_payload_bytes (ex_kpayload nonce)))).
  2: { split; [simpl; lia|]. split; [apply ex_kpayload_fits|done]. }
  rewrite mbind_Ok. change (ko_Nonce o) with nonce. assert (len nonce = 16) as Hl by (unfold len; lia).
  unfold KnockNonceBytes. rewrite Hl. change (Z.ltb 0 16) with true. change (negb (Z.eqb 16 16)) with false. cbv iota.
  rewrite go_copy_exact by done. rewrite mbind_Ok. rewrite ex_kpayload_len. change (Z.ltb 65535 (65 + Overhead)) with false.
  change (Z.ltb (ko_MaxFrameSize o) (KnockFrameHeaderSize + (65 + Overhead))) with false. cbn [orb].
  rewrite sealKnockPayload_eq. rewrite mbind_Ok. rewrite frame_out by done.
  unfold ex_packet, ex_kheader. rewrite ex_kpayload_len. reflexivity.
Qed.

Definition ex_memory : option Memory.t := Some (Memory.NewMemoryReplayCacheWithLimit (61 * Second) 8).

Lemma ex_packet_nonce nonce : length nonce = 16%nat -> take 16 (ex_packet nonce) = nonce.
Proof. intros Hn. unfold ex_packet, knock_header_bytes. rewrite <- app_assoc. by apply take_app_length'. Qed.

Lemma ex_packet_len nonce : length nonce = 16%nat -> len (ex_packet nonce) = 109.
Proof.
  intros Hn. unfold ex_packet. rewrite len_app. unfold len at 1. rewrite length_knock_header_bytes by done.
  unfold len. rewrite (seal_length (AEADLaws := mac_AEAD_laws)). pose proof (ex_kpayload_len nonce) as Hl. unfold len in Hl. lia.
Qed.

(** The roundtrip, on a cache in any state that takes the nonce. *)
Lemma knock_roundtrip_witness :
  exists info, @OpenKnockFrame mac_AEAD _ memory_replay_cache (ex_packet ex_nonce) ex_server (ex_now + Second) (Some ex_memory) =
    (Ok info, Some (snd (Memory.CheckAndMark ex_client ex_nonce (ex_now + Second) ex_memory))) /\
    ki_ClientID info = ex_client /\ ki_SessionID info = str "0123456789abcdef".
Proof.
  destruct (knock_roundtrip (LA := mac_AEAD_laws) (ex_opts ex_nonce) 0 (ex_now + Second) [] [] (ex_packet ex_nonce) ex_server [] []
    ex_memory (snd (Memory.CheckAndMark ex_client ex_nonce (ex_now + Second) ex_memory))) as (info & Ho & Hc & _ & _ & _ & Hs & _).
  - exact (ex_built ex_nonce eq_refl).
  - reflexivity.
  - repeat constructor; vm_compute; congruence.
  - vm_compute. split; [discriminate|reflexivity].
  - reflexivity.
  - constructor.
  - reflexivity.
  - right. reflexivity.
  - discriminate.
  - rewrite (ex_packet_len ex_nonce eq_refl). vm_compute. discriminate.
  - vm_compute. split; discriminate.
  - rewrite (ex_packet_nonce ex_nonce eq_refl). vm_compute. reflexivity.
  - exists info. split; [exact Ho|]. split; [exact Hc|exact Hs].
Defined.

(** The server of the example accepts its packets, whatever their nonce. *)
Lemma ex_frame_of nonce : length nonce = 16%nat ->
  frame_of (H := mac_AEAD) 9000 (mkClientSecret ex_client ex_secret) (ex_kheader nonce) (ex_kpayload nonce) (ex_packet nonce).
Proof.
  intros Hn. split; [| |reflexivity|reflexivity|].
  - split; [exact Hn|]. split; [apply HMACTrunc64_bound|]. apply Z.mod_pos_bound. lia.
  - split; [apply HMACTrunc128_length|]. split; [vm_compute; split; [discriminate|reflexivity]|].
    split; [lazy; split; discriminate|]. split; [lazy; split; discriminate|]. repeat constructor; lazy; congruence.
  - eexists. split; [apply sealKnockPayload_eq|]. split; [|reflexivity].
    unfold len at 1. rewrite (seal_length (AEADLaws := mac_AEAD_laws)). pose proof (ex_kpayload_len nonce) as Hl.
    unfold ex_kheader. cbn [kh_SealedLen]. rewrite Hl. unfold len in Hl. rewrite Nat2Z.inj_add, Hl. reflexivity.
Qed.

Lemma ex_payload_ok nonce : payload_ok (server_defaults ex_server) ex_now (mkClientSecret ex_client ex_secret) (ex_kheader nonce) (ex_kpayload nonce).
Proof.
  assert (session_length_ok (kp_SessionID (ex_kpayload nonce))) as Hsid by (right; lazy; discriminate).
  split; [reflexivity|reflexivity|apply (knock_flags_valid _ Hsid)|by right|by left|].
  change (kp_TimestampMS (ex_kpayload nonce)) with (UnixMilli ex_now). vm_compute. split; discriminate.
Qed.

Lemma ex_opens nonce c c' : length nonce = 16%nat ->
  Memory.CheckAndMark ex_client nonce ex_now c = (None, c') ->
  @OpenKnockFrame mac_AEAD _ memory_replay_cache (ex_packet nonce) ex_server ex_now (Some c) =
  (Ok (info_of (mkClientSecret ex_client ex_secret) (ex_kheader nonce) (ex_kpayload nonce)), Some c').
Proof.
  intros Hn Hm. pose proof (ex_frame_of nonce Hn) as Hf.
  assert (session_length_ok (kp_SessionID (ex_kpayload nonce))) as Hsid by (right; lazy; discriminate).
  unfold OpenKnockFrame. etransitivity.
  { apply (openKnockFrame_ok (LA := mac_AEAD_laws) (ex_packet nonce) ex_server ex_now (Some c) [] (mkClientSecret ex_client ex_secret) []
      (ex_kheader nonce) (ex_kpayload nonce)).
    - reflexivity.
    - vm_compute. reflexivity.
    - vm_compute. split; discriminate.
    - exact Hf.
    - apply decodeKnockPayload_bytes; [apply (fo_payload _ _ _ _ _ Hf)|apply ex_kpayload_fits|lazy; split; discriminate|exact Hsid].
    - apply ex_payload_ok.
    - apply (knock_flags_valid _ Hsid).
    - rewrite ex_packet_len by done. vm_compute. discriminate.
    - constructor. }
  unfold marked, check_and_mark, memory_replay_cache. cbn [cs_ClientID kh_Nonce ex_kheader]. rewrite Hm. reflexivity.
Qed.

Definition ex_memory1 : option Memory.t := snd (Memory.CheckAndMark ex_client ex_nonce ex_now ex_memory).
Definition ex_memory2 : option Memory.t := snd (Memory.CheckAndMark ex_client (zeros 16) ex_now ex_memory1).

Lemma ex_mark1 : Memory.CheckAndMark ex_client ex_nonce ex_now ex_memory = (None, ex_memory1).
Proof. vm_compute. reflexivity. Qed.

Lemma ex_mark2 : Memory.CheckAndMark ex_client (zeros 16) ex_now ex_memory1 = (None, ex_memory2).
Proof. vm_compute. reflexivity. Qed.

Lemma knock_open_sound_witness :
  exists client h p, client ∈ sc_Clients ex_server /\ frame_of (H := mac_AEAD) 9000 client h p (ex_packet ex_nonce).
Proof.
  destruct (knock_open_sound (LA := mac_AEAD_laws) (H := memory_replay_cache) _ _ _ _ _ _
    (ex_opens ex_nonce ex_memory ex_memory1 eq_refl ex_mark1)) as (client & h & p & _ & _ & Hin & _ & Hf & _).
  exists client, h, p. split; [exact Hin|exact Hf].
Defined.

Lemma ex_receives :
  receive (H := memory_replay_cache) (A := mac_AEAD) ex_server [(ex_packet ex_nonce, ex_now); (ex_packet (zeros 16), ex_now)] (Some ex_memory) =
  [Ok (info_of (mkClientSecret ex_client ex_secret) (ex_kheader ex_nonce) (ex_kpayload ex_nonce));
   Ok (info_of (mkClientSecret ex_client ex_secret) (ex_kheader (zeros 16)) (ex_kpayload (zeros 16)))].
Proof.
  cbn [receive]. rewrite (ex_opens ex_nonce ex_memory ex_memory1 eq_refl ex_mark1).
  rewrite (ex_opens (zeros 16) ex_memory1 ex_memory2 eq_refl ex_mark2). reflexivity.
Qed.

