(* ===== verification/KnockSeq.v ===== *)
(** knock/udp_seq.go: the tracker that assembles UDP knock sequences; with the
    sequence options of knock/types.go and knock/sequence.go.

    A sequence is a number of frames with one sequence id, each with its index.
    The tracker keeps one state per source address, client, sequence id, port
    and method, and reports completion when every index has arrived in time.
    Go iterates over its map in any order: the order is an argument here, and
    the theorems hold for all of them. *)

From Stdlib Require Import ZArith Lia String.
From Stdlib Require Strings.Byte.
From stdpp Require Import base list gmap strings.
From S2P Require Import Prelude GoStd Cryptox Codec Frame Cache Replay Net KnockFrame.

Open Scope Z_scope.

Record SequenceOptions := mkSequenceOptions {
  so_Length : Z; so_SlotSeconds : Z; so_Window : Z; so_PacketInterval : Z; so_MaxJitter : Z;
  so_MaxInflightPerIP : Z; so_MaxTotalInflight : Z; so_AllowLegacySYNSeq : bool;
}.

Definition normalizedSequenceOptions (o : SequenceOptions) : SequenceOptions :=
  mkSequenceOptions
    (if Z.eqb (so_Length o) 0 then 3 else so_Length o)
    (if Z.eqb (so_SlotSeconds o) 0 then 30 else so_SlotSeconds o)
    (if Z.leb (so_Window o) 0 then 10 * Second else so_Window o)
    (if Z.leb (so_PacketInterval o) 0 then 80 * Millisecond else so_PacketInterval o)
    (so_MaxJitter o)
    (if Z.eqb (so_MaxInflightPerIP o) 0 then 8 else so_MaxInflightPerIP o)
    (if Z.eqb (so_MaxTotalInflight o) 0 then 4096 else so_MaxTotalInflight o)
    (so_AllowLegacySYNSeq o).

Definition UDPSeqMethod : bytes := str "udp-seq".

Record seqState := mkSeqState {
  firstSeen : Z; lastSeen : Z; parts : list bool; ss_sessionID : bytes; ss_total : Z;
}.

Record sequenceTracker := mkTracker {
  opts : SequenceOptions;
  states : gmap bytes seqState;
  perIP : gmap bytes Z;
  total : Z;
  completed : TTLLRU.t bytes unit;
  nonceTT : Z;
}.

Definition newSequenceTracker (o : SequenceOptions) (nonceTTL : Z) : sequenceTracker :=
  let o := normalizedSequenceOptions o in
  let nonceTTL := if Z.leb nonceTTL (so_Window o) then 2 * Minute else nonceTTL in
  mkTracker o ∅ ∅ 0 (TTLLRU.New (so_MaxTotalInflight o)) nonceTTL.

Definition set_completed (c : TTLLRU.t bytes unit) (t : sequenceTracker) : sequenceTracker :=
  mkTracker (opts t) (states t) (perIP t) (total t) c (nonceTT t).

Definition set_state (key : bytes) (st : seqState) (t : sequenceTracker) : sequenceTracker :=
  mkTracker (opts t) (<[key := st]> (states t)) (perIP t) (total t) (completed t) (nonceTT t).

(** [t.perIP[ip]], which is 0 for an address that is not there. *)
Definition ip_count (ip : bytes) (m : gmap bytes Z) : Z := default 0 (m !! ip).

Definition nul : byte := Byte.x00.

Definition sequenceStateKey (src : bytes) (info : KnockInfo) : bytes :=
  ip_text src ++ [nul] ++ ki_ClientID info ++ [nul] ++ hex_EncodeToString (ki_SequenceID info) ++ [nul]
    ++ itoa (ki_ServerPort info) ++ [nul] ++ ki_Method info.

(** The loop of [splitStateKey], with the field that is being read. *)
Fixpoint split_nul (field key : bytes) : list bytes :=
  match key with
  | [] => [field]
  | b :: key => if bool_decide (b = nul) then field :: split_nul [] key else split_nul (field ++ [b]) key
  end.

Definition splitStateKey (key : bytes) : list bytes := split_nul [] key.

Definition markCompletedLocked (key : bytes) (now : Z) (t : sequenceTracker) : sequenceTracker :=
  let max := so_MaxTotalInflight (opts t) in
  let t := if Z.leb max (TTLLRU.Len (completed t)) then set_completed (snd (TTLLRU.Sweep now (completed t))) t else t in
  if Z.ltb (TTLLRU.Len (completed t)) max
  then set_completed (TTLLRU.SetUntil key tt (now + nonceTT t) (completed t)) t else t.

Definition removeLocked (key ip : bytes) (t : sequenceTracker) : sequenceTracker :=
  mkTracker (opts t) (delete key (states t))
    (if Z.ltb 0 (ip_count ip (perIP t)) then <[ip := ip_count ip (perIP t) - 1]> (perIP t) else perIP t)
    (if Z.ltb 0 (total t) then total t - 1 else total t) (completed t) (nonceTT t).

(** One key of the loop of [pruneLocked]. *)
Definition prune_key (now : Z) (key : bytes) (t : sequenceTracker) : sequenceTracker :=
  match states t !! key with
  | None => t
  | Some st =>
      if Z.ltb (so_Window (opts t)) (Sub now (firstSeen st)) then
        match splitStateKey key with
        | ip :: _ => removeLocked key ip (markCompletedLocked key now t)
        | [] => t
        end
      else t
  end.

(** [order] is the order in which Go visits the keys of the map. *)
Definition pruneLocked (order : list bytes) (now : Z) (t : sequenceTracker) : sequenceTracker :=
  let t := fold_left (fun t key => prune_key now key t) order t in
  set_completed (snd (TTLLRU.Sweep now (completed t))) t.

Definition new_state (now : Z) (info : KnockInfo) : seqState :=
  mkSeqState now zero_time (replicate (Z.to_nat (ki_SequenceTotal info)) false) (ki_SessionID info) (ki_SequenceTotal info).

(** What [add] does with the state of its key, once there is one. *)
Definition add_part (src key : bytes) (info : KnockInfo) (now : Z) (st : seqState) (t : sequenceTracker)
    : (bool * option error) * sequenceTracker :=
  if Z.ltb (so_Window (opts t)) (Sub now (firstSeen st)) then
    ((false, Some (EMsg (str "sequence_timeout"))), removeLocked key (ip_text src) t)
  else if negb (Z.eqb (ss_total st) (ki_SequenceTotal info)) || negb (bool_decide (ss_sessionID st = ki_SessionID info)) then
    ((false, Some auth_ErrAuthFailed), t)
  else if nth (Z.to_nat (ki_SequenceIndex info)) (parts st) false then ((false, Some (EMsg (str "duplicate_part"))), t)
  else
    let st := mkSeqState (firstSeen st) now (<[Z.to_nat (ki_SequenceIndex info) := true]> (parts st)) (ss_sessionID st) (ss_total st) in
    let t := set_state key st t in
    if negb (forallb (fun seen => seen) (parts st)) then ((false, None), t)
    else ((true, None), removeLocked key (ip_text src) (markCompletedLocked key now t)).

Definition add (src : bytes) (info : option KnockInfo) (now : Z) (order : list bytes) (t : sequenceTracker)
    : (bool * option error) * sequenceTracker :=
  match info with
  | None => ((false, Some auth_ErrInvalidFrame), t)
  | Some info =>
      if negb (bool_decide (ki_FrameType info = KnockFrameTypeUDPSequence)) then ((false, Some auth_ErrInvalidFrame), t)
      else
        let t := pruneLocked order now t in
        if negb (Z.eqb (ki_SequenceTotal info) (so_Length (opts t))) || Z.ltb (ki_SequenceTotal info) 2
           || Z.ltb DefaultSequenceMaxParts (ki_SequenceTotal info) || Z.ltb (ki_SequenceIndex info) 0
           || Z.leb (ki_SequenceTotal info) (ki_SequenceIndex info)
        then ((false, Some (EMsg (str "invalid udp sequence index or total"))), t)
        else
          let key := sequenceStateKey src info in
          let '(done, c) := TTLLRU.GetAt key now (completed t) in
          let t := set_completed c t in
          if done is Some _ then ((false, Some auth_ErrReplayDetected), t)
          else
            match states t !! key with
            | Some st => add_part src key info now st t
            | None =>
                if Z.leb (so_MaxInflightPerIP (opts t)) (ip_count (ip_text src) (perIP t)) then
                  ((false, Some (EMsg (str "sequence_inflight_per_ip_exceeded"))), t)
                else if Z.leb (so_MaxTotalInflight (opts t)) (total t) then
                  ((false, Some (EMsg (str "sequence_inflight_total_exceeded"))), t)
                else
                  let st := new_state now info in
                  let t := mkTracker (opts t) (<[key := st]> (states t))
                             (<[ip_text src := ip_count (ip_text src) (perIP t) + 1]> (perIP t)) (total t + 1)
                             (completed t) (nonceTT t) in
                  add_part src key info now st t
            end
  end.

(** * The source address of a state key *)

Lemma byte_of_not_nul v : 0 < v < 256 -> nul <> byte_of v.
Proof. intros Hv E. apply (f_equal byte_val) in E. rewrite byte_val_of, Z.mod_small in E by lia. change (byte_val nul) with 0 in E. lia. Qed.

Lemma hex_digit_not_nul n : 0 <= n < 16 -> nul <> hex_digit n.
Proof. intros Hn. unfold hex_digit. apply byte_of_not_nul. zcases; lia. Qed.

Lemma dec_byte_no_nul b : nul ∉ dec_byte (byte_val b).
Proof. apply (bool_decide_eq_true_1 (nul ∉ dec_byte (byte_val b))). destruct b; vm_compute; reflexivity. Qed.

Lemma string4_no_nul ip : nul ∉ string4 ip.
Proof.
  unfold string4. pose proof (dec_byte_no_nul (nth 0 ip Byte.x00)). pose proof (dec_byte_no_nul (nth 1 ip Byte.x00)).
  pose proof (dec_byte_no_nul (nth 2 ip Byte.x00)). pose proof (dec_byte_no_nul (nth 3 ip Byte.x00)).
  rewrite !elem_of_app, !elem_of_cons, !elem_of_app, !elem_of_cons, !elem_of_app, !elem_of_cons. intuition discriminate.
Qed.

Lemma hex_group_no_nul v : is_uint16 v -> nul ∉ hex_group v.
Proof.
  intros Hv. destruct (group_digits v Hv) as (H3 & H2 & H1 & H0 & _). unfold hex_group.
  apply hex_digit_not_nul in H3, H2, H1, H0. zcases; set_solver.
Qed.

Lemma join_groups_no_nul gs : Forall is_uint16 gs -> nul ∉ join_groups gs.
Proof.
  induction 1 as [|g gs Hg Hgs IH]; [set_solver|]. pose proof (hex_group_no_nul g Hg). destruct gs as [|g' gs]; [done|].
  change (nul ∉ hex_group g ++ colon :: join_groups (g' :: gs)). rewrite elem_of_app, elem_of_cons. intuition discriminate.
Qed.

Lemma groups6_uint16 ip : Forall is_uint16 (groups6 ip).
Proof. apply Forall_fmap, Forall_forall. intros i _. apply be_get_slice2_bound. Qed.

Lemma string6_no_nul ip : nul ∉ string6 ip.
Proof.
  unfold string6. pose proof (groups6_uint16 ip) as Hg. destruct (longest_zeros _ _ _) as [start n].
  destruct (Nat.eqb n 0); [by apply join_groups_no_nul|].
  pose proof (join_groups_no_nul _ (Forall_take _ start _ Hg)). pose proof (join_groups_no_nul _ (Forall_drop _ (start + n) _ Hg)).
  rewrite !elem_of_app, !elem_of_cons, elem_of_nil. intuition discriminate.
Qed.

Lemma hex_string_no_nul (s : bytes) : nul ∉ hex_EncodeToString s.
Proof.
  induction s as [|b s IH]; simpl; [set_solver|]. pose proof (byte_val_bound b).
  pose proof (hex_digit_not_nul (byte_val b / 16) ltac:(Z.div_mod_to_equations; lia)).
  pose proof (hex_digit_not_nul (byte_val b mod 16) ltac:(Z.div_mod_to_equations; lia)). set_solver.
Qed.

Lemma ip_text_no_nul ip : nul ∉ ip_text ip.
Proof.
  unfold ip_text. case_bool_decide; [set_solver|]. unfold AddrFromSlice.
  destruct (Nat.eqb (length ip) 4); simpl; [apply string4_no_nul|]. destruct (Nat.eqb (length ip) 16); simpl.
  - destruct (Is4In6 ip) eqn:E; simpl; [apply string4_no_nul|]. rewrite E, app_nil_r. apply string6_no_nul.
  - pose proof (hex_string_no_nul ip). rewrite elem_of_cons. by intros [Hx|Hx].
Qed.

Lemma split_nul_head field x y : nul ∉ x -> exists rest, split_nul field (x ++ nul :: y) = (field ++ x) :: rest.
Proof.
  revert field. induction x as [|b x IH]; intros field Hx; simpl.
  - eexists. by rewrite app_nil_r.
  - rewrite bool_decide_eq_false_2 by set_solver. destruct (IH (field ++ [b])) as [rest ->]; [set_solver|].
    exists rest. by rewrite <- app_assoc.
Qed.

(** The address that [pruneLocked] reads off a key. *)
Definition key_ip (key : bytes) : bytes := default [] (head (splitStateKey key)).

Lemma key_ip_state src info : key_ip (sequenceStateKey src info) = ip_text src.
Proof.
  unfold key_ip, splitStateKey, sequenceStateKey. cbn [app].
  destruct (split_nul_head [] (ip_text src) (ki_ClientID info ++ nul :: hex_EncodeToString (ki_SequenceID info) ++ nul
    :: itoa (ki_ServerPort info) ++ nul :: ki_Method info) (ip_text_no_nul src)) as [rest ->]. done.
Qed.

Lemma splitStateKey_cons key : exists rest, splitStateKey key = key_ip key :: rest.
Proof.
  unfold key_ip, splitStateKey. assert (forall f, exists x rest, split_nul f key = x :: rest) as Hs.
  { induction key as [|b key IH]; intros f; simpl; [by eauto|]. case_bool_decide; [by eauto|apply IH]. }
  destruct (Hs []) as (x & rest & ->). by exists rest.
Qed.

(** * The counters *)

(** The states of an address. *)
Definition of_ip (ip : bytes) (m : gmap bytes seqState) : gmap bytes seqState := filter (fun kv => key_ip kv.1 = ip) m.

(** The counters are exact, and within their limits. *)
Record accounted (t : sequenceTracker) : Prop := {
  acc_total : total t = Z.of_nat (size (states t));
  acc_ip : forall ip, ip_count ip (perIP t) = Z.of_nat (size (of_ip ip (states t)));
  acc_max : total t <= Z.max 0 (so_MaxTotalInflight (opts t));
  acc_max_ip : forall ip, ip_count ip (perIP t) <= Z.max 0 (so_MaxInflightPerIP (opts t));
}.

Lemma of_ip_delete (ip key : bytes) (m : gmap bytes seqState) st : m !! key = Some st ->
  Z.of_nat (size (of_ip ip (delete key m))) = Z.of_nat (size (of_ip ip m)) - (if bool_decide (key_ip key = ip) then 1 else 0).
Proof.
  intros Hk. unfold of_ip. rewrite map_filter_delete. case_bool_decide as Hip.
  - assert (filter (fun kv : bytes * seqState => key_ip kv.1 = ip) m !! key = Some st) as Hf by by apply map_lookup_filter_Some.
    rewrite map_size_delete_Some by by eexists.
    assert (size (filter (fun kv : bytes * seqState => key_ip kv.1 = ip) m) <> 0)%nat; [|lia].
    intros Hz. apply map_size_empty_inv in Hz. by rewrite Hz, lookup_empty in Hf.
  - rewrite delete_id; [lia|]. apply map_lookup_filter_None. right. by intros ? _.
Qed.

Lemma of_ip_insert_new (ip key : bytes) (m : gmap bytes seqState) st : m !! key = None ->
  Z.of_nat (size (of_ip ip (<[key := st]> m))) = Z.of_nat (size (of_ip ip m)) + (if bool_decide (key_ip key = ip) then 1 else 0).
Proof.
  intros Hk. unfold of_ip. case_bool_decide as Hip.
  - rewrite map_filter_insert_True by done. rewrite map_size_insert_None; [lia|]. apply map_lookup_filter_None. by left.
  - rewrite map_filter_insert_not by (intros; done). lia.
Qed.

Lemma of_ip_insert_old (ip key : bytes) (m : gmap bytes seqState) st st' : m !! key = Some st' ->
  size (of_ip ip (<[key := st]> m)) = size (of_ip ip m).
Proof.
  intros Hk. unfold of_ip. destruct (decide (key_ip key = ip)).
  - rewrite map_filter_insert_True by done. rewrite map_size_insert_Some; [done|].
    exists st'. by apply map_lookup_filter_Some.
  - by rewrite map_filter_insert_not by (intros; done).
Qed.

Lemma ip_count_insert (ip ip' : bytes) (n : Z) (m : gmap bytes Z) : ip_count ip (<[ip' := n]> m) = if bool_decide (ip' = ip) then n else ip_count ip m.
Proof. unfold ip_count. case_bool_decide as Hi; [subst; by rewrite lookup_insert_eq|by rewrite lookup_insert_ne]. Qed.

Lemma removeLocked_accounted key t st : accounted t -> states t !! key = Some st -> accounted (removeLocked key (key_ip key) t).
Proof.
  intros [Ht Hip Hm Hmi] Hk. pose proof (of_ip_delete (key_ip key) key _ _ Hk) as Hd0.
  rewrite bool_decide_eq_true_2 in Hd0 by done. rewrite <- Hip in Hd0.
  assert (size (states t) <> 0)%nat as Hne.
  { intros Hz. apply map_size_empty_inv in Hz. by rewrite Hz, lookup_empty in Hk. }
  unfold removeLocked. rewrite !(proj2 (Z.ltb_lt _ _)) by lia.
  assert (forall ip, ip_count ip (<[key_ip key := ip_count (key_ip key) (perIP t) - 1]> (perIP t)) =
    Z.of_nat (size (of_ip ip (delete key (states t))))) as Hnew.
  { intros ip. rewrite ip_count_insert, (of_ip_delete ip key _ _ Hk), <- Hip. case_bool_decide; [by subst|lia]. }
  split; cbn [total states perIP opts]; [| |lia|].
  - rewrite map_size_delete_Some by by eexists. lia.
  - exact Hnew.
  - intros ip. rewrite Hnew, (of_ip_delete ip key _ _ Hk), <- Hip. specialize (Hmi ip). case_bool_decide; lia.
Qed.

(** Marking a key as completed touches nothing but that cache. *)
Lemma markCompleted_same key now t :
  states (markCompletedLocked key now t) = states t /\ perIP (markCompletedLocked key now t) = perIP t /\
  total (markCompletedLocked key now t) = total t /\ opts (markCompletedLocked key now t) = opts t.
Proof. unfold markCompletedLocked. repeat case_match; done. Qed.

Lemma accounted_same t t' : accounted t -> states t' = states t -> perIP t' = perIP t -> total t' = total t -> opts t' = opts t ->
  accounted t'.
Proof. intros [? ? ? ?] Hs Hp Ht Ho. split; rewrite ?Hs, ?Hp, ?Ht, ?Ho; done. Qed.

(** * Accepted parts *)

(** A part that was accepted: the key and index, the session and the time. *)
Record part := mkPart { pt_key : bytes; pt_index : Z; pt_session : bytes; pt_time : Z }.

(** A state has the parts that were accepted for its key since it was opened,
    at the time [u] or before. *)
Record state_ok (o : SequenceOptions) (h : list part) (u : Z) (key : bytes) (st : seqState) : Prop := {
  so_len : length (parts st) = Z.to_nat (so_Length o);
  so_total : ss_total st = so_Length o;
  so_first : firstSeen st <= u;
  so_parts : forall i, parts st !! i = Some true -> exists e, e ∈ h /\ pt_key e = key /\ pt_index e = Z.of_nat i /\
    pt_session e = ss_sessionID st /\ firstSeen st <= pt_time e;
}.

Record tracker_inv (t : sequenceTracker) (h : list part) (u : Z) : Prop := {
  ti_acc : accounted t;
  ti_states : forall key st, states t !! key = Some st -> state_ok (opts t) h u key st;
}.

Lemma state_ok_mono o h h' u u' key st :
  state_ok o h u key st -> (forall e, e ∈ h -> e ∈ h') -> u <= u' -> state_ok o h' u' key st.
Proof. intros [Hl Ht Hf Hp] Hs Hu. split; try done; [lia|]. intros i Hi. destruct (Hp i Hi) as (e & He & ?). exists e. auto. Qed.

Lemma tracker_inv_same t t' h u : tracker_inv t h u -> states t' = states t -> perIP t' = perIP t -> total t' = total t -> opts t' = opts t ->
  tracker_inv t' h u.
Proof. intros [Ha Hs] E1 E2 E3 E4. split; [by apply (accounted_same t)|]. rewrite E1, E4. exact Hs. Qed.

Lemma removeLocked_inv t h u key st : tracker_inv t h u -> states t !! key = Some st -> tracker_inv (removeLocked key (key_ip key) t) h u.
Proof.
  intros [Ha Hs] Hk. split; [by eapply removeLocked_accounted|]. simpl. intros key' st' Hk'. apply lookup_delete_Some in Hk' as [_ Hk']. by apply Hs.
Qed.

Lemma markCompleted_inv t h u key now : tracker_inv t h u -> tracker_inv (markCompletedLocked key now t) h u.
Proof. intros I. destruct (markCompleted_same key now t) as (? & ? & ? & ?). by apply (tracker_inv_same t). Qed.

Lemma prune_key_inv now key t h u : tracker_inv t h u -> tracker_inv (prune_key now key t) h u /\ opts (prune_key now key t) = opts t.
Proof.
  intros I. unfold prune_key. destruct (states t !! key) as [st|] eqn:Ek; [|done]. destruct (Z.ltb _ _); [|done].
  destruct (splitStateKey_cons key) as [rest ->]. destruct (markCompleted_same key now t) as (Hs & _ & _ & Ho). split; [|done].
  apply (removeLocked_inv _ _ _ _ st); [by apply markCompleted_inv|]. by rewrite Hs.
Qed.

Lemma pruneLocked_inv order now t h u : tracker_inv t h u -> tracker_inv (pruneLocked order now t) h u /\ opts (pruneLocked order now t) = opts t.
Proof.
  intros I. unfold pruneLocked. assert (forall t', tracker_inv t' h u ->
    tracker_inv (fold_left (fun t key => prune_key now key t) order t') h u /\
    opts (fold_left (fun t key => prune_key now key t) order t') = opts t') as Hf.
  { induction order as [|k order IH]; intros t' I'; simpl; [done|]. destruct (prune_key_inv now k t' h u I') as [I1 E1].
    destruct (IH _ I1) as [? ?]. split; [done|congruence]. }
  destruct (Hf t I) as [I1 E1]. split; [|done]. by apply (tracker_inv_same (fold_left (fun t key => prune_key now key t) order t)).
Qed.

(** A sequence is complete at [now]: every index of it was accepted for its key
    and session within the window. *)
Definition complete (o : SequenceOptions) (h : list part) (key : bytes) (info : KnockInfo) (now : Z) : Prop :=
  forall i, 0 <= i < so_Length o -> exists e, e ∈ h /\ pt_key e = key /\ pt_index e = i /\
    pt_session e = ki_SessionID info /\ now - so_Window o <= pt_time e.

Definition record_part (key : bytes) (info : KnockInfo) (now : Z) (r : bool * option error) (h : list part) : list part :=
  if r.2 is None then h ++ [mkPart key (ki_SequenceIndex info) (ki_SessionID info) now] else h.

Lemma add_part_ok src key info now st t h r t' :
  key = sequenceStateKey src info -> tracker_inv t h now -> states t !! key = Some st ->
  0 <= ki_SequenceIndex info < so_Length (opts t) -> so_Window (opts t) < 2 ^ 63 - 1 ->
  add_part src key info now st t = (r, t') ->
  let h' := record_part key info now r h in
  tracker_inv t' h' now /\ opts t' = opts t /\ (r = (true, None) -> complete (opts t) h' key info now).
Proof.
  intros Hkey I Hk Hidx Hw E h'. unfold add_part in E.
  assert (ip_text src = key_ip key) as Hip by (rewrite Hkey; symmetry; apply key_ip_state). rewrite Hip in E.
  destruct (Z.ltb_spec (so_Window (opts t)) (Sub now (firstSeen st))) as [|Hwin].
  { injection E as <- <-. split_and!; try done. by eapply removeLocked_inv. }
  destruct (negb _ || _) eqn:Es; [injection E as <- <-; by split_and!|].
  apply orb_false_iff in Es as [_ Es%negb_false_iff%bool_decide_eq_true].
  destruct (nth _ (parts st) false); [injection E as <- <-; by split_and!|].
  set (st' := mkSeqState _ _ _ _ _) in *. set (i := Z.to_nat (ki_SequenceIndex info)) in *.
  assert (tracker_inv (set_state key st' t) (h ++ [mkPart key (ki_SequenceIndex info) (ki_SessionID info) now]) now /\
    state_ok (opts t) (h ++ [mkPart key (ki_SequenceIndex info) (ki_SessionID info) now]) now key st') as [I' Ok'].
  { destruct I as [[At Ai Am Ami] Hs]. pose proof (Hs key st Hk) as [Hl Htot Hfst Hp].
    assert (state_ok (opts t) (h ++ [mkPart key (ki_SequenceIndex info) (ki_SessionID info) now]) now key st') as Ok'.
    { split; simpl; [by rewrite length_insert|done|done|]. intros j Hj. destruct (decide (i = j)) as [<-|Hne].
      - exists (mkPart key (ki_SequenceIndex info) (ki_SessionID info) now). simpl. split_and!; try done; [set_solver|unfold i; lia].
      - rewrite list_lookup_insert_ne in Hj by done. destruct (Hp j Hj) as (e & He & ?). exists e. split; [set_solver|done]. }
    split; [|done]. split.
    - split; simpl; [rewrite map_size_insert_Some by (by eexists); done| |done|done].
      intros ip. by rewrite (of_ip_insert_old ip key _ st' st Hk).
    - simpl. intros k s Hks. destruct (decide (key = k)) as [<-|Hne].
      + rewrite lookup_insert_eq in Hks. by injection Hks as <-.
      + rewrite lookup_insert_ne in Hks by done. eapply state_ok_mono; [by apply Hs|set_solver|lia]. }
  destruct (forallb _ (parts st')) eqn:Ef; cbn [negb] in E; injection E as <- <-; unfold h', record_part; cbn [snd].
  - destruct (markCompleted_same key now (set_state key st' t)) as (Hs & _ & _ & Ho). split_and!.
    + apply (removeLocked_inv _ _ _ _ st'); [by apply markCompleted_inv|]. rewrite Hs. simpl. apply lookup_insert_eq.
    + simpl. by rewrite Ho.
    + intros _ j Hj. destruct Ok' as [Hl _ _ Hp]. rewrite forallb_forall in Ef.
      destruct (lookup_lt_is_Some_2 (parts st') (Z.to_nat j)) as [b Hb]; [rewrite Hl; lia|].
      assert (b = true) as -> by (apply Ef, list_elem_of_In; by eapply list_elem_of_lookup_2).
      destruct (Hp _ Hb) as (e & He & Hke & Hie & Hse & Hte). exists e. simpl in Hse, Hte. unfold Sub in Hwin.
      split_and!; try done; [lia|congruence|lia].
  - by split_and!.
Qed.

Lemma tracker_inv_later t h u u' : tracker_inv t h u -> u <= u' -> tracker_inv t h u'.
Proof. intros [Ha Hs] Hu. split; [done|]. intros key st Hk. eapply state_ok_mono; [by apply Hs|done|done]. Qed.

(** Opening a state, within the limits. *)
Lemma open_state_inv src info now t h : tracker_inv t h now -> states t !! sequenceStateKey src info = None ->
  ki_SequenceTotal info = so_Length (opts t) ->
  ip_count (ip_text src) (perIP t) < so_MaxInflightPerIP (opts t) -> total t < so_MaxTotalInflight (opts t) ->
  tracker_inv (mkTracker (opts t) (<[sequenceStateKey src info := new_state now info]> (states t))
    (<[ip_text src := ip_count (ip_text src) (perIP t) + 1]> (perIP t)) (total t + 1) (completed t) (nonceTT t)) h now.
Proof.
  intros [[At Ai Am Ami] Hs] Hk Hlen Hip Htot.
  assert (forall ip, ip_count ip (<[ip_text src := ip_count (ip_text src) (perIP t) + 1]> (perIP t)) =
    Z.of_nat (size (of_ip ip (<[sequenceStateKey src info := new_state now info]> (states t))))) as Hnew.
  { intros ip. rewrite ip_count_insert, of_ip_insert_new, key_ip_state, <- Ai by done. case_bool_decide; [by subst|lia]. }
  split.
  - split; cbn [total states perIP opts]; [|exact Hnew|lia|].
    + rewrite map_size_insert_None by done. lia.
    + intros ip. rewrite Hnew, of_ip_insert_new, key_ip_state, <- Ai by done. specialize (Ami ip). case_bool_decide; [subst; lia|lia].
  - cbn [states opts]. intros k st. destruct (decide (sequenceStateKey src info = k)) as [<-|Hne].
    + rewrite lookup_insert_eq. intros [= <-]. split; simpl; [by rewrite length_replicate, Hlen|done|lia|].
      intros i Hi. apply lookup_replicate in Hi as [? _]. done.
    + rewrite lookup_insert_ne by done. apply Hs.
Qed.

Lemma add_ok src info now order t h u r t' :
  tracker_inv t h u -> u <= now -> so_Window (opts t) < 2 ^ 63 - 1 -> add src (Some info) now order t = (r, t') ->
  let h' := record_part (sequenceStateKey src info) info now r h in
  tracker_inv t' h' now /\ opts t' = opts t /\ (r = (true, None) -> complete (opts t) h' (sequenceStateKey src info) info now).
Proof.
  intros I Hu Hw E h'. apply (tracker_inv_later _ _ _ now) in I; [|done]. unfold add in E. destruct (negb (bool_decide _)); [injection E as <- <-; by split_and!|].
  destruct (pruneLocked_inv order now t h now I) as [I1 E1]. set (t1 := pruneLocked order now t) in *.
  destruct (_ || _) eqn:Eg; [injection E as <- <-; by split_and!|]. rewrite !orb_false_iff, negb_false_iff in Eg.
  destruct Eg as [[[[Hlen%Z.eqb_eq _] _] Hi0%Z.ltb_ge] Hi1%Z.leb_gt].
  destruct (TTLLRU.GetAt _ _ _) as [done c]. set (t2 := set_completed c t1) in *.
  assert (tracker_inv t2 h now) as I2 by by apply (tracker_inv_same t1). change (opts t2) with (opts t1) in E. rewrite <- E1 in Hw |- *.
  destruct done; [injection E as <- <-; by split_and!|]. destruct (states t2 !! sequenceStateKey src info) as [st|] eqn:Ek.
  - eapply (add_part_ok _ _ _ _ st t2); try done. change (opts t2) with (opts t1). lia.
  - destruct (Z.leb_spec (so_MaxInflightPerIP (opts t1)) (ip_count (ip_text src) (perIP t2))); [injection E as <- <-; by split_and!|].
    destruct (Z.leb_spec (so_MaxTotalInflight (opts t1)) (total t2)); [injection E as <- <-; by split_and!|].
    pose proof (open_state_inv src info now t2 h I2 Ek Hlen ltac:(done) ltac:(done)) as I3.
    set (t3 := mkTracker (opts t2) _ _ _ _ _) in *. change (mkTracker (opts t1) _ _ _ _ _) with t3 in E.
    change (opts t1) with (opts t3) in Hw |- *. eapply (add_part_ok _ _ _ _ _ t3); try done; [apply lookup_insert_eq|].
    change (opts t3) with (opts t1). lia.
Qed.

(** * Runs *)

Record call := mkCall { c_src : bytes; c_info : KnockInfo; c_now : Z; c_order : list bytes }.

Abbreviation result := (bool * option error)%type.

Definition call_key (c : call) : bytes := sequenceStateKey (c_src c) (c_info c).

Fixpoint run (calls : list call) (t : sequenceTracker) : list result * sequenceTracker :=
  match calls with
  | [] => ([], t)
  | c :: calls =>
      let '(r, t) := add (c_src c) (Some (c_info c)) (c_now c) (c_order c) t in
      let '(rs, t) := run calls t in (r :: rs, t)
  end.

Fixpoint clocked (u : Z) (calls : list call) : Prop :=
  match calls with [] => True | c :: calls => u <= c_now c /\ clocked (c_now c) calls end.

(** The accepted parts of a log of calls and results. *)
Definition history (log : list (call * result)) : list part :=
  omap (fun '(c, r) => if r.2 is None then Some (mkPart (call_key c) (ki_SequenceIndex (c_info c)) (ki_SessionID (c_info c)) (c_now c))
                       else None) log.

Lemma history_snoc log c r : history (log ++ [(c, r)]) = record_part (call_key c) (c_info c) (c_now c) r (history log).
Proof. unfold history, record_part. rewrite omap_app. simpl. destruct (r.2); [apply app_nil_r|done]. Qed.

Lemma run_inv calls : forall t log u rs t',
  tracker_inv t (history log) u -> clocked u calls -> so_Window (opts t) < 2 ^ 63 - 1 -> run calls t = (rs, t') ->
  opts t' = opts t /\ tracker_inv t' (history (log ++ zip calls rs)) (default u (c_now <$> last calls)) /\
  forall n c, calls !! n = Some c -> rs !! n = Some (true, None) ->
    complete (opts t) (history (log ++ take (S n) (zip calls rs))) (call_key c) (c_info c) (c_now c).
Proof.
  induction calls as [|c calls IH]; intros t log u rs t' I Hc Hw E; cbn [run] in E.
  { injection E as <- <-. simpl. rewrite app_nil_r. done. }
  destruct Hc as [Hu Hc]. destruct (add _ _ _ _ t) as [r t1] eqn:Ea. destruct (run calls t1) as [rs1 t2] eqn:Er. injection E as <- <-.
  destruct (add_ok _ _ _ _ _ _ _ _ _ I Hu Hw Ea) as (I1 & E1 & Hdone). fold (call_key c) in I1, Hdone.
  rewrite <- history_snoc in I1, Hdone. rewrite <- E1 in Hw.
  destruct (IH t1 (log ++ [(c, r)]) (c_now c) rs1 t2 I1 Hc Hw Er) as (E2 & I2 & Hrest).
  rewrite <- app_assoc in I2. split_and!; [congruence| |].
  - rewrite last_cons. destruct (last calls); exact I2.
  - intros [|n] d; simpl.
    + intros [= <-] [= ->]. by apply Hdone.
    + intros Hd Hr. specialize (Hrest n d Hd Hr). rewrite E1, <- app_assoc in Hrest. exact Hrest.
Qed.

Lemma new_inv o ttl u : tracker_inv (newSequenceTracker o ttl) [] u.
Proof.
  split; [|done]. split; simpl; [by rewrite map_size_empty| |lia|].
  - intros ip. unfold of_ip, ip_count. by rewrite lookup_empty, map_filter_empty, map_size_empty.
  - intros ip. unfold ip_count. rewrite lookup_empty. simpl. lia.
Qed.

(** A UDP sequence only completes when all of it has arrived:
    when [add] reports a sequence complete, then for every index below the
    configured length an earlier call, or this one, was accepted for the same
    source address, client, sequence id, port and method, with the same session
    id, and no longer ago than the window; this holds for any other traffic in
    between and any iteration order of the map. *)
Theorem sequence_complete_sound (o : SequenceOptions) (ttl u : Z) (calls : list call) (n : nat) (c : call) :
  let d := normalizedSequenceOptions o in
  let rs := (run calls (newSequenceTracker o ttl)).1 in
  so_Window d < 2 ^ 63 - 1 -> clocked u calls -> calls !! n = Some c -> rs !! n = Some (true, None) ->
  forall i, 0 <= i < so_Length d -> exists c' r', (c', r') ∈ take (S n) (zip calls rs) /\ r'.2 = None /\ call_key c' = call_key c /\
    ki_SequenceIndex (c_info c') = i /\ ki_SessionID (c_info c') = ki_SessionID (c_info c) /\
    c_now c - so_Window d <= c_now c'.
Proof.
  intros d rs Hw Hc Hn Hr i Hi. unfold rs in *. destruct (run calls (newSequenceTracker o ttl)) as [rs0 t'] eqn:E. cbn [fst] in *.
  destruct (run_inv calls (newSequenceTracker o ttl) [] u rs0 t' (new_inv o ttl u) Hc Hw E) as (_ & _ & Hall).
  destruct (Hall n c Hn Hr i Hi) as (e & He & Hk & Hie & Hs & Ht). cbn [app] in He. unfold history in He.
  apply list_elem_of_omap in He as ([c' r'] & Hin & Hp). destruct (r'.2) eqn:Er'; [done|]. injection Hp as <-. simpl in *.
  exists c', r'. split_and!; try done.
Qed.

(** The tracker's limits hold: after any calls the counters are
    exact, so at most [MaxTotalInflight] sequences are open and at most
    [MaxInflightPerIP] of any one address, whatever is sent. *)
Theorem sequence_limits (o : SequenceOptions) (ttl u : Z) (calls : list call) (ip : bytes) :
  let d := normalizedSequenceOptions o in
  let t := (run calls (newSequenceTracker o ttl)).2 in
  so_Window d < 2 ^ 63 - 1 -> clocked u calls ->
  total t = Z.of_nat (size (states t)) /\ ip_count ip (perIP t) = Z.of_nat (size (of_ip ip (states t))) /\
  Z.of_nat (size (states t)) <= Z.max 0 (so_MaxTotalInflight d) /\
  Z.of_nat (size (of_ip ip (states t))) <= Z.max 0 (so_MaxInflightPerIP d).
Proof.
  intros d t Hw Hc. unfold t. destruct (run calls (newSequenceTracker o ttl)) as [rs0 t'] eqn:E. cbn [snd].
  destruct (run_inv calls (newSequenceTracker o ttl) [] u rs0 t' (new_inv o ttl u) Hc Hw E) as (Eo & [[At Ai Am Ami] _] & _).
  rewrite Eo in Am, Ami. specialize (Ami ip). rewrite <- Ai, <- At. done.
Qed.

(** ** A whole sequence *)

Definition with_index (base : KnockInfo) (i : Z) : KnockInfo :=
  mkKnockInfo (ki_ClientID base) (ki_ClientIDHash base) (ki_Method base) (ki_ServerPort base) (ki_Timestamp base) (ki_SessionID base)
    (ki_SequenceID base) i (ki_SequenceTotal base) (ki_ClientRandom base) (ki_Extensions base) (ki_Nonce base) (ki_KeyHint base)
    (ki_FrameType base) (ki_Flags base).

Lemma with_index_key src base i : sequenceStateKey src (with_index base i) = sequenceStateKey src base.
Proof. done. Qed.

(** A cache with nothing in it. *)
Definition empty_cache (c : TTLLRU.t bytes unit) : Prop := wf c /\ contents c = [].

Lemma empty_Sweep c now : empty_cache c -> empty_cache (snd (TTLLRU.Sweep now c)).
Proof.
  intros [W Hc]. pose proof (Sweep_spec c now W) as HS. destruct (TTLLRU.Sweep now c) as [n c']. destruct HS as (W' & _ & E & _).
  split; [done|]. simpl. by rewrite E, Hc.
Qed.

Lemma empty_GetAt c key now : empty_cache c -> exists c', TTLLRU.GetAt key now c = (None, c') /\ empty_cache c'.
Proof.
  intros [W Hc]. pose proof (GetAt_spec c key now W) as HG. destruct (TTLLRU.GetAt key now c) as [v c']. destruct HG as (W' & _ & E).
  rewrite Hc in E. simpl in E. injection E as -> Hc'. by exists c'.
Qed.

(** The tracker after the parts [got] of the sequence, the first at [t0]. *)
Definition parts_of (n : nat) (got : list Z) : list bool := (fun i => bool_decide (Z.of_nat i ∈ got)) <$> seq 0 n.

Record collecting (o : SequenceOptions) (key : bytes) (sid : bytes) (t0 : Z) (got : list Z) (t : sequenceTracker) : Prop := {
  co_opts : opts t = o;
  co_state : exists last, states t = {[key := mkSeqState t0 last (parts_of (Z.to_nat (so_Length o)) got) sid (so_Length o)]};
  co_cache : empty_cache (completed t);
}.

Lemma parts_of_lookup n got i : (i < n)%nat -> parts_of n got !! i = Some (bool_decide (Z.of_nat i ∈ got)).
Proof. intros Hi. unfold parts_of. rewrite list_lookup_fmap, lookup_seq_lt by done. done. Qed.

Lemma parts_of_nil n : parts_of n [] = replicate n false.
Proof.
  unfold parts_of. generalize 0%nat. induction n as [|n IH]; intros k; [done|]. csimpl. by rewrite IH.
Qed.

Lemma parts_of_insert n got i : 0 <= i < Z.of_nat n -> <[Z.to_nat i := true]> (parts_of n got) = parts_of n (got ++ [i]).
Proof.
  intros Hi. apply list_eq. intros j. destruct (decide (j < n)%nat) as [Hj|Hj].
  - rewrite (parts_of_lookup n (got ++ [i])) by done. destruct (decide (Z.to_nat i = j)) as [<-|Hne].
    + rewrite list_lookup_insert_eq by (unfold parts_of; rewrite length_fmap, length_seq; lia).
      rewrite bool_decide_eq_true_2; [done|]. rewrite Z2Nat.id by lia. set_solver.
    + rewrite list_lookup_insert_ne, parts_of_lookup by done. f_equal. apply bool_decide_ext.
      rewrite elem_of_app, list_elem_of_singleton. split; [auto|]. intros [?|?]; [done|lia].
  - rewrite !lookup_ge_None_2; [done| |]; rewrite ?length_insert; unfold parts_of; rewrite length_fmap, length_seq; lia.
Qed.

Lemma parts_of_all n got : forallb (fun b => b) (parts_of n got) = true <-> forall i, 0 <= i < Z.of_nat n -> i ∈ got.
Proof.
  rewrite forallb_forall. split.
  - intros Hall i Hi. apply (bool_decide_eq_true_1 (i ∈ got)).
    apply Hall, list_elem_of_In, list_elem_of_fmap. exists (Z.to_nat i). rewrite Z2Nat.id by lia. split; [done|].
    apply elem_of_seq. lia.
  - intros Hall b Hb. apply list_elem_of_In, list_elem_of_fmap in Hb as (i & -> & Hi). apply elem_of_seq in Hi.
    apply bool_decide_eq_true, Hall. lia.
Qed.

(** One part of a sequence whose state is open, or not yet. *)
Lemma prune_collecting o key sid t0 got order now t :
  collecting o key sid t0 got t -> Sub now t0 <= so_Window o ->
  states (pruneLocked order now t) = states t /\ collecting o key sid t0 got (pruneLocked order now t).
Proof.
  intros [Ho [last Hs] Hc] Hw. unfold pruneLocked.
  assert (fold_left (fun t key => prune_key now key t) order t = t) as ->.
  { induction order as [|k order IH]; simpl; [done|]. unfold prune_key at 2. rewrite Hs.
    destruct (decide (k = key)) as [->|Hne].
    - rewrite lookup_singleton_eq. simpl. rewrite Ho, (proj2 (Z.ltb_ge _ _)) by done. apply IH.
    - rewrite lookup_singleton_ne by done. apply IH. }
  split; [done|]. split; simpl; [done|by exists last|by apply empty_Sweep].
Qed.

(** [add_part] on the state of the sequence. *)
Lemma add_part_collects src base i now o t0 got t last :
  let key := sequenceStateKey src base in
  opts t = o -> states t = {[key := mkSeqState t0 last (parts_of (Z.to_nat (so_Length o)) got) (ki_SessionID base) (so_Length o)]} ->
  empty_cache (completed t) -> Sub now t0 <= so_Window o -> ki_SequenceTotal base = so_Length o ->
  0 <= i < so_Length o -> i ∉ got ->
  let '(r, t') := add_part src key (with_index base i) now
    (mkSeqState t0 last (parts_of (Z.to_nat (so_Length o)) got) (ki_SessionID base) (so_Length o)) t in
  if forallb (fun b => b) (parts_of (Z.to_nat (so_Length o)) (got ++ [i])) then r = (true, None)
  else r = (false, None) /\ collecting o key (ki_SessionID base) t0 (got ++ [i]) t'.
Proof.
  intros key Ho Hs Hc Hw Htot Hi Hgot. unfold add_part. cbn [firstSeen ss_total ss_sessionID parts]. rewrite Ho.
  rewrite (proj2 (Z.ltb_ge _ _)) by done. change (ki_SequenceTotal (with_index base i)) with (ki_SequenceTotal base).
  rewrite Htot, Z.eqb_refl. change (ki_SessionID (with_index base i)) with (ki_SessionID base).
  rewrite bool_decide_eq_true_2 by done. cbn [negb orb]. change (ki_SequenceIndex (with_index base i)) with i.
  rewrite (nth_lookup_Some _ _ _ (bool_decide (i ∈ got))) by
    (rewrite parts_of_lookup by lia; by rewrite Z2Nat.id by lia).
  rewrite (bool_decide_eq_false_2 (i ∈ got)) by done. rewrite parts_of_insert by lia.
  destruct (forallb _ _); cbn [negb]; [done|]. split; [done|]. split; simpl; [done| |done].
  exists now. by rewrite Hs, insert_singleton_eq.
Qed.

(** One call of [add] for the sequence. *)
Lemma add_collects src base i now order o t0 got t :
  let key := sequenceStateKey src base in
  collecting o key (ki_SessionID base) t0 got t -> Sub now t0 <= so_Window o ->
  ki_FrameType base = KnockFrameTypeUDPSequence -> ki_SequenceTotal base = so_Length o -> 2 <= so_Length o <= 8 ->
  0 <= i < so_Length o -> i ∉ got ->
  let '(r, t') := add src (Some (with_index base i)) now order t in
  if forallb (fun b => b) (parts_of (Z.to_nat (so_Length o)) (got ++ [i])) then r = (true, None)
  else r = (false, None) /\ collecting o key (ki_SessionID base) t0 (got ++ [i]) t'.
Proof.
  intros key Hcol Hw Hft Htot Hlen Hi Hgot. unfold add. change (ki_FrameType (with_index base i)) with (ki_FrameType base).
  rewrite bool_decide_eq_true_2 by done. cbn [negb]. destruct (prune_collecting o key _ t0 got order now t Hcol Hw) as [_ Hcol'].
  set (t1 := pruneLocked order now t) in *. destruct Hcol' as [Ho [last Hs] Hc].
  change (ki_SequenceTotal (with_index base i)) with (ki_SequenceTotal base). change (ki_SequenceIndex (with_index base i)) with i.
  unfold DefaultSequenceMaxParts. rewrite Ho, Htot, Z.eqb_refl, (proj2 (Z.ltb_ge _ 2)), (proj2 (Z.ltb_ge 8 _)), (proj2 (Z.ltb_ge i 0)), (proj2 (Z.leb_gt _ _)) by lia.
  cbn [negb orb]. rewrite with_index_key. fold key. destruct (empty_GetAt (completed t1) key now Hc) as (c' & -> & Hc'). cbv iota beta.
  change (states (set_completed c' t1)) with (states t1). rewrite Hs, lookup_singleton_eq.
  apply (add_part_collects src base i now o t0 got (set_completed c' t1) last); done.
Qed.

(** The first call of [add] for the sequence, on a new tracker. *)
Lemma add_first src base i now order o ttl :
  let d := normalizedSequenceOptions o in
  let key := sequenceStateKey src base in
  ki_FrameType base = KnockFrameTypeUDPSequence -> ki_SequenceTotal base = so_Length d -> 2 <= so_Length d <= 8 ->
  0 < so_MaxInflightPerIP d -> 0 < so_MaxTotalInflight d -> 0 <= i < so_Length d ->
  let '(r, t') := add src (Some (with_index base i)) now order (newSequenceTracker o ttl) in
  r = (false, None) /\ collecting d key (ki_SessionID base) now [i] t'.
Proof.
  intros d key Hft Htot Hlen Hip Hmax Hi. unfold add. change (ki_FrameType (with_index base i)) with (ki_FrameType base).
  rewrite bool_decide_eq_true_2 by done. cbn [negb].
  assert (exists c, pruneLocked order now (newSequenceTracker o ttl) = mkTracker d ∅ ∅ 0 c (nonceTT (newSequenceTracker o ttl)) /\ empty_cache c) as (c & -> & Hc).
  { unfold pruneLocked. assert (fold_left (fun t key => prune_key now key t) order (newSequenceTracker o ttl) = newSequenceTracker o ttl) as ->.
    { induction order as [|k order IH]; simpl; [done|]. unfold prune_key at 2. simpl. by rewrite lookup_empty. }
    eexists. split; [done|]. apply empty_Sweep. split; [apply wf_New|done]. }
  cbn [opts completed states]. change (ki_SequenceTotal (with_index base i)) with (ki_SequenceTotal base).
  change (ki_SequenceIndex (with_index base i)) with i. unfold DefaultSequenceMaxParts.
  rewrite Htot, Z.eqb_refl, (proj2 (Z.ltb_ge _ 2)), (proj2 (Z.ltb_ge 8 _)), (proj2 (Z.ltb_ge i 0)), (proj2 (Z.leb_gt _ _)) by lia.
  cbn [negb orb]. rewrite with_index_key. fold key. destruct (empty_GetAt c key now Hc) as (c' & -> & Hc'). cbv iota beta.
  unfold set_completed. cbn [opts states perIP total completed nonceTT]. rewrite lookup_empty. unfold ip_count. rewrite lookup_empty. cbn [default].
  rewrite (proj2 (Z.leb_gt _ 0)), (proj2 (Z.leb_gt (so_MaxTotalInflight d) 0)) by lia.
  set (st := new_state now (with_index base i)). set (t3 := mkTracker _ _ _ _ _ _).
  assert (st = mkSeqState now zero_time (parts_of (Z.to_nat (so_Length d)) []) (ki_SessionID base) (so_Length d)) as Est.
  { unfold st, new_state. simpl. rewrite Htot, parts_of_nil. done. }
  pose proof (add_part_collects src base i now d now [] t3 zero_time eq_refl) as Hadd. fold key in Hadd. rewrite <- Est in Hadd.
  assert (Sub now now <= so_Window d) as Hw0 by (unfold Sub, d, normalizedSequenceOptions, Second; cbn [so_Window]; zcases; lia).
  specialize (Hadd (insert_empty key st) Hc' Hw0 Htot Hi (not_elem_of_nil i)).
  destruct (add_part src key (with_index base i) now st t3) as [r t']. destruct (forallb _ _) eqn:Ef; [|done]. exfalso.
  rewrite parts_of_all in Ef. pose proof (Ef (if decide (i = 0) then 1 else 0) ltac:(case_decide; lia)) as Hin. simpl in Hin.
  apply list_elem_of_singleton in Hin. case_decide; lia.
Qed.

(** The calls that deliver the parts [idxs] of a sequence. *)
Fixpoint deliver (src : bytes) (base : KnockInfo) (parts : list (Z * Z * list bytes)) : list call :=
  match parts with
  | [] => []
  | (i, now, order) :: parts => mkCall src (with_index base i) now order :: deliver src base parts
  end.

Lemma collecting_runs src base o t0 parts : forall got t,
  collecting o (sequenceStateKey src base) (ki_SessionID base) t0 got t ->
  ki_FrameType base = KnockFrameTypeUDPSequence -> ki_SequenceTotal base = so_Length o -> 2 <= so_Length o <= 8 ->
  so_Window o < 2 ^ 63 - 1 -> Forall (fun p => t0 <= p.1.2 <= t0 + so_Window o) parts ->
  got ++ ((fun p => p.1.1) <$> parts) ≡ₚ seqZ 0 (so_Length o) -> parts <> [] ->
  (run (deliver src base parts) t).1 = replicate (length parts - 1) (false, None) ++ [(true, None)].
Proof.
  induction parts as [|[[i now] order] parts IH]; intros got t Hcol Hft Htot Hlen Hwin Htimes Hperm Hne; [done|].
  apply Forall_cons in Htimes as [Hnow Htimes]. simpl in Hnow. csimpl in Hperm. cbn [deliver run c_src c_info c_now c_order].
  assert (NoDup (got ++ i :: ((fun p => p.1.1) <$> parts))) as Hnd by (rewrite Hperm; apply NoDup_seqZ).
  assert (0 <= i < so_Length o) as Hi.
  { assert (i ∈ seqZ 0 (so_Length o)) as Hin by (rewrite <- Hperm; set_solver). apply elem_of_seqZ in Hin. lia. }
  assert (i ∉ got) as Hgot by (apply NoDup_app in Hnd as (_ & Hd & _); intros Hin; apply (Hd i Hin); set_solver).
  assert (Sub now t0 <= so_Window o) as Hs by (unfold Sub; lia).
  pose proof (add_collects src base i now order o t0 got t Hcol Hs Hft Htot Hlen Hi Hgot) as Hadd.
  destruct (add src (Some (with_index base i)) now order t) as [r t'].
  rewrite (cons_middle i), app_assoc in Hperm, Hnd.
  destruct parts as [|p parts].
  - assert (forallb (fun b => b) (parts_of (Z.to_nat (so_Length o)) (got ++ [i])) = true) as Hall.
    { apply parts_of_all. intros j Hj. rewrite app_nil_r in Hperm. rewrite Hperm. apply elem_of_seqZ. lia. }
    rewrite Hall in Hadd. subst r. done.
  - assert (forallb (fun b => b) (parts_of (Z.to_nat (so_Length o)) (got ++ [i])) = false) as Hnot.
    { apply not_true_iff_false. rewrite parts_of_all. intros Hall. apply NoDup_app in Hnd as (_ & Hd & _).
      assert (p.1.1 ∈ seqZ 0 (so_Length o)) as Hp by (rewrite <- Hperm; set_solver). apply elem_of_seqZ in Hp.
      apply (Hd p.1.1); [apply Hall; lia|set_solver]. }
    rewrite Hnot in Hadd. destruct Hadd as [-> Hcol'].
    specialize (IH (got ++ [i]) t' Hcol' Hft Htot Hlen Hwin Htimes Hperm ltac:(done)).
    destruct (run (deliver src base (p :: parts)) t') as [rs t'']. cbn [fst] in *. rewrite IH. simpl. by rewrite Nat.sub_0_r.
Qed.

(** A UDP sequence that arrives completes: if every index of a
    sequence of the configured length is delivered to a new tracker exactly
    once, in any order and within the window, then all calls are accepted and
    the last one, and only the last one, reports completion. *)
Theorem sequence_delivers (o : SequenceOptions) (ttl : Z) (src : bytes) (base : KnockInfo) (i t0 : Z) (order : list bytes)
    (parts : list (Z * Z * list bytes)) :
  let d := normalizedSequenceOptions o in
  ki_FrameType base = KnockFrameTypeUDPSequence -> ki_SequenceTotal base = so_Length d -> 2 <= so_Length d <= 8 ->
  0 < so_MaxInflightPerIP d -> 0 < so_MaxTotalInflight d -> so_Window d < 2 ^ 63 - 1 ->
  Forall (fun p => t0 <= p.1.2 <= t0 + so_Window d) parts ->
  i :: ((fun p => p.1.1) <$> parts) ≡ₚ seqZ 0 (so_Length d) ->
  (run (deliver src base ((i, t0, order) :: parts)) (newSequenceTracker o ttl)).1 =
  replicate (length parts) (false, None) ++ [(true, None)].
Proof.
  intros d Hft Htot Hlen Hip Hmax Hwin Htimes Hperm. cbn [deliver run c_src c_info c_now c_order].
  assert (0 <= i < so_Length d) as Hi.
  { assert (i ∈ seqZ 0 (so_Length d)) as Hin by (rewrite <- Hperm; set_solver). apply elem_of_seqZ in Hin. lia. }
  assert (parts <> []) as Hne.
  { intros ->. apply Permutation_length in Hperm. rewrite length_seqZ in Hperm. cbn [length fmap list_fmap] in Hperm. lia. }
  pose proof (add_first src base i t0 order o ttl Hft Htot Hlen Hip Hmax Hi) as Hadd.
  destruct (add src (Some (with_index base i)) t0 order (newSequenceTracker o ttl)) as [r t']. destruct Hadd as [-> Hcol].
  pose proof (collecting_runs src base d t0 parts [i] t' Hcol Hft Htot Hlen Hwin Htimes Hperm Hne) as Hrun.
  destruct (run (deliver src base parts) t') as [rs t'']. cbn [fst] in *. rewrite Hrun. destruct parts; [done|]. simpl. by rewrite Nat.sub_0_r.
Qed.

(** * Evaluation on concrete inputs *)

Definition ex_options : SequenceOptions := mkSequenceOptions 2 0 100 0 0 1 4 false.
Definition ex_source : bytes := [Byte.x0a; Byte.x00; Byte.x00; Byte.x01].
Definition ex_base : KnockInfo :=
  mkKnockInfo (str "c") [] UDPSeqMethod 22 0 (str "s") [Byte.x07] 0 2 [] [] [] 0 KnockFrameTypeUDPSequence Byte.x00.

Definition ex_calls : list call := deliver ex_source ex_base [(1, 0, []); (0, 50, [])].

Lemma sequence_delivers_witness :
  (run ex_calls (newSequenceTracker ex_options 0)).1 = [(false, None); (true, None)].
Proof.
  apply (sequence_delivers ex_options 0 ex_source ex_base 1 0 [] [(0, 50, [])]); try done.
  - apply Forall_cons. split; [simpl; lia|apply Forall_nil; exact I].
  - change (seqZ 0 _) with [0; 1]. apply Permutation_swap.
Defined.

Lemma sequence_complete_sound_witness :
  exists c' r', (c', r') ∈ take 2 (zip ex_calls (run ex_calls (newSequenceTracker ex_options 0)).1) /\ r'.2 = None /\
    ki_SequenceIndex (c_info c') = 1.
Proof.
  destruct (sequence_complete_sound ex_options 0 0 ex_calls 1 (mkCall ex_source (with_index ex_base 0) 50 [])
    ltac:(vm_compute; reflexivity) ltac:(simpl; lia) eq_refl ltac:(vm_compute; reflexivity) 1 ltac:(simpl; lia))
    as (c' & r' & Hin & Hr & _ & Hi & _).
  exists c', r'. split; [exact Hin|]. split; [exact Hr|exact Hi].
Defined.

Lemma sequence_limits_witness :
  let t := (run ex_calls (newSequenceTracker ex_options 0)).2 in
  Z.of_nat (size (of_ip (ip_text ex_source) (states t))) <= 1.
Proof.
  destruct (sequence_limits ex_options 0 0 ex_calls (ip_text ex_source) ltac:(vm_compute; reflexivity) ltac:(simpl; lia))
    as (_ & _ & _ & Hm).
  exact Hm.
Defined.
