(* ===== verification/Packet.v ===== *)
(** knock/syn_packet.go and knock/udp_passive_parse.go: the raw IP packets of
    the SYN knock, and the parsers of the passive listeners.

    The parsers read frames that anybody can send. Indexing and slicing are
    therefore written with their run-time check: [None] is a Go panic, and a
    parser returns [Some] of its own result. *)

From Stdlib Require Import ZArith Lia String.
From Stdlib Require Strings.Byte.
From stdpp Require Import base list gmap strings.
From S2P Require Import Prelude GoStd Codec Net.

Open Scope Z_scope.

(** * Checked access *)

Definition go_index (s : bytes) (i : Z) : option Z :=
  if Z.leb 0 i then byte_val <$> s !! Z.to_nat i else None.

Definition go_slice (s : bytes) (a b : Z) : option bytes :=
  if Z.leb 0 a && Z.leb a b && Z.leb b (len s) then Some (slice (Z.to_nat a) (Z.to_nat b) s) else None.

Definition go_from (s : bytes) (a : Z) : option bytes := go_slice s a (len s).

(** [binary.BigEndian.Uint16(s[a:b])] and [Uint32] *)
Definition go_uint (s : bytes) (a b : Z) : option Z := be_get <$> go_slice s a b.

(** [copy(buf[a:b], src)], [binary.BigEndian.PutUintN(buf[a:b], v)] and
    [buf[i] = v] on a buffer that is long enough. *)
Definition copy_at (a b : nat) (src buf : bytes) : bytes :=
  take a buf ++ go_copy (slice a b buf) src ++ drop b buf.
Definition put_at (a b : nat) (v : Z) (buf : bytes) : bytes := copy_at a b (be_put (b - a) v) buf.
Definition set_at (i : nat) (v : Z) (buf : bytes) : bytes := <[i := byte_of v]> buf.

(** [ip.To4()] and [ip.To16()] of a [net.IP]; [[]] is [nil]. *)
Definition To4 (ip : bytes) : bytes :=
  if Nat.eqb (length ip) 4 then ip
  else if Nat.eqb (length ip) 16 && Is4In6 ip then drop 12 ip else [].
Definition To16 (ip : bytes) : bytes :=
  if Nat.eqb (length ip) 4 then v4_in_v6_prefix ++ ip
  else if Nat.eqb (length ip) 16 then ip else [].

(** * Constants and fields *)

Definition ipv4VersionIHL : Z := 0x45.
Definition ipv6VersionTraffic : Z := 0x60.
Definition defaultPacketTTL : Z := 64.
Definition ipv4HeaderLen : nat := 20.
Definition ipv6HeaderLen : nat := 40.
Definition tcpHeaderLenWithTSOpt : nat := 32.
Definition ipv4ProtocolTCP : Z := 6.
Definition ipv4ProtocolUDP : Z := 17.
Definition tcpFlagSYN : Z := 0x02.
Definition tcpFlagACK : Z := 0x10.
Definition tcpFlagRST : Z := 0x04.
Definition tcpOptionEOL : Z := 0.
Definition tcpOptionNOP : Z := 1.
Definition tcpOptionTS : Z := 8.

(** knock/sequence.go *)
Record SYNFields := mkSYNFields { sf_Sequence : Z; sf_Window : Z; sf_Timestamp : Z }.

#[export] Instance SYNFields_eq_dec : EqDecision SYNFields.
Proof. solve_decision. Defined.

(** * Checksums *)

Fixpoint sum_words (data : bytes) (sum : Z) : Z :=
  match data with
  | a :: b :: data => sum_words data (uint32 (sum + be_get [a; b]))
  | [a] => uint32 (sum + uint32 (Z.shiftl (byte_val a) 8))
  | [] => sum
  end.

(** The loop that folds the carries. A 32-bit sum needs three rounds at most. *)
Fixpoint fold_carries (fuel : nat) (sum : Z) : Z :=
  match fuel with
  | O => sum
  | S fuel =>
      if Z.eqb (Z.shiftr sum 16) 0 then sum
      else fold_carries fuel (uint32 (Z.land sum 0xffff + Z.shiftr sum 16))
  end.

Definition checksum (data : bytes) : Z := 65535 - uint16 (fold_carries 3 (sum_words data 0)).

Definition tcpChecksum (srcIP dstIP tcp : bytes) : Z :=
  let pseudo := zeros (12 + length tcp) in
  let pseudo := copy_at 0 4 (To4 srcIP) pseudo in
  let pseudo := copy_at 4 8 (To4 dstIP) pseudo in
  let pseudo := set_at 9 ipv4ProtocolTCP pseudo in
  let pseudo := put_at 10 12 (uint16 (len tcp)) pseudo in
  let pseudo := copy_at 12 (12 + length tcp) tcp pseudo in
  checksum pseudo.

Definition tcpChecksumIPv6 (srcIP dstIP tcp : bytes) : Z :=
  let pseudo := zeros (40 + length tcp) in
  let pseudo := copy_at 0 16 (To16 srcIP) pseudo in
  let pseudo := copy_at 16 32 (To16 dstIP) pseudo in
  let pseudo := put_at 32 36 (uint32 (len tcp)) pseudo in
  let pseudo := set_at 39 ipv4ProtocolTCP pseudo in
  let pseudo := copy_at 40 (40 + length tcp) tcp pseudo in
  checksum pseudo.

Definition randomUint16 (r : rng) : res (Z * rng) :=
  '(b, r) ← rand_Read 2 r; Ok (be_get b, r).

Definition randomEphemeralPort (r : rng) : res (Z * rng) :=
  '(n, r) ← randomUint16 r; Ok (32768 + n mod 28232, r).

Definition htons (v : Z) : Z := Z.lor (Z.land (uint16 (Z.shiftl v 8)) 0xff00) (Z.shiftr v 8).

(** * Building *)

(** The TCP header, before its checksum: the statements that both builders
    share. *)
Definition syn_tcp (srcPort dstPort : Z) (fields : SYNFields) (tcp : bytes) : bytes :=
  let tcp := put_at 0 2 (uint16 srcPort) tcp in
  let tcp := put_at 2 4 (uint16 dstPort) tcp in
  let tcp := put_at 4 8 (sf_Sequence fields) tcp in
  let tcp := set_at 12 (Z.shiftl (Z.of_nat tcpHeaderLenWithTSOpt / 4) 4) tcp in
  let tcp := set_at 13 tcpFlagSYN tcp in
  let tcp := put_at 14 16 (sf_Window fields) tcp in
  let tcp := set_at 20 tcpOptionNOP tcp in
  let tcp := set_at 21 tcpOptionNOP tcp in
  let tcp := set_at 22 tcpOptionTS tcp in
  let tcp := set_at 23 10 tcp in
  let tcp := put_at 24 28 (sf_Timestamp fields) tcp in
  put_at 28 32 0 tcp.

Definition buildSYNPacket (srcIP dstIP : bytes) (srcPort dstPort : Z) (fields : SYNFields) (r : rng) : res (bytes * rng) :=
  let src4 := To4 srcIP in
  let dst4 := To4 dstIP in
  if bool_decide (src4 = []) || bool_decide (dst4 = [])
  then Err (EMsg (str "IPv4 source and destination are required"))
  else
    let packet := zeros (ipv4HeaderLen + tcpHeaderLenWithTSOpt) in
    let ip := take ipv4HeaderLen packet in
    let ip := set_at 0 ipv4VersionIHL ip in
    let ip := put_at 2 4 (uint16 (len packet)) ip in
    '(ipID, r) ← randomUint16 r;
    let ip := put_at 4 6 ipID ip in
    let ip := set_at 8 defaultPacketTTL ip in
    let ip := set_at 9 ipv4ProtocolTCP ip in
    let ip := copy_at 12 16 src4 ip in
    let ip := copy_at 16 20 dst4 ip in
    let ip := put_at 10 12 (checksum ip) ip in
    let tcp := syn_tcp srcPort dstPort fields (drop ipv4HeaderLen packet) in
    let tcp := put_at 16 18 (tcpChecksum src4 dst4 tcp) tcp in
    Ok (ip ++ tcp, r).

Definition buildSYNPacketIPv6 (srcIP dstIP : bytes) (srcPort dstPort : Z) (fields : SYNFields) : res bytes :=
  let src16 := To16 srcIP in
  let dst16 := To16 dstIP in
  if bool_decide (src16 = []) || bool_decide (dst16 = []) || negb (bool_decide (To4 srcIP = []))
     || negb (bool_decide (To4 dstIP = []))
  then Err (EMsg (str "IPv6 source and destination are required"))
  else
    let packet := zeros (ipv6HeaderLen + tcpHeaderLenWithTSOpt) in
    let ip := take ipv6HeaderLen packet in
    let ip := set_at 0 ipv6VersionTraffic ip in
    let ip := put_at 4 6 (uint16 (Z.of_nat tcpHeaderLenWithTSOpt)) ip in
    let ip := set_at 6 ipv4ProtocolTCP ip in
    let ip := set_at 7 defaultPacketTTL ip in
    let ip := copy_at 8 24 src16 ip in
    let ip := copy_at 24 40 dst16 ip in
    let tcp := syn_tcp srcPort dstPort fields (drop ipv6HeaderLen packet) in
    let tcp := put_at 16 18 (tcpChecksumIPv6 src16 dst16 tcp) tcp in
    Ok (ip ++ tcp).

(** * Finding the IP header *)

(** The switch on the ethertype that the two searches share: the offset of the
    header behind an Ethernet header, with or without a VLAN tag. *)
Definition link_offset (want : Z) (frame : bytes) : option (option Z) :=
  if Z.leb 14 (len frame) then
    etherType ← go_uint frame 12 14;
    if Z.eqb etherType want then Some (Some 14)
    else if (Z.eqb etherType 0x8100 || Z.eqb etherType 0x88a8) && Z.leb 18 (len frame) then
      inner ← go_uint frame 16 18;
      Some (if Z.eqb inner want then Some 18 else None)
    else Some None
  else Some None.

(** The searches through the first 64 bytes, at the offsets [offs]. *)
Fixpoint scan_ipv4 (protocol : Z) (frame : bytes) (offs : list Z) : option Z :=
  match offs with
  | [] => Some (-1)
  | i :: offs =>
      b ← go_index frame i;
      if Z.eqb (Z.shiftr b 4) 4 && Z.leb 5 (Z.land b 0x0f) then
        total ← go_uint frame (i + 2) (i + 4);
        if Z.leb 20 total && Z.leb (i + total) (len frame) then
          p ← go_index frame (i + 9);
          if Z.eqb p protocol then Some i else scan_ipv4 protocol frame offs
        else scan_ipv4 protocol frame offs
      else scan_ipv4 protocol frame offs
  end.

Definition findIPv4OffsetForProtocol (frame : bytes) (protocol : Z) : option Z :=
  link ← link_offset 0x0800 frame;
  match link with
  | Some off => Some off
  | None => scan_ipv4 protocol frame (seqZ 0 (Z.min 64 (len frame) - 19))
  end.

Definition findIPv4Offset (frame : bytes) : option Z := findIPv4OffsetForProtocol frame ipv4ProtocolTCP.

Fixpoint scan_ipv6 (protocol : Z) (frame : bytes) (offs : list Z) : option Z :=
  match offs with
  | [] => Some (-1)
  | i :: offs =>
      payloadLen ← go_uint frame (i + 4) (i + 6);
      b ← go_index frame i;
      if Z.eqb (Z.shiftr b 4) 6 then
        p ← go_index frame (i + 6);
        if Z.eqb p protocol && Z.leb 8 payloadLen && Z.leb (i + 40 + payloadLen) (len frame) then Some i
        else scan_ipv6 protocol frame offs
      else scan_ipv6 protocol frame offs
  end.

Definition findIPv6OffsetForProtocol (frame : bytes) (protocol : Z) : option Z :=
  link ← link_offset 0x86dd frame;
  match link with
  | Some off => Some off
  | None => scan_ipv6 protocol frame (seqZ 0 (Z.min 64 (len frame) - 39))
  end.

Definition findIPv6Offset (frame : bytes) : option Z := findIPv6OffsetForProtocol frame ipv4ProtocolTCP.

(** * TCP *)

(** The loop over the TCP options from [i]. [None] is also what is left when
    the fuel is used up, which the options' length excludes. *)
Fixpoint timestamp_from (fuel : nat) (options : bytes) (i : Z) : option (option Z) :=
  match fuel with
  | O => None
  | S fuel =>
      if Z.ltb i (len options) then
        kind ← go_index options i;
        if Z.eqb kind tcpOptionEOL then Some None
        else if Z.eqb kind tcpOptionNOP then timestamp_from fuel options (i + 1)
        else if Z.leb (len options) (i + 1) then Some None
        else
          length ← go_index options (i + 1);
          if Z.ltb length 2 || Z.ltb (len options) (i + length) then Some None
          else if Z.eqb kind tcpOptionTS && Z.eqb length 10 then Some <$> go_uint options (i + 2) (i + 6)
          else timestamp_from fuel options (i + length)
      else Some None
  end.

Definition parseTimestamp (options : bytes) : option (option Z) := timestamp_from (S (length options)) options 0.

(** The checks of a TCP segment, which the parsers share word for word: the
    flags, the header length and the timestamp option. *)
Definition syn_fields (tcp : bytes) : option (option SYNFields) :=
  flags ← go_index tcp 13;
  if Z.eqb (Z.land flags tcpFlagSYN) 0 || negb (Z.eqb (Z.land flags (Z.lor tcpFlagACK tcpFlagRST)) 0) then Some None
  else
    b ← go_index tcp 12;
    let tcpHeaderLen := Z.shiftr b 4 * 4 in
    if Z.ltb tcpHeaderLen 20 || Z.ltb (len tcp) tcpHeaderLen then Some None
    else
      options ← go_slice tcp 20 tcpHeaderLen;
      ts ← parseTimestamp options;
      match ts with
      | None => Some None
      | Some ts =>
          sequence ← go_uint tcp 4 8;
          window ← go_uint tcp 14 16;
          Some (Some (mkSYNFields sequence window ts))
      end.

Definition parseSYNFieldsFromTCP (tcp : bytes) : option (option (Z * SYNFields)) :=
  if Z.ltb (len tcp) 20 then Some None
  else
    fields ← syn_fields tcp;
    match fields with
    | None => Some None
    | Some fields => dst ← go_uint tcp 2 4; Some (Some (dst, fields))
    end.

(** The same for the one port that a listener protects. *)
Definition knock_fields (tcp : bytes) (dstPort : Z) : option (option SYNFields) :=
  port ← go_uint tcp 2 4;
  if negb (Z.eqb port dstPort) then Some None else syn_fields tcp.

(** * IP *)

(** The IPv4 header at [ipOff]: the source address and the payload. *)
Definition ipv4_payload (frame : bytes) (ipOff protocol : Z) : option (option (bytes * bytes)) :=
  if Z.ltb ipOff 0 || Z.ltb (len frame) (ipOff + 20) then Some None
  else
    ip ← go_from frame ipOff;
    b ← go_index ip 0;
    let ihl := Z.land b 0x0f * 4 in
    if Z.ltb ihl 20 || Z.ltb (len ip) ihl then Some None
    else
      total ← go_uint ip 2 4;
      let total := if Z.leb total ihl || Z.ltb (len ip) total then len ip else total in
      p ← go_index ip 9;
      if negb (Z.eqb p protocol) then Some None
      else
        payload ← go_slice ip ihl total;
        src ← go_slice ip 12 16;
        Some (Some (src, payload)).

(** The IPv6 header at [ipOff], with the least length of its payload. *)
Definition ipv6_payload (frame : bytes) (ipOff protocol minLen : Z) : option (option (bytes * bytes)) :=
  if Z.ltb ipOff 0 || Z.ltb (len frame) (ipOff + 40) then Some None
  else
    ip ← go_from frame ipOff;
    payloadLen ← go_uint ip 4 6;
    p ← go_index ip 6;
    if negb (Z.eqb p protocol) || Z.ltb payloadLen minLen || Z.ltb (len ip) (40 + payloadLen) then Some None
    else
      payload ← go_slice ip 40 (40 + payloadLen);
      src ← go_slice ip 8 24;
      Some (Some (src, payload)).

(** * The parsers *)

Definition with_src {A} (src : bytes) (r : option A) : option (bytes * A) := pair src <$> r.

Definition parseSYNPacketIPv6 (frame : bytes) : option (option (bytes * Z * SYNFields)) :=
  ipOff ← findIPv6Offset frame;
  ip ← ipv6_payload frame ipOff ipv4ProtocolTCP 20;
  match ip with
  | None => Some None
  | Some (src, tcp) =>
      r ← parseSYNFieldsFromTCP tcp;
      Some ('(dst, fields) ← r; Some (src, dst, fields))
  end.

Definition parseSYNPacketIPv4 (frame : bytes) : option (option (bytes * Z * SYNFields)) :=
  ipOff ← findIPv4Offset frame;
  ip ← ipv4_payload frame ipOff ipv4ProtocolTCP;
  match ip with
  | None => Some None
  | Some (src, tcp) =>
      r ← parseSYNFieldsFromTCP tcp;
      Some ('(dst, fields) ← r; Some (src, dst, fields))
  end.

Definition parseSYNPacket (frame : bytes) : option (option (bytes * Z * SYNFields)) :=
  r ← parseSYNPacketIPv6 frame;
  match r with
  | Some r => Some (Some r)
  | None => parseSYNPacketIPv4 frame
  end.

Definition parseSYNKnockIPv6 (frame : bytes) (dstPort : Z) : option (option (bytes * SYNFields)) :=
  ipOff ← findIPv6Offset frame;
  ip ← ipv6_payload frame ipOff ipv4ProtocolTCP 20;
  match ip with
  | None => Some None
  | Some (src, tcp) => fields ← knock_fields tcp dstPort; Some (with_src src fields)
  end.

Definition parseSYNKnockIPv4 (frame : bytes) (dstPort : Z) : option (option (bytes * SYNFields)) :=
  ipOff ← findIPv4Offset frame;
  ip ← ipv4_payload frame ipOff ipv4ProtocolTCP;
  match ip with
  | None => Some None
  | Some (src, tcp) =>
      if Z.ltb (len tcp) 20 then Some None
      else fields ← knock_fields tcp dstPort; Some (with_src src fields)
  end.

Definition parseSYNKnock (frame : bytes) (dstPort : Z) : option (option (bytes * SYNFields)) :=
  r ← parseSYNKnockIPv6 frame dstPort;
  match r with
  | Some r => Some (Some r)
  | None => parseSYNKnockIPv4 frame dstPort
  end.

(** knock/udp_passive_parse.go *)

Definition parseUDPPayload (udp : bytes) (dstPort : Z) : option (option bytes) :=
  if Z.ltb (len udp) 8 then Some None
  else
    port ← go_uint udp 2 4;
    if negb (Z.eqb port dstPort) then Some None
    else
      udpLen ← go_uint udp 4 6;
      if Z.ltb udpLen 8 || Z.ltb (len udp) udpLen then Some None
      else Some <$> go_slice udp 8 udpLen.

Definition parseUDPKnockIPv4 (frame : bytes) (dstPort : Z) : option (option (bytes * bytes)) :=
  ipOff ← findIPv4OffsetForProtocol frame ipv4ProtocolUDP;
  ip ← ipv4_payload frame ipOff ipv4ProtocolUDP;
  match ip with
  | None => Some None
  | Some (src, udp) => payload ← parseUDPPayload udp dstPort; Some (with_src src payload)
  end.

Definition parseUDPKnockIPv6 (frame : bytes) (dstPort : Z) : option (option (bytes * bytes)) :=
  ipOff ← findIPv6OffsetForProtocol frame ipv4ProtocolUDP;
  ip ← ipv6_payload frame ipOff ipv4ProtocolUDP 8;
  match ip with
  | None => Some None
  | Some (src, udp) => payload ← parseUDPPayload udp dstPort; Some (with_src src payload)
  end.

Definition parseUDPKnockDatagram (frame : bytes) (dstPort : Z) : option (option (bytes * bytes)) :=
  r ← parseUDPKnockIPv6 frame dstPort;
  match r with
  | Some r => Some (Some r)
  | None => parseUDPKnockIPv4 frame dstPort
  end.

(** * A program logic for checked access *)

(** [wp m Q]: [m] does not panic and its result satisfies [Q]. *)
Definition wp {A} (m : option A) (Q : A -> Prop) : Prop :=
  match m with Some a => Q a | None => False end.

Lemma wp_ret {A} (a : A) (Q : A -> Prop) : Q a -> wp (Some a) Q.
Proof. done. Qed.

Lemma wp_bind {A B} (m : option A) (f : A -> option B) (Q : B -> Prop) :
  wp m (fun a => wp (f a) Q) -> wp (m ≫= f) Q.
Proof. by destruct m. Qed.

Lemma wp_fmap {A B} (m : option A) (f : A -> B) (Q : B -> Prop) : wp m (fun a => Q (f a)) -> wp (f <$> m) Q.
Proof. by destruct m. Qed.

Lemma wp_mono {A} (m : option A) (P Q : A -> Prop) : wp m P -> (forall a, P a -> Q a) -> wp m Q.
Proof. destruct m; simpl; auto. Qed.

Lemma wp_Some {A} (m : option A) (Q : A -> Prop) a : wp m Q -> m = Some a -> Q a.
Proof. by intros H ->. Qed.

Lemma wp_index s i (Q : Z -> Prop) :
  0 <= i < len s -> (forall v, go_index s i = Some v -> 0 <= v < 256 -> Q v) -> wp (go_index s i) Q.
Proof.
  unfold go_index, len. intros Hi HQ. rewrite (proj2 (Z.leb_le 0 i)) in * by lia.
  destruct (lookup_lt_is_Some_2 s (Z.to_nat i)) as [b Hb]; [lia|]. rewrite Hb in *. apply HQ; [done|apply byte_val_bound].
Qed.

Lemma len_slice {A} (a b : Z) (s : list A) : 0 <= a <= b -> b <= len s -> len (slice (Z.to_nat a) (Z.to_nat b) s) = b - a.
Proof. unfold slice, len. intros H1 H2. rewrite length_take, length_drop. lia. Qed.

Lemma wp_slice s a b (Q : bytes -> Prop) :
  0 <= a <= b -> b <= len s -> (forall x, len x = b - a -> Q x) -> wp (go_slice s a b) Q.
Proof.
  unfold go_slice. intros H1 H2 HQ.
  rewrite (proj2 (Z.leb_le 0 a)), (proj2 (Z.leb_le a b)), (proj2 (Z.leb_le b _)) by lia. simpl.
  apply HQ. by apply len_slice.
Qed.

Lemma wp_from s a (Q : bytes -> Prop) :
  0 <= a <= len s -> (forall x, len x = len s - a -> Q x) -> wp (go_from s a) Q.
Proof. intros H HQ. apply wp_slice; [lia..|done]. Qed.

Lemma wp_uint s a b (Q : Z -> Prop) :
  0 <= a <= b -> b <= len s -> (forall v, go_uint s a b = Some v -> 0 <= v < 256 ^ (b - a) -> Q v) -> wp (go_uint s a b) Q.
Proof.
  intros H1 H2 HQ. destruct (go_uint s a b) as [v|] eqn:E; unfold go_uint in E.
  - apply HQ; [done|]. apply fmap_Some in E as (x & Ex & ->).
    eapply wp_Some in Ex; [|apply (wp_slice s a b (fun x => len x = b - a)); done || lia].
    pose proof (be_get_bound x). unfold len in Ex. rewrite Ex in *. done.
  - apply fmap_None in E. pose proof (wp_slice s a b (fun _ => True) H1 H2 (fun _ _ => I)) as W. by rewrite E in W.
Qed.

(** One step of a parser: case analysis on its tests, the rule of the next
    access, arithmetic for the bounds. *)
Ltac wp_step :=
  lazymatch goal with
  | |- wp (match ?x with _ => _ end) _ =>
      lazymatch type of x with
      | bool => let E := fresh "E" in destruct x eqn:E; rewrite ?orb_true_iff, ?orb_false_iff, ?andb_true_iff, ?andb_false_iff,
          ?Z.ltb_lt, ?Z.ltb_ge, ?Z.leb_le, ?Z.leb_gt, ?negb_true_iff, ?negb_false_iff, ?Z.eqb_eq, ?Z.eqb_neq in E
      | _ => destruct x
      end
  | |- wp (Some _) _ => apply wp_ret
  | |- wp (_ ≫= _) _ => apply wp_bind
  | |- wp (_ <$> _) _ => apply wp_fmap
  | |- wp (go_index _ _) _ => apply wp_index; [lia|intros ? ? ?]
  | |- wp (go_slice _ _ _) _ => apply wp_slice; [lia|lia|intros ? ?]
  | |- wp (go_from _ _) _ => apply wp_from; [lia|intros ? ?]
  | |- wp (go_uint _ _ _) _ => apply wp_uint; [lia|lia|intros ? ? ?]
  end.
Ltac wp_steps := repeat (wp_step; cbn beta zeta).

Lemma wp_link_offset want frame (Q : option Z -> Prop) :
  Q None -> (forall o, o = 14 \/ o = 18 -> Q (Some o)) -> wp (link_offset want frame) Q.
Proof. intros HN HS. unfold link_offset. wp_steps; zcases; auto. Qed.

Lemma wp_scan_ipv4 protocol frame offs (Q : Z -> Prop) :
  Forall (fun i => 0 <= i /\ i + 20 <= len frame) offs -> (forall i, -1 <= i -> Q i) -> wp (scan_ipv4 protocol frame offs) Q.
Proof.
  intros HF HQ. induction HF as [|i offs Hi HF IH]; simpl; [apply HQ; lia|].
  wp_steps; first [exact IH | apply HQ; lia].
Qed.

(** What the search for an IPv6 header checks at the offset it returns. *)
Definition ipv6_at (protocol : Z) (frame : bytes) (i : Z) : Prop :=
  go_index frame (i + 6) = Some protocol /\
  exists payloadLen, go_uint frame (i + 4) (i + 6) = Some payloadLen /\ i + 40 + payloadLen <= len frame.

Lemma wp_scan_ipv6 protocol frame offs (Q : Z -> Prop) :
  Forall (fun i => 0 <= i /\ i + 40 <= len frame) offs ->
  Q (-1) -> (forall i, 0 <= i -> ipv6_at protocol frame i -> Q i) -> wp (scan_ipv6 protocol frame offs) Q.
Proof.
  intros HF HN HS. induction HF as [|i offs Hi HF IH]; simpl; [done|].
  wp_steps; try exact IH. apply HS; [lia|]. split; [destruct E0 as [[<- ?] ?]; done|]. eexists. split; [eassumption|lia].
Qed.

Lemma wp_find_ipv4 frame protocol (Q : Z -> Prop) : (forall i, -1 <= i -> Q i) -> wp (findIPv4OffsetForProtocol frame protocol) Q.
Proof.
  intros HQ. unfold findIPv4OffsetForProtocol. apply wp_bind, wp_link_offset; [|intros o Ho; apply wp_ret, HQ; lia].
  apply wp_scan_ipv4; [|done]. apply Forall_forall. intros i Hi%elem_of_seqZ. lia.
Qed.

Lemma wp_find_ipv6 frame protocol (Q : Z -> Prop) : (forall i, -1 <= i -> Q i) -> wp (findIPv6OffsetForProtocol frame protocol) Q.
Proof.
  intros HQ. unfold findIPv6OffsetForProtocol. apply wp_bind, wp_link_offset; [|intros o Ho; apply wp_ret, HQ; lia].
  apply wp_scan_ipv6; [|apply HQ; lia|intros; apply HQ; lia]. apply Forall_forall. intros i Hi%elem_of_seqZ. lia.
Qed.

Lemma wp_ipv4_payload frame off protocol (Q : option (bytes * bytes) -> Prop) :
  -1 <= off -> Q None -> (forall src p, len src = 4 -> Q (Some (src, p))) -> wp (ipv4_payload frame off protocol) Q.
Proof.
  intros Ho HN HS. unfold ipv4_payload. wp_steps; auto; zcases; cbn [orb]; wp_steps; auto.
Qed.

Lemma wp_ipv6_payload frame off protocol m (Q : option (bytes * bytes) -> Prop) :
  -1 <= off -> 0 <= m -> Q None -> (forall src p, len src = 16 -> m <= len p -> Q (Some (src, p))) ->
  wp (ipv6_payload frame off protocol m) Q.
Proof. intros Ho Hm HN HS. unfold ipv6_payload. wp_steps; auto. apply HS; lia. Qed.

(** The loop over the options ends: every round moves on by at least one byte. *)
Lemma wp_timestamp_from fuel options i (Q : option Z -> Prop) :
  0 <= i <= len options -> len options - i < Z.of_nat fuel -> (forall r, Q r) -> wp (timestamp_from fuel options i) Q.
Proof.
  revert i. induction fuel as [|fuel IH]; intros i Hi Hf HQ; [lia|].
  simpl. wp_steps; try apply HQ; apply IH; auto; lia.
Qed.

Lemma wp_syn_fields tcp (Q : option SYNFields -> Prop) : 20 <= len tcp -> (forall r, Q r) -> wp (syn_fields tcp) Q.
Proof.
  intros Hl HQ. unfold syn_fields. wp_steps; try apply HQ. unfold parseTimestamp.
  apply wp_timestamp_from; [unfold len; lia..|]. intros r. wp_steps; apply HQ.
Qed.

Lemma wp_knock_fields tcp port (Q : option SYNFields -> Prop) : 20 <= len tcp -> (forall r, Q r) -> wp (knock_fields tcp port) Q.
Proof. intros Hl HQ. unfold knock_fields. wp_steps; [apply HQ|by apply wp_syn_fields]. Qed.

Lemma wp_parse_tcp tcp (Q : option (Z * SYNFields) -> Prop) : (forall r, Q r) -> wp (parseSYNFieldsFromTCP tcp) Q.
Proof.
  intros HQ. unfold parseSYNFieldsFromTCP. wp_steps; try apply HQ. apply wp_syn_fields; [lia|]. intros r. wp_steps; apply HQ.
Qed.

Lemma wp_parse_udp udp port (Q : option bytes -> Prop) : (forall r, Q r) -> wp (parseUDPPayload udp port) Q.
Proof. intros HQ. unfold parseUDPPayload. wp_steps; apply HQ. Qed.

Lemma wp_parsed_tcp src tcp (Q : option (bytes * Z * SYNFields) -> Prop) :
  (forall r, Q r) -> wp (r ← parseSYNFieldsFromTCP tcp; Some ('(dst, fields) ← r; Some (src, dst, fields))) Q.
Proof. intros HQ. apply wp_bind, wp_parse_tcp. intros r. apply wp_ret, HQ. Qed.

Lemma wp_SYNPacketIPv6 frame (Q : option (bytes * Z * SYNFields) -> Prop) : (forall r, Q r) -> wp (parseSYNPacketIPv6 frame) Q.
Proof.
  intros HQ. apply wp_bind, wp_find_ipv6. intros off Ho. apply wp_bind, wp_ipv6_payload; [lia|lia|apply wp_ret, HQ|].
  intros src tcp _ _. by apply wp_parsed_tcp.
Qed.

Lemma wp_SYNPacketIPv4 frame (Q : option (bytes * Z * SYNFields) -> Prop) : (forall r, Q r) -> wp (parseSYNPacketIPv4 frame) Q.
Proof.
  intros HQ. apply wp_bind, wp_find_ipv4. intros off Ho. apply wp_bind, wp_ipv4_payload; [lia|apply wp_ret, HQ|].
  intros src tcp _. by apply wp_parsed_tcp.
Qed.

Lemma wp_SYNKnockIPv6 frame port (Q : option (bytes * SYNFields) -> Prop) : (forall r, Q r) -> wp (parseSYNKnockIPv6 frame port) Q.
Proof.
  intros HQ. apply wp_bind, wp_find_ipv6. intros off Ho. apply wp_bind, wp_ipv6_payload; [lia|lia|apply wp_ret, HQ|].
  intros src tcp _ Hl. apply wp_bind, wp_knock_fields; [lia|]. intros r. apply wp_ret, HQ.
Qed.

Lemma wp_SYNKnockIPv4 frame port (Q : option (bytes * SYNFields) -> Prop) : (forall r, Q r) -> wp (parseSYNKnockIPv4 frame port) Q.
Proof.
  intros HQ. apply wp_bind, wp_find_ipv4. intros off Ho. apply wp_bind, wp_ipv4_payload; [lia|apply wp_ret, HQ|].
  intros src tcp _. wp_steps; [apply HQ|]. apply wp_knock_fields; [lia|]. intros r. apply wp_ret, HQ.
Qed.

Lemma wp_UDPKnockIPv6 frame port (Q : option (bytes * bytes) -> Prop) : (forall r, Q r) -> wp (parseUDPKnockIPv6 frame port) Q.
Proof.
  intros HQ. apply wp_bind, wp_find_ipv6. intros off Ho. apply wp_bind, wp_ipv6_payload; [lia|lia|apply wp_ret, HQ|].
  intros src udp _ _. apply wp_bind, wp_parse_udp. intros r. apply wp_ret, HQ.
Qed.

Lemma wp_UDPKnockIPv4 frame port (Q : option (bytes * bytes) -> Prop) : (forall r, Q r) -> wp (parseUDPKnockIPv4 frame port) Q.
Proof.
  intros HQ. apply wp_bind, wp_find_ipv4. intros off Ho. apply wp_bind, wp_ipv4_payload; [lia|apply wp_ret, HQ|].
  intros src udp _. apply wp_bind, wp_parse_udp. intros r. apply wp_ret, HQ.
Qed.

(** Property C36. The packet parsers are memory safe and total: on every frame that
    arrives on the wire, every index and slice of the TCP and UDP parsers is in
    range, and their loops end. *)
Theorem parsers_never_panic (frame : bytes) (dstPort : Z) :
  parseSYNPacket frame <> None /\ parseSYNKnock frame dstPort <> None /\ parseUDPKnockDatagram frame dstPort <> None.
Proof.
  assert (forall A (m : option A), wp m (fun _ => True) -> m <> None) as Hwp by (by intros ? [] ?).
  split_and!; apply Hwp, wp_bind.
  - apply wp_SYNPacketIPv6. intros [r|]; [done|]. by apply wp_SYNPacketIPv4.
  - apply wp_SYNKnockIPv6. intros [r|]; [done|]. by apply wp_SYNKnockIPv4.
  - apply wp_UDPKnockIPv6. intros [r|]; [done|]. by apply wp_UDPKnockIPv4.
Qed.

(** * The Internet checksum *)

(** The sum of the 16-bit words, without the width of [sum]. *)
Fixpoint word_sum (data : bytes) : Z :=
  match data with
  | a :: b :: data => be_get [a; b] + word_sum data
  | [a] => 256 * byte_val a
  | [] => 0
  end.

Lemma be_get_pair_bound a b : 0 <= be_get [a; b] < 65536.
Proof. exact (be_get_bound [a; b]). Qed.

Lemma bytes_pair_ind (P : bytes -> Prop) :
  P [] -> (forall a, P [a]) -> (forall a b l, P l -> P (a :: b :: l)) -> forall l, P l.
Proof.
  intros H0 H1 H2 l. enough (P l /\ forall a, P (a :: l)) by tauto.
  induction l as [|b l [IH1 IH2]]; split; auto.
Qed.

Lemma word_sum_bound data : 0 <= word_sum data <= 65535 * len data.
Proof.
  induction data as [|a|a b data IH] using bytes_pair_ind; [done| |].
  - pose proof (byte_val_bound a). unfold len. simpl. lia.
  - pose proof (be_get_pair_bound a b). cbn [word_sum]. rewrite !len_cons. lia.
Qed.

Lemma sum_words_exact data s : 0 <= s -> s + word_sum data < 2 ^ 32 -> sum_words data s = s + word_sum data.
Proof.
  revert s. induction data as [|a|a b data IH] using bytes_pair_ind; intros s Hs Hb; cbn [sum_words word_sum] in *.
  - lia.
  - pose proof (byte_val_bound a). rewrite Z.shiftl_mul_pow2 by lia. unfold uint32.
    rewrite (Z.mod_small (byte_val a * _)), Z.mod_small by lia. lia.
  - pose proof (be_get_pair_bound a b). pose proof (word_sum_bound data). pose proof (len_nonneg data).
    unfold uint32. rewrite Z.mod_small by lia. rewrite IH by lia. lia.
Qed.

(** Folding keeps the sum modulo 65535 and brings it into 16 bits; only 0
    folds to 0. *)
Lemma fold_step s : 0 <= s < 2 ^ 32 ->
  let k := Z.shiftr s 16 in
  uint32 (Z.land s 0xffff + k) = s - 65535 * k /\ 65536 * k <= s < 65536 * k + 65536.
Proof.
  intros Hs. change (Z.land s 0xffff) with (Z.land s (Z.ones 16)). cbn zeta. rewrite Z.land_ones, Z.shiftr_div_pow2 by lia. unfold uint32.
  rewrite (Z.mod_small _ (2 ^ 32)); Z.div_mod_to_equations; lia.
Qed.

Lemma fold_carries_spec s : 0 <= s < 2 ^ 32 ->
  let f := fold_carries 3 s in
  0 <= f < 65536 /\ (exists k, s = f + 65535 * k) /\ (f = 0 -> s = 0).
Proof.
  intros Hs. cbn [fold_carries]. destruct (fold_step s Hs) as [-> B1]. set (k1 := Z.shiftr s 16) in *.
  destruct (Z.eqb_spec k1 0) as [E1|E1]; [split_and!; [lia..|exists 0; lia|lia]|].
  destruct (fold_step (s - 65535 * k1) ltac:(lia)) as [-> B2]. set (k2 := Z.shiftr (s - _) 16) in *.
  destruct (Z.eqb_spec k2 0) as [E2|E2]; [split_and!; [lia..|exists k1; lia|lia]|].
  assert (Z.shiftr (s - 65535 * k1 - 65535 * k2) 16 = 0) as ->.
  { rewrite Z.shiftr_div_pow2 by lia. apply Z.div_small. lia. }
  simpl. split_and!; [lia..|exists (k1 + k2); lia|lia].
Qed.

Lemma checksum_spec data : len data <= 1000 ->
  0 <= checksum data < 65536 /\ (exists k, word_sum data + checksum data = 65535 * k) /\
  (checksum data = 65535 <-> word_sum data = 0).
Proof.
  intros Hl. pose proof (word_sum_bound data). unfold checksum. rewrite sum_words_exact by lia. rewrite Z.add_0_l.
  destruct (fold_carries_spec (word_sum data) ltac:(lia)) as (Hb & (k & Hk) & H0). unfold uint16. rewrite Z.mod_small by lia.
  split_and!; [lia..|exists (k + 1); lia|]. split; intros E; [apply H0; lia|by rewrite E].
Qed.

(** Data whose sum is that of other data plus its checksum has the checksum 0:
    the receiver's test. *)
Lemma checksum_verifies data data0 :
  len data <= 1000 -> len data0 <= 1000 -> word_sum data = word_sum data0 + checksum data0 -> checksum data = 0.
Proof.
  intros Hl Hl0 E. destruct (checksum_spec data Hl) as (B & (k & Hk) & Hz). destruct (checksum_spec data0 Hl0) as (B0 & (k0 & Hk0) & Hz0).
  pose proof (word_sum_bound data0). assert (checksum data = 0 \/ checksum data = 65535) as [?|E1] by lia; [done|].
  apply Hz in E1. assert (checksum data0 = 65535) by (apply Hz0; lia). lia.
Qed.

(** * Layouts *)

(** A TCP segment of the knock from the bytes of its fields. *)
Definition segment (sp dp sq win ck ts : bytes) : bytes :=
  sp ++ dp ++ sq ++ zeros 4 ++ [Byte.x80; Byte.x02] ++ win ++ ck ++ zeros 2
    ++ [Byte.x01; Byte.x01; Byte.x08; Byte.x0a] ++ ts ++ zeros 4.

Definition ipv4_header (id ck src dst : bytes) : bytes :=
  [Byte.x45; Byte.x00; Byte.x00; Byte.x34] ++ id ++ [Byte.x00; Byte.x00; Byte.x40; Byte.x06] ++ ck ++ src ++ dst.

Definition ipv6_header (src dst : bytes) : bytes :=
  [Byte.x60; Byte.x00; Byte.x00; Byte.x00; Byte.x00; Byte.x20; Byte.x06; Byte.x40] ++ src ++ dst.

Lemma length_2 {A} (l : list A) : length l = 2%nat -> exists a b, l = [a; b].
Proof. destruct l as [|a [|b [|]]]; intros E; try discriminate E. by exists a, b. Qed.

Lemma length_4 {A} (l : list A) : length l = 4%nat -> exists a b c d, l = [a; b; c; d].
Proof. destruct l as [|a [|b [|c [|d [|]]]]]; intros E; try discriminate E. by exists a, b, c, d. Qed.

(** The same for a MAC address and for an IPv6 address. *)
Ltac explode l H :=
  repeat (destruct l as [|? l]; [discriminate H|]); destruct l; [clear H|discriminate H].

Lemma syn_tcp_eq srcPort dstPort fields :
  syn_tcp srcPort dstPort fields (zeros 32) =
  segment (be_put 2 srcPort) (be_put 2 dstPort) (be_put 4 (sf_Sequence fields)) (be_put 2 (sf_Window fields)) (zeros 2)
    (be_put 4 (sf_Timestamp fields)).
Proof.
  unfold syn_tcp, put_at. simpl Nat.sub. rewrite !be_put_2_uint16.
  destruct (length_2 (be_put 2 srcPort)) as (a1 & a2 & ->); [apply length_be_put|].
  destruct (length_2 (be_put 2 dstPort)) as (b1 & b2 & ->); [apply length_be_put|].
  destruct (length_4 (be_put 4 (sf_Sequence fields))) as (c1 & c2 & c3 & c4 & ->); [apply length_be_put|].
  destruct (length_2 (be_put 2 (sf_Window fields))) as (d1 & d2 & ->); [apply length_be_put|].
  destruct (length_4 (be_put 4 (sf_Timestamp fields))) as (e1 & e2 & e3 & e4 & ->); [apply length_be_put|].
  assert (be_put 4 0 = zeros 4) as -> by (vm_compute; reflexivity). reflexivity.
Qed.

Lemma put_checksum_tcp sp dp sq win ts v :
  length sp = 2%nat -> length dp = 2%nat -> length sq = 4%nat -> length win = 2%nat -> length ts = 4%nat ->
  put_at 16 18 v (segment sp dp sq win (zeros 2) ts) = segment sp dp sq win (be_put 2 v) ts.
Proof.
  intros H1 H2 H3 H4 H5. unfold put_at. simpl Nat.sub.
  destruct (length_2 (be_put 2 v)) as (a1 & a2 & ->); [apply length_be_put|].
  apply length_2 in H1 as (? & ? & ->), H2 as (? & ? & ->), H4 as (? & ? & ->).
  apply length_4 in H3 as (? & ? & ? & ? & ->), H5 as (? & ? & ? & ? & ->). reflexivity.
Qed.

Lemma randomUint16_inv r v r' : randomUint16 r = Ok (v, r') -> exists id, length id = 2%nat /\ v = be_get id.
Proof.
  intros E. apply res_bind_Ok in E as ([b r1] & E & [= <- <-]). unfold rand_Read in E. case_decide; [|done]. injection E as <- <-.
  exists (take 2 r). split; [rewrite length_take; lia|done].
Qed.

Lemma To4_nonempty ip : To4 ip <> [] -> length (To4 ip) = 4%nat.
Proof.
  unfold To4. destruct (Nat.eqb_spec (length ip) 4); [done|]. destruct (Nat.eqb_spec (length ip) 16); simpl; [|done].
  destruct (Is4In6 ip); [|done]. rewrite length_drop. lia.
Qed.

Lemma To4_idem ip : To4 (To4 ip) = To4 ip.
Proof.
  destruct (decide (To4 ip = [])) as [->|Hn]; [done|]. apply To4_nonempty in Hn. unfold To4 at 1. by rewrite Hn.
Qed.

Lemma buildSYNPacket_inv srcIP dstIP srcPort dstPort fields r packet r' :
  buildSYNPacket srcIP dstIP srcPort dstPort fields r = Ok (packet, r') ->
  length (To4 srcIP) = 4%nat /\ length (To4 dstIP) = 4%nat /\
  exists id, length id = 2%nat /\
  let tcp ck := segment (be_put 2 srcPort) (be_put 2 dstPort) (be_put 4 (sf_Sequence fields)) (be_put 2 (sf_Window fields)) ck
                  (be_put 4 (sf_Timestamp fields)) in
  let ip ck := ipv4_header id ck (To4 srcIP) (To4 dstIP) in
  packet = ip (be_put 2 (checksum (ip (zeros 2)))) ++ tcp (be_put 2 (tcpChecksum (To4 srcIP) (To4 dstIP) (tcp (zeros 2)))).
Proof.
  unfold buildSYNPacket. case_bool_decide as Hs; [done|]. case_bool_decide as Hd; [done|]. cbn [orb]. intros E.
  apply res_bind_Ok in E as ([v r1] & E & E1). apply randomUint16_inv in E as (id & Hid & ->). injection E1 as <- <-.
  apply To4_nonempty in Hs, Hd. split; [done|]. split; [done|]. exists id. split; [done|]. cbn zeta.
  change (drop ipv4HeaderLen _) with (zeros 32). rewrite syn_tcp_eq, put_checksum_tcp by apply length_be_put.
  f_equal. unfold put_at. simpl Nat.sub. change (be_put 2 (uint16 _)) with [Byte.x00; Byte.x34].
  assert (be_put 2 (be_get id) = id) as -> by (rewrite <- Hid; apply be_put_get).
  apply length_2 in Hid as (i1 & i2 & ->). apply length_4 in Hs as (s1 & s2 & s3 & s4 & ->), Hd as (d1 & d2 & d3 & d4 & ->).
  match goal with |- context [checksum ?ip] => change ip with (ipv4_header [i1; i2] (zeros 2) [s1; s2; s3; s4] [d1; d2; d3; d4]) end.
  destruct (length_2 (be_put 2 (checksum (ipv4_header [i1; i2] (zeros 2) [s1; s2; s3; s4] [d1; d2; d3; d4]))))
    as (c1 & c2 & ->); [apply length_be_put|]. reflexivity.
Qed.

Lemma buildSYNPacketIPv6_inv srcIP dstIP srcPort dstPort fields packet :
  buildSYNPacketIPv6 srcIP dstIP srcPort dstPort fields = Ok packet ->
  length srcIP = 16%nat /\ length dstIP = 16%nat /\
  let tcp ck := segment (be_put 2 srcPort) (be_put 2 dstPort) (be_put 4 (sf_Sequence fields)) (be_put 2 (sf_Window fields)) ck
                  (be_put 4 (sf_Timestamp fields)) in
  packet = ipv6_header srcIP dstIP ++ tcp (be_put 2 (tcpChecksumIPv6 srcIP dstIP (tcp (zeros 2)))).
Proof.
  unfold buildSYNPacketIPv6. case_bool_decide as Hs; [done|]. case_bool_decide as Hd; [done|].
  case_bool_decide as Hs4; [|done]. case_bool_decide as Hd4; [|done]. cbn [orb negb].
  assert (forall ip, To16 ip <> [] -> To4 ip = [] -> length ip = 16%nat /\ To16 ip = ip) as H16.
  { intros ip. unfold To16, To4. destruct (Nat.eqb_spec (length ip) 4) as [El|_]; [by intros _ ->|].
    destruct (Nat.eqb_spec (length ip) 16); [|done]. done. }
  destruct (H16 srcIP Hs Hs4) as [Ls ->]. destruct (H16 dstIP Hd Hd4) as [Ld ->]. intros [= <-]. split; [done|]. split; [done|].
  change (drop ipv6HeaderLen _) with (zeros 32). rewrite syn_tcp_eq, put_checksum_tcp by apply length_be_put.
  f_equal. unfold put_at. simpl Nat.sub. change (be_put 2 (uint16 _)) with [Byte.x00; Byte.x20]. clear Hs Hd Hs4 Hd4 H16.
  explode srcIP Ls. explode dstIP Ld. reflexivity.
Qed.

Lemma word_sum_app x y : Nat.Even (length x) -> word_sum (x ++ y) = word_sum x + word_sum y.
Proof.
  induction x as [|a|a b x IH] using bytes_pair_ind; intros Hx; [done|by destruct Hx; simpl in *; lia|].
  cbn [word_sum app]. rewrite IH; [lia|]. destruct Hx as [k Hk]. exists (k - 1)%nat. simpl in Hk. lia.
Qed.

(** Filling in a field of the data that was zero, at an even offset. *)
Lemma word_sum_field pre post v :
  Nat.Even (length pre) -> is_uint16 v ->
  word_sum (pre ++ be_put 2 v ++ post) = word_sum (pre ++ zeros 2 ++ post) + v.
Proof.
  intros Hp Hv. rewrite !(word_sum_app pre) by done.
  destruct (length_2 (be_put 2 v)) as (a & b & E); [apply length_be_put|]. rewrite E. cbn [app word_sum zeros replicate].
  rewrite <- E, be_get_put. change (be_get [Byte.x00; Byte.x00]) with 0. rewrite Z.mod_small; [lia|exact Hv].
Qed.

Lemma checksum_field pre post :
  Nat.Even (length pre) -> len pre + len post <= 900 ->
  checksum (pre ++ be_put 2 (checksum (pre ++ zeros 2 ++ post)) ++ post) = 0.
Proof.
  intros Hp Hl. pose proof (len_nonneg pre). pose proof (len_nonneg post).
  assert (len (pre ++ zeros 2 ++ post) <= 1000) as Hl0 by (rewrite !len_app; change (len (zeros 2)) with 2; lia).
  apply (checksum_verifies _ (pre ++ zeros 2 ++ post)); [rewrite !len_app, len_be_put; lia|done|].
  apply word_sum_field; [done|]. destruct (checksum_spec _ Hl0) as [B _]. exact B.
Qed.

(** The data that the checksum of a TCP segment covers. *)
Definition pseudo4 (src dst tcp : bytes) : bytes := src ++ dst ++ [Byte.x00; Byte.x06] ++ be_put 2 (len tcp) ++ tcp.
Definition pseudo6 (src dst tcp : bytes) : bytes :=
  src ++ dst ++ be_put 4 (len tcp) ++ [Byte.x00; Byte.x00; Byte.x00; Byte.x06] ++ tcp.

Lemma copy_tail pre tcp : copy_at (length pre) (length pre + length tcp) tcp (pre ++ zeros (length tcp)) = pre ++ tcp.
Proof.
  unfold copy_at. rewrite take_app_length, drop_ge by (rewrite length_app; unfold zeros; rewrite length_replicate; lia).
  rewrite <- (app_nil_r (zeros _)), slice_at by (unfold zeros; by rewrite length_replicate).
  rewrite go_copy_exact, app_nil_r; [done|]. unfold zeros. by rewrite length_replicate.
Qed.

Lemma tcpChecksum_eq src dst tcp :
  length src = 4%nat -> length dst = 4%nat -> tcpChecksum src dst tcp = checksum (pseudo4 src dst tcp).
Proof.
  intros Hs Hd. unfold tcpChecksum. assert (To4 src = src) as -> by (unfold To4; by rewrite Hs).
  assert (To4 dst = dst) as -> by (unfold To4; by rewrite Hd).
  unfold pseudo4, put_at. simpl Nat.sub. rewrite be_put_2_uint16.
  destruct (length_2 (be_put 2 (len tcp))) as (n1 & n2 & ->); [apply length_be_put|].
  apply length_4 in Hs as (s1 & s2 & s3 & s4 & ->), Hd as (d1 & d2 & d3 & d4 & ->). f_equal.
  exact (copy_tail [s1; s2; s3; s4; d1; d2; d3; d4; Byte.x00; Byte.x06; n1; n2] tcp).
Qed.

Lemma tcpChecksumIPv6_eq src dst tcp :
  length src = 16%nat -> length dst = 16%nat -> len tcp < 2 ^ 32 -> tcpChecksumIPv6 src dst tcp = checksum (pseudo6 src dst tcp).
Proof.
  intros Hs Hd Hl. unfold tcpChecksumIPv6. assert (To16 src = src) as -> by (unfold To16; by rewrite Hs).
  assert (To16 dst = dst) as -> by (unfold To16; by rewrite Hd).
  unfold pseudo6, put_at. simpl Nat.sub. unfold uint32. rewrite Z.mod_small by (split; [apply len_nonneg|done]).
  destruct (length_4 (be_put 4 (len tcp))) as (n1 & n2 & n3 & n4 & ->); [apply length_be_put|]. f_equal.
  explode src Hs. explode dst Hd.
  match goal with |- copy_at _ _ _ ?pseudo = ?r =>
    let pre := eval cbv [app] in (take 40 r) in
    exact (copy_tail pre tcp) end.
Qed.

(** The segment around its checksum field. *)
Lemma segment_split sp dp sq win ts : exists pre post,
  (forall ck, segment sp dp sq win ck ts = pre ++ ck ++ post) /\
  length pre = (length sp + length dp + length sq + 6 + length win)%nat /\ length post = (10 + length ts)%nat.
Proof.
  exists (sp ++ dp ++ sq ++ zeros 4 ++ [Byte.x80; Byte.x02] ++ win), (zeros 2 ++ [Byte.x01; Byte.x01; Byte.x08; Byte.x0a] ++ ts ++ zeros 4).
  split_and!; [intros ck; unfold segment; by rewrite <- !app_assoc|by rewrite !length_app; simpl; lia..].
Qed.

(** Every SYN packet the sender builds carries correct checksums: a
    receiver that sums the IPv4 header, or the TCP segment with the pseudo
    header of its addresses, gets the checksum 0, for IPv4 and for IPv6. *)
Theorem syn_packet_checksums (srcIP dstIP : bytes) (srcPort dstPort : Z) (fields : SYNFields) :
  (forall r packet r', buildSYNPacket srcIP dstIP srcPort dstPort fields r = Ok (packet, r') ->
     checksum (take 20 packet) = 0 /\ tcpChecksum (To4 srcIP) (To4 dstIP) (drop 20 packet) = 0) /\
  (forall packet, buildSYNPacketIPv6 srcIP dstIP srcPort dstPort fields = Ok packet ->
     tcpChecksumIPv6 srcIP dstIP (drop 40 packet) = 0).
Proof.
  destruct (segment_split (be_put 2 srcPort) (be_put 2 dstPort) (be_put 4 (sf_Sequence fields)) (be_put 2 (sf_Window fields))
    (be_put 4 (sf_Timestamp fields))) as (pre & post & E & Hpre & Hpost). rewrite !length_be_put in *.
  assert (forall ck, length ck = 2%nat -> len (pre ++ ck ++ post) = 32) as Hlen.
  { intros ck Hck. unfold len. rewrite !length_app, Hpre, Hpost, Hck. done. }
  assert (Nat.Even (length pre)) as Hev by (rewrite Hpre; by exists 8%nat).
  split.
  - intros r packet r' Hb. apply buildSYNPacket_inv in Hb as (Hs & Hd & id & Hid & ->). cbn zeta. rewrite !E.
    rewrite take_app_length', drop_app_length' by (unfold ipv4_header; rewrite !length_app, length_be_put, Hs, Hd, Hid; done).
    split.
    + unfold ipv4_header. rewrite !(app_assoc id), !(app_assoc [Byte.x45; _; _; _]).
      apply checksum_field; [rewrite !length_app, Hid; by exists 5%nat|]. unfold len. rewrite !length_app, Hs, Hd, Hid. done.
    + rewrite !tcpChecksum_eq by done. unfold pseudo4. rewrite !Hlen by (try apply length_be_put; done).
      rewrite !(app_assoc (be_put 2 32) pre), !(app_assoc [Byte.x00; Byte.x06]), !(app_assoc (To4 dstIP)), !(app_assoc (To4 srcIP)).
      apply checksum_field; [|unfold len]; rewrite !length_app, Hs, Hd, Hpre, ?Hpost, length_be_put; [by exists 14%nat|done].
  - intros packet Hb. apply buildSYNPacketIPv6_inv in Hb as (Hs & Hd & ->). cbn zeta. rewrite !E.
    rewrite drop_app_length' by (unfold ipv6_header; rewrite !length_app, Hs, Hd; done).
    rewrite !tcpChecksumIPv6_eq by (done || rewrite Hlen by (apply length_be_put || done); done).
    unfold pseudo6. rewrite !Hlen by (try apply length_be_put; done).
    rewrite !(app_assoc [Byte.x00; Byte.x00; Byte.x00; Byte.x06] pre), !(app_assoc (be_put 4 32)), !(app_assoc dstIP), !(app_assoc srcIP).
    apply checksum_field; [|unfold len]; rewrite !length_app, Hs, Hd, Hpre, ?Hpost, length_be_put; [by exists 28%nat|done].
Qed.

(** * What the parsers make of the packets *)

Lemma parse_segment sp dp sq win ck ts :
  length sp = 2%nat -> length dp = 2%nat -> length sq = 4%nat -> length win = 2%nat -> length ck = 2%nat -> length ts = 4%nat ->
  syn_fields (segment sp dp sq win ck ts) = Some (Some (mkSYNFields (be_get sq) (be_get win) (be_get ts))) /\
  go_uint (segment sp dp sq win ck ts) 2 4 = Some (be_get dp).
Proof.
  intros H1 H2 H3 H4 H5 H6.
  apply length_2 in H1 as (? & ? & ->), H2 as (? & ? & ->), H4 as (? & ? & ->), H5 as (? & ? & ->).
  apply length_4 in H3 as (? & ? & ? & ? & ->), H6 as (? & ? & ? & ? & ->). split; reflexivity.
Qed.

Definition ethernet (dst src : bytes) (etherType : Z) : bytes := dst ++ src ++ be_put 2 etherType.

(** The six variable parts of a segment and their lengths. *)
Definition segment_parts (sp dp sq win ck ts : bytes) : Prop :=
  length sp = 2%nat /\ length dp = 2%nat /\ length sq = 4%nat /\ length win = 2%nat /\ length ck = 2%nat /\ length ts = 4%nat.

Lemma find_ipv4 mac_dst mac_src id hck src dst sp dp sq win ck ts :
  length mac_dst = 6%nat -> length mac_src = 6%nat -> segment_parts sp dp sq win ck ts ->
  length id = 2%nat -> length hck = 2%nat -> length src = 4%nat -> length dst = 4%nat ->
  let frame := ethernet mac_dst mac_src 0x0800 ++ ipv4_header id hck src dst ++ segment sp dp sq win ck ts in
  findIPv4Offset frame = Some 14 /\ ipv4_payload frame 14 ipv4ProtocolTCP = Some (Some (src, segment sp dp sq win ck ts)).
Proof.
  intros Hmd Hms (Hsp & Hdp & Hsq & Hwin & Hck & Hts) H1 H2 H3 H4. explode mac_dst Hmd. explode mac_src Hms.
  apply length_2 in Hsp as (? & ? & ->), Hdp as (? & ? & ->), Hwin as (? & ? & ->), Hck as (? & ? & ->), H1 as (? & ? & ->), H2 as (? & ? & ->).
  apply length_4 in Hsq as (? & ? & ? & ? & ->), Hts as (? & ? & ? & ? & ->), H3 as (? & ? & ? & ? & ->), H4 as (? & ? & ? & ? & ->).
  split; reflexivity.
Qed.

Lemma find_ipv6 mac_dst mac_src src dst sp dp sq win ck ts :
  length mac_dst = 6%nat -> length mac_src = 6%nat -> segment_parts sp dp sq win ck ts ->
  length src = 16%nat -> length dst = 16%nat ->
  let frame := ethernet mac_dst mac_src 0x86dd ++ ipv6_header src dst ++ segment sp dp sq win ck ts in
  findIPv6Offset frame = Some 14 /\ ipv6_payload frame 14 ipv4ProtocolTCP 20 = Some (Some (src, segment sp dp sq win ck ts)).
Proof.
  intros Hmd Hms (Hsp & Hdp & Hsq & Hwin & Hck & Hts) H3 H4. explode mac_dst Hmd. explode mac_src Hms.
  apply length_2 in Hsp as (? & ? & ->), Hdp as (? & ? & ->), Hwin as (? & ? & ->), Hck as (? & ? & ->).
  apply length_4 in Hsq as (? & ? & ? & ? & ->), Hts as (? & ? & ? & ? & ->). explode src H3. explode dst H4.
  split; reflexivity.
Qed.

Lemma go_from_0 s a : 0 <= a <= len s -> go_from s a = Some (drop (Z.to_nat a) s).
Proof.
  intros Ha. unfold go_from, go_slice. rewrite (proj2 (Z.leb_le 0 a)), (proj2 (Z.leb_le a _)), Z.leb_refl by lia. simpl.
  unfold slice, len in *. rewrite take_ge; [done|]. rewrite length_drop. lia.
Qed.

Lemma go_index_drop s a i : 0 <= a -> 0 <= i -> go_index (drop (Z.to_nat a) s) i = go_index s (a + i).
Proof.
  intros Ha Hi. unfold go_index. rewrite !(proj2 (Z.leb_le 0 _)) by lia. rewrite lookup_drop. by rewrite Z2Nat.inj_add by lia.
Qed.

Lemma go_uint_drop s a i j : 0 <= a <= len s -> 0 <= i <= j -> go_uint (drop (Z.to_nat a) s) i j = go_uint s (a + i) (a + j).
Proof.
  intros Ha Hi. unfold go_uint, go_slice, slice. replace (len (drop (Z.to_nat a) s)) with (len s - a) by (unfold len in *; rewrite length_drop; lia).
  rewrite drop_drop, !Z2Nat.inj_add by lia. replace (Z.to_nat a + Z.to_nat j - (Z.to_nat a + Z.to_nat i))%nat with (Z.to_nat j - Z.to_nat i)%nat by lia.
  rewrite !(proj2 (Z.leb_le 0 _)), !(proj2 (Z.leb_le _ j)), !(proj2 (Z.leb_le _ (a + j))) by lia. simpl.
  destruct (Z.leb_spec j (len s - a)), (Z.leb_spec (a + j) (len s)); done || lia.
Qed.

Lemma go_uint_Some s a b v : go_uint s a b = Some v -> 0 <= a <= b /\ b <= len s /\ 0 <= v.
Proof.
  unfold go_uint, go_slice. destruct (Z.leb_spec 0 a), (Z.leb_spec a b), (Z.leb_spec b (len s)); simpl; try done.
  intros [= <-]. split_and!; [lia..|apply be_get_bound].
Qed.

Lemma go_index_Some s i b : go_index s i = Some (byte_val b) -> s !! Z.to_nat i = Some b.
Proof. unfold go_index. destruct (Z.leb 0 i); [|done]. intros (b' & -> & E)%fmap_Some. by rewrite (byte_val_inj _ _ E). Qed.

(** No IPv6 packet is found in the frame of an IPv4 knock, unless its source
    MAC address happens to contain the protocol number of TCP. *)
Lemma no_ipv6 mac_dst mac_src ip :
  length mac_dst = 6%nat -> length mac_src = 6%nat -> length ip = 52%nat -> Byte.x06 ∉ mac_src ->
  let frame := ethernet mac_dst mac_src 0x0800 ++ ip in
  exists off, findIPv6Offset frame = Some off /\ ipv6_payload frame off ipv4ProtocolTCP 20 = Some None.
Proof.
  intros Hmd Hms Hip Hno frame.
  assert (len frame = 66) as Hlen by (unfold frame, ethernet, len; rewrite !length_app, Hmd, Hms, length_be_put, Hip; done).
  assert (link_offset 0x86dd frame = Some None) as Hlink.
  { unfold link_offset. rewrite Hlen. subst frame. clear Hno Hlen. explode mac_dst Hmd. explode mac_src Hms. explode ip Hip. reflexivity. }
  enough (wp (findIPv6Offset frame) (fun off => ipv6_payload frame off ipv4ProtocolTCP 20 = Some None)) as W.
  { destruct (findIPv6Offset frame) as [off|]; [by exists off|done]. }
  unfold findIPv6Offset, findIPv6OffsetForProtocol. rewrite Hlink. simpl. apply wp_scan_ipv6.
  - apply Forall_forall. intros i Hi%elem_of_seqZ. lia.
  - reflexivity.
  - intros i Hi (Hp & pl & Hpl & Hb). pose proof (go_uint_Some _ _ _ _ Hpl) as B. unfold ipv6_payload.
    destruct (Z.ltb_spec (len frame) (i + 40)); [by rewrite orb_true_r|]. rewrite (proj2 (Z.ltb_ge i 0)) by lia. simpl.
    rewrite go_from_0 by lia. simpl. rewrite go_index_drop, go_uint_drop by lia. rewrite Hpl, Hp. simpl.
    destruct (Z.ltb_spec pl 20); [by rewrite ?orb_true_r|]. exfalso. apply Hno.
    apply (go_index_Some _ _ Byte.x06) in Hp. unfold frame, ethernet in Hp. rewrite <- !app_assoc, lookup_app_r in Hp by lia.
    apply list_elem_of_lookup. exists (Z.to_nat i). replace (Z.to_nat (i + 6) - length mac_dst)%nat with (Z.to_nat i) in Hp by lia.
    destruct (decide (i = 6)) as [->|]; [|by rewrite lookup_app_l in Hp by lia].
    rewrite lookup_app_r, Hms in Hp by lia. discriminate Hp.
Qed.

Definition SYNFields_wf (f : SYNFields) : Prop :=
  0 <= sf_Sequence f < 2 ^ 32 /\ 0 <= sf_Window f < 2 ^ 16 /\ 0 <= sf_Timestamp f < 2 ^ 32.

(** The fields of the sender's segment are those it was built from. *)
Lemma parse_built srcPort dstPort fields v :
  SYNFields_wf fields -> is_uint16 dstPort ->
  let tcp := segment (be_put 2 srcPort) (be_put 2 dstPort) (be_put 4 (sf_Sequence fields)) (be_put 2 (sf_Window fields)) (be_put 2 v)
               (be_put 4 (sf_Timestamp fields)) in
  parseSYNFieldsFromTCP tcp = Some (Some (dstPort, fields)) /\ knock_fields tcp dstPort = Some (Some fields) /\ len tcp = 32.
Proof.
  intros (Hs & Hw & Ht) Hd tcp.
  destruct (parse_segment (be_put 2 srcPort) (be_put 2 dstPort) (be_put 4 (sf_Sequence fields)) (be_put 2 (sf_Window fields)) (be_put 2 v)
    (be_put 4 (sf_Timestamp fields))) as [E1 E2]; [apply length_be_put..|]. fold tcp in E1, E2.
  rewrite !be_get_put, !Z.mod_small in E1 by assumption. rewrite be_get_put, Z.mod_small in E2 by assumption.
  assert (len tcp = 32) as Hl by (unfold tcp, segment, len; rewrite !length_app, !length_be_put; done).
  split_and!; [| |done].
  - unfold parseSYNFieldsFromTCP. rewrite Hl, E1. simpl. rewrite E2. by destruct fields.
  - unfold knock_fields. rewrite E2. simpl. rewrite Z.eqb_refl. simpl. rewrite E1. by destruct fields.
Qed.

Lemma parse_sent_v4 mac_dst mac_src srcIP dstIP srcPort dstPort fields r packet r' :
  length mac_dst = 6%nat -> length mac_src = 6%nat -> SYNFields_wf fields -> is_uint16 dstPort -> Byte.x06 ∉ mac_src ->
  buildSYNPacket srcIP dstIP srcPort dstPort fields r = Ok (packet, r') ->
  parseSYNPacket (ethernet mac_dst mac_src 0x0800 ++ packet) = Some (Some (To4 srcIP, dstPort, fields)) /\
  parseSYNKnock (ethernet mac_dst mac_src 0x0800 ++ packet) dstPort = Some (Some (To4 srcIP, fields)).
Proof.
  intros Hmd Hms Hwf Hdp Hno Hb. apply buildSYNPacket_inv in Hb as (Hs & Hd & id & Hid & Hp). cbn zeta in Hp.
  set (v := tcpChecksum _ _ _) in Hp. set (h := checksum _) in Hp. destruct (parse_built srcPort dstPort fields v Hwf Hdp) as (P1 & P2 & P3).
  destruct (find_ipv4 mac_dst mac_src id (be_put 2 h) (To4 srcIP) (To4 dstIP) (be_put 2 srcPort) (be_put 2 dstPort) (be_put 4 (sf_Sequence fields))
    (be_put 2 (sf_Window fields)) (be_put 2 v) (be_put 4 (sf_Timestamp fields)) Hmd Hms) as [F1 F2];
    [split_and!; apply length_be_put|done|apply length_be_put|done|done|].
  destruct (no_ipv6 mac_dst mac_src packet Hmd Hms) as (off & N1 & N2); [|done|].
  { rewrite Hp. unfold ipv4_header, segment. rewrite !length_app, !length_be_put, Hid, Hs, Hd. done. }
  rewrite <- Hp in F1, F2. unfold parseSYNPacket, parseSYNKnock, parseSYNPacketIPv6, parseSYNKnockIPv6, parseSYNPacketIPv4, parseSYNKnockIPv4.
  rewrite N1, F1. cbn [mbind option_bind]. rewrite N2, F2. cbn [mbind option_bind]. rewrite P1, P2, P3. done.
Qed.

Lemma parse_sent_v6 mac_dst mac_src srcIP dstIP srcPort dstPort fields packet :
  length mac_dst = 6%nat -> length mac_src = 6%nat -> SYNFields_wf fields -> is_uint16 dstPort ->
  buildSYNPacketIPv6 srcIP dstIP srcPort dstPort fields = Ok packet ->
  parseSYNPacket (ethernet mac_dst mac_src 0x86dd ++ packet) = Some (Some (srcIP, dstPort, fields)) /\
  parseSYNKnock (ethernet mac_dst mac_src 0x86dd ++ packet) dstPort = Some (Some (srcIP, fields)).
Proof.
  intros Hmd Hms Hwf Hdp Hb. apply buildSYNPacketIPv6_inv in Hb as (Hs & Hd & Hp). cbn zeta in Hp. set (v := tcpChecksumIPv6 _ _ _) in Hp.
  destruct (parse_built srcPort dstPort fields v Hwf Hdp) as (P1 & P2 & _).
  destruct (find_ipv6 mac_dst mac_src srcIP dstIP (be_put 2 srcPort) (be_put 2 dstPort) (be_put 4 (sf_Sequence fields))
    (be_put 2 (sf_Window fields)) (be_put 2 v) (be_put 4 (sf_Timestamp fields)) Hmd Hms) as [F1 F2]; [split_and!; apply length_be_put|done|done|].
  rewrite <- Hp in F1, F2. unfold parseSYNPacket, parseSYNKnock, parseSYNPacketIPv6, parseSYNKnockIPv6.
  rewrite F1. cbn [mbind option_bind]. rewrite F2. cbn [mbind option_bind]. rewrite P1, P2. done.
Qed.

(** The SYN knock survives the wire: a packet that the sender builds,
    received in an Ethernet frame, gives the listeners the source address, the
    port and the three authenticated fields it was built from, over IPv4 and
    over IPv6. The IPv4 case needs a source MAC address without the byte 6,
    because the parsers look for IPv6 in the first bytes of the frame as well. *)
Theorem syn_packet_roundtrip (mac_dst mac_src srcIP dstIP : bytes) (srcPort dstPort : Z) (fields : SYNFields) :
  length mac_dst = 6%nat -> length mac_src = 6%nat -> SYNFields_wf fields -> is_uint16 dstPort ->
  (forall r packet r', Byte.x06 ∉ mac_src -> buildSYNPacket srcIP dstIP srcPort dstPort fields r = Ok (packet, r') ->
     parseSYNPacket (ethernet mac_dst mac_src 0x0800 ++ packet) = Some (Some (To4 srcIP, dstPort, fields)) /\
     parseSYNKnock (ethernet mac_dst mac_src 0x0800 ++ packet) dstPort = Some (Some (To4 srcIP, fields))) /\
  (forall packet, buildSYNPacketIPv6 srcIP dstIP srcPort dstPort fields = Ok packet ->
     parseSYNPacket (ethernet mac_dst mac_src 0x86dd ++ packet) = Some (Some (srcIP, dstPort, fields)) /\
     parseSYNKnock (ethernet mac_dst mac_src 0x86dd ++ packet) dstPort = Some (Some (srcIP, fields))).
Proof.
  intros Hmd Hms Hwf Hdp. split.
  - intros r packet r' Hno Hb. by eapply parse_sent_v4.
  - intros packet Hb. by eapply parse_sent_v6.
Qed.

(** * Evaluation on concrete inputs *)

Definition ex_ip : bytes := [Byte.x0a; Byte.x00; Byte.x00; Byte.x01].
Definition ex_fields : SYNFields := mkSYNFields 0xdeadbeef 0x1234 0x01020304.

Definition ex_packet : bytes := Eval vm_compute in
  match buildSYNPacket ex_ip ex_ip 40000 22 ex_fields (zeros 2) with Ok (p, _) => p | Err _ => [] end.

Example ex_packet_built : buildSYNPacket ex_ip ex_ip 40000 22 ex_fields (zeros 2) = Ok (ex_packet, []).
Proof. vm_compute. reflexivity. Qed.

Lemma syn_packet_checksums_witness : checksum (take 20 ex_packet) = 0.
Proof. exact (proj1 (proj1 (syn_packet_checksums ex_ip ex_ip 40000 22 ex_fields) (zeros 2) ex_packet [] ex_packet_built)). Defined.

Lemma syn_packet_roundtrip_witness :
  parseSYNKnock (ethernet (zeros 6) (zeros 6) 0x0800 ++ ex_packet) 22 = Some (Some (To4 ex_ip, ex_fields)).
Proof.
  refine (proj2 (proj1 (syn_packet_roundtrip (zeros 6) (zeros 6) ex_ip ex_ip 40000 22 ex_fields eq_refl eq_refl _ _)
    (zeros 2) ex_packet [] _ ex_packet_built)).
  - unfold SYNFields_wf; simpl; lia.
  - unfold is_uint16; lia.
  - apply (bool_decide_eq_true_1 (Byte.x06 ∉ zeros 6)). vm_compute. reflexivity.
Defined.
