(* ===== verification/KnockSyn.v ===== *)
(** The SYN knock: knock/frame.go and knock/sequence.go compute and verify the
    authenticated header fields of one SYN and of a sequence of SYNs,
    knock/synseq_tracker.go assembles the sequences of many sources.

    A SYN carries no payload. What authenticates it is a MAC over a time slot,
    so a knock is accepted in its own slot and in the two next to it. Go
    iterates over its maps in any order: here a function from the keys to the
    order in which they are visited is an argument of the operations. *)

From Stdlib Require Import ZArith Lia String.
From Stdlib Require Strings.Byte.
From stdpp Require Import base list gmap strings.
From S2P Require Import Prelude GoStd Cryptox Codec Frame Cache Replay Net KnockFrame KnockSeq Packet.

Open Scope Z_scope.

Definition SYNKnockPurpose : bytes := str "syn-knock".
Definition TCP_SYNSeqMethod : bytes := str "tcp-syn-seq".
Definition synSeqLabel : bytes := str "libknock/tcp-syn-seq/v1".
Definition legacySYNSeqLabel : bytes := str "knock-proxy/tcp-syn-seq/v1".

(** What the writers add to the MAC. *)
Definition writeUint16 (v : Z) : bytes := be_put 2 v.
Definition writeInt64 (v : Z) : bytes := be_put 8 (uint64 v).
Definition writeString (s : bytes) : bytes := writeUint16 (uint16 (len s)) ++ s.

(** * One SYN *)

Definition ComputeSYNTag (secret clientID : bytes) (serverPort slot : Z) : bytes :=
  Sha256.hmac secret (SYNKnockPurpose ++ writeString clientID ++ writeUint16 (uint16 serverPort) ++ writeInt64 slot).

Definition ComputeSYNFields (secret clientID : bytes) (serverPort slot : Z) : SYNFields :=
  let tag := ComputeSYNTag secret clientID serverPort slot in
  let window := be_get (slice 4 6 tag) in
  let window := if Z.eqb window 0 then 1 else window in
  mkSYNFields (be_get (slice 0 4 tag)) window (be_get (slice 6 10 tag)).

(** Go's integer division truncates. *)
Definition SlotFor (t window : Z) : Z :=
  let window := if Z.leb window 0 then 30 * Second else window in
  let window := if Z.ltb window Second then Second else window in
  let slotSize := Z.quot window Second in
  Z.quot (Unix t) slotSize.

(** The deltas of the loops over neighbouring slots. *)
Definition deltas : list Z := [-1; 0; 1].

Fixpoint VerifySYNFields_from (fields : SYNFields) (clients : list ClientSecret) (serverPort current : Z) : option bytes :=
  match clients with
  | [] => None
  | client :: clients =>
      if ValidateClientSecret client is Some _ then VerifySYNFields_from fields clients serverPort current
      else if existsb (fun delta => bool_decide (ComputeSYNFields (cs_Secret client) (cs_ClientID client) serverPort (int64 (current + delta)) = fields)) deltas
      then Some (cs_ClientID client)
      else VerifySYNFields_from fields clients serverPort current
  end.

(** The client, or [None] for the result [false]. *)
Definition VerifySYNFields (fields : SYNFields) (clients : list ClientSecret) (serverPort now window : Z) : option bytes :=
  VerifySYNFields_from fields clients serverPort (SlotFor now window).

Definition syn_nonce (fields : SYNFields) (serverPort : Z) : bytes :=
  be_put 4 (sf_Sequence fields) ++ be_put 2 (sf_Window fields) ++ be_put 4 (sf_Timestamp fields)
    ++ be_put 2 (uint16 serverPort) ++ be_put 2 (uint16 (len SYNKnockPurpose)).

(** [CheckSYNReplay] at the time [now] of the cache's own clock. *)
Definition CheckSYNReplay `{ReplayCache C} (cache : option C) (clientID : bytes) (fields : SYNFields) (serverPort now : Z)
    : option error * option C :=
  match cache with
  | None => (None, None)
  | Some c => let '(err, c) := check_and_mark clientID (syn_nonce fields serverPort) now c in (err, Some c)
  end.

(** * A sequence of SYNs *)

Record SYNSeqPart := mkSYNSeqPart { sp_Port : Z; sp_Fields : SYNFields }.

Definition syn_seq_part (secret clientID : bytes) (protectedPort slot : Z) (legacyRandomPorts : bool) (i : nat) : SYNSeqPart :=
  let tag := Sha256.hmac secret ((if legacyRandomPorts then legacySYNSeqLabel else synSeqLabel) ++ writeString clientID
    ++ writeUint16 (uint16 protectedPort) ++ writeInt64 slot ++ writeUint16 (uint16 (Z.of_nat i))) in
  let port := if legacyRandomPorts then 1024 + be_get (slice 0 2 tag) mod 64511 else protectedPort in
  let window := be_get (slice 6 8 tag) in
  let window := if Z.eqb window 0 then 1 else window in
  mkSYNSeqPart port (mkSYNFields (be_get (slice 2 6 tag)) window (be_get (slice 8 12 tag))).

Definition computeSYNSeqParts (secret clientID : bytes) (protectedPort slot total : Z) (legacyRandomPorts : bool) : list SYNSeqPart :=
  let total := if Z.ltb total 2 || Z.ltb 5 total then 3 else total in
  map (syn_seq_part secret clientID protectedPort slot legacyRandomPorts) (seq 0 (Z.to_nat total)).

Definition ComputeSYNSeqParts (secret clientID : bytes) (protectedPort slot total : Z) : list SYNSeqPart :=
  computeSYNSeqParts secret clientID protectedPort slot total false.
Definition computeLegacySYNSeqParts (secret clientID : bytes) (protectedPort slot total : Z) : list SYNSeqPart :=
  computeSYNSeqParts secret clientID protectedPort slot total true.

Definition synSeqPartMatches (parts : list SYNSeqPart) (index dstPort : Z) (fields : SYNFields) : bool :=
  Z.leb 0 index && Z.ltb index (len parts) &&
  match parts !! Z.to_nat index with
  | Some p => Z.eqb (sp_Port p) dstPort && bool_decide (sp_Fields p = fields)
  | None => false
  end.

(** The test of one client and slot. *)
Definition part_matches (fields : SYNFields) (dstPort protectedPort total index : Z) (allowLegacy : bool) (client : ClientSecret) (slot : Z) : bool :=
  synSeqPartMatches (ComputeSYNSeqParts (cs_Secret client) (cs_ClientID client) protectedPort slot total) index dstPort fields
  || (allowLegacy && synSeqPartMatches (computeLegacySYNSeqParts (cs_Secret client) (cs_ClientID client) protectedPort slot total) index dstPort fields).

Fixpoint first_slot (fields : SYNFields) (dstPort protectedPort total index : Z) (allowLegacy : bool) (client : ClientSecret) (slots : list Z) : option Z :=
  match slots with
  | [] => None
  | slot :: slots =>
      if part_matches fields dstPort protectedPort total index allowLegacy client slot then Some slot
      else first_slot fields dstPort protectedPort total index allowLegacy client slots
  end.

Fixpoint verify_part_from (fields : SYNFields) (dstPort : Z) (clients : list ClientSecret) (protectedPort current total index : Z)
    (allowLegacy : bool) : option (bytes * Z) :=
  match clients with
  | [] => None
  | client :: clients =>
      match first_slot fields dstPort protectedPort total index allowLegacy client (map (fun delta => int64 (current + delta)) deltas) with
      | Some slot => Some (cs_ClientID client, slot)
      | None => verify_part_from fields dstPort clients protectedPort current total index allowLegacy
      end
  end.

Definition VerifySYNSeqPart (fields : SYNFields) (dstPort : Z) (clients : list ClientSecret) (protectedPort now slotSeconds total index : Z)
    (allowLegacy : bool) : option (bytes * Z) :=
  let slotSeconds := if Z.leb slotSeconds 0 then 30 else slotSeconds in
  verify_part_from fields dstPort clients protectedPort (Z.quot (Unix now) slotSeconds) total index allowLegacy.

(** * The tracker *)

Record synSeqState := mkSynSeqState { ys_firstSeen : Z; ys_lastSeen : Z; ys_matched : Z; ys_clientID : bytes; ys_slot : Z }.

Record synSeqTracker (C : Type) := mkSynTracker {
  yt_opts : SequenceOptions;
  yt_replay : C;
  yt_states : gmap bytes synSeqState;
  yt_perIP : gmap bytes Z;
  yt_total : Z;
}.
Arguments mkSynTracker {C} _ _ _ _ _.
Arguments yt_opts {C} _.
Arguments yt_replay {C} _.
Arguments yt_states {C} _.
Arguments yt_perIP {C} _.
Arguments yt_total {C} _.

(** The cache of the tracker: the caller's, or its own. *)
#[export] Instance either_cache {A B} `{ReplayCache A} `{ReplayCache B} : ReplayCache (A + B) := fun clientID nonce now s =>
  match s with
  | inl a => let '(r, a) := check_and_mark clientID nonce now a in (r, inl a)
  | inr b => let '(r, b) := check_and_mark clientID nonce now b in (r, inr b)
  end.

Definition newSYNSequenceTracker {C} (o : SequenceOptions) (replay : option C) : synSeqTracker (C + option Syn.t) :=
  let o := normalizedSequenceOptions o in
  let replay := match replay with
    | Some c => inl c
    | None => inr (Some (Syn.newSYNReplayCache (int64 (int64 (so_SlotSeconds o * Second) * 3))))
    end in
  mkSynTracker o replay ∅ ∅ 0.

Section Tracker.
Context {C : Type} `{ReplayCache C}.
Implicit Types t : synSeqTracker C.

Definition decInflightLocked (ip : bytes) t : synSeqTracker C :=
  let n := ip_count ip (yt_perIP t) in
  mkSynTracker (yt_opts t) (yt_replay t) (yt_states t)
    (if Z.ltb 0 n then if Z.eqb (n - 1) 0 then delete ip (yt_perIP t) else <[ip := n - 1]> (yt_perIP t) else yt_perIP t)
    (if Z.ltb 0 (yt_total t) then yt_total t - 1 else yt_total t).

Definition drop_state (key : bytes) t : synSeqTracker C :=
  mkSynTracker (yt_opts t) (yt_replay t) (delete key (yt_states t)) (yt_perIP t) (yt_total t).

Definition put_state (key : bytes) (st : synSeqState) t : synSeqTracker C :=
  mkSynTracker (yt_opts t) (yt_replay t) (<[key := st]> (yt_states t)) (yt_perIP t) (yt_total t).

(** One key of the loop of [pruneLocked]. *)
Definition prune_syn (now : Z) (key : bytes) t : synSeqTracker C :=
  match yt_states t !! key with
  | None => t
  | Some st =>
      if Z.ltb (so_Window (yt_opts t)) (Sub now (ys_firstSeen st)) then
        let t := drop_state key t in
        match IndexByte key nul with
        | Some i => decInflightLocked (take i key) t
        | None => mkSynTracker (yt_opts t) (yt_replay t) (yt_states t) (yt_perIP t)
                    (if Z.ltb 0 (yt_total t) then yt_total t - 1 else yt_total t)
        end
      else t
  end.

(** The keys of the map, in the order in which the loop visits them. *)
Definition visit (ord : list bytes -> list bytes) t : list bytes := ord (map fst (map_to_list (yt_states t))).

Definition prune_synseq (ord : list bytes -> list bytes) (now : Z) t : synSeqTracker C :=
  fold_left (fun t key => prune_syn now key t) (visit ord t) t.

Definition syn_state_key (ip clientID : bytes) (slot : Z) : bytes := ip ++ [nul] ++ clientID ++ [nul] ++ itoa slot.

(** The packet as [add] gets it. *)
Record syn_packet := mkSynPacket { yp_src : bytes; yp_dstPort : Z; yp_fields : SYNFields }.

Definition verify_packet (p : syn_packet) (clients : list ClientSecret) (protectedPort now index : Z) t : option (bytes * Z) :=
  VerifySYNSeqPart (yp_fields p) (yp_dstPort p) clients protectedPort now (so_SlotSeconds (yt_opts t)) (so_Length (yt_opts t)) index
    (so_AllowLegacySYNSeq (yt_opts t)).

(** The loop of [add] over the states of the source: [Some] when it returns. *)
Fixpoint advance_state (p : syn_packet) (clients : list ClientSecret) (protectedPort now : Z) (keys : list bytes) t
    : option ((bool * bytes) * synSeqTracker C) :=
  match keys with
  | [] => None
  | key :: keys =>
      let ip := ip_text (yp_src p) in
      match yt_states t !! key with
      | None => advance_state p clients protectedPort now keys t
      | Some st =>
          if bool_decide (take (length (ip ++ [nul])) key = ip ++ [nul]) then
            match verify_packet p clients protectedPort now (ys_matched st) t with
            | Some (client, slot) =>
                if bool_decide (client = ys_clientID st) && Z.eqb slot (ys_slot st) then
                  let st := mkSynSeqState (ys_firstSeen st) now (ys_matched st + 1) (ys_clientID st) (ys_slot st) in
                  let t := put_state key st t in
                  if Z.leb (so_Length (yt_opts t)) (ys_matched st)
                  then Some ((true, client), decInflightLocked ip (drop_state key t))
                  else Some ((false, []), t)
                else advance_state p clients protectedPort now keys t
            | None => advance_state p clients protectedPort now keys t
            end
          else advance_state p clients protectedPort now keys t
      end
  end.

(** [add] at the time [now]; [at_mark] is what the replay cache reads on its
    own clock, [ord] and [ord'] are the orders of the two loops over the map. *)
Definition synseq_add (p : syn_packet) (clients : list ClientSecret) (protectedPort now at_mark : Z)
    (ord ord' : list bytes -> list bytes) t : (bool * bytes) * synSeqTracker C :=
  let t := prune_synseq ord now t in
  let ip := ip_text (yp_src p) in
  match advance_state p clients protectedPort now (visit ord' t) t with
  | Some r => r
  | None =>
      match verify_packet p clients protectedPort now 0 t with
      | None => ((false, []), t)
      | Some (client, slot) =>
          if Z.leb (so_MaxInflightPerIP (yt_opts t)) (ip_count ip (yt_perIP t)) || Z.leb (so_MaxTotalInflight (yt_opts t)) (yt_total t)
          then ((false, []), t)
          else
            let '(err, cache) := CheckSYNReplay (Some (yt_replay t)) client (yp_fields p) protectedPort at_mark in
            let t := mkSynTracker (yt_opts t) (default (yt_replay t) cache) (yt_states t) (yt_perIP t) (yt_total t) in
            if err is Some _ then ((false, []), t)
            else if Z.eqb (so_Length (yt_opts t)) 1 then ((true, client), t)
            else
              let t := put_state (syn_state_key ip client slot) (mkSynSeqState now now 1 client slot) t in
              ((false, []), mkSynTracker (yt_opts t) (yt_replay t) (yt_states t)
                 (<[ip := ip_count ip (yt_perIP t) + 1]> (yt_perIP t)) (yt_total t + 1))
      end
  end.

End Tracker.

(** * One SYN: what is accepted and when *)

Definition slot_size (window : Z) : Z :=
  let window := if Z.leb window 0 then 30 * Second else window in
  let window := if Z.ltb window Second then Second else window in
  Z.quot window Second.

Lemma slot_size_pos window : 0 < slot_size window.
Proof.
  unfold slot_size, Second. set (w := if Z.ltb _ _ then _ else _). assert (10 ^ 9 <= w) by (subst w; zcases; lia).
  rewrite Z.quot_div_nonneg by lia. apply Z.div_str_pos. lia.
Qed.

Lemma SlotFor_div t window : 0 <= t -> SlotFor t window = Unix t / slot_size window.
Proof.
  intros Ht. unfold SlotFor. fold (slot_size window). apply Z.quot_div_nonneg; [|apply slot_size_pos].
  unfold Unix. apply Z.div_pos; lia.
Qed.

Definition clock_ok (t : Z) : Prop := 0 <= t < 2 ^ 63.

Lemma slot_bound t window d : clock_ok t -> -1 <= d <= 1 -> int64 (SlotFor t window + d) = SlotFor t window + d /\ 0 <= SlotFor t window < 2 ^ 62.
Proof.
  unfold clock_ok. intros Ht Hd. rewrite SlotFor_div by lia. pose proof (slot_size_pos window). unfold Unix.
  assert (0 <= t / 10 ^ 9 / slot_size window < 2 ^ 62) as B.
  { split; [apply Z.div_pos; [apply Z.div_pos; lia|lia]|]. apply Z.div_lt_upper_bound; [lia|].
    assert (t / 10 ^ 9 < 2 ^ 62) by (apply Z.div_lt_upper_bound; lia). nia. }
  unfold int64. rewrite Z.mod_small by lia. lia.
Qed.

(** Two readings at most one slot apart are in the same or in neighbouring slots. *)
Lemma slots_close t u window : 0 <= t -> 0 <= u -> Z.abs (Unix t - Unix u) <= slot_size window ->
  -1 <= SlotFor t window - SlotFor u window <= 1.
Proof.
  intros Ht Hu Hd. rewrite !SlotFor_div by done. pose proof (slot_size_pos window).
  set (s := slot_size window) in *. clearbody s. Z.div_mod_to_equations. nia.
Qed.

Lemma VerifySYNFields_from_Some fields clients port current id :
  VerifySYNFields_from fields clients port current = Some id ->
  exists c delta, c ∈ clients /\ ValidateClientSecret c = None /\ cs_ClientID c = id /\ delta ∈ deltas /\
    fields = ComputeSYNFields (cs_Secret c) (cs_ClientID c) port (int64 (current + delta)).
Proof.
  induction clients as [|c clients IH]; cbn [VerifySYNFields_from]; [done|].
  assert (VerifySYNFields_from fields clients port current = Some id ->
    exists c' delta, c' ∈ c :: clients /\ ValidateClientSecret c' = None /\ cs_ClientID c' = id /\ delta ∈ deltas /\
    fields = ComputeSYNFields (cs_Secret c') (cs_ClientID c') port (int64 (current + delta))) as IH'.
  { intros E. destruct (IH E) as (c' & d & Hc & ?). exists c', d. split; [by right|done]. }
  destruct (ValidateClientSecret c) eqn:Ev; [done|]. destruct (existsb _ deltas) eqn:Ex; [|done].
  intros [= <-]. apply existsb_exists in Ex as (d & Hd & Hf). apply bool_decide_eq_true in Hf.
  exists c, d. split_and!; try done; [by left|by apply list_elem_of_In].
Qed.

Lemma VerifySYNFields_from_found fields clients port current c delta :
  c ∈ clients -> ValidateClientSecret c = None -> delta ∈ deltas ->
  fields = ComputeSYNFields (cs_Secret c) (cs_ClientID c) port (int64 (current + delta)) ->
  exists id, VerifySYNFields_from fields clients port current = Some id.
Proof.
  intros Hc Hv Hd Hf. induction clients as [|c' clients IH]; [by apply elem_of_nil in Hc|]. cbn [VerifySYNFields_from].
  apply elem_of_cons in Hc as [<-|Hc].
  - rewrite Hv. assert (existsb (fun d => bool_decide (ComputeSYNFields (cs_Secret c) (cs_ClientID c) port (int64 (current + d)) = fields)) deltas = true) as ->.
    { apply existsb_exists. exists delta. split; [by apply list_elem_of_In|]. by apply bool_decide_eq_true. }
    eauto.
  - destruct (ValidateClientSecret c'); [auto|]. destruct (existsb _ _); eauto.
Qed.

Lemma deltas_spec d : d ∈ deltas <-> -1 <= d <= 1.
Proof. unfold deltas. rewrite !elem_of_cons, elem_of_nil. lia. Qed.

(** The SYN knock tolerates one slot of clock difference and no more:
    the server accepts fields only when they are the MAC of a configured client
    for its own slot or a neighbouring one; and it accepts what a client computed at a time that differs by
    at most one slot length, naming that client, when no other client's MAC
    collides. *)
Theorem syn_knock_window (clients : list ClientSecret) (port now window : Z) :
  clock_ok now ->
  (forall fields id, VerifySYNFields fields clients port now window = Some id ->
     exists c slot, c ∈ clients /\ ValidateClientSecret c = None /\ cs_ClientID c = id /\
       SlotFor now window - 1 <= slot <= SlotFor now window + 1 /\ fields = ComputeSYNFields (cs_Secret c) id port slot) /\
  (forall c sent, c ∈ clients -> ValidateClientSecret c = None -> clock_ok sent -> Z.abs (Unix now - Unix sent) <= slot_size window ->
     let fields := ComputeSYNFields (cs_Secret c) (cs_ClientID c) port (SlotFor sent window) in
     (forall c' slot, c' ∈ clients -> fields = ComputeSYNFields (cs_Secret c') (cs_ClientID c') port slot -> cs_ClientID c' = cs_ClientID c) ->
     VerifySYNFields fields clients port now window = Some (cs_ClientID c)).
Proof.
  intros Hnow. split.
  - intros fields id (c & d & Hc & Hv & <- & Hd & Hf)%VerifySYNFields_from_Some. apply deltas_spec in Hd.
    rewrite (proj1 (slot_bound now window d Hnow Hd)) in Hf. exists c, (SlotFor now window + d). split_and!; try done; lia.
  - intros c sent Hc Hv Hsent Hdist fields Huniq. unfold clock_ok in *.
    pose proof (slots_close now sent window ltac:(lia) ltac:(lia) Hdist) as Hclose.
    set (d := SlotFor sent window - SlotFor now window). assert (-1 <= d <= 1) as Hd by lia.
    destruct (VerifySYNFields_from_found fields clients port (SlotFor now window) c d Hc Hv) as [id Hid]; [by apply deltas_spec| |].
    { rewrite (proj1 (slot_bound now window d Hnow Hd)). unfold d. by rewrite Zplus_minus. }
    unfold VerifySYNFields. rewrite Hid. f_equal.
    apply VerifySYNFields_from_Some in Hid as (c' & d' & Hc' & _ & <- & _ & Hf'). by eapply Huniq.
Qed.

(** * The tracker's loops *)

Lemma key_of_source ip key : take (length (ip ++ [nul])) key = ip ++ [nul] <-> exists rest, key = ip ++ nul :: rest.
Proof.
  split.
  - intros E. exists (drop (length (ip ++ [nul])) key). rewrite <- (take_drop (length (ip ++ [nul])) key) at 1. rewrite E.
    by rewrite <- app_assoc.
  - intros [rest ->]. change (nul :: rest) with ([nul] ++ rest). rewrite app_assoc. apply take_app_length.
Qed.

Section TrackerLemmas.
Context {C : Type} `{ReplayCache C}.
Implicit Types t : synSeqTracker C.

Lemma prune_syn_facts now key t :
  yt_opts (prune_syn now key t) = yt_opts t /\ yt_replay (prune_syn now key t) = yt_replay t /\
  yt_states (prune_syn now key t) =
    match yt_states t !! key with
    | Some st => if Z.ltb (so_Window (yt_opts t)) (Sub now (ys_firstSeen st)) then delete key (yt_states t) else yt_states t
    | None => yt_states t
    end.
Proof. unfold prune_syn. destruct (yt_states t !! key) as [st|]; [|done]. destruct (Z.ltb _ _); [|done]. by destruct (IndexByte key nul). Qed.

(** Pruning removes the states that are older than the window, whatever the
    order in which the map is visited. *)
Lemma prune_synseq_facts ord now t :
  (forall l, ord l ≡ₚ l) ->
  yt_opts (prune_synseq ord now t) = yt_opts t /\ yt_replay (prune_synseq ord now t) = yt_replay t /\
  forall key st, yt_states (prune_synseq ord now t) !! key = Some st <->
    yt_states t !! key = Some st /\ Sub now (ys_firstSeen st) <= so_Window (yt_opts t).
Proof.
  intros Hord. unfold prune_synseq.
  assert (forall keys t', yt_opts (fold_left (fun t key => prune_syn now key t) keys t') = yt_opts t' /\
    yt_replay (fold_left (fun t key => prune_syn now key t) keys t') = yt_replay t' /\
    forall key st, yt_states (fold_left (fun t key => prune_syn now key t) keys t') !! key = Some st <->
      yt_states t' !! key = Some st /\ (key ∈ keys -> Sub now (ys_firstSeen st) <= so_Window (yt_opts t'))) as Hfold.
  { induction keys as [|k keys IH]; intros t'; cbn [fold_left].
    - split_and!; try done. intros key st. rewrite elem_of_nil. tauto.
    - destruct (prune_syn_facts now k t') as (E1 & E2 & E3). destruct (IH (prune_syn now k t')) as (F1 & F2 & F3).
      rewrite E1, E2, E3 in *. split_and!; [done..|]. intros key st. rewrite F3, elem_of_cons.
      destruct (decide (k = key)) as [<-|Hne].
      + destruct (yt_states t' !! k) as [st0|] eqn:Ek; [|naive_solver].
        destruct (Z.ltb_spec (so_Window (yt_opts t')) (Sub now (ys_firstSeen st0))).
        * rewrite lookup_delete_eq. split; [by intros [? _]|]. intros [[= ->] Hx]. specialize (Hx (or_introl eq_refl)). lia.
        * rewrite Ek. naive_solver.
      + assert ((match yt_states t' !! k with
          | Some st0 => if Z.ltb (so_Window (yt_opts t')) (Sub now (ys_firstSeen st0)) then delete k (yt_states t') else yt_states t'
          | None => yt_states t' end) !! key = yt_states t' !! key) as ->.
        { destruct (yt_states t' !! k); [|done]. destruct (Z.ltb _ _); [|done]. by apply lookup_delete_ne. }
        naive_solver. }
  destruct (Hfold (visit ord t) t) as (E1 & E2 & E3). split_and!; [done..|]. intros key st. rewrite E3. split; intros [Hk Hx]; [|done].
  split; [done|]. apply Hx. unfold visit. rewrite Hord. apply list_elem_of_fmap. exists (key, st). split; [done|]. by apply elem_of_map_to_list.
Qed.

(** The packet is the next part of the state [st], with the result [r] and the
    tracker [t'] after it. *)
Definition advanced (p : syn_packet) (clients : list ClientSecret) (pp now : Z) t (r : bool * bytes) t' (key : bytes) (st : synSeqState) : Prop :=
  yt_states t !! key = Some st /\ (exists rest, key = ip_text (yp_src p) ++ nul :: rest) /\
  verify_packet p clients pp now (ys_matched st) t = Some (ys_clientID st, ys_slot st) /\
  let st' := mkSynSeqState (ys_firstSeen st) now (ys_matched st + 1) (ys_clientID st) (ys_slot st) in
  if Z.leb (so_Length (yt_opts t)) (ys_matched st + 1)
  then r = (true, ys_clientID st) /\ t' = decInflightLocked (ip_text (yp_src p)) (drop_state key (put_state key st' t))
  else r = (false, []) /\ t' = put_state key st' t.

Lemma advance_state_Some p clients pp now keys t r t' :
  advance_state p clients pp now keys t = Some (r, t') -> exists key st, key ∈ keys /\ advanced p clients pp now t r t' key st.
Proof.
  induction keys as [|key keys IH]; cbn [advance_state]; [done|]. cbv zeta.
  assert (advance_state p clients pp now keys t = Some (r, t') ->
    exists key0 st, key0 ∈ key :: keys /\ advanced p clients pp now t r t' key0 st) as IH'.
  { intros E. destruct (IH E) as (k & st & Hk & Hrest). exists k, st. split; [by right|exact Hrest]. }
  destruct (yt_states t !! key) as [st|] eqn:Ek; [|exact IH']. case_bool_decide as Hpre; [|exact IH'].
  destruct (verify_packet _ _ _ _ _ _) as [[client slot]|] eqn:Ev; [|exact IH'].
  case_bool_decide as Hc; [|exact IH']. destruct (Z.eqb_spec slot (ys_slot st)) as [Hs|]; [|exact IH']. cbn [andb].
  intros E. subst client slot. exists key, st. split; [by left|]. split_and!; [done|by apply key_of_source|done|].
  cbn [yt_opts put_state ys_matched] in E. cbv zeta. destruct (Z.leb _ _); by injection E as <- <-.
Qed.

(** * Runs *)

Record syn_call := mkSynCall {
  yc_packet : syn_packet; yc_now : Z; yc_mark : Z; yc_ord : list bytes -> list bytes; yc_ord' : list bytes -> list bytes;
}.

Context (clients : list ClientSecret) (pp : Z).

Fixpoint synseq_run (calls : list syn_call) t : list (bool * bytes) * synSeqTracker C :=
  match calls with
  | [] => ([], t)
  | c :: calls =>
      let '(r, t) := synseq_add (yc_packet c) clients pp (yc_now c) (yc_mark c) (yc_ord c) (yc_ord' c) t in
      let '(rs, t) := synseq_run calls t in (r :: rs, t)
  end.

(** The maps are visited in orders of their keys, and the clock does not go back. *)
Fixpoint syn_clocked (u : Z) (calls : list syn_call) : Prop :=
  match calls with
  | [] => True
  | c :: calls => u <= yc_now c /\ (forall l, yc_ord c l ≡ₚ l) /\ (forall l, yc_ord' c l ≡ₚ l) /\ syn_clocked (yc_now c) calls
  end.

(** The call carries part [i] of the client's sequence for the slot, from [ip],
    not before [first]. *)
Definition carries (o : SequenceOptions) (ip client : bytes) (slot first : Z) (i : nat) (c : syn_call) : Prop :=
  ip_text (yp_src (yc_packet c)) = ip /\ first <= yc_now c /\
  VerifySYNSeqPart (yp_fields (yc_packet c)) (yp_dstPort (yc_packet c)) clients pp (yc_now c) (so_SlotSeconds o) (so_Length o)
    (Z.of_nat i) (so_AllowLegacySYNSeq o) = Some (client, slot).

(** The calls [h] contain the first [n] parts, one after the other. *)
Definition collected (o : SequenceOptions) (h : list syn_call) (ip client : bytes) (slot first : Z) (n : nat) : Prop :=
  exists cs, sublist cs h /\ length cs = n /\ forall i c, cs !! i = Some c -> carries o ip client slot first i c.

Definition syn_state_ok (o : SequenceOptions) (h : list syn_call) (u : Z) (key : bytes) (st : synSeqState) : Prop :=
  exists ip, (nul ∉ ip) /\ key = syn_state_key ip (ys_clientID st) (ys_slot st) /\ 1 <= ys_matched st < so_Length o /\
    ys_firstSeen st <= u /\ collected o h ip (ys_clientID st) (ys_slot st) (ys_firstSeen st) (Z.to_nat (ys_matched st)).

Definition syn_inv_states t (h : list syn_call) (u : Z) : Prop :=
  forall key st, yt_states t !! key = Some st -> syn_state_ok (yt_opts t) h u key st.

Lemma collected_more o h c ip client slot first n : collected o h ip client slot first n -> collected o (h ++ [c]) ip client slot first n.
Proof. intros (cs & Hs & Hcs). exists cs. split; [|done]. by apply sublist_inserts_r. Qed.

Lemma collected_next o h c ip client slot first n :
  collected o h ip client slot first n -> carries o ip client slot first n c -> collected o (h ++ [c]) ip client slot first (S n).
Proof.
  intros (cs & Hs & Hl & Hcs) Hc. exists (cs ++ [c]). split; [by apply sublist_app|]. rewrite length_app, Hl. simpl. split; [lia|].
  intros i d Hi. destruct (decide (i < length cs)%nat); [apply Hcs; by rewrite lookup_app_l in Hi|].
  apply lookup_lt_Some in Hi as Hlt. rewrite length_app in Hlt. simpl in Hlt. assert (i = n) as -> by lia.
  rewrite list_lookup_middle in Hi by done. by injection Hi as <-.
Qed.

Lemma syn_state_ok_more o h c u u' key st : syn_state_ok o h u key st -> u <= u' -> syn_state_ok o (h ++ [c]) u' key st.
Proof. intros (ip & ? & ? & ? & ? & Hc) Hu. exists ip. split_and!; try done; try lia. by apply collected_more. Qed.

(** What completion means: the parts 0 to Length-1, in their order, from one
    source, for one client and slot, within the window. *)
Definition syn_complete (o : SequenceOptions) (h : list syn_call) (ip client : bytes) (now : Z) : Prop :=
  exists slot first, now - first <= so_Window o /\ collected o h ip client slot first (Z.to_nat (so_Length o)).

Lemma synseq_add_ok c t h u r t' :
  syn_inv_states t h u -> u <= yc_now c -> (forall l, yc_ord c l ≡ₚ l) -> 1 <= so_Length (yt_opts t) ->
  so_Window (yt_opts t) < 2 ^ 63 - 1 -> 0 <= so_Window (yt_opts t) ->
  synseq_add (yc_packet c) clients pp (yc_now c) (yc_mark c) (yc_ord c) (yc_ord' c) t = (r, t') ->
  syn_inv_states t' (h ++ [c]) (yc_now c) /\ yt_opts t' = yt_opts t /\
  (r.1 = true -> syn_complete (yt_opts t) (h ++ [c]) (ip_text (yp_src (yc_packet c))) r.2 (yc_now c)).
Proof.
  intros I Hu Hord HL HW HW0 E. unfold synseq_add in E. cbv zeta in E.
  destruct (prune_synseq_facts (yc_ord c) (yc_now c) t Hord) as (Eo & _ & Es). set (t1 := prune_synseq _ _ t) in *.
  set (ip := ip_text (yp_src (yc_packet c))) in *.
  assert (syn_inv_states t1 (h ++ [c]) (yc_now c)) as I1.
  { intros key st Hk. rewrite Eo. apply Es in Hk as [Hk _]. by eapply syn_state_ok_more; [apply I|]. }
  rewrite <- Eo in *.
  destruct (advance_state _ _ _ _ _ _) as [[r0 t2]|] eqn:Ea.
  - injection E as -> ->. apply advance_state_Some in Ea as (key & st & _ & Hk & [rest Hrest] & Hv & Hres).
    apply Es in Hk as Hk'. destruct Hk' as [Hk' Hwin]. destruct (I key st Hk') as (ip' & Hnul & Hkey & Hm & Hf & Hcol). rewrite <- Eo in Hm, Hcol.
    assert (ip' = ip) as ->.
    { rewrite Hkey in Hrest. unfold syn_state_key in Hrest. apply sep_inj in Hrest as [-> _]; [done|done|apply ip_text_no_nul]. }
    assert (collected (yt_opts t1) (h ++ [c]) ip (ys_clientID st) (ys_slot st) (ys_firstSeen st) (Z.to_nat (ys_matched st + 1))) as Hnext.
    { replace (Z.to_nat (ys_matched st + 1)) with (S (Z.to_nat (ys_matched st))) by lia. apply collected_next; [done|].
      split_and!; [done|lia|]. rewrite Z2Nat.id by lia. exact Hv. }
    cbv zeta in Hres. destruct (Z.leb_spec (so_Length (yt_opts t1)) (ys_matched st + 1)); destruct Hres as [-> ->].
    + split_and!; [|done|].
      * intros k s. simpl. intros Hks. apply lookup_delete_Some in Hks as [Hne Hks]. rewrite lookup_insert_ne in Hks by done. by apply I1.
      * intros _. exists (ys_slot st), (ys_firstSeen st). split; [unfold Sub in Hwin; lia|].
        replace (Z.to_nat (so_Length (yt_opts t1))) with (Z.to_nat (ys_matched st + 1)) by lia. exact Hnext.
    + split_and!; [|done|done]. intros k s. simpl. destruct (decide (key = k)) as [<-|Hne].
      * rewrite lookup_insert_eq. intros [= <-]. exists ip. simpl. split_and!; try done; lia.
      * rewrite lookup_insert_ne by done. by apply I1.
  - destruct (verify_packet _ _ _ _ 0 _) as [[client slot]|] eqn:Ev; [|injection E as <- <-; by split_and!].
    destruct (_ || _); [injection E as <- <-; by split_and!|].
    destruct (CheckSYNReplay _ _ _ _ _) as [err cache]. destruct err; [injection E as <- <-; by split_and!|].
    assert (collected (yt_opts t1) (h ++ [c]) ip client slot (yc_now c) 1) as Hone.
    { apply (collected_next _ _ _ _ _ _ _ 0); [exists []; split_and!; [apply sublist_nil_l|done|done]|]. by split_and!. }
    cbn [yt_opts] in E. destruct (Z.eqb_spec (so_Length (yt_opts t1)) 1) as [E1|E1]; injection E as <- <-.
    + split_and!; [done|done|]. intros _. exists slot, (yc_now c). split; [lia|]. by rewrite E1.
    + split_and!; [|done|done]. intros k s. simpl. destruct (decide (syn_state_key ip client slot = k)) as [<-|Hne].
      * rewrite lookup_insert_eq. intros [= <-]. exists ip. simpl. split_and!; try done; [apply ip_text_no_nul|lia..].
      * rewrite lookup_insert_ne by done. by apply I1.
Qed.

Lemma synseq_run_ok calls : forall t h u rs t',
  syn_inv_states t h u -> syn_clocked u calls -> 1 <= so_Length (yt_opts t) -> 0 <= so_Window (yt_opts t) < 2 ^ 63 - 1 ->
  synseq_run calls t = (rs, t') ->
  forall n c r, calls !! n = Some c -> rs !! n = Some r -> r.1 = true ->
    syn_complete (yt_opts t) (h ++ take (S n) calls) (ip_text (yp_src (yc_packet c))) r.2 (yc_now c).
Proof.
  induction calls as [|c calls IH]; intros t h u rs t' I Hc HL HW E n d r Hd Hr Ht; [done|].
  destruct Hc as (Hu & Ho & _ & Hc). cbn [synseq_run] in E.
  destruct (synseq_add _ _ _ _ _ _ _ t) as [r1 t1] eqn:Ea. destruct (synseq_run calls t1) as [rs1 t2] eqn:Er. injection E as <- <-.
  destruct (synseq_add_ok c t h u r1 t1 I Hu Ho HL ltac:(lia) ltac:(lia) Ea) as (I1 & E1 & Hdone).
  destruct n as [|n]; simpl in Hd, Hr.
  - injection Hd as <-. injection Hr as <-. by apply Hdone.
  - rewrite <- E1 in HL, HW |- *. specialize (IH t1 (h ++ [c]) (yc_now c) rs1 t2 I1 Hc HL HW Er n d r Hd Hr Ht).
    rewrite <- app_assoc in IH. exact IH.
Qed.

End TrackerLemmas.

(** A part that verifies has an index below the number of parts that are computed. *)
Lemma verify_part_index fields dstPort clients pp now ss total index legacy client slot :
  VerifySYNSeqPart fields dstPort clients pp now ss total index legacy = Some (client, slot) ->
  0 <= index < (if Z.ltb total 2 || Z.ltb 5 total then 3 else total).
Proof.
  assert (forall k s leg, synSeqPartMatches (computeSYNSeqParts (cs_Secret k) (cs_ClientID k) pp s total leg) index dstPort fields = true ->
    0 <= index < (if Z.ltb total 2 || Z.ltb 5 total then 3 else total)) as Hm.
  { intros k s leg. unfold synSeqPartMatches, computeSYNSeqParts, len. rewrite length_map, length_seq.
    rewrite !andb_true_iff, Z.leb_le, Z.ltb_lt. intros [[H1 H2] _]. split; [done|]. zcases; cbn [orb] in *; lia. }
  unfold VerifySYNSeqPart. cbv zeta. generalize (Z.quot (Unix now) (if Z.leb ss 0 then 30 else ss)). intros current.
  induction clients as [|k clients IH]; cbn [verify_part_from]; [done|].
  destruct (first_slot _ _ _ _ _ _ _ _) as [s|] eqn:Ef; [|exact IH]. intros _. clear IH.
  induction (map _ deltas) as [|x xs IH]; cbn [first_slot] in Ef; [done|].
  destruct (part_matches _ _ _ _ _ _ _ x) eqn:Ep; [|by apply IH]. unfold part_matches in Ep.
  apply orb_true_iff in Ep as [Ep|[_ Ep]%andb_true_iff]; by eapply Hm.
Qed.

Lemma synseq_run_length `{ReplayCache C} clients pp calls : forall (t : synSeqTracker C), length (synseq_run clients pp calls t).1 = length calls.
Proof.
  induction calls as [|c calls IH]; intros t; cbn [synseq_run]; [done|]. destruct (synseq_add _ _ _ _ _ _ _ t) as [r t1].
  specialize (IH t1). destruct (synseq_run clients pp calls t1). simpl in *. by rewrite IH.
Qed.

Lemma completion_collected `{ReplayCache C} (o : SequenceOptions) (replay : option C) clients pp u calls n c client :
  let d := normalizedSequenceOptions o in
  syn_clocked u calls -> 1 <= so_Length d -> so_Window d < 2 ^ 63 - 1 ->
  calls !! n = Some c -> (synseq_run clients pp calls (newSYNSequenceTracker o replay)).1 !! n = Some (true, client) ->
  syn_complete clients pp d (take (S n) calls) (ip_text (yp_src (yc_packet c))) client (yc_now c).
Proof.
  intros d Hc HL HW Hn Hr. destruct (synseq_run _ _ _ _) as [rs t'] eqn:E.
  assert (0 < so_Window d) by (unfold d, normalizedSequenceOptions, Second; simpl; zcases; lia).
  apply (synseq_run_ok clients pp calls (newSYNSequenceTracker o replay) [] u rs t') with (n := n) (c := c) (r := (true, client)) in E; try done.
  change (0 <= so_Window d < 2 ^ 63 - 1). lia.
Qed.

(** A SYN sequence only completes when all of it has arrived: when
    [add] reports completion for a client, then the parts 0 to Length-1 of that
    client's sequence, for one time slot, have been received from the same
    source address, in this order and within the window, whatever was received
    in between and in whatever order the tracker visits its map. *)
Theorem synseq_complete_sound `{ReplayCache C} (o : SequenceOptions) (replay : option C) (clients : list ClientSecret) (pp u : Z)
    (calls : list syn_call) (n : nat) (c : syn_call) (client : bytes) :
  let d := normalizedSequenceOptions o in
  syn_clocked u calls -> 1 <= so_Length d -> so_Window d < 2 ^ 63 - 1 ->
  calls !! n = Some c -> (synseq_run clients pp calls (newSYNSequenceTracker o replay)).1 !! n = Some (true, client) ->
  syn_complete clients pp d (take (S n) calls) (ip_text (yp_src (yc_packet c))) client (yc_now c).
Proof.
  intros d Hc HL HW Hn Hr. by eapply completion_collected.
Qed.

(** A SYN sequence of more than five parts never completes: the code
    computes three parts for it, and the tracker waits for as many as were
    configured, so no packets whatsoever make [add] report completion. *)
Theorem synseq_long_never_completes `{ReplayCache C} (o : SequenceOptions) (replay : option C) (clients : list ClientSecret) (pp u : Z)
    (calls : list syn_call) (client : bytes) :
  let d := normalizedSequenceOptions o in
  syn_clocked u calls -> 5 < so_Length d -> so_Window d < 2 ^ 63 - 1 ->
  (true, client) ∉ (synseq_run clients pp calls (newSYNSequenceTracker o replay)).1.
Proof.
  intros d Hc HL HW (n & Hr)%list_elem_of_lookup. pose proof (synseq_run_length clients pp calls (newSYNSequenceTracker o replay)) as Hlen.
  destruct (lookup_lt_is_Some_2 calls n) as [c Hn]; [rewrite <- Hlen; by eapply lookup_lt_Some|].
  destruct (completion_collected o replay clients pp u calls n c client Hc ltac:(fold d; lia) HW Hn Hr) as (slot & first & _ & cs & _ & Hcs & Hparts).
  fold d in Hcs, Hparts. destruct (lookup_lt_is_Some_2 cs 5) as [x Hx]; [lia|]. destruct (Hparts _ _ Hx) as (_ & _ & Hv%verify_part_index).
  rewrite (proj2 (Z.ltb_lt 5 (so_Length d))), orb_true_r in Hv by lia. lia.
Qed.

(** * Delivery *)

Section Delivery.
Context {C : Type} `{ReplayCache C} (clients : list ClientSecret) (pp : Z) (o : SequenceOptions) (ip client : bytes) (slot first : Z).

(** The tracker waits for part [n] of one sequence. *)
Definition waiting (n : nat) (t : synSeqTracker C) : Prop :=
  yt_opts t = o /\ yt_perIP t = {[ip := 1]} /\ yt_total t = 1 /\
  exists last, yt_states t = {[syn_state_key ip client slot := mkSynSeqState first last (Z.of_nat n) client slot]}.

Definition idle (t : synSeqTracker C) : Prop := yt_opts t = o /\ yt_perIP t = ∅ /\ yt_total t = 0 /\ yt_states t = ∅.

Lemma waiting_prune n t ord now :
  waiting n t -> (forall l, ord l ≡ₚ l) -> now - first <= so_Window o -> 0 <= so_Window o -> prune_synseq ord now t = t.
Proof.
  intros (Ho & _ & _ & last & Hs) Hord Hw Hw0. unfold prune_synseq, visit. rewrite Hs, map_to_list_singleton. cbn [map fst].
  rewrite (proj1 (Permutation_singleton_r _ _) (Hord [_])). cbn [fold_left]. unfold prune_syn. rewrite Hs, lookup_singleton_eq, Ho. cbn [ys_firstSeen].
  rewrite (proj2 (Z.ltb_ge _ _)); [done|]. unfold Sub. lia.
Qed.

Lemma waiting_step n t c :
  waiting n t -> carries clients pp o ip client slot first n c -> (forall l, yc_ord c l ≡ₚ l) -> (forall l, yc_ord' c l ≡ₚ l) ->
  yc_now c <= first + so_Window o -> 0 <= so_Window o ->
  exists t', synseq_add (yc_packet c) clients pp (yc_now c) (yc_mark c) (yc_ord c) (yc_ord' c) t =
    ((if Z.leb (so_Length o) (Z.of_nat n + 1) then (true, client) else (false, [])), t') /\
  if Z.leb (so_Length o) (Z.of_nat n + 1) then idle t' else waiting (S n) t'.
Proof.
  intros W (Hip & Hge & Hv) Hord Hord' Hw Hw0. unfold synseq_add. rewrite (waiting_prune n) by (done || lia). cbv zeta.
  destruct W as (Ho & Hp & Ht & last & Hs). unfold visit. rewrite Hs, map_to_list_singleton. cbn [map fst].
  rewrite (proj1 (Permutation_singleton_r _ _) (Hord' [_])). cbn [advance_state]. rewrite Hs, lookup_singleton_eq, Hip. cbn [ys_matched ys_clientID ys_slot ys_firstSeen].
  rewrite bool_decide_eq_true_2 by (apply key_of_source; by eexists).
  unfold verify_packet. rewrite Ho, Hv, bool_decide_eq_true_2, Z.eqb_refl by done. cbn [andb yt_opts put_state]. rewrite Ho.
  destruct (Z.leb (so_Length o) (Z.of_nat n + 1)); (eexists; split; [reflexivity|]).
  - unfold idle. cbn [yt_opts yt_perIP yt_total yt_states decInflightLocked drop_state put_state]. rewrite Hp, Ht, Hs, !insert_singleton_eq.
    unfold ip_count. rewrite lookup_singleton_eq. split_and!; try done; apply delete_singleton_eq.
  - unfold waiting. cbn [yt_opts yt_perIP yt_total yt_states put_state]. rewrite Hs, insert_singleton_eq. split_and!; try done.
    exists (yc_now c). do 2 f_equal. lia.
Qed.

Lemma waiting_run cs : forall n t,
  waiting n t -> (forall i c, cs !! i = Some c -> carries clients pp o ip client slot first (n + i) c /\ yc_now c <= first + so_Window o) ->
  syn_clocked first cs -> 0 <= so_Window o -> cs <> [] -> Z.of_nat (n + length cs) = so_Length o ->
  (synseq_run clients pp cs t).1 = replicate (length cs - 1) (false, []) ++ [(true, client)] /\ idle (synseq_run clients pp cs t).2.
Proof.
  assert (forall cs u, syn_clocked u cs -> forall c, c ∈ cs -> (forall l, yc_ord c l ≡ₚ l) /\ (forall l, yc_ord' c l ≡ₚ l)) as Hperm.
  { induction cs0 as [|d cs0 IH]; intros u Hc c Hin; [by apply elem_of_nil in Hin|]. destruct Hc as (_ & ? & ? & Hc).
    apply elem_of_cons in Hin as [->|Hin]; [done|]. by eapply IH. }
  induction cs as [|c cs IH]; intros n t W Hcs Hck Hw0 Hne Hlen; [done|]. cbn [synseq_run].
  destruct (Hcs 0%nat c eq_refl) as [Hc Hb]. rewrite Nat.add_0_r in Hc.
  destruct (Hperm _ _ Hck c ltac:(by left)) as [Ho Ho'].
  destruct (waiting_step n t c W Hc Ho Ho' Hb Hw0) as (t' & Hadd & Hafter). rewrite Hadd. cbn [length] in Hlen.
  destruct cs as [|d cs].
  - rewrite (proj2 (Z.leb_le _ _)) in Hafter |- * by (simpl in Hlen; lia). done.
  - rewrite (proj2 (Z.leb_gt _ _)) in Hafter |- * by (simpl in Hlen; lia).
    assert (syn_clocked first (d :: cs)) as Hck'.
    { destruct Hck as (H1 & _ & _ & H2 & H3). split; [lia|done]. }
    destruct (IH (S n) t' Hafter) as [Hr Hi]; [|done|done|done|lia|].
    { intros i x Hx. replace (S n + i)%nat with (n + S i)%nat by lia. by apply Hcs. }
    destruct (synseq_run clients pp (d :: cs) t') as [rs t'']. cbn [fst snd] in *. rewrite Hr. simpl. by rewrite Nat.sub_0_r.
Qed.

Lemma idle_step t c :
  idle t -> carries clients pp o ip client slot first 0 c -> yc_now c = first -> (forall l, yc_ord c l ≡ₚ l) -> (forall l, yc_ord' c l ≡ₚ l) ->
  0 < so_MaxInflightPerIP o -> 0 < so_MaxTotalInflight o -> so_Length o <> 1 ->
  (check_and_mark client (syn_nonce (yp_fields (yc_packet c)) pp) (yc_mark c) (yt_replay t)).1 = None ->
  exists t', synseq_add (yc_packet c) clients pp (yc_now c) (yc_mark c) (yc_ord c) (yc_ord' c) t = ((false, []), t') /\ waiting 1 t'.
Proof.
  intros (Ho & Hp & Ht & Hs) (Hip & _ & Hv) Hnow Hord Hord' Hm1 Hm2 HL Hrc. unfold synseq_add, prune_synseq, visit.
  assert (forall f : list bytes -> list bytes, (forall l, f l ≡ₚ l) -> f [] = []) as Hnil.
  { intros f Hf. by apply Permutation_nil_r. }
  rewrite Hs, map_to_list_empty. cbn [map]. rewrite (Hnil _ Hord). cbn [fold_left]. cbv zeta.
  rewrite Hs, map_to_list_empty. cbn [map]. rewrite (Hnil _ Hord'). cbn [advance_state].
  unfold verify_packet. change (Z.of_nat 0) with 0 in Hv. rewrite Ho, Hv, Hp, Ht, Hip. unfold ip_count. rewrite lookup_empty. cbn [default].
  rewrite !(proj2 (Z.leb_gt _ _)) by done. cbn [orb]. unfold CheckSYNReplay.
  destruct (check_and_mark _ _ _ _) as [err cache]. cbn [fst] in Hrc. subst err. cbn [yt_opts]. rewrite (proj2 (Z.eqb_neq _ 1)) by done.
  eexists. split; [reflexivity|]. unfold waiting. cbn [yt_opts yt_perIP yt_total yt_states put_state]. split_and!; try done.
  exists (yc_now c). by rewrite Hnow.
Qed.

End Delivery.

(** A SYN sequence that arrives completes: when the parts of a
    client's sequence reach a new tracker in their order and within the window,
    and the replay cache has not seen the first of them, the last part and only
    the last reports the client, and the tracker keeps nothing of the sequence. *)
Theorem synseq_delivers `{ReplayCache C} (o : SequenceOptions) (replay : option C) (clients : list ClientSecret) (pp : Z)
    (ip client : bytes) (slot first : Z) (c0 : syn_call) (cs : list syn_call) :
  let d := normalizedSequenceOptions o in
  let t := newSYNSequenceTracker o replay in
  so_Length d = 1 + len cs -> cs <> [] -> 0 < so_MaxInflightPerIP d -> 0 < so_MaxTotalInflight d ->
  syn_clocked first (c0 :: cs) -> yc_now c0 = first ->
  (forall i c, (c0 :: cs) !! i = Some c -> carries clients pp d ip client slot first i c /\ yc_now c <= first + so_Window d) ->
  (check_and_mark client (syn_nonce (yp_fields (yc_packet c0)) pp) (yc_mark c0) (yt_replay t)).1 = None ->
  (synseq_run clients pp (c0 :: cs) t).1 = replicate (length cs) (false, []) ++ [(true, client)] /\
  yt_states (synseq_run clients pp (c0 :: cs) t).2 = ∅.
Proof.
  intros d t HL Hne Hm1 Hm2 Hck Hnow Hcs Hrc. destruct Hck as (_ & Ho & Ho' & Hck). rewrite Hnow in Hck.
  assert (0 < so_Window d) by (unfold d, normalizedSequenceOptions, Second; simpl; zcases; lia).
  destruct (idle_step clients pp d ip client slot first t c0) as (t1 & Hadd & W); try done.
  - by apply Hcs.
  - destruct cs as [|x cs]; [done|]. rewrite HL, len_cons. pose proof (len_nonneg cs). lia.
  - cbn [synseq_run]. rewrite Hadd.
    destruct (waiting_run clients pp d ip client slot first cs 1 t1 W) as [Hr Hi]; try done; [|lia|unfold len in HL; lia|].
    { intros i c Hi. apply (Hcs (S i) c Hi). }
    destruct (synseq_run clients pp cs t1) as [rs t2]. cbn [fst snd] in *. destruct Hi as (_ & _ & _ & Hi). split; [|done].
    rewrite Hr. destruct cs; [done|]. simpl. by rewrite Nat.sub_0_r.
Qed.

(** * Evaluation on concrete inputs *)

Definition ex_client : ClientSecret := mkClientSecret (str "c") (str "0123456789abcdef0123456789abcdef").
Definition ex_seq_options (n : Z) : SequenceOptions := mkSequenceOptions n 30 (10 * Second) 0 0 1 4 false.

(** The two parts of a sequence for slot 2, at 60 s and 61 s. *)
Definition ex_part (i : nat) : syn_packet := Eval vm_compute in
  match nth_error (ComputeSYNSeqParts (cs_Secret ex_client) (str "c") 22 2 2) i with
  | Some p => mkSynPacket Packet.ex_ip (sp_Port p) (sp_Fields p)
  | None => mkSynPacket [] 0 (mkSYNFields 0 0 0)
  end.
Definition ex_call (i : nat) : syn_call :=
  mkSynCall (ex_part i) ((60 + Z.of_nat i) * Second) ((60 + Z.of_nat i) * Second) (fun l => l) (fun l => l).

Example ex_carries i c : [ex_call 0; ex_call 1] !! i = Some c ->
  carries [ex_client] 22 (normalizedSequenceOptions (ex_seq_options 2)) (ip_text Packet.ex_ip) (str "c") 2 (60 * Second) i c /\
  yc_now c <= 60 * Second + 10 * Second.
Proof.
  destruct i as [|[|i]]; intros [= <-]; (split; [split_and!|]); try (vm_compute; congruence); vm_compute; reflexivity.
Qed.

Lemma synseq_delivers_witness :
  (synseq_run [ex_client] 22 [ex_call 0; ex_call 1] (newSYNSequenceTracker (C := option Memory.t) (ex_seq_options 2) None)).1 =
  [(false, []); (true, str "c")].
Proof.
  refine (proj1 (synseq_delivers (C := option Memory.t) (ex_seq_options 2) None [ex_client] 22 (ip_text Packet.ex_ip) (str "c") 2 (60 * Second)
    (ex_call 0) [ex_call 1] _ _ _ _ _ _ ex_carries _)).
  - reflexivity.
  - discriminate.
  - simpl. lia.
  - simpl. lia.
  - cbn [syn_clocked]. split_and!; try done; unfold ex_call, Second; cbn [yc_now yc_ord yc_ord']; try lia; reflexivity.
  - reflexivity.
  - vm_compute. reflexivity.
Defined.

Example ex_clocked : syn_clocked 0 [ex_call 0; ex_call 1].
Proof. cbn [syn_clocked]. unfold ex_call, Second. cbn [yc_now yc_ord yc_ord']. split_and!; try done; lia. Qed.

Lemma synseq_complete_sound_witness :
  syn_complete [ex_client] 22 (normalizedSequenceOptions (ex_seq_options 2)) [ex_call 0; ex_call 1] (ip_text Packet.ex_ip) (str "c") (61 * Second).
Proof.
  refine (synseq_complete_sound (C := option Memory.t) (ex_seq_options 2) None [ex_client] 22 0 [ex_call 0; ex_call 1] 1 (ex_call 1) (str "c")
    ex_clocked _ _ _ _).
  - simpl. lia.
  - simpl. unfold Second. lia.
  - reflexivity.
  - vm_compute. reflexivity.
Defined.

Lemma synseq_long_never_completes_witness :
  (true, str "c") ∉ (synseq_run [ex_client] 22 [ex_call 0; ex_call 1] (newSYNSequenceTracker (C := option Memory.t) (ex_seq_options 6) None)).1.
Proof.
  refine (synseq_long_never_completes (C := option Memory.t) (ex_seq_options 6) None [ex_client] 22 0 [ex_call 0; ex_call 1] (str "c") ex_clocked _ _).
  - simpl. lia.
  - simpl. unfold Second. lia.
Defined.

Lemma syn_knock_window_witness :
  VerifySYNFields (ComputeSYNFields (cs_Secret ex_client) (str "c") 22 (SlotFor (59 * Second) (30 * Second))) [ex_client] 22 (60 * Second) (30 * Second)
  = Some (str "c").
Proof.
  refine (proj2 (syn_knock_window [ex_client] 22 (60 * Second) (30 * Second) _) ex_client (59 * Second) _ _ _ _ _).
  - unfold clock_ok, Second. lia.
  - by left.
  - vm_compute. reflexivity.
  - unfold clock_ok, Second. lia.
  - vm_compute. discriminate.
  - intros c' slot Hc' _. apply list_elem_of_singleton in Hc' as ->. reflexivity.
Defined.
