(* ===== verification/KnockListen.v ===== *)
(** The knock listeners and senders: knock/udp.go, knock/udp_seq.go,
    knock/udp_passive_linux.go, knock/synseq_linux.go, knock/methods.go and
    knock/client.go.

    A listener is a loop over what its socket delivers. One round of the loop
    is a function from the listener's state (the replay cache and the sequence
    tracker) to its outputs and its next state; sockets, capabilities and
    deadlines are not modelled, and what the configured callbacks answer for a
    packet is part of the input. *)

From Stdlib Require Import ZArith Lia String Sorted.
From Stdlib Require Strings.Byte.
From stdpp Require Import base list gmap strings.
From S2P Require Import Prelude GoStd Cryptox Codec Frame Cache Replay Net KnockFrame KnockSeq Packet KnockSyn.

Open Scope Z_scope.

(** * knock/methods.go and knock/client.go *)

Definition UDPPassiveMethod : bytes := str "udp-passive".
Definition TCPSYNMethod : bytes := str "tcp-syn".
Definition UDPPassiveSeq : bytes := str "udp-passive-seq".

Definition activeUDPMethods : gset bytes := {[ UDPMethod; UDPSeqMethod ]}.
Definition relayServerMethods : gset bytes :=
  {[ TCPSYNMethod; TCP_SYNSeqMethod; UDPMethod; UDPSeqMethod; UDPPassiveMethod; UDPPassiveSeq ]}.

Definition NormalizeMethod (method : bytes) : bytes :=
  if bool_decide (method = str "udp-sequence") then UDPSeqMethod
  else if bool_decide (method = str "udp-passive-sequence") then UDPPassiveSeq
  else method.

Definition IsActiveUDPMethod (method : bytes) : bool := bool_decide (NormalizeMethod method ∈ activeUDPMethods).
Definition IsRelayServerMethod (method : bytes) : bool := bool_decide (NormalizeMethod method ∈ relayServerMethods).

(** The verb [%q], for a string that needs no escapes. *)
Definition quoted (s : bytes) : bytes := [Byte.x22] ++ s ++ [Byte.x22].

Definition unsupported_method (method : bytes) : error := EMsg (str "unsupported knock method " ++ quoted method).

Definition ValidateRelayServerMethod (method : bytes) : option error :=
  if IsRelayServerMethod method then None else Some (unsupported_method method).

(** * Options and events *)

Record Event := mkEvent {
  ev_SourceIP : bytes; ev_ClientID : bytes; ev_Nonce : bytes; ev_Method : bytes; ev_Parts : Z; ev_SessionID : bytes;
}.

(** The callbacks [AllowPacket], [PacketLimiter] and [InvalidPacket] are here
    by whether they are configured. *)
Record ListenOptions (C : Type) := mkListenOptions {
  lo_Port : Z; lo_KnockPort : Z; lo_Clients : list ClientSecret; lo_TimeWindow : Z; lo_MaxFrameSize : Z;
  lo_RequireSessionID : bool; lo_ReplayCache : option C; lo_AllowPacket : bool; lo_PacketLimiter : bool; lo_InvalidPacket : bool;
  lo_Sequence : SequenceOptions; lo_NonceTTL : Z;
}.
Arguments mkListenOptions {C} _ _ _ _ _ _ _ _ _ _ _ _.
Arguments lo_Port {C} _.
Arguments lo_KnockPort {C} _.
Arguments lo_Clients {C} _.
Arguments lo_TimeWindow {C} _.
Arguments lo_MaxFrameSize {C} _.
Arguments lo_RequireSessionID {C} _.
Arguments lo_ReplayCache {C} _.
Arguments lo_AllowPacket {C} _.
Arguments lo_PacketLimiter {C} _.
Arguments lo_InvalidPacket {C} _.
Arguments lo_Sequence {C} _.
Arguments lo_NonceTTL {C} _.

(** What a listener does with a packet: it reports it invalid, or it calls the
    handler. *)
Inductive output := Invalid (ip : bytes) (reason : error) | Handle (ev : Event).

(** What the socket delivers: the bytes and the sender's address ([None] when
    it has no IP address), with what the callbacks answer for it, the time at
    which it is opened and marked, the time at which the tracker gets it and
    the orders in which the maps are visited; or an error. *)
Record arrival := mkArrival {
  ar_data : bytes; ar_from : option bytes; ar_allow : bool; ar_limit : bool; ar_now : Z; ar_add : Z; ar_order : list bytes;
  ar_ord : list bytes -> list bytes; ar_ord' : list bytes -> list bytes;
}.

Definition maxKnockFrameSize {C} (o : ListenOptions C) : Z :=
  if Z.ltb 0 (lo_MaxFrameSize o) then lo_MaxFrameSize o else DefaultMaxKnockFrameSize.

Definition requireKnockSessionID {C} (o : ListenOptions C) (info : KnockInfo) : option error :=
  if negb (lo_RequireSessionID o) then None else requireSessionID (ki_SessionID info).

Definition invalid {C} (o : ListenOptions C) (ip : bytes) (reason : error) : list output :=
  if lo_InvalidPacket o then [Invalid ip reason] else [].

(** The answer, and what is reported. *)
Definition allowKnockPacket {C} (o : ListenOptions C) (ip : bytes) (a : arrival) : bool * list output :=
  if lo_AllowPacket o && negb (ar_allow a) then (false, [])
  else if lo_PacketLimiter o && negb (ar_limit a) then (false, invalid o ip (EMsg (str "packet_rate_limited")))
  else (true, []).

(** [replayCache(opts)] *)
Definition listen_cache {C} (o : ListenOptions C) : C + option Memory.t :=
  match lo_ReplayCache o with
  | Some c => inl c
  | None => inr (Some (replayCache None (lo_TimeWindow o)))
  end.

Definition knock_config {C} (o : ListenOptions C) (method : bytes) (sequence : bool) : ServerConfig :=
  mkServerConfig (lo_Clients o) (lo_Port o) method (lo_TimeWindow o) (maxKnockFrameSize o) sequence.

(** * The UDP listeners *)

Section Listeners.
Context `{AEAD} {C : Type} `{ReplayCache C}.
Implicit Types o : ListenOptions C.

(** [OpenKnockFrame] and the check of the session id, with the cache after it. *)
Definition open_checked o (method : bytes) (sequence : bool) (data : bytes) (now : Z) (rc : C + option Memory.t)
    : res KnockInfo * (C + option Memory.t) :=
  let '(r, rc') := OpenKnockFrame data (knock_config o method sequence) now (Some rc) in
  let rc := default rc rc' in
  match r with
  | Err e => (Err e, rc)
  | Ok info => match requireKnockSessionID o info with Some e => (Err e, rc) | None => (Ok info, rc) end
  end.

Definition knock_event (ip : bytes) (method : bytes) (parts : Z) (info : KnockInfo) : Event :=
  mkEvent ip (ki_ClientID info) (hex_EncodeToString (ki_Nonce info)) method parts (ki_SessionID info).

(** One round of [udpListener.Serve]. The read buffer has [maxFrameSize] bytes. *)
Definition udp_round o (a : arrival) (rc : C + option Memory.t) : list output * (C + option Memory.t) :=
  let buf := take (Z.to_nat (maxKnockFrameSize o)) (ar_data a) in
  match ar_from a with
  | None => ([], rc)
  | Some ip =>
      let '(ok, out) := allowKnockPacket o ip a in
      if negb ok then (out, rc)
      else
        let '(r, rc) := open_checked o UDPMethod false buf (ar_now a) rc in
        match r with
        | Err e => (invalid o ip e, rc)
        | Ok info => ([Handle (knock_event ip UDPMethod 0 info)], rc)
        end
  end.

(** One round of [udpSequenceListener.Serve]. *)
Definition udpseq_round o (a : arrival) (s : (C + option Memory.t) * sequenceTracker)
    : list output * ((C + option Memory.t) * sequenceTracker) :=
  let '(rc, tracker) := s in
  let buf := take (Z.to_nat (maxKnockFrameSize o)) (ar_data a) in
  match ar_from a with
  | None => ([], s)
  | Some ip =>
      let '(ok, out) := allowKnockPacket o ip a in
      if negb ok then (out, s)
      else
        let '(r, rc) := open_checked o UDPSeqMethod true buf (ar_now a) rc in
        match r with
        | Err e => (invalid o ip e, (rc, tracker))
        | Ok info =>
            let '((complete, err), tracker) := add ip (Some info) (ar_add a) (ar_order a) tracker in
            match err with
            | Some e => (invalid o ip e, (rc, tracker))
            | None => (if complete then [Handle (knock_event ip UDPSeqMethod (ki_SequenceTotal info) info)] else [], (rc, tracker))
            end
        end
  end.

(** * The passive listeners *)

(** The protected port and the port the knocks are sent to. *)
Definition passive_ports o : res Z :=
  if Z.ltb (lo_Port o) 1 || Z.ltb 65535 (lo_Port o) then Err (EMsg (str "invalid protected port " ++ itoa (lo_Port o)))
  else
    let knockPort := if Z.eqb (lo_KnockPort o) 0 then lo_Port o else lo_KnockPort o in
    if Z.ltb knockPort 1 || Z.ltb 65535 knockPort then Err (EMsg (str "invalid udp knock port " ++ itoa knockPort)) else Ok knockPort.

(** The start of a round of both: the frame holds a datagram for the port, not
    too large, that [AllowPacket] lets pass. *)
Definition passive_datagram o (knockPort : Z) (a : arrival) : option (bytes * bytes) :=
  match parseUDPKnockDatagram (ar_data a) knockPort with
  | Some (Some (src, payload)) =>
      if Z.ltb (maxKnockFrameSize o) (len payload) then None
      else if lo_AllowPacket o && negb (ar_allow a) then None
      else Some (src, payload)
  | _ => None
  end.

(** One round of [ListenUDPPassive]; [TimeWindow] has its default. *)
Definition passive_round o (knockPort : Z) (a : arrival) (rc : C + option Memory.t) : list output * (C + option Memory.t) :=
  match passive_datagram o knockPort a with
  | None => ([], rc)
  | Some (src, payload) =>
      let '(r, rc) := open_checked o UDPPassiveMethod false payload (ar_now a) rc in
      match r with
      | Err _ => ([], rc)
      | Ok info => ([Handle (knock_event src UDPPassiveMethod 0 info)], rc)
      end
  end.

(** One round of [ListenUDPPassiveSequence]. *)
Definition passive_seq_round o (knockPort : Z) (a : arrival) (s : (C + option Memory.t) * sequenceTracker)
    : list output * ((C + option Memory.t) * sequenceTracker) :=
  let '(rc, tracker) := s in
  match passive_datagram o knockPort a with
  | None => ([], s)
  | Some (src, payload) =>
      let '(r, rc) := open_checked o UDPPassiveSeq true payload (ar_now a) rc in
      match r with
      | Err _ => ([], (rc, tracker))
      | Ok info =>
          let '((complete, err), tracker) := add src (Some info) (ar_add a) (ar_order a) tracker in
          match err with
          | Some _ => ([], (rc, tracker))
          | None => (if complete then [Handle (knock_event src UDPPassiveSeq (ki_SequenceTotal info) info)] else [], (rc, tracker))
          end
      end
  end.

(** * The SYN listeners *)

(** One round of [Listen]; [ar_now] is when the fields are verified, [ar_add]
    what the replay cache reads. *)
Definition syn_round o (a : arrival) (rc : C + option Memory.t) : list output * (C + option Memory.t) :=
  match parseSYNKnock (ar_data a) (lo_Port o) with
  | Some (Some (src, fields)) =>
      if lo_AllowPacket o && negb (ar_allow a) then ([], rc)
      else
        let window := if Z.leb (lo_TimeWindow o) 0 then 30 * Second else lo_TimeWindow o in
        match VerifySYNFields fields (lo_Clients o) (lo_Port o) (ar_now a) window with
        | None => ([], rc)
        | Some clientID =>
            let '(err, rc') := CheckSYNReplay (Some rc) clientID fields (lo_Port o) (ar_add a) in
            let rc := default rc rc' in
            if err is Some _ then ([], rc)
            else ([Handle (mkEvent src clientID [] TCPSYNMethod 0 [])], rc)
        end
  | _ => ([], rc)
  end.

(** One round of [ListenSYNSequence]. *)
Definition synseq_round o (a : arrival) (t : synSeqTracker (C + option Syn.t)) : list output * synSeqTracker (C + option Syn.t) :=
  match parseSYNPacket (ar_data a) with
  | Some (Some (src, dstPort, fields)) =>
      if lo_AllowPacket o && negb (ar_allow a) then ([], t)
      else
        let '((complete, clientID), t) :=
          synseq_add (mkSynPacket src dstPort fields) (lo_Clients o) (lo_Port o) (ar_now a) (ar_add a) (ar_ord a) (ar_ord' a) t in
        (if complete then [Handle (mkEvent src clientID [] TCP_SYNSeqMethod (so_Length (normalizedSequenceOptions (lo_Sequence o))) [])] else [], t)
  | _ => ([], t)
  end.

End Listeners.

(** The loop of a listener over what arrives. *)
Fixpoint serve {S} (round : arrival -> S -> list output * S) (arrivals : list arrival) (s : S) : list output * S :=
  match arrivals with
  | [] => ([], s)
  | a :: arrivals =>
      let '(out, s) := round a s in
      let '(outs, s) := serve round arrivals s in (out ++ outs, s)
  end.

(** * Starting a listener *)

(** Why a raw socket could not be opened. *)
Inductive sock_error := EPERM | EACCES | Errno (e : error).

Definition raw_socket_error (needs : bytes) (e : sock_error) : error :=
  match e with EPERM | EACCES => EMsg needs | Errno e => e end.

Definition NewUDPListener {C} (listen : bytes) (o : ListenOptions C) (bind : option error) : option error :=
  if bool_decide (listen = []) then Some (EMsg (str "udp listen address is required"))
  else match ValidateClientSecrets (lo_Clients o) with Some e => Some e | None => bind end.

Definition NewUDPSequenceListener {C} (listen : bytes) (o : ListenOptions C) (bind : option error) : option error :=
  NewUDPListener listen o bind.

Definition with_window {C} (o : ListenOptions C) : ListenOptions C :=
  mkListenOptions (lo_Port o) (lo_KnockPort o) (lo_Clients o) (if Z.leb (lo_TimeWindow o) 0 then 30 * Second else lo_TimeWindow o)
    (lo_MaxFrameSize o) (lo_RequireSessionID o) (lo_ReplayCache o) (lo_AllowPacket o) (lo_PacketLimiter o) (lo_InvalidPacket o)
    (lo_Sequence o) (lo_NonceTTL o).

(** How the loops end: with the context's error, if it has one, else with the
    error of the read. *)
Record ending := mkEnding { en_ctx : option error; en_read : error }.
Definition loop_error (e : ending) : error := default (en_read e) (en_ctx e).

Section Start.
Context `{AEAD} {C : Type} `{ReplayCache C}.
Implicit Types o : ListenOptions C.

Definition ListenUDP (listen : bytes) o (bind : option error) (arrivals : list arrival) (e : ending) : list output * error :=
  match NewUDPListener listen o bind with
  | Some err => ([], err)
  | None => ((serve (udp_round o) arrivals (listen_cache o)).1, loop_error e)
  end.

Definition ListenUDPSequence (listen : bytes) o (bind : option error) (arrivals : list arrival) (e : ending) : list output * error :=
  match NewUDPSequenceListener listen o bind with
  | Some err => ([], err)
  | None => ((serve (udpseq_round o) arrivals (listen_cache o, newSequenceTracker (lo_Sequence o) (lo_NonceTTL o))).1, loop_error e)
  end.

(** [socket]: what opening the raw socket gives. *)
Definition ListenUDPPassive o (socket : option sock_error) (arrivals : list arrival) (e : ending) : list output * error :=
  let o := with_window o in
  match passive_ports o with
  | Err err => ([], err)
  | Ok knockPort =>
      match socket with
      | Some err => ([], raw_socket_error (str "udp-passive server requires CAP_NET_ADMIN and CAP_NET_RAW, or must be run as root") err)
      | None =>
          match ValidateClientSecrets (lo_Clients o) with
          | Some err => ([], err)
          | None => ((serve (passive_round o knockPort) arrivals (listen_cache o)).1, loop_error e)
          end
      end
  end.

Definition ListenUDPPassiveSequence o (socket : option sock_error) (arrivals : list arrival) (e : ending) : list output * error :=
  match passive_ports o with
  | Err err => ([], err)
  | Ok knockPort =>
      match socket with
      | Some err => ([], raw_socket_error (str "udp-passive-seq server requires CAP_NET_ADMIN and CAP_NET_RAW, or must be run as root") err)
      | None =>
          match ValidateClientSecrets (lo_Clients o) with
          | Some err => ([], err)
          | None => ((serve (passive_seq_round o knockPort) arrivals (listen_cache o, newSequenceTracker (lo_Sequence o) (lo_NonceTTL o))).1,
                     loop_error e)
          end
      end
  end.

Definition Listen o (socket : option sock_error) (arrivals : list arrival) (e : ending) : list output * error :=
  match ValidateClientSecrets (lo_Clients o) with
  | Some err => ([], err)
  | None =>
      let o := with_window o in
      if Z.ltb (lo_Port o) 1 || Z.ltb 65535 (lo_Port o) then ([], EMsg (str "invalid knock listen port " ++ itoa (lo_Port o)))
      else
        match socket with
        | Some err => ([], raw_socket_error (str "server requires CAP_NET_ADMIN and CAP_NET_RAW, or must be run as root") err)
        | None => ((serve (syn_round o) arrivals (listen_cache o)).1, loop_error e)
        end
  end.

Definition ListenSYNSequence o (socket : option sock_error) (arrivals : list arrival) (e : ending) : list output * error :=
  match ValidateClientSecrets (lo_Clients o) with
  | Some err => ([], err)
  | None =>
      if Z.ltb (lo_Port o) 1 || Z.ltb 65535 (lo_Port o) then ([], EMsg (str "invalid protected port " ++ itoa (lo_Port o)))
      else
        match socket with
        | Some err => ([], raw_socket_error (str "tcp-syn-seq server requires CAP_NET_ADMIN and CAP_NET_RAW, or must be run as root") err)
        | None => ((serve (synseq_round o) arrivals (newSYNSequenceTracker (normalizedSequenceOptions (lo_Sequence o)) (lo_ReplayCache o))).1,
                   loop_error e)
        end
  end.

End Start.

(** * The senders *)

Record SendOptions := mkSendOptions {
  se_ServerAddr : bytes; se_ClientID : bytes; se_Secret : bytes; se_ServerPort : Z; se_TimeWindow : Z; se_MaxFrameSize : Z;
  se_Sequence : SequenceOptions; se_SessionID : bytes;
}.

Definition ValidateSendOptions (o : SendOptions) : option error :=
  match ValidateClientSecret (mkClientSecret (se_ClientID o) (se_Secret o)) with
  | Some e => Some e
  | None => validateProtectedPort (se_ServerPort o)
  end.

Definition frame_options (o : SendOptions) (method sequenceID : bytes) (index total : Z) : KnockFrameOptions :=
  mkKnockFrameOptions (se_ClientID o) (se_Secret o) method (se_ServerPort o) (se_SessionID o) sequenceID index total [] [] [] 0 zero_time
    (se_MaxFrameSize o).

(** What the network does with one packet: the time it is built, the error of
    the write and of the pause after it. *)
Record moment := mkMoment { mo_now : Z; mo_write : option error; mo_pause : option error }.

Section Senders.
Context `{AEAD}.

(** What was written, and the error. *)
Definition SendUDPMethod (o : SendOptions) (method : bytes) (dial : option error) (m : moment) (r : rng) : list bytes * option error :=
  match BuildKnockFrame (frame_options o method [] 0 0) (mo_now m) r with
  | Err e => ([], Some e)
  | Ok (data, _) => match dial with Some e => ([], Some e) | None => ([data], mo_write m) end
  end.

Definition SendUDP (o : SendOptions) (dial : option error) (m : moment) (r : rng) : list bytes * option error :=
  SendUDPMethod o UDPMethod dial m r.

(** The loop over the parts from [i] on, one for each moment; after the last
    part there is no pause. *)
Fixpoint send_parts (o : SendOptions) (method sequenceID : bytes) (total i : Z) (moments : list moment) (r : rng) : list bytes * option error :=
  match moments with
  | [] => ([], None)
  | m :: moments =>
      match BuildKnockFrame (frame_options o method sequenceID i total) (mo_now m) r with
      | Err e => ([], Some e)
      | Ok (data, r) =>
          match mo_write m with
          | Some e => ([data], Some e)
          | None =>
              match (if Z.leb total (i + 1) then None else mo_pause m) with
              | Some e => ([data], Some e)
              | None => let '(sent, err) := send_parts o method sequenceID total (i + 1) moments r in (data :: sent, err)
              end
          end
      end
  end.

(** [moments] has one entry for each part of the sequence. *)
Definition SendUDPSequenceMethod (o : SendOptions) (method : bytes) (dial : option error) (moments : list moment) (r : rng)
    : list bytes * option error :=
  let method := if bool_decide (method = []) then UDPSeqMethod else method in
  match ValidateSendOptions o with
  | Some e => ([], Some e)
  | None =>
      let seq := normalizedSequenceOptions (se_Sequence o) in
      if Z.ltb (so_Length seq) 2 || Z.ltb DefaultSequenceMaxParts (so_Length seq)
      then ([], Some (EMsg (str "udp sequence length must be between 2 and " ++ itoa DefaultSequenceMaxParts)))
      else
        match rand_Read 16 r with
        | Err e => ([], Some e)
        | Ok (sequenceID, r) =>
            match dial with
            | Some e => ([], Some e)
            | None => send_parts o method sequenceID (so_Length seq) 0 (take (Z.to_nat (so_Length seq)) moments) r
            end
        end
  end.

End Senders.

(** The raw packets of the SYN senders. [local] is the outbound address, of
    the family of the server's. *)
Definition syn_frame (local remote : bytes) (srcPort dstPort : Z) (fields : SYNFields) (r : rng) : res (bytes * rng) :=
  if bool_decide (To4 remote = []) then
    packet ← buildSYNPacketIPv6 local (To16 remote) srcPort dstPort fields; Ok (packet, r)
  else buildSYNPacket local (To4 remote) srcPort dstPort fields r.

(** [sendIPv4] and [sendIPv6] up to the write. *)
Definition Send (o : SendOptions) (local remote : bytes) (now : Z) (r : rng) : res bytes :=
  match ValidateSendOptions o with
  | Some e => Err e
  | None =>
      let window := if Z.leb (se_TimeWindow o) 0 then 30 * Second else se_TimeWindow o in
      if bool_decide (remote = []) then Err (EMsg (str "server address " ++ quoted (se_ServerAddr o) ++ str " did not resolve to an IP address"))
      else
        let fields := ComputeSYNFields (se_Secret o) (se_ClientID o) (se_ServerPort o) (SlotFor now window) in
        '(srcPort, r) ← randomEphemeralPort r;
        '(packet, _) ← syn_frame local remote srcPort (se_ServerPort o) fields r;
        Ok packet
  end.

Fixpoint syn_frames (local remote : bytes) (parts : list SYNSeqPart) (r : rng) : res (list bytes) :=
  match parts with
  | [] => Ok []
  | part :: parts =>
      '(srcPort, r) ← randomEphemeralPort r;
      '(packet, r) ← syn_frame local remote srcPort (sp_Port part) (sp_Fields part) r;
      packets ← syn_frames local remote parts r;
      Ok (packet :: packets)
  end.

(** [SendSYNSequence] when nothing fails on the way: the packets of all parts. *)
Definition SendSYNSequence (o : SendOptions) (local remote : bytes) (now : Z) (r : rng) : res (list bytes) :=
  match ValidateSendOptions o with
  | Some e => Err e
  | None =>
      let seq := normalizedSequenceOptions (se_Sequence o) in
      if bool_decide (remote = []) then Err (EMsg (str "server address " ++ quoted (se_ServerAddr o) ++ str " did not resolve to an IP address"))
      else syn_frames local remote
             (ComputeSYNSeqParts (se_Secret o) (se_ClientID o) (se_ServerPort o) (Z.quot (Unix now) (so_SlotSeconds seq)) (so_Length seq)) r
  end.

(** Which sender [SendMethod] calls. *)
Inductive sender := SenderUDP (method : bytes) | SenderUDPSequence (method : bytes) | SenderSYN | SenderSYNSequence.

(** [support]: what [CheckClientSupport] answers on the platform. *)
Definition SendMethod (method : bytes) (support : bytes -> option error) : res sender :=
  let method := NormalizeMethod method in
  if bool_decide (method = UDPMethod) then Ok (SenderUDP UDPMethod)
  else if bool_decide (method = UDPPassiveMethod) then Ok (SenderUDP UDPPassiveMethod)
  else if bool_decide (method = UDPSeqMethod) then Ok (SenderUDPSequence UDPSeqMethod)
  else if bool_decide (method = UDPPassiveSeq) then Ok (SenderUDPSequence UDPPassiveSeq)
  else if bool_decide (method = TCPSYNMethod) then match support method with Some e => Err e | None => Ok SenderSYN end
  else if bool_decide (method = TCP_SYNSeqMethod) then match support method with Some e => Err e | None => Ok SenderSYNSequence end
  else Err (unsupported_method method).

(** clientcheck_linux.go: [privileged] is root or CAP_NET_RAW. *)
Definition CheckClientSupport (privileged : bool) (method : bytes) : option error :=
  if negb (bool_decide (method = TCPSYNMethod)) && negb (bool_decide (method = TCP_SYNSeqMethod)) then None
  else if privileged then None
  else Some (EMsg (str "tcp-syn/tcp-syn-seq knock requires CAP_NET_RAW or root; remediation: run as root, setcap cap_net_raw+ep on binary, or use systemd AmbientCapabilities=CAP_NET_RAW; switch knock.method to udp if raw packet injection is unavailable")).

(** * The replay cache behind a listener *)

(** A cache that was configured, and one that the listener made itself, keep
    the laws that they have. *)
Section EitherLaws.
Context {A B : Type} `{CA : ReplayCache A} `{CB : ReplayCache B}.

#[program] Definition left_laws `{L : !ReplayLaws A} : ReplayLaws (A + B) := {|
  rc_ttl := rc_ttl; rc_max := rc_max; rc_tracks s h t := exists a, s = inl a /\ rc_tracks a h t;
|}.
Next Obligation.
  intros L s h t clientID nonce now r s' (a & -> & Ht) Hn H0 E. unfold check_and_mark, either_cache in E.
  destruct (check_and_mark clientID nonce now a) as [r' a'] eqn:Ea. injection E as <- <-.
  pose proof (rc_step _ _ _ _ _ _ _ _ Ht Hn H0 Ea) as Hs. cbv zeta in *.
  destruct (seen _ _ _ _ _); [|destruct (Z.leb _ _)]; destruct Hs as [-> Hs]; (split; [done|by exists a']).
Qed.

#[program] Definition right_laws `{L : !ReplayLaws B} : ReplayLaws (A + B) := {|
  rc_ttl := rc_ttl; rc_max := rc_max; rc_tracks s h t := exists b, s = inr b /\ rc_tracks b h t;
|}.
Next Obligation.
  intros L s h t clientID nonce now r s' (b & -> & Ht) Hn H0 E. unfold check_and_mark, either_cache in E.
  destruct (check_and_mark clientID nonce now b) as [r' b'] eqn:Eb. injection E as <- <-.
  pose proof (rc_step _ _ _ _ _ _ _ _ Ht Hn H0 Eb) as Hs. cbv zeta in *.
  destruct (seen _ _ _ _ _); [|destruct (Z.leb _ _)]; destruct Hs as [-> Hs]; (split; [done|by exists b']).
Qed.

End EitherLaws.

(** A nonce that was never marked is accepted while there is room. *)
Lemma mark_fresh {S} `{L : ReplayLaws S} (s : S) h t clientID nonce now :
  rc_tracks s h t -> t <= now -> 0 <= now -> (forall m, m ∈ h -> ~ (m_client m = clientID /\ m_nonce m = nonce)) -> len h < rc_max ->
  exists s', check_and_mark clientID nonce now s = (None, s') /\ rc_tracks s' (h ++ [mkMark clientID nonce now]) now.
Proof.
  intros Ht Hn H0 Hfresh Hmax. destruct (check_and_mark clientID nonce now s) as [r s'] eqn:E.
  pose proof (rc_step _ _ _ _ _ _ _ _ Ht Hn H0 E) as Hs. cbv zeta in Hs.
  assert (seen rc_ttl h clientID nonce now = false) as Hno.
  { apply not_true_iff_false. rewrite seen_spec. intros (m & Hm & _ & ? & ?). by eapply Hfresh. }
  rewrite Hno in Hs. pose proof (List.filter_length_le (remembered rc_ttl now) h). unfold len in *.
  rewrite (proj2 (Z.leb_gt _ _)) in Hs by lia. destruct Hs as [-> Hs]. by exists s'.
Qed.

(** The cache a listener makes for itself. *)
Lemma default_cache_tracks {A} `{ReplayCache A} (window : Z) :
  0 < window <= 2 ^ 61 ->
  exists Httl : 0 < replayCache_ttl window,
  rc_tracks (ReplayLaws := right_laws (A := A) (L := memory_replay_laws (replayCache_ttl window) DefaultReplayCacheMaxEntries Httl))
    (inr (Some (replayCache None window))) [] 0.
Proof.
  intros Hw. assert (0 < replayCache_ttl window) as Httl.
  { unfold replayCache_ttl, Minute, Second. zcases; lia. }
  exists Httl. eexists. split; [done|]. eexists. split; [done|]. unfold replayCache, Memory.NewMemoryReplayCache.
  rewrite (proj2 (Z.leb_gt _ 0)) by done. by apply mem_tracks_New.
Qed.

(** * SYN knocks *)

Section SynOnce.
Context {C : Type} `{ReplayCache C} {L : ReplayLaws (C + option Memory.t)}.
Implicit Types o : ListenOptions C.

Definition syn_window o : Z := if Z.leb (lo_TimeWindow o) 0 then 30 * Second else lo_TimeWindow o.

(** The replay cache is asked at most [d] after the fields were verified, and
    the clock does not go back. *)
Fixpoint syn_ticking (d t : Z) (arrivals : list arrival) : Prop :=
  match arrivals with
  | [] => True
  | a :: arrivals => t <= ar_add a /\ 0 <= ar_now a <= ar_add a /\ ar_add a <= ar_now a + d /\ syn_ticking d (ar_add a) arrivals
  end.

(** What the rounds of the listener put out, one by one. *)
Fixpoint rounds {S} (round : arrival -> S -> list output * S) (arrivals : list arrival) (s : S) : list (list output) :=
  match arrivals with
  | [] => []
  | a :: arrivals => let '(out, s) := round a s in out :: rounds round arrivals s
  end.

(** The knock that a round accepts, and its effect on the cache. *)
Lemma syn_round_accepts o a (rc : C + option Memory.t) out rc' :
  syn_round o a rc = (out, rc') ->
  (out = [] /\ (rc' = rc \/ exists clientID nonce r, check_and_mark clientID nonce (ar_add a) rc = (r, rc'))) \/
  exists src fields clientID, parseSYNKnock (ar_data a) (lo_Port o) = Some (Some (src, fields)) /\
    VerifySYNFields fields (lo_Clients o) (lo_Port o) (ar_now a) (syn_window o) = Some clientID /\
    check_and_mark clientID (syn_nonce fields (lo_Port o)) (ar_add a) rc = (None, rc') /\
    out = [Handle (mkEvent src clientID [] TCPSYNMethod 0 [])].
Proof.
  unfold syn_round. intros E. destruct (parseSYNKnock _ _) as [[[src fields]|]|] eqn:Ep; [|injection E as <- <-; auto..].
  destruct (_ && _); [injection E as <- <-; auto|]. fold (syn_window o) in E.
  destruct (VerifySYNFields _ _ _ _ _) as [id|] eqn:Ev; [|injection E as <- <-; auto]. unfold CheckSYNReplay in E.
  destruct (check_and_mark _ _ _ rc) as [err c] eqn:Ec. cbn [default] in E. destruct err as [e|]; injection E as <- <-.
  - left. split; [done|]. right. eauto.
  - right. by exists src, fields, id.
Qed.

(** The history of the cache grows with every accepted knock. *)
Lemma syn_round_tracks o a (rc : C + option Memory.t) h t out rc' :
  rc_tracks rc h t -> 0 <= t <= ar_add a -> syn_round o a rc = (out, rc') ->
  exists h' t', rc_tracks rc' h' t' /\ 0 <= t' <= ar_add a /\ (forall m, m ∈ h -> m ∈ h') /\
    forall src clientID, out = [Handle (mkEvent src clientID [] TCPSYNMethod 0 [])] ->
    exists fields, parseSYNKnock (ar_data a) (lo_Port o) = Some (Some (src, fields)) /\
      seen rc_ttl h clientID (syn_nonce fields (lo_Port o)) (ar_add a) = false /\
      mkMark clientID (syn_nonce fields (lo_Port o)) (ar_add a) ∈ h'.
Proof.
  intros Ht Hta [[-> Hrc]|(src & fields & id & Hp & _ & Hc & ->)]%syn_round_accepts.
  - destruct Hrc as [->|(c & n & r & Hc)]; [exists h, t; split_and!; done || lia|].
    pose proof (rc_step _ _ t _ _ (ar_add a) _ _ Ht ltac:(lia) ltac:(lia) Hc) as Hs. cbv zeta in Hs.
    destruct (seen _ _ _ _ _); [|destruct (Z.leb _ _)]; destruct Hs as [_ Hs].
    + exists h, (ar_add a). split_and!; done || lia.
    + exists h, (ar_add a). split_and!; done || lia.
    + eexists _, (ar_add a). split_and!; [exact Hs|lia|lia| |done]. intros m Hm. apply elem_of_app. by left.
  - pose proof (rc_step _ _ t _ _ (ar_add a) _ _ Ht ltac:(lia) ltac:(lia) Hc) as Hs. cbv zeta in Hs.
    destruct (seen _ _ _ _ _) eqn:Es; [|destruct (Z.leb _ _)]; destruct Hs as [Hn Hs]; [done|done|].
    eexists _, (ar_add a). split_and!; [exact Hs|lia|lia| |].
    + intros m Hm. apply elem_of_app. by left.
    + intros src' id' [= <- <-]. exists fields. split_and!; try done. apply elem_of_app. right. by left.
Qed.

(** A nonce in the history is accepted again only when it is forgotten. *)
Lemma syn_later_accept o d arrivals : forall (rc : C + option Memory.t) h t m,
  rc_tracks rc h t -> 0 <= t -> syn_ticking d t arrivals -> m ∈ h ->
  forall j a src fields, arrivals !! j = Some a -> rounds (syn_round o) arrivals rc !! j = Some [Handle (mkEvent src (m_client m) [] TCPSYNMethod 0 [])] ->
  parseSYNKnock (ar_data a) (lo_Port o) = Some (Some (src, fields)) -> m_nonce m = syn_nonce fields (lo_Port o) ->
  m_time m + rc_ttl <= ar_add a.
Proof.
  induction arrivals as [|b arrivals IH]; intros rc h t m Htr Ht Hck Hm j a src fields Ha Hr Hp Hn; [done|].
  destruct Hck as (Hb & _ & _ & Hck). cbn [rounds] in Hr. destruct (syn_round o b rc) as [out rc'] eqn:E.
  destruct (syn_round_tracks o b rc h t out rc' Htr ltac:(lia) E) as (h' & t' & Htr' & Ht' & Hsub & Hacc).
  destruct j as [|j]; simpl in Ha, Hr.
  - injection Ha as ->. injection Hr as ->. destruct (Hacc src (m_client m) eq_refl) as (f & Hp' & Hno & _).
    rewrite Hp in Hp'. injection Hp' as <-. apply Z.nlt_ge. intros Hlt. apply not_true_iff_false in Hno. apply Hno, seen_spec.
    exists m. split_and!; try done. by apply Z.ltb_lt.
  - eapply (IH rc' h' t' m); try done; [lia| |by apply Hsub]. destruct arrivals as [|x arrivals]; [done|].
    destruct Hck as (? & Hx). split; [lia|exact Hx].
Qed.

Lemma slot_far now now' window : 0 <= now -> now + 3 * slot_size window * Second <= now' -> SlotFor now window + 3 <= SlotFor now' window.
Proof.
  intros H0 Hd. pose proof (slot_size_pos window) as Hs. assert (0 <= now') by (unfold Second in *; lia). rewrite !SlotFor_div by done.
  unfold Unix, Second in *. set (s := slot_size window) in *. clearbody s.
  assert (now / 10 ^ 9 + 3 * s <= now' / 10 ^ 9) by (Z.div_mod_to_equations; lia).
  rewrite <- Z.div_add by lia. apply Z.div_le_mono; lia.
Qed.


End SynOnce.

(** The frame arrives at the time [now]. *)
Definition arrives (frame : bytes) (now : Z) : arrival := mkArrival frame None true true now now [] (fun l => l) (fun l => l).

Lemma verify_only client port now window slot :
  ValidateClientSecret client = None -> clock_ok now -> -1 <= slot - SlotFor now window <= 1 ->
  VerifySYNFields (ComputeSYNFields (cs_Secret client) (cs_ClientID client) port slot) [client] port now window = Some (cs_ClientID client).
Proof.
  intros Hv Hn Hd. set (fields := ComputeSYNFields _ _ _ _). set (d := slot - SlotFor now window) in *.
  destruct (VerifySYNFields_from_found fields [client] port (SlotFor now window) client d) as [id Hid]; try done; [by left|by apply deltas_spec| |].
  { rewrite (proj1 (slot_bound now window d Hn Hd)). unfold fields, d. by rewrite Zplus_minus. }
  unfold VerifySYNFields. rewrite Hid. apply VerifySYNFields_from_Some in Hid as (c & _ & Hc & _ & <- & _). by apply list_elem_of_singleton in Hc as ->.
Qed.

(** A forgotten nonce is accepted like a new one. *)
Lemma mark_again {S} `{L : ReplayLaws S} (s : S) h t clientID nonce now :
  rc_tracks s h t -> t <= now -> 0 <= now -> (forall m, m ∈ h -> m_time m + rc_ttl <= now) -> 0 < rc_max ->
  exists s', check_and_mark clientID nonce now s = (None, s') /\ rc_tracks s' (h ++ [mkMark clientID nonce now]) now.
Proof.
  intros Ht Hn H0 Hold Hmax. destruct (check_and_mark clientID nonce now s) as [r s'] eqn:E.
  pose proof (rc_step _ _ _ _ _ _ _ _ Ht Hn H0 E) as Hs. cbv zeta in Hs.
  assert (List.filter (remembered rc_ttl now) h = []) as Hnil.
  { destruct (List.filter _ h) as [|m l] eqn:Ef; [done|]. assert (In m (m :: l)) as Hm by (by left). rewrite <- Ef in Hm.
    apply filter_In in Hm as [Hm Hr]. apply list_elem_of_In in Hm. apply Z.ltb_lt in Hr. specialize (Hold m Hm). lia. }
  unfold seen in Hs. rewrite Hnil in Hs. simpl in Hs. rewrite (proj2 (Z.leb_gt _ _)) in Hs by done. destruct Hs as [-> Hs]. by exists s'.
Qed.

Lemma syn_round_ok {C} `{ReplayCache C} (o : ListenOptions C) client frame src slot now (rc rc' : C + option Memory.t) :
  lo_Clients o = [client] -> ValidateClientSecret client = None -> lo_AllowPacket o = false -> clock_ok now ->
  -1 <= slot - SlotFor now (syn_window o) <= 1 ->
  let fields := ComputeSYNFields (cs_Secret client) (cs_ClientID client) (lo_Port o) slot in
  parseSYNKnock frame (lo_Port o) = Some (Some (src, fields)) ->
  check_and_mark (cs_ClientID client) (syn_nonce fields (lo_Port o)) now rc = (None, rc') ->
  syn_round o (arrives frame now) rc = ([Handle (mkEvent src (cs_ClientID client) [] TCPSYNMethod 0 [])], rc').
Proof.
  intros Hcl Hv Ha Hn Hd fields Hp Hc. unfold syn_round. cbn [ar_data ar_now ar_add ar_allow arrives]. rewrite Hp, Ha. cbn [andb].
  fold (syn_window o). rewrite Hcl. unfold fields at 1. rewrite verify_only by done. unfold CheckSYNReplay. by rewrite Hc.
Qed.

(** Property C35. A SYN knock can be replayed when the time window is long: the
    listener's own replay cache remembers for five minutes or twice the window
    plus a second, but a SYN is acceptable for three slots of the window's length. For every
    window of at least 101 seconds, the frame that a client sends for slot 1 is
    accepted at time 0 and again at the end of its third slot. *)
Theorem syn_replay_gap {C} `{ReplayCache C} (o : ListenOptions C) (client : ClientSecret) (w : Z) (frame src : bytes) :
  lo_ReplayCache o = None -> lo_TimeWindow o = w * Second -> 101 <= w <= 2 ^ 30 -> lo_Clients o = [client] ->
  ValidateClientSecret client = None -> lo_AllowPacket o = false ->
  parseSYNKnock frame (lo_Port o) = Some (Some (src, ComputeSYNFields (cs_Secret client) (cs_ClientID client) (lo_Port o) 1)) ->
  let ev := Handle (mkEvent src (cs_ClientID client) [] TCPSYNMethod 0 []) in
  rounds (syn_round o) [arrives frame 0; arrives frame ((3 * w - 1) * Second)] (listen_cache o) = [[ev]; [ev]].
Proof.
  intros Hrc Hw Hw101 Hcl Hv Ha Hp ev.
  assert (syn_window o = w * Second) as Hwin by (unfold syn_window, Second in *; rewrite Hw; zcases; lia).
  assert (slot_size (w * Second) = w) as Hsize.
  { unfold slot_size, Second. rewrite (proj2 (Z.leb_gt _ 0)), (proj2 (Z.ltb_ge _ _)) by lia. by rewrite Z.quot_mul. }
  assert (SlotFor 0 (syn_window o) = 0 /\ SlotFor ((3 * w - 1) * Second) (syn_window o) = 2) as [S0 S1].
  { rewrite Hwin, !SlotFor_div, Hsize by (unfold Second; lia). unfold Unix, Second. rewrite Z.div_mul by lia.
    split; [by rewrite Z.div_0_l by lia|]. symmetry. apply (Z.div_unique _ _ _ (w - 1)); lia. }
  unfold listen_cache. rewrite Hrc, Hw. destruct (default_cache_tracks (A := C) (w * Second)) as [Httl Ht]; [unfold Second; lia|].
  assert (replayCache_ttl (w * Second) <= (3 * w - 1) * Second) as Hshort.
  { unfold replayCache_ttl, Minute, Second. assert (forall v, is_int64 v -> int64 v = v) as Hid.
    { intros v Hb. unfold int64, is_int64 in *. rewrite Z.mod_small; lia. }
    rewrite (Hid (2 * _)), Hid by (unfold is_int64; lia). zcases; lia. }
  set (L := right_laws) in Ht.
  destruct (mark_fresh (L := L) _ _ _ (cs_ClientID client) (syn_nonce (ComputeSYNFields (cs_Secret client) (cs_ClientID client) (lo_Port o) 1) (lo_Port o)) 0 Ht)
    as (c1 & Hc1 & Ht1); [lia|lia|by intros m Hm%elem_of_nil|done|].
  destruct (mark_again (L := L) _ _ _ (cs_ClientID client) (syn_nonce (ComputeSYNFields (cs_Secret client) (cs_ClientID client) (lo_Port o) 1) (lo_Port o))
    ((3 * w - 1) * Second) Ht1) as (c2 & Hc2 & _); [unfold Second; lia|unfold Second; lia| |done|].
  { intros m Hm%list_elem_of_singleton. subst m. exact Hshort. }
  cbn [rounds]. rewrite (syn_round_ok o client frame src 1 0 _ c1 Hcl Hv Ha ltac:(unfold clock_ok; lia) ltac:(rewrite S0; lia) Hp Hc1).
  rewrite (syn_round_ok o client frame src 1 ((3 * w - 1) * Second) c1 c2 Hcl Hv Ha ltac:(unfold clock_ok, Second; lia) ltac:(rewrite S1; lia) Hp Hc2).
  reflexivity.
Qed.

(** * A UDP sequence, from the sender to the handler *)

(** The tracker looks at these fields of a frame only. *)
Record same_part (x y : KnockInfo) : Prop := {
  sp_type : ki_FrameType x = ki_FrameType y; sp_client : ki_ClientID x = ki_ClientID y; sp_method : ki_Method x = ki_Method y;
  sp_port : ki_ServerPort x = ki_ServerPort y; sp_session : ki_SessionID x = ki_SessionID y; sp_id : ki_SequenceID x = ki_SequenceID y;
  sp_index : ki_SequenceIndex x = ki_SequenceIndex y; sp_total : ki_SequenceTotal x = ki_SequenceTotal y;
}.

Lemma add_ext src x y now order t : same_part x y -> add src (Some x) now order t = add src (Some y) now order t.
Proof.
  intros [E1 E2 E3 E4 E5 E6 E7 E8]. unfold add, add_part, new_state, sequenceStateKey. by rewrite E1, E2, E3, E4, E5, E6, E7, E8.
Qed.

Section Sequence.
Context `{LA : AEADLaws} {C : Type} `{ReplayCache C} {L : ReplayLaws (C + option Memory.t)}.
Context (so : SendOptions) (lo : ListenOptions C) (before after : list ClientSecret) (sid ip : bytes) (total : Z).

Let client := mkClientSecret (se_ClientID so) (se_Secret so).
Let cfg := knock_config lo UDPSeqMethod true.
Let window := sc_TimeWindow (server_defaults cfg).

(** What the parts of the sequence have in common. *)
Definition seq_base : KnockInfo :=
  mkKnockInfo (se_ClientID so) [] UDPSeqMethod (se_ServerPort so) 0 (se_SessionID so) sid 0 total [] [] [] 0 KnockFrameTypeUDPSequence Byte.x00.

(** The listener is configured for the sender. *)
Record configured : Prop := {
  cf_clients : lo_Clients lo = before ++ client :: after;
  cf_port : lo_Port lo = se_ServerPort so;
  cf_session : lo_RequireSessionID lo = true -> KnockSessionIDMinBytes <= len (se_SessionID so);
  cf_total : 2 <= total <= 8;
}.

(** The arrival [a] is the packet that was built for part [k], and it is let
    pass, in time, within the size limit and before no client's key hint. *)
Record arrives_part (a : arrival) (k : Z) : Prop := {
  ap_built : exists m r r', BuildKnockFrame (frame_options so UDPSeqMethod sid k total) m r = Ok (ar_data a, r') /\ is_int64 (UnixMilli m) /\
    - window <= Sub (ar_now a) (time_UnixMilli (UnixMilli m)) <= window;
  ap_from : ar_from a = Some ip;
  ap_allow : lo_AllowPacket lo = true -> ar_allow a = true;
  ap_limit : lo_PacketLimiter lo = true -> ar_limit a = true;
  ap_size : len (ar_data a) <= maxKnockFrameSize lo;
  ap_hints : Forall (fun c => ComputeKnockKeyHint (cs_Secret c) (take 16 (ar_data a)) (lo_Port lo) <>
                              ComputeKnockKeyHint (se_Secret so) (take 16 (ar_data a)) (lo_Port lo)) before;
}.

Lemma open_part a k rc rc' :
  configured -> arrives_part a k -> check_and_mark (se_ClientID so) (take 16 (ar_data a)) (ar_now a) rc = (None, rc') ->
  exists info, open_checked lo UDPSeqMethod true (take (Z.to_nat (maxKnockFrameSize lo)) (ar_data a)) (ar_now a) rc = (Ok info, rc') /\
    same_part info (with_index seq_base k) /\ ki_Nonce info = take 16 (ar_data a).
Proof.
  intros [Hc Hp Hs Ht] [(m & r & r' & HB & Hms & Hwin) Hf _ _ Hsz Hh] Hmark.
  assert (0 < maxKnockFrameSize lo) as Hpos by (unfold maxKnockFrameSize, DefaultMaxKnockFrameSize; zcases; lia).
  rewrite take_ge by (unfold len in Hsz; lia).
  assert (ko_Timestamp (knock_defaults (frame_options so UDPSeqMethod sid k total) m) = m) as Hts by (unfold knock_defaults, frame_options; simpl; done).
  assert (ko_Method (knock_defaults (frame_options so UDPSeqMethod sid k total) m) = UDPSeqMethod) as Hmeth by done.
  assert (sequenced (knock_defaults (frame_options so UDPSeqMethod sid k total) m) = true) as Hseq.
  { unfold sequenced. cbn [ko_SequenceTotal knock_defaults frame_options]. rewrite (proj2 (Z.ltb_lt 0 total)) by lia. done. }
  destruct (knock_opens (frame_options so UDPSeqMethod sid k total) m (ar_now a) r r' (ar_data a) cfg before after rc rc' HB)
    as (hd & random & Hn & Hopen).
  - reflexivity.
  - constructor.
  - rewrite Hts. exact Hms.
  - exact Hc.
  - exact Hh.
  - exact Hp.
  - right. by rewrite Hmeth.
  - intros _. reflexivity.
  - unfold cfg, knock_config, server_defaults. cbn [sc_MaxFrameSize]. rewrite (proj2 (Z.leb_gt _ 0)) by exact Hpos. exact Hsz.
  - rewrite Hts. exact Hwin.
  - exact Hmark.
  - exists (info_of client hd (payload_of_opts (knock_defaults (frame_options so UDPSeqMethod sid k total) m) random)). split; [|split; [|exact Hn]].
    + unfold open_checked. fold cfg. rewrite Hopen. cbn [default]. unfold requireKnockSessionID.
      destruct (lo_RequireSessionID lo) eqn:Er; [|reflexivity]. unfold requireSessionID.
      cbn [negb ki_SessionID info_of payload_of_opts kp_SessionID knock_defaults frame_options ko_SessionID].
      rewrite (proj2 (Z.ltb_ge _ _)) by (by apply Hs). reflexivity.
    + unfold info_of, payload_of_opts. rewrite Hseq. by split.
Qed.

(** A round with a part of the sequence is a call of the tracker. *)
Lemma part_round a k rc h t tr :
  configured -> arrives_part a k -> rc_tracks rc h t -> t <= ar_now a -> 0 <= ar_now a ->
  (forall m, m ∈ h -> ~ (m_client m = se_ClientID so /\ m_nonce m = take 16 (ar_data a))) -> len h < rc_max ->
  exists rc' info, rc_tracks rc' (h ++ [mkMark (se_ClientID so) (take 16 (ar_data a)) (ar_now a)]) (ar_now a) /\
    same_part info (with_index seq_base k) /\ ki_Nonce info = take 16 (ar_data a) /\
    udpseq_round lo a (rc, tr) =
    (let '((complete, err), tr) := add ip (Some (with_index seq_base k)) (ar_add a) (ar_order a) tr in
     (match err with
      | Some e => invalid lo ip e
      | None => if complete then [Handle (knock_event ip UDPSeqMethod total info)] else []
      end, (rc', tr))).
Proof.
  intros Hcf Hap Ht Hn H0 Hfresh Hmax. destruct (mark_fresh rc h t (se_ClientID so) (take 16 (ar_data a)) (ar_now a) Ht Hn H0 Hfresh Hmax) as (rc' & Hm & Ht').
  destruct (open_part a k rc rc' Hcf Hap Hm) as (info & Hopen & Hsame & Hnonce). exists rc', info. split_and!; [exact Ht'|exact Hsame|exact Hnonce|].
  unfold udpseq_round. rewrite (ap_from a k Hap).
  assert (allowKnockPacket lo ip a = (true, [])) as ->.
  { unfold allowKnockPacket. destruct (lo_AllowPacket lo) eqn:E1; [rewrite (ap_allow a k Hap E1)|]; cbn [andb negb];
      (destruct (lo_PacketLimiter lo) eqn:E2; [rewrite (ap_limit a k Hap E2)|]; reflexivity). }
  cbn [negb]. rewrite Hopen. rewrite (add_ext ip info _ (ar_add a) (ar_order a) tr Hsame). rewrite (sp_total _ _ Hsame).
  destruct (add _ _ _ _ tr) as [[complete err] tr']. destruct err; [reflexivity|]. by destruct complete.
Qed.

(** The whole run: the rounds are the tracker's run over the parts. *)
Lemma parts_run : forall arrivals ks rc h t tr,
  configured -> Forall2 arrives_part arrivals ks -> rc_tracks rc h t -> 0 <= t ->
  NoDup ((fun a => take 16 (ar_data a)) <$> arrivals) ->
  (forall a m, a ∈ arrivals -> m ∈ h -> ~ (m_client m = se_ClientID so /\ m_nonce m = take 16 (ar_data a))) ->
  len h + len arrivals <= rc_max -> Sorted Z.le (t :: (ar_now <$> arrivals)) ->
  exists infos, Forall2 (fun a info => ki_Nonce info = take 16 (ar_data a) /\ ki_ClientID info = se_ClientID so /\ ki_SessionID info = se_SessionID so) arrivals infos /\
    (serve (udpseq_round lo) arrivals (rc, tr)).1 =
    concat (zip_with (fun info (r : bool * option error) => match r.2 with
      | Some e => invalid lo ip e
      | None => if r.1 then [Handle (knock_event ip UDPSeqMethod total info)] else []
      end) infos (run (deliver ip seq_base (zip_with (fun a k => (k, ar_add a, ar_order a)) arrivals ks)) tr).1).
Proof.
  induction arrivals as [|a arrivals IH]; intros ks rc h t tr Hcf HF Ht H0 Hnd Hfresh Hmax Hso.
  { exists []. split; [constructor|reflexivity]. }
  apply Forall2_cons_inv_l in HF as (k & ks' & Hap & HF & ->). cbn [fmap list_fmap] in Hnd, Hso. apply NoDup_cons in Hnd as [Hna Hnd].
  apply Sorted_inv in Hso as [Hso Hhd]. apply HdRel_inv in Hhd. rewrite len_cons in Hmax. pose proof (len_nonneg arrivals).
  destruct (part_round a k rc h t tr Hcf Hap Ht Hhd ltac:(lia)) as (rc' & info & Ht' & Hsame & Hnonce & Hround); [intros m; apply Hfresh; by left|lia|].
  cbn [serve zip_with deliver run c_src c_info c_now c_order]. rewrite Hround.
  destruct (add ip (Some (with_index seq_base k)) (ar_add a) (ar_order a) tr) as [[complete err] tr'].
  destruct (IH ks' rc' _ (ar_now a) tr' Hcf HF Ht' ltac:(lia) Hnd) as (infos & Hinf & Hserve).
  - intros b m Hb [Hm|Hm%list_elem_of_singleton]%elem_of_app; [apply Hfresh; [by right|done]|]. subst m. cbn [m_client m_nonce].
    intros [_ Heq]. apply Hna. apply list_elem_of_fmap. by exists b.
  - rewrite len_app. unfold len in *. simpl. lia.
  - exact Hso.
  - exists (info :: infos). split; [constructor; [|done]; destruct Hsame; by split_and!|].
    destruct (serve (udpseq_round lo) arrivals (rc', tr')) as [outs s]. destruct (run _ tr') as [rs t'']. cbn [fst] in *.
    cbn [zip_with concat]. by rewrite <- Hserve.
Qed.

End Sequence.

(** The output of a run in which only the last call completes. *)
Lemma completing_output {C} (lo : ListenOptions C) ip total (infos : list KnockInfo) n :
  length infos = S n -> exists info, last infos = Some info /\
  concat (zip_with (fun info (r : bool * option error) => match r.2 with
      | Some e => invalid lo ip e
      | None => if r.1 then [Handle (knock_event ip UDPSeqMethod total info)] else []
      end) infos (replicate n (false, None) ++ [(true, None)])) = [Handle (knock_event ip UDPSeqMethod total info)].
Proof.
  revert n. induction infos as [|x infos IH]; intros n Hl; [done|]. destruct n as [|n]; simpl in Hl.
  - destruct infos; [|done]. by exists x.
  - destruct (IH n ltac:(lia)) as (info & Hlast & Hc). exists info. split; [|exact Hc]. rewrite last_cons, Hlast. done.
Qed.

Lemma Forall2_last {A B} (P : A -> B -> Prop) l k b : Forall2 P l k -> last k = Some b -> exists a, last l = Some a /\ P a b.
Proof.
  intros HF Hl. rewrite last_lookup in Hl. rewrite <- (Forall2_length _ _ _ HF) in Hl.
  destruct (lookup_lt_is_Some_2 l (pred (length l))) as [a Ha].
  { apply lookup_lt_Some in Hl. rewrite <- (Forall2_length _ _ _ HF) in Hl. done. }
  exists a. split; [by rewrite last_lookup|]. by eapply Forall2_lookup_lr.
Qed.

Section SequenceEndToEnd.
Context `{LA : AEADLaws}.

Lemma send_parts_inv so method sid total moments : forall i r packets,
  send_parts so method sid total i moments r = (packets, None) ->
  length packets = length moments /\
  forall k p, packets !! k = Some p -> exists m r r', m ∈ moments /\
    BuildKnockFrame (frame_options so method sid (i + Z.of_nat k) total) (mo_now m) r = Ok (p, r').
Proof.
  induction moments as [|m moments IH]; intros i r packets E; cbn [send_parts] in E; [by injection E as <-|].
  destruct (BuildKnockFrame _ _ _) as [[data r']|e] eqn:EB; [|done]. destruct (mo_write m); [done|]. destruct (if Z.leb _ _ then _ else _); [done|].
  destruct (send_parts so method sid total (i + 1) moments r') as [sent err] eqn:Es. injection E as <- ->.
  destruct (IH _ _ _ Es) as [Hl Hk]. split; [simpl; by rewrite Hl|]. intros [|k] p; simpl.
  - intros [= <-]. exists m, r, r'. split; [by left|]. by rewrite Z.add_0_r.
  - intros Hp. destruct (Hk k p Hp) as (m' & r1 & r2 & Hm & HB). exists m', r1, r2. split; [by right|].
    replace (i + Z.of_nat (S k)) with (i + 1 + Z.of_nat k) by lia. exact HB.
Qed.

Lemma SendUDPSequence_inv so moments r packets :
  let total := so_Length (normalizedSequenceOptions (se_Sequence so)) in
  SendUDPSequenceMethod so UDPSeqMethod None moments r = (packets, None) -> length moments = Z.to_nat total ->
  2 <= total <= 8 /\ length packets = Z.to_nat total /\
  exists sid, forall k p, packets !! k = Some p -> exists m r r', m ∈ moments /\
    BuildKnockFrame (frame_options so UDPSeqMethod sid (Z.of_nat k) total) (mo_now m) r = Ok (p, r').
Proof.
  intros total E Hm. unfold SendUDPSequenceMethod in E. fold total in E. cbv zeta in E. rewrite bool_decide_eq_false_2 in E by done.
  destruct (ValidateSendOptions so); [done|]. destruct (Z.ltb_spec total 2); [done|]. destruct (Z.ltb_spec DefaultSequenceMaxParts total); [done|].
  cbn [orb] in E. destruct (rand_Read 16 r) as [[sid r']|]; [|done]. rewrite take_ge in E by lia.
  apply send_parts_inv in E as [Hl Hk]. unfold DefaultSequenceMaxParts in *. split_and!; [lia..|congruence|]. by exists sid.
Qed.

Context {C : Type} `{ReplayCache C} {L : ReplayLaws (C + option Memory.t)}.

(** The arrival passes the callbacks of the listener and is within its size
    limit and, for a packet sent at any of the moments, within its time
    window; and no client configured before the sender has the same key hint. *)
Record passes (so : SendOptions) (lo : ListenOptions C) (before : list ClientSecret) (moments : list moment) (ip : bytes) (a : arrival) : Prop := {
  pa_from : ar_from a = Some ip;
  pa_allow : lo_AllowPacket lo = true -> ar_allow a = true;
  pa_limit : lo_PacketLimiter lo = true -> ar_limit a = true;
  pa_size : len (ar_data a) <= maxKnockFrameSize lo;
  pa_hints : Forall (fun c => ComputeKnockKeyHint (cs_Secret c) (take 16 (ar_data a)) (lo_Port lo) <>
                              ComputeKnockKeyHint (se_Secret so) (take 16 (ar_data a)) (lo_Port lo)) before;
  pa_time : forall m, m ∈ moments -> is_int64 (UnixMilli (mo_now m)) /\
    let window := sc_TimeWindow (server_defaults (knock_config lo UDPSeqMethod true)) in
    - window <= Sub (ar_now a) (time_UnixMilli (UnixMilli (mo_now m))) <= window;
}.

(** Property C28. A UDP knock sequence works end to end. When the sender has sent
    all parts of a sequence and they reach a listener that is configured for
    this client, in any order and each once, from one address, within the
    tracker's window and the time window of the frames, then the listener calls
    its handler exactly once, with the last part, for this client, address and
    session, and reports nothing invalid. The replay cache has room and has not
    seen the nonces, which differ. *)
Theorem udp_sequence_end_to_end (so : SendOptions) (lo : ListenOptions C) (before after : list ClientSecret) (moments : list moment)
    (r : rng) (packets : list bytes) (ip : bytes) (a0 : arrival) (arrivals : list arrival) (k0 : Z) (ks : list Z) (h : list mark) (t : Z) :
  let total := so_Length (normalizedSequenceOptions (se_Sequence so)) in
  let d := normalizedSequenceOptions (lo_Sequence lo) in
  SendUDPSequenceMethod so UDPSeqMethod None moments r = (packets, None) -> length moments = Z.to_nat total ->
  so_Length d = total -> 0 < so_MaxInflightPerIP d -> 0 < so_MaxTotalInflight d -> so_Window d < 2 ^ 63 - 1 ->
  lo_Clients lo = before ++ mkClientSecret (se_ClientID so) (se_Secret so) :: after -> lo_Port lo = se_ServerPort so ->
  (lo_RequireSessionID lo = true -> KnockSessionIDMinBytes <= len (se_SessionID so)) ->
  k0 :: ks ≡ₚ seqZ 0 total -> Forall2 (fun a k => packets !! Z.to_nat k = Some (ar_data a)) (a0 :: arrivals) (k0 :: ks) ->
  Forall (passes so lo before moments ip) (a0 :: arrivals) ->
  Forall (fun a => ar_add a0 <= ar_add a <= ar_add a0 + so_Window d) arrivals ->
  rc_tracks (listen_cache lo) h t -> 0 <= t -> Sorted Z.le (t :: (ar_now <$> a0 :: arrivals)) ->
  NoDup ((fun a => take 16 (ar_data a)) <$> a0 :: arrivals) -> len h + total <= rc_max ->
  (forall a m, a ∈ a0 :: arrivals -> m ∈ h -> ~ (m_client m = se_ClientID so /\ m_nonce m = take 16 (ar_data a))) ->
  exists a, last (a0 :: arrivals) = Some a /\
    (serve (udpseq_round lo) (a0 :: arrivals) (listen_cache lo, newSequenceTracker (lo_Sequence lo) (lo_NonceTTL lo))).1 =
    [Handle (mkEvent ip (se_ClientID so) (hex_EncodeToString (take 16 (ar_data a))) UDPSeqMethod total (se_SessionID so))].
Proof.
  intros total d Hsend Hmom Hlen Hm1 Hm2 Hwin Hcl Hport Hsess Hperm Hdata Hpass Hadd Htr H0 Hso Hnd Hmax Hfresh.
  destruct (SendUDPSequence_inv so moments r packets Hsend Hmom) as (Htot & Hpl & sid & Hbuilt). fold total in Htot, Hpl, Hbuilt.
  assert (configured so lo before after total) as Hcf by (split; done).
  assert (forall k, k ∈ k0 :: ks -> 0 <= k) as Hk0.
  { intros k Hk. rewrite Hperm in Hk. apply elem_of_seqZ in Hk. lia. }
  assert (Forall2 (arrives_part so lo before sid ip total) (a0 :: arrivals) (k0 :: ks)) as Hparts.
  { apply Forall2_same_length_lookup_2; [by eapply Forall2_length|]. intros i a k Ha Hk.
    pose proof (Forall2_lookup_lr _ _ _ _ _ _ Hdata Ha Hk) as Hp. cbn beta in Hp. rewrite Forall_lookup in Hpass. destruct (Hpass i a Ha) as [F1 F2 F3 F4 F5 F6].
    split; try done. destruct (Hbuilt _ _ Hp) as (m & r1 & r2 & Hm & HB). rewrite Z2Nat.id in HB by (apply Hk0; by eapply list_elem_of_lookup_2).
    exists (mo_now m), r1, r2. split; [done|]. by apply F6. }
  assert (length ks = length arrivals) as Hlk by (apply Forall2_length in Hdata; simpl in Hdata; lia).
  assert (S (length arrivals) = Z.to_nat total) as Hla.
  { apply Permutation_length in Hperm. rewrite length_seqZ in Hperm. simpl in Hperm. lia. }
  destruct (parts_run so lo before after sid ip total (a0 :: arrivals) (k0 :: ks) (listen_cache lo) h t (newSequenceTracker (lo_Sequence lo) (lo_NonceTTL lo))
    Hcf Hparts Htr H0 Hnd Hfresh) as (infos & Hinf & ->); [unfold len in *; simpl length; lia|done|].
  cbn [zip_with]. rewrite (sequence_delivers (lo_Sequence lo) (lo_NonceTTL lo) ip (seq_base so sid total) k0 (ar_add a0) (ar_order a0)); try done; try lia.
  - rewrite length_zip_with_l by lia. destruct (completing_output lo ip total infos (length arrivals)) as (info & Hlast & ->).
    { by rewrite <- (Forall2_length _ _ _ Hinf). }
    destruct (Forall2_last _ _ _ _ Hinf Hlast) as (a & Ha & Hn & Hci & Hsi). exists a. split; [done|].
    unfold knock_event. by rewrite Hn, Hci, Hsi.
  - fold d. lia.
  - apply Forall_lookup. intros i x Hx. apply lookup_zip_with_Some in Hx as (a & k & -> & Ha & _).
    exact (proj1 (Forall_lookup _ _) Hadd i a Ha).
  - assert ((fun p : Z * Z * list bytes => p.1.1) <$> zip_with (fun a k => (k, ar_add a, ar_order a)) arrivals ks = ks) as ->.
    { apply fmap_zip_with_r; [done|lia]. }
    fold d. rewrite Hlen. exact Hperm.
Qed.

End SequenceEndToEnd.

(** * A SYN knock, from the sender to the handler *)

Lemma be_get_slice (s : bytes) a b : (a <= b)%nat -> 0 <= be_get (slice a b s) < 256 ^ Z.of_nat (b - a).
Proof.
  intros Hab. pose proof (be_get_bound (slice a b s)) as B. unfold slice in *. rewrite length_take, length_drop in B.
  assert (256 ^ Z.of_nat (Nat.min (b - a) (length s - a)) <= 256 ^ Z.of_nat (b - a)) by (apply Z.pow_le_mono_r; lia). lia.
Qed.

Lemma ComputeSYNFields_wf secret id port slot : SYNFields_wf (ComputeSYNFields secret id port slot).
Proof.
  unfold ComputeSYNFields, SYNFields_wf. set (tag := ComputeSYNTag _ _ _ _). clearbody tag.
  pose proof (be_get_slice tag 0 4 ltac:(lia)). pose proof (be_get_slice tag 4 6 ltac:(lia)). pose proof (be_get_slice tag 6 10 ltac:(lia)).
  cbn [sf_Sequence sf_Window sf_Timestamp]. change (256 ^ Z.of_nat (4 - 0)) with (2 ^ 32) in *. change (256 ^ Z.of_nat (6 - 4)) with (2 ^ 16) in *.
  change (256 ^ Z.of_nat (10 - 6)) with (2 ^ 32) in *. zcases; lia.
Qed.

(** The link layer for the family of the server's address, and the address
    that the sender's packets have as their source. *)
Definition ether_type (remote : bytes) : Z := if bool_decide (To4 remote = []) then 0x86dd else 0x0800.
Definition sent_from (local remote : bytes) : bytes := if bool_decide (To4 remote = []) then local else To4 local.

Lemma parse_syn_frame mac_dst mac_src local remote srcPort dstPort fields r packet r' :
  length mac_dst = 6%nat -> length mac_src = 6%nat -> Byte.x06 ∉ mac_src -> SYNFields_wf fields -> is_uint16 dstPort ->
  syn_frame local remote srcPort dstPort fields r = Ok (packet, r') ->
  let frame := ethernet mac_dst mac_src (ether_type remote) ++ packet in
  parseSYNKnock frame dstPort = Some (Some (sent_from local remote, fields)) /\
  parseSYNPacket frame = Some (Some (sent_from local remote, dstPort, fields)).
Proof.
  intros Hd Hs Hno Hwf Hp. unfold syn_frame, ether_type, sent_from. case_bool_decide.
  - intros (p & Hb & [= -> _])%res_bind_Ok. destruct (parse_sent_v6 mac_dst mac_src _ _ _ _ _ _ Hd Hs Hwf Hp Hb) as [E1 E2]. done.
  - intros Hb. destruct (parse_sent_v4 mac_dst mac_src _ _ _ _ _ _ _ _ Hd Hs Hwf Hp Hno Hb) as [E1 E2]. done.
Qed.

(** Property C29. A SYN knock works end to end: the packet that [Send] builds,
    received in an Ethernet frame by a listener that lists the client, for the
    same port and time window and at most one slot length away from the
    sender's clock, makes the listener call its handler once, with the client
    and the sender's address, provided that the replay cache takes the nonce,
    no other client's MAC collides and the source MAC address has no byte 6. *)
Theorem syn_end_to_end {C} `{ReplayCache C} (so : SendOptions) (o : ListenOptions C) (local remote mac_dst mac_src packet : bytes)
    (now : Z) (r : rng) (a : arrival) (rc rc' : C + option Memory.t) :
  let id := se_ClientID so in
  let fields := ComputeSYNFields (se_Secret so) id (lo_Port o) (SlotFor now (syn_window o)) in
  Send so local remote now r = Ok packet -> length mac_dst = 6%nat -> length mac_src = 6%nat -> Byte.x06 ∉ mac_src ->
  ar_data a = ethernet mac_dst mac_src (ether_type remote) ++ packet -> (lo_AllowPacket o = true -> ar_allow a = true) ->
  mkClientSecret id (se_Secret so) ∈ lo_Clients o -> lo_Port o = se_ServerPort so -> lo_TimeWindow o = se_TimeWindow so ->
  (forall c slot, c ∈ lo_Clients o -> fields = ComputeSYNFields (cs_Secret c) (cs_ClientID c) (lo_Port o) slot -> cs_ClientID c = id) ->
  clock_ok now -> clock_ok (ar_now a) -> Z.abs (Unix (ar_now a) - Unix now) <= slot_size (syn_window o) ->
  check_and_mark id (syn_nonce fields (lo_Port o)) (ar_add a) rc = (None, rc') ->
  syn_round o a rc = ([Handle (mkEvent (sent_from local remote) id [] TCPSYNMethod 0 [])], rc').
Proof.
  intros id fields HS Hd Hs Hno Hdata Hallow Hin Hport Hwin Huniq Hn1 Hn2 Hdist Hmark. unfold Send in HS.
  destruct (ValidateSendOptions so) eqn:Hvalid; [done|]. destruct (bool_decide _); [done|].
  apply res_bind_Ok in HS as ([srcPort r1] & _ & HS). apply res_bind_Ok in HS as ([p r2] & HF & [= ->]).
  unfold ValidateSendOptions in Hvalid. destruct (ValidateClientSecret _) eqn:Hv; [done|].
  assert (1 <= se_ServerPort so <= 65535) as Hpb.
  { unfold validateProtectedPort in Hvalid. destruct (Z.ltb_spec (se_ServerPort so) 1), (Z.ltb_spec 65535 (se_ServerPort so)); done || lia. }
  rewrite <- Hwin, <- Hport in HF. fold (syn_window o) in HF. fold id in HF. fold fields in HF.
  destruct (parse_syn_frame mac_dst mac_src local remote srcPort (lo_Port o) fields r1 packet r2 Hd Hs Hno (ComputeSYNFields_wf _ _ _ _) ltac:(unfold is_uint16; lia) HF)
    as [Hparse _]. rewrite <- Hdata in Hparse.
  pose proof (slots_close (ar_now a) now (syn_window o) ltac:(unfold clock_ok in *; lia) ltac:(unfold clock_ok in *; lia) Hdist) as Hclose.
  set (d := SlotFor now (syn_window o) - SlotFor (ar_now a) (syn_window o)). assert (-1 <= d <= 1) as Hdd by lia.
  destruct (VerifySYNFields_from_found fields (lo_Clients o) (lo_Port o) (SlotFor (ar_now a) (syn_window o)) _ d Hin Hv) as [id' Hid]; [by apply deltas_spec| |].
  { rewrite (proj1 (slot_bound (ar_now a) (syn_window o) d Hn2 Hdd)). unfold d. by rewrite Zplus_minus. }
  assert (id' = id) as -> by (apply VerifySYNFields_from_Some in Hid as (c & ? & Hc & _ & <- & _ & Hf); by eapply Huniq).
  unfold syn_round. rewrite Hparse. assert (lo_AllowPacket o && negb (ar_allow a) = false) as ->.
  { destruct (lo_AllowPacket o); [by rewrite Hallow|done]. }
  fold (syn_window o). unfold VerifySYNFields. rewrite Hid. unfold CheckSYNReplay. by rewrite Hmark.
Qed.

(** The method tables agree: on a platform that supports raw
    sockets, [SendMethod] has a sender for exactly the methods that a server
    accepts, under both spellings, and normalising twice changes nothing. *)
Theorem methods_agree (method : bytes) :
  (is_ok (SendMethod method (CheckClientSupport true)) = IsRelayServerMethod method) /\
  (IsActiveUDPMethod method = true -> IsRelayServerMethod method = true) /\
  NormalizeMethod (NormalizeMethod method) = NormalizeMethod method.
Proof.
  assert (NormalizeMethod (NormalizeMethod method) = NormalizeMethod method) as Hidem.
  { destruct (decide (method = str "udp-sequence")) as [->|H1]; [by vm_compute|].
    destruct (decide (method = str "udp-passive-sequence")) as [->|H2]; [by vm_compute|].
    assert (NormalizeMethod method = method) as E; [|by rewrite E]. unfold NormalizeMethod. by rewrite !bool_decide_eq_false_2. }
  unfold IsActiveUDPMethod, IsRelayServerMethod, SendMethod, activeUDPMethods, relayServerMethods. cbv zeta. split_and!; [| |done].
  - clear Hidem. generalize (NormalizeMethod method). intros m. destruct (bool_decide (m ∈ _)) eqn:E.
    + apply bool_decide_eq_true in E. rewrite !elem_of_union, !elem_of_singleton in E.
      destruct E as [[[[[->| ->]| ->]| ->]| ->]| ->]; by vm_compute.
    + apply bool_decide_eq_false in E. rewrite !elem_of_union, !elem_of_singleton in E. by rewrite !bool_decide_eq_false_2 by tauto.
  - rewrite !bool_decide_eq_true. set_solver.
Qed.

(** * Evaluation on concrete inputs *)

Definition ex_syn_listener (w : Z) : ListenOptions (option Memory.t) :=
  mkListenOptions 22 0 [ex_client] w 0 false None false false false (ex_seq_options 2) 0.

(** A frame with the SYN of the client for the slot. *)
Definition syn_frame_for (slot : Z) : bytes :=
  match buildSYNPacket Packet.ex_ip Packet.ex_ip 40000 22 (ComputeSYNFields (cs_Secret ex_client) (str "c") 22 slot) (zeros 2) with
  | Ok (p, _) => ethernet (zeros 6) (zeros 6) 0x0800 ++ p
  | Err _ => []
  end.
Definition ex_syn_frame_1 : bytes := Eval vm_compute in syn_frame_for 1.
Definition ex_syn_fields_1 : SYNFields := Eval vm_compute in ComputeSYNFields (cs_Secret ex_client) (str "c") 22 1.

Example ex_syn_parsed : parseSYNKnock ex_syn_frame_1 22 = Some (Some (Packet.ex_ip, ComputeSYNFields (cs_Secret ex_client) (str "c") 22 1)).
Proof. vm_compute. reflexivity. Qed.

Lemma syn_replay_gap_witness :
  let ev := Handle (mkEvent Packet.ex_ip (str "c") [] TCPSYNMethod 0 []) in
  rounds (syn_round (ex_syn_listener (101 * Second))) [arrives ex_syn_frame_1 0; arrives ex_syn_frame_1 (302 * Second)]
    (listen_cache (ex_syn_listener (101 * Second))) = [[ev]; [ev]].
Proof.
  refine (syn_replay_gap (ex_syn_listener (101 * Second)) ex_client 101 ex_syn_frame_1 Packet.ex_ip _ _ _ _ _ _ ex_syn_parsed).
  - reflexivity.
  - reflexivity.
  - lia.
  - reflexivity.
  - vm_compute. reflexivity.
  - reflexivity.
Defined.


Lemma methods_agree_witness : IsRelayServerMethod (str "udp-sequence") = true.
Proof. apply (proj1 (proj2 (methods_agree (str "udp-sequence")))). vm_compute. reflexivity. Defined.

Definition ex_send (n : Z) : SendOptions :=
  mkSendOptions (str "server:22") (str "c") (cs_Secret ex_client) 22 (30 * Second) 0 (ex_seq_options n) (str "0123456789abcdef").

Definition ex_syn_packet : bytes := Eval vm_compute in
  match Send (ex_send 2) Packet.ex_ip Packet.ex_ip (59 * Second) (zeros 4) with Ok p => p | Err _ => [] end.

Example ex_syn_sent : Send (ex_send 2) Packet.ex_ip Packet.ex_ip (59 * Second) (zeros 4) = Ok ex_syn_packet.
Proof. vm_compute. reflexivity. Qed.

Definition ex_marked : option Memory.t := Eval vm_compute in
  (check_and_mark (str "c") (syn_nonce (ComputeSYNFields (cs_Secret ex_client) (str "c") 22 1) 22) (61 * Second)
     (Some (Memory.NewMemoryReplayCacheWithLimit Minute 4))).2.

Lemma syn_end_to_end_witness :
  syn_round (ex_syn_listener (30 * Second)) (arrives (ethernet (zeros 6) (zeros 6) 0x0800 ++ ex_syn_packet) (61 * Second))
    (inr (Some (Memory.NewMemoryReplayCacheWithLimit Minute 4))) =
  ([Handle (mkEvent Packet.ex_ip (str "c") [] TCPSYNMethod 0 [])], inr ex_marked).
Proof.
  refine (syn_end_to_end (ex_send 2) (ex_syn_listener (30 * Second)) Packet.ex_ip Packet.ex_ip (zeros 6) (zeros 6) ex_syn_packet (59 * Second) (zeros 4)
    (arrives (ethernet (zeros 6) (zeros 6) 0x0800 ++ ex_syn_packet) (61 * Second)) _ (inr ex_marked) ex_syn_sent eq_refl eq_refl _ eq_refl _ _ eq_refl eq_refl _ _ _ _ _).
  - apply (bool_decide_eq_true_1 (Byte.x06 ∉ zeros 6)). vm_compute. reflexivity.
  - done.
  - by left.
  - intros c slot Hc _. apply list_elem_of_singleton in Hc as ->. reflexivity.
  - unfold clock_ok, Second. lia.
  - unfold clock_ok, Second. cbn [arrives ar_now]. lia.
  - vm_compute. discriminate.
  - vm_compute. reflexivity.
Defined.

Definition ex_moments : list moment := [mkMoment (5 * Second) None None; mkMoment (6 * Second) None None].
Definition ex_rng : rng := Eval vm_compute in map byte_of (seqZ 0 80).
Definition ex_seq_packets : list bytes := Eval vm_compute in
  (SendUDPSequenceMethod (H := mac_AEAD) (ex_send 2) UDPSeqMethod None ex_moments ex_rng).1.

Example ex_seq_sent : SendUDPSequenceMethod (H := mac_AEAD) (ex_send 2) UDPSeqMethod None ex_moments ex_rng = (ex_seq_packets, None).
Proof. vm_compute. reflexivity. Qed.

Definition ex_seq_listener : ListenOptions (option Memory.t) :=
  mkListenOptions 22 0 [ex_client] (30 * Second) 0 true None false false true (ex_seq_options 2) 0.

Definition ex_arrival (k : nat) (now : Z) : arrival :=
  mkArrival (nth k ex_seq_packets []) (Some Packet.ex_ip) true true now now [] (fun l => l) (fun l => l).

(** The two parts arrive in the wrong order. *)
Lemma udp_sequence_end_to_end_witness :
  exists a, Some (ex_arrival 0 (8 * Second)) = Some a /\
  (serve (udpseq_round (H := mac_AEAD) ex_seq_listener) [ex_arrival 1 (7 * Second); ex_arrival 0 (8 * Second)]
    (listen_cache ex_seq_listener, newSequenceTracker (ex_seq_options 2) 0)).1 =
  [Handle (mkEvent Packet.ex_ip (str "c") (hex_EncodeToString (take 16 (ar_data a))) UDPSeqMethod 2 (str "0123456789abcdef"))].
Proof.
  destruct (default_cache_tracks (A := option Memory.t) (30 * Second)) as [Httl Ht]; [unfold Second; lia|].
  refine (udp_sequence_end_to_end (LA := mac_AEAD_laws) (L := right_laws) (ex_send 2) ex_seq_listener [] [] ex_moments ex_rng ex_seq_packets Packet.ex_ip
    (ex_arrival 1 (7 * Second)) [ex_arrival 0 (8 * Second)] 1 [0] [] 0 ex_seq_sent _ _ _ _ _ _ _ _ _ _ _ _ Ht _ _ _ _ _).
  - reflexivity.
  - reflexivity.
  - vm_compute. reflexivity.
  - vm_compute. reflexivity.
  - vm_compute. reflexivity.
  - reflexivity.
  - reflexivity.
  - intros _. vm_compute. discriminate.
  - change (seqZ 0 _) with [0; 1]. apply Permutation_swap.
  - constructor; [reflexivity|]. constructor; [reflexivity|constructor].
  - assert (forall k now, now = 7 * Second \/ now = 8 * Second -> (k < 2)%nat ->
      passes (ex_send 2) ex_seq_listener [] ex_moments Packet.ex_ip (ex_arrival k now)) as Hp; [|constructor; [apply Hp; lia|constructor; [apply Hp; lia|constructor]]].
    intros k now Hnow Hk. split; [reflexivity|done|done| |constructor|].
    + destruct k as [|[|k]]; [vm_compute; discriminate..|lia].
    + intros m Hm. unfold ex_moments in Hm. rewrite !elem_of_cons, elem_of_nil in Hm.
      destruct Hm as [->|[->|[]]]; destruct Hnow as [->| ->]; (split; [vm_compute; split; congruence|vm_compute; split; discriminate]).
  - constructor; [|constructor]. vm_compute. split; discriminate.
  - lia.
  - repeat constructor; vm_compute; discriminate.
  - apply (bool_decide_eq_true_1 (NoDup ((fun a => take 16 (ar_data a)) <$> [ex_arrival 1 (7 * Second); ex_arrival 0 (8 * Second)]))). vm_compute. reflexivity.
  - vm_compute. discriminate.
  - intros a m _ Hm. by apply elem_of_nil in Hm.
Defined.
