(* ===== verification/GoText.v ===== *)
(** Go's [strings] and [regexp] as the firewall and configuration code uses
    them, on ASCII text, and the float arithmetic of [Duration.Seconds]. *)

From Stdlib Require Import ZArith Lia String.
From Stdlib Require Import Floats.SpecFloat.
From Stdlib Require Strings.Byte.
From stdpp Require Import base list gmap strings.
From S2P Require Import Prelude GoStd.

Open Scope Z_scope.

(** * strings *)

Definition HasPrefix (s prefix : bytes) : bool := bool_decide (take (length prefix) s = prefix).

Fixpoint Contains (s sub : bytes) : bool :=
  HasPrefix s sub || match s with [] => false | _ :: s => Contains s sub end.

(** [strings.ContainsAny(s, chars)] *)
Definition ContainsAny (s chars : bytes) : bool := existsb (fun b => existsb (fun c => bool_decide (b = c)) chars) s.

Definition in_range (lo hi : Z) (b : byte) : bool := Z.leb lo (byte_val b) && Z.leb (byte_val b) hi.
Definition is_upper (b : byte) : bool := in_range 65 90 b.
Definition is_lower (b : byte) : bool := in_range 97 122 b.
Definition is_digit (b : byte) : bool := in_range 48 57 b.

(** [strings.ToLower] and [strings.ToUpper] of ASCII text. *)
Definition ToLower (s : bytes) : bytes := map (fun b => if is_upper b then byte_of (byte_val b + 32) else b) s.
Definition ToUpper (s : bytes) : bytes := map (fun b => if is_lower b then byte_of (byte_val b - 32) else b) s.

(** [fmt.Sprintf("%q", s)] of printable text without quotes. *)
Definition fmt_q (s : bytes) : bytes := [Byte.x22] ++ s ++ [Byte.x22].

(** * regexp *)

Definition ident_start (b : byte) : bool := is_upper b || is_lower b || bool_decide (b = Byte.x5f).
Definition ident_char (b : byte) : bool := ident_start b || is_digit b.

(** The expression [^[A-Za-z_][A-Za-z0-9_]{0,n}$]. *)
Definition match_identifier (n : nat) (s : bytes) : bool :=
  match s with
  | [] => false
  | b :: t => ident_start b && forallb ident_char t && Nat.leb (length t) n
  end.

(** * time.Duration.Seconds *)

(** The [float64] of an integer, and the conversion [int(f)] of a float that is
    not negative. *)
Definition float64_of (v : Z) : spec_float := binary_normalize 53 1024 v 0 false.

Definition int_of_float (f : spec_float) : Z :=
  match f with
  | S754_finite _ m e => if Z.leb 0 e then Z.pos m * 2 ^ e else Z.pos m / 2 ^ (- e)
  | _ => 0
  end.

(** [d.Seconds()] of a positive duration: whole seconds plus the fraction, with
    the rounding of [float64]. *)
Definition Seconds (d : Z) : spec_float :=
  SFadd 53 1024 (float64_of (d / Second)) (SFdiv 53 1024 (float64_of (d mod Second)) (float64_of (10 ^ 9))).

Example seconds_of : map (fun d => int_of_float (Seconds d)) [Second; 3 * Second / 2; Second - 1; Minute]
  = [1; 1; 0; 60].
Proof. vm_compute. reflexivity. Qed.

Lemma match_identifier_chars n s : match_identifier n s = true -> forallb ident_char s = true /\ s <> [].
Proof.
  destruct s as [|b t]; simpl; [done|]. rewrite !andb_true_iff. intros [[Hb Ht] _]. split; [|done].
  rewrite Ht. unfold ident_char. by rewrite Hb.
Qed.
