(* ===== verification/Firewall.v ===== *)
(** The firewall package: its configuration, the validation of names, the
    choice of a backend and the four backends (nftables, iptables,
    ipset-iptables and script) as the commands they run.

    The programs themselves (nft, iptables, ipset, the operator's scripts) are
    not part of the repository: a backend runs them through a [Runner], so a
    state [H] of the host and the instance [Host] of it are parameters here. A
    command returns the text of its error, or nothing. *)

From Stdlib Require Import ZArith Lia String.
From Stdlib Require Strings.Byte.
From stdpp Require Import base list gmap strings.
From S2P Require Import Prelude GoStd Net Packet GoText.

Open Scope Z_scope.

(** * The host *)

(** The context of a command: the caller's, which may be cancelled, or the
    background context of the detached cleanups. *)
Inductive Ctx := Serving | Detached.

(** [Run] and [RunInput] are the methods of the [Runner] of the configuration,
    or of the runner that executes the command; [LookPath] is
    [exec.LookPath], [GOOS] the operating system, and [range_order] the order
    in which a [range] over a map visits its entries. *)
Class Host (H : Type) := {
  Run : Ctx -> bytes -> list bytes -> H -> option bytes * H;
  RunInput : Ctx -> bytes -> bytes -> list bytes -> H -> option bytes * H;
  LookPath : bytes -> H -> option bytes;
  GOOS : H -> bytes;
  range_order : list (bytes * bytes) -> H -> list (bytes * bytes);
}.

(** A computation that runs commands. *)
Definition FW (H A : Type) : Type := H -> A * H.

#[export] Instance FW_ret {H} : MRet (FW H) := fun A a h => (a, h).
#[export] Instance FW_bind {H} : MBind (FW H) := fun A B f m h => let '(a, h) := m h in f a h.

Definition FW_read {H A} (f : H -> A) : FW H A := fun h => (f h, h).

Declare Scope fw_scope.
Delimit Scope fw_scope with fw.

(** [if err := m; err != nil { return err }] before the rest [k]. *)
Definition or_return {H A} (m : FW H (option A)) (k : FW H (option A)) : FW H (option A) :=
  e ← m; match e with Some e => mret (Some e) | None => k end.

Notation "m >>? k" := (or_return m k) (at level 63, right associativity) : fw_scope.
Open Scope fw_scope.

(** * interface.go *)

Record NftablesConfig := mkNftablesConfig { nc_Table : bytes; nc_Chain : bytes; nc_SetV4 : bytes; nc_SetV6 : bytes; nc_Family : bytes }.
Record IptablesConfig := mkIptablesConfig { ic_Chain : bytes }.
Record IPSetConfig := mkIPSetConfig { pc_Set : bytes; pc_SetV6 : bytes }.
Record ScriptConfig := mkScriptConfig { zc_AllowCmd : bytes; zc_RevokeCmd : bytes; zc_CleanupCmd : bytes }.

(** [fc_Runner] says whether the configuration brings a [Runner] of its own. *)
Record Config := mkConfig {
  fc_Backend : bytes;
  fc_Port : Z;
  fc_AllowSeconds : Z;
  fc_CommandTimeout : Z;
  fc_Runner : bool;
  fc_DropUDPKnockPort : bool;
  fc_UDPKnockPort : Z;
  fc_EnableIPv6 : option bool;
  fc_Nftables : NftablesConfig;
  fc_Iptables : IptablesConfig;
  fc_IPSet : IPSetConfig;
  fc_Script : ScriptConfig;
}.

Definition DefaultAllowSeconds : Z := 15.
Definition defaultCommandTimeout : Z := 5 * Second.

Definition commandTimeout (cfg : Config) : Z :=
  if Z.ltb 0 (fc_CommandTimeout cfg) then fc_CommandTimeout cfg else defaultCommandTimeout.

Definition fw_WithDefaults (c : Config) : Config :=
  mkConfig (fc_Backend c) (fc_Port c) (if Z.leb (fc_AllowSeconds c) 0 then DefaultAllowSeconds else fc_AllowSeconds c)
    (fc_CommandTimeout c) (fc_Runner c) (fc_DropUDPKnockPort c) (fc_UDPKnockPort c) (fc_EnableIPv6 c)
    (fc_Nftables c) (fc_Iptables c) (fc_IPSet c) (fc_Script c).

(** [cfg.Port = port] *)
Definition with_port (port : Z) (c : Config) : Config :=
  mkConfig (fc_Backend c) port (fc_AllowSeconds c)
    (fc_CommandTimeout c) (fc_Runner c) (fc_DropUDPKnockPort c) (fc_UDPKnockPort c) (fc_EnableIPv6 c)
    (fc_Nftables c) (fc_Iptables c) (fc_IPSet c) (fc_Script c).

Definition validateFirewallPort (port : Z) (backend : bytes) : option error :=
  if Z.ltb port 1 || Z.ltb 65535 port
  then Some (EMsg (str "firewall backend " ++ backend ++ str " requires protected port in 1..65535")) else None.

Definition validateBoundFirewallPort (backend : bytes) (bound got : Z) : option error :=
  match validateFirewallPort bound backend with
  | Some err => Some err
  | None =>
      if negb (Z.eqb got bound)
      then Some (EMsg (str "firewall backend " ++ backend ++ str " is bound to protected port " ++ itoa bound ++ str ", got " ++ itoa got))
      else None
  end.

Definition nftIdentifierRE (s : bytes) : bool := match_identifier 63 s.
Definition fwNameRE (s : bytes) : bool := match_identifier 30 s.

Definition isSafeNftablesTable (table : bytes) : bool :=
  if bool_decide (table ∈ [str "filter"; str "nat"; str "mangle"; str "raw"; str "security"]) then false
  else bool_decide (table = str "knock_gateway") || bool_decide (table = str "knock_proxy") || HasPrefix table (str "libknock_")
       || HasPrefix table (str "knock_gateway_") || HasPrefix table (str "knock_proxy_").

(** Built-in chains and targets, in any case of letters. *)
Definition isReservedIptablesChain (chain : bytes) : bool :=
  bool_decide (ToUpper chain ∈ [str "INPUT"; str "OUTPUT"; str "FORWARD"; str "PREROUTING"; str "POSTROUTING";
                                str "ACCEPT"; str "DROP"; str "REJECT"; str "RETURN"; str "QUEUE"; str "LOG"]).

Definition validateFirewallObjectName (label value : bytes) : option error :=
  if HasPrefix value (str "-") || ContainsAny value ([Byte.x20; Byte.x09; Byte.x0a; Byte.x0d] ++ str ";{}") || negb (fwNameRE value)
  then Some (EMsg (str "invalid " ++ label ++ str " name " ++ fmt_q value)) else None.

Definition validateIptablesConfig (cfg : IptablesConfig) : option error :=
  if bool_decide (ic_Chain cfg = []) then None
  else
    match validateFirewallObjectName (str "iptables chain") (ic_Chain cfg) with
    | Some err => Some err
    | None =>
        if isReservedIptablesChain (ic_Chain cfg)
        then Some (EMsg (str "unsafe iptables chain " ++ fmt_q (ic_Chain cfg)
               ++ str ": use a libknock-owned chain such as KNOCK_GATEWAY; built-in chains would be flushed and deleted during cleanup"))
        else None
    end.

(** The first error of a loop over named values. *)
Fixpoint first_error (check : bytes -> bytes -> option error) (entries : list (bytes * bytes)) : option error :=
  match entries with
  | [] => None
  | (label, value) :: entries => match check label value with Some err => Some err | None => first_error check entries end
  end.

Definition nft_identifier_error (label value : bytes) : option error :=
  if negb (bool_decide (value = [])) && negb (nftIdentifierRE value)
  then Some (EMsg (str "invalid nftables " ++ label ++ str " identifier " ++ fmt_q value)) else None.

Definition ipset_name_error (label value : bytes) : option error :=
  if bool_decide (value = []) then None else validateFirewallObjectName label value.

(** [ttlSeconds] gives the whole seconds of a positive duration, at least 1. *)
Definition ttlSeconds (ttl : Z) : res Z :=
  if Z.leb ttl 0 then Err (EMsg (str "firewall allow ttl must be positive"))
  else
    let seconds := int_of_float (Seconds ttl) in
    Ok (if Z.ltb seconds 1 then 1 else seconds).

Definition isMissingFirewallObject (err : option bytes) : bool :=
  match err with
  | None => false
  | Some text =>
      let s := ToLower text in
      if Contains s (str "no chain/target/match by that name") || Contains s (str "permission denied") then false
      else Contains s (str "does not exist") || Contains s (str "no such file or directory") || Contains s (str "not in the set")
           || Contains s (str "not in set") || Contains s (str "no such table") || Contains s (str "it's not added")
           || Contains s (str "bad rule (does a matching rule exist")
  end.

Definition ignoreMissingFirewallObject (err : option bytes) : option error :=
  if isMissingFirewallObject err then None else EMsg <$> err.

Definition iptablesMissingError : error :=
  EMsg (str "firewall backend iptables selected, but command " ++ fmt_q (str "iptables") ++ str " was not found").
Definition errIPv6Unsupported (backend : bytes) : error :=
  EMsg (str "firewall backend " ++ backend ++ str " received an IPv6 client address, but command " ++ fmt_q (str "ip6tables") ++ str " was not found").

Definition udpKnockPort (cfg : Config) : Z := if Z.ltb 0 (fc_UDPKnockPort cfg) then fc_UDPKnockPort cfg else fc_Port cfg.

(** [toIP]: the 16-byte form of an IPv4 address, the bytes of an IPv6 one, nil
    for the zero address. *)
Definition toIP (addr : netip_Addr) : bytes :=
  match addr with Addr4 ip => v4_in_v6_prefix ++ ip | Addr6 ip _ => ip | AddrZero => [] end.

Section Host.
Context {H : Type} `{Host H}.

Definition validateNftablesConfig (cfg : NftablesConfig) : FW H (option error) := FW_read (fun h =>
  if negb (bool_decide (nc_Family cfg = [])) && negb (bool_decide (nc_Family cfg = str "inet"))
  then Some (EMsg (str "only nftables family inet is supported, got " ++ fmt_q (nc_Family cfg)))
  else if negb (bool_decide (nc_Table cfg = [])) && negb (isSafeNftablesTable (nc_Table cfg))
  then Some (EMsg (str "unsafe nftables table " ++ fmt_q (nc_Table cfg) ++ str ": use a libknock-owned table such as knock_gateway or libknock_*"))
  else first_error nft_identifier_error
         (range_order [(str "table", nc_Table cfg); (str "chain", nc_Chain cfg); (str "set_v4", nc_SetV4 cfg); (str "set_v6", nc_SetV6 cfg)] h)).

Definition validateIPSetIptablesConfig (cfg : Config) : FW H (option error) := FW_read (fun h =>
  match validateIptablesConfig (fc_Iptables cfg) with
  | Some err => Some err
  | None => first_error ipset_name_error
              (range_order [(str "ipset set", pc_Set (fc_IPSet cfg)); (str "ipset set_v6", pc_SetV6 (fc_IPSet cfg))] h)
  end).

(** With a [Runner] of its own a command exists when its help or its version
    runs. *)
Definition firewallCommandPath (cfg : Config) (name : bytes) : FW H (option bytes) :=
  if fc_Runner cfg then
    e ← Run Detached name [str "--help"];
    match e with
    | None => mret (Some name)
    | Some _ => e ← Run Detached name [str "--version"]; mret (if e is None then Some name else None)
    end
  else FW_read (LookPath name).

Definition firewallCommandExists (cfg : Config) (name : bytes) : FW H bool :=
  path ← firewallCommandPath cfg name; mret (if path is Some _ then true else false).

Definition ipv6Enabled (cfg : Config) (backend : bytes) : FW H bool :=
  match fc_EnableIPv6 cfg with
  | Some b => mret b
  | None => if bool_decide (backend = str "nftables") then mret true else firewallCommandExists cfg (str "ip6tables")
  end.

Definition runIptables (ctx : Ctx) (name : bytes) (args : list bytes) : FW H (option bytes) :=
  Run ctx name ([str "-w"; str "5"] ++ args).

(** A command whose failure is the error of the caller. *)
Definition checked (m : FW H (option bytes)) : FW H (option error) := e ← m; mret (EMsg <$> e).
Definition tolerated (m : FW H (option bytes)) : FW H (option error) := e ← m; mret (ignoreMissingFirewallObject e).

(** [errors.Join(err, m)] *)
Definition joined (err : option error) (m : FW H (option error)) : FW H (option error) := e ← m; mret (errors_Join err e).

(** The error of [m], joined with the error of the cleanup after it. *)
Definition or_cleanup (m cleanup k : FW H (option error)) : FW H (option error) :=
  e ← m; match e with Some e => joined (Some e) cleanup | None => k end.

(** * cleanup.go *)

Definition maxCleanupDeletes : nat := 1000.

(** [for range n]: delete until a delete fails; what the failure adds to the
    error. *)
Fixpoint delete_all (n : nat) (delete : FW H (option bytes)) (err : option error) : FW H (option error) :=
  match n with
  | O => mret err
  | S n =>
      e ← delete;
      match e with
      | None => delete_all n delete err
      | Some text => mret (if isMissingFirewallObject (Some text) then err else errors_Join err (Some (EMsg text)))
      end
  end.

Definition udp_drop_args (udpPort : bytes) : list bytes :=
  [str "-p"; str "udp"; str "--dport"; udpPort; str "-m"; str "comment"; str "--comment"; str "knockgate udp-passive"; str "-j"; str "DROP"].

Definition cleanupIptablesRules (ctx : Ctx) (cfg : Config) (chain command tcpPort udpPort : bytes) : FW H (option error) :=
  err ← (if fc_DropUDPKnockPort cfg
         then delete_all maxCleanupDeletes (runIptables ctx command ([str "-D"; str "INPUT"] ++ udp_drop_args udpPort)) None
         else mret None);
  err ← delete_all maxCleanupDeletes
          (runIptables ctx command [str "-D"; str "INPUT"; str "-p"; str "tcp"; str "--dport"; tcpPort; str "-j"; chain]) err;
  err ← joined err (tolerated (runIptables ctx command [str "-F"; chain]));
  joined err (tolerated (runIptables ctx command [str "-X"; chain])).

(** [if err := check; err != nil { ... insert }]: a rule that is not there yet
    is inserted first. *)
Definition ensure_first (ctx : Ctx) (cmd chain : bytes) (rule : list bytes) : FW H (option error) :=
  e ← runIptables ctx cmd ([str "-C"; chain] ++ rule);
  if e is None then mret None else checked (runIptables ctx cmd ([str "-I"; chain; str "1"] ++ rule)).

(** The part of both [initCommand]s before the rules of the chain. *)
Definition init_chain (ctx : Ctx) (cfg : Config) (chain cmd port udpPort : bytes) : FW H (option error) :=
  _ ← runIptables ctx cmd [str "-N"; chain];
  _ ← runIptables ctx cmd [str "-F"; chain];
  ensure_first ctx cmd (str "INPUT") [str "-p"; str "tcp"; str "--dport"; port; str "-j"; chain] >>?
  (if fc_DropUDPKnockPort cfg then ensure_first ctx cmd (str "INPUT") (udp_drop_args udpPort) else mret None).

Definition append_rule (ctx : Ctx) (cmd chain : bytes) (rule : list bytes) : FW H (option error) :=
  checked (runIptables ctx cmd ([str "-A"; chain] ++ rule)).

Definition established_rule : list bytes := [str "-m"; str "conntrack"; str "--ctstate"; str "ESTABLISHED,RELATED"; str "-j"; str "ACCEPT"].
Definition drop_rule (port : bytes) : list bytes := [str "-p"; str "tcp"; str "--dport"; port; str "-j"; str "DROP"].
Definition allow_rule (addr : netip_Addr) (port : Z) : list bytes :=
  [str "-s"; Addr_String addr; str "-p"; str "tcp"; str "--dport"; itoa port; str "-j"; str "ACCEPT"].

(** Whether an address needs the IPv6 tools. *)
Definition needs_ipv6 (addr : netip_Addr) : bool := bool_decide (To4 (toIP addr) = []).

End Host.

(** A configured name, or the default of the backend. *)
Definition name_or (name fallback : bytes) : bytes := if bool_decide (name = []) then fallback else name.

(** * iptables.go *)

Module Iptables.

Record t := mk { cfg : Config; chain : bytes }.

Definition Name : bytes := str "iptables".

Definition NewIptables (c : Config) : t :=
  let c := fw_WithDefaults c in mk c (name_or (ic_Chain (fc_Iptables c)) (str "KNOCK_GATEWAY")).

Section Ops.
Context {H : Type} `{Host H}.

Definition WithConfig (c : Config) : res t :=
  match validateFirewallPort (fc_Port c) Name with
  | Some err => Err err
  | None => match validateIptablesConfig (fc_Iptables c) with Some err => Err err | None => Ok (NewIptables c) end
  end.

Definition initCommand (i : t) (ctx : Ctx) (cmd port udpPort : bytes) : FW H (option error) :=
  init_chain ctx (cfg i) (chain i) cmd port udpPort >>?
  append_rule ctx cmd (chain i) established_rule >>?
  append_rule ctx cmd (chain i) (drop_rule port).

Definition cleanupCommand (i : t) (ctx : Ctx) (cmd port udpPort : bytes) : FW H (option error) :=
  cleanupIptablesRules ctx (cfg i) (chain i) cmd port udpPort.

Definition Cleanup (i : t) (ctx : Ctx) : FW H (option error) :=
  match validateIptablesConfig (mkIptablesConfig (chain i)) with
  | Some err => mret (Some err)
  | None =>
      let port := itoa (fc_Port (cfg i)) in
      let udpPort := itoa (udpKnockPort (cfg i)) in
      err ← cleanupCommand i ctx (str "iptables") port udpPort;
      v6 ← ipv6Enabled (cfg i) Name;
      if v6 : bool then joined err (cleanupCommand i ctx (str "ip6tables") port udpPort) else mret err
  end.

Definition cleanupDetached (i : t) : FW H (option error) := Cleanup i Detached.

Definition Init (i : t) (ctx : Ctx) : FW H (option error) :=
  match validateIptablesConfig (mkIptablesConfig (chain i)) with
  | Some err => mret (Some err)
  | None =>
      let port := itoa (fc_Port (cfg i)) in
      let udpPort := itoa (udpKnockPort (cfg i)) in
      cleanupCommand i ctx (str "iptables") port udpPort >>?
      or_cleanup (initCommand i ctx (str "iptables") port udpPort) (cleanupDetached i)
        (v6 ← ipv6Enabled (cfg i) Name;
         if v6 : bool then
           or_cleanup (cleanupCommand i ctx (str "ip6tables") port udpPort) (cleanupDetached i)
             (or_cleanup (initCommand i ctx (str "ip6tables") port udpPort) (cleanupDetached i) (mret None))
         else mret None)
  end.

(** The command for the family of an address, or what [refuse] says when IPv6
    is not enabled. *)
Definition for_family {A} (i : t) (addr : netip_Addr) (refuse : A) (k : bytes -> FW H A) : FW H A :=
  if needs_ipv6 addr then
    v6 ← ipv6Enabled (cfg i) Name;
    if v6 : bool then k (str "ip6tables") else mret refuse
  else k (str "iptables").

Definition Allow (i : t) (ctx : Ctx) (addr : netip_Addr) (port ttl : Z) : FW H (option error) :=
  match validateBoundFirewallPort Name (fc_Port (cfg i)) port with
  | Some err => mret (Some err)
  | None =>
      for_family i addr (Some (errIPv6Unsupported (str "iptables"))) (fun cmd =>
        ensure_first ctx cmd (chain i) (allow_rule addr port))
  end.

Definition IsAllowed (i : t) (ctx : Ctx) (addr : netip_Addr) (port : Z) : FW H (res bool) :=
  match validateBoundFirewallPort Name (fc_Port (cfg i)) port with
  | Some err => mret (Err err)
  | None =>
      for_family i addr (Ok false) (fun cmd =>
        e ← runIptables ctx cmd ([str "-C"; chain i] ++ allow_rule addr port);
        mret (match e with
              | None => Ok true
              | Some text => if isMissingFirewallObject e then Ok false else Err (EMsg text)
              end))
  end.

Definition Revoke (i : t) (ctx : Ctx) (addr : netip_Addr) (port : Z) : FW H (option error) :=
  match validateBoundFirewallPort Name (fc_Port (cfg i)) port with
  | Some err => mret (Some err)
  | None =>
      for_family i addr None (fun cmd =>
        tolerated (runIptables ctx cmd ([str "-D"; chain i] ++ allow_rule addr port)))
  end.

End Ops.
End Iptables.

(** * ipset_iptables.go *)

Module IPSet.

Record t := mk { cfg : Config; set : bytes; setV6 : bytes; chain : bytes }.

Definition Name : bytes := str "ipset-iptables".

Definition NewIPSetIptables (c : Config) : t :=
  let c := fw_WithDefaults c in
  mk c (name_or (pc_Set (fc_IPSet c)) (str "knock_gateway_allowed"))
    (name_or (pc_SetV6 (fc_IPSet c)) (str "knock_gateway_allowed_v6"))
    (name_or (ic_Chain (fc_Iptables c)) (str "KNOCK_GATEWAY")).

Section Ops.
Context {H : Type} `{Host H}.

Definition WithConfig (c : Config) : FW H (res t) :=
  match validateFirewallPort (fc_Port c) Name with
  | Some err => mret (Err err)
  | None => e ← validateIPSetIptablesConfig c; mret (match e with Some err => Err err | None => Ok (NewIPSetIptables c) end)
  end.

Definition match_set_rule (set : bytes) : list bytes := [str "-m"; str "set"; str "--match-set"; set; str "src"; str "-j"; str "ACCEPT"].

Definition initCommand (i : t) (ctx : Ctx) (cmd set port udpPort : bytes) : FW H (option error) :=
  init_chain ctx (cfg i) (chain i) cmd port udpPort >>?
  append_rule ctx cmd (chain i) established_rule >>?
  append_rule ctx cmd (chain i) (match_set_rule set) >>?
  append_rule ctx cmd (chain i) (drop_rule port).

Definition cleanupCommand (i : t) (ctx : Ctx) (cmd port udpPort : bytes) : FW H (option error) :=
  cleanupIptablesRules ctx (cfg i) (chain i) cmd port udpPort.

Definition run_ipset (ctx : Ctx) (args : list bytes) : FW H (option bytes) := Run ctx (str "ipset") args.

Definition Cleanup (i : t) (ctx : Ctx) : FW H (option error) :=
  match validateIptablesConfig (mkIptablesConfig (chain i)) with
  | Some err => mret (Some err)
  | None =>
      let port := itoa (fc_Port (cfg i)) in
      let udpPort := itoa (udpKnockPort (cfg i)) in
      err ← cleanupCommand i ctx (str "iptables") port udpPort;
      v6 ← ipv6Enabled (cfg i) Name;
      err ← (if v6 : bool then
               err ← joined err (cleanupCommand i ctx (str "ip6tables") port udpPort);
               err ← joined err (tolerated (run_ipset ctx [str "flush"; setV6 i]));
               joined err (tolerated (run_ipset ctx [str "destroy"; setV6 i]))
             else mret err);
      err ← joined err (tolerated (run_ipset ctx [str "flush"; set i]));
      joined err (tolerated (run_ipset ctx [str "destroy"; set i]))
  end.

Definition cleanupDetached (i : t) : FW H (option error) := Cleanup i Detached.

Definition Init (i : t) (ctx : Ctx) : FW H (option error) :=
  match validateIptablesConfig (mkIptablesConfig (chain i)) with
  | Some err => mret (Some err)
  | None =>
      let port := itoa (fc_Port (cfg i)) in
      let udpPort := itoa (udpKnockPort (cfg i)) in
      let timeout := itoa (fc_AllowSeconds (cfg i)) in
      let or_clean m k := or_cleanup m (cleanupDetached i) k in
      checked (run_ipset ctx [str "create"; set i; str "hash:ip"; str "timeout"; timeout; str "-exist"]) >>?
      or_clean (tolerated (run_ipset ctx [str "flush"; set i]))
      (or_clean (cleanupCommand i ctx (str "iptables") port udpPort)
      (or_clean (initCommand i ctx (str "iptables") (set i) port udpPort)
        (v6 ← ipv6Enabled (cfg i) Name;
         if v6 : bool then
           or_clean (checked (run_ipset ctx [str "create"; setV6 i; str "hash:ip"; str "family"; str "inet6"; str "timeout"; timeout; str "-exist"]))
           (or_clean (tolerated (run_ipset ctx [str "flush"; setV6 i]))
           (or_clean (cleanupCommand i ctx (str "ip6tables") port udpPort)
           (or_clean (initCommand i ctx (str "ip6tables") (setV6 i) port udpPort) (mret None))))
         else mret None)))
  end.

Definition for_family {A} (i : t) (addr : netip_Addr) (refuse : A) (k : bytes -> FW H A) : FW H A :=
  if needs_ipv6 addr then
    v6 ← ipv6Enabled (cfg i) Name;
    if v6 : bool then k (setV6 i) else mret refuse
  else k (set i).

Definition Allow (i : t) (ctx : Ctx) (addr : netip_Addr) (port ttl : Z) : FW H (option error) :=
  match validateBoundFirewallPort Name (fc_Port (cfg i)) port with
  | Some err => mret (Some err)
  | None =>
      match ttlSeconds ttl with
      | Err err => mret (Some err)
      | Ok seconds =>
          for_family i addr (Some (errIPv6Unsupported (str "ipset-iptables"))) (fun set =>
            checked (run_ipset ctx [str "add"; set; Addr_String addr; str "timeout"; itoa seconds; str "-exist"]))
      end
  end.

Definition IsAllowed (i : t) (ctx : Ctx) (addr : netip_Addr) (port : Z) : FW H (res bool) :=
  match validateBoundFirewallPort Name (fc_Port (cfg i)) port with
  | Some err => mret (Err err)
  | None =>
      for_family i addr (Ok false) (fun set =>
        e ← run_ipset ctx [str "test"; set; Addr_String addr];
        mret (match e with
              | None => Ok true
              | Some text => if isMissingFirewallObject e then Ok false else Err (EMsg text)
              end))
  end.

Definition Revoke (i : t) (ctx : Ctx) (addr : netip_Addr) (port : Z) : FW H (option error) :=
  match validateBoundFirewallPort Name (fc_Port (cfg i)) port with
  | Some err => mret (Some err)
  | None => for_family i addr None (fun set => tolerated (run_ipset ctx [str "del"; set; Addr_String addr]))
  end.

End Ops.
End IPSet.

(** * nftables.go *)

Module Nft.

Record t := mk { name : bytes; cfg : Config; family : bytes; table : bytes; chain : bytes; setV4 : bytes; setV6 : bytes }.

Definition NewNftables (c : Config) (name : bytes) : t :=
  let c := fw_WithDefaults c in
  let n := fc_Nftables c in
  mk name c (name_or (nc_Family n) (str "inet")) (name_or (nc_Table n) (str "knock_gateway")) (name_or (nc_Chain n) (str "input"))
    (name_or (nc_SetV4 n) (str "allowed_clients_v4")) (name_or (nc_SetV6 n) (str "allowed_clients_v6")).

Definition Name (n : t) : bytes := if bool_decide (name n = []) then str "nftables" else name n.

(** A line of a script. *)
Definition line (l : list bytes) : bytes := concat l ++ [Byte.x0a].

Definition udp_drop_line (n : t) : bytes :=
  if fc_DropUDPKnockPort (cfg n) then line [str "    udp dport "; itoa (udpKnockPort (cfg n)); str " drop"] else [].

Definition set_v6_lines (n : t) (ipv6 : bool) : bytes :=
  if ipv6 then
    line [] ++ line [str "  set "; setV6 n; str " {"] ++ line [str "    type ipv6_addr"]
    ++ line [str "    timeout "; itoa (fc_AllowSeconds (cfg n)); str "s"] ++ line [str "  }"]
  else [].

Definition rule_v6_line (n : t) (ipv6 : bool) : bytes :=
  if ipv6 then line [str "    ip6 saddr @"; setV6 n; str " tcp dport "; itoa (fc_Port (cfg n)); str " accept"] else [].

Definition createScript (n : t) (ipv6 : bool) : bytes :=
  line [str "table "; family n; str " "; table n; str " {"]
  ++ line [str "  set "; setV4 n; str " {"]
  ++ line [str "    type ipv4_addr"]
  ++ line [str "    timeout "; itoa (fc_AllowSeconds (cfg n)); str "s"]
  ++ line [str "  }"]
  ++ line [set_v6_lines n ipv6]
  ++ line []
  ++ line [str "  chain "; chain n; str " {"]
  ++ line [str "    type filter hook input priority -10; policy accept;"]
  ++ line [str "    ct state established,related accept"]
  ++ line [str "    ip saddr @"; setV4 n; str " tcp dport "; itoa (fc_Port (cfg n)); str " accept"]
  ++ line [rule_v6_line n ipv6]
  ++ line [str "    tcp dport "; itoa (fc_Port (cfg n)); str " drop"]
  ++ line [udp_drop_line n]
  ++ line [str "  }"]
  ++ line [str "}"].

Definition nftRenewElementInput (family table set elem : bytes) (seconds : Z) : bytes :=
  let target := [family; str " "; table; str " "; set] in
  let add := line ([str "add element "] ++ target ++ [str " { "; elem; str " timeout "; itoa seconds; str "s }"]) in
  add ++ line ([str "delete element "] ++ target ++ [str " { "; elem; str " }"]) ++ add.

Definition delete_element (family table set elem : bytes) : bytes :=
  line [str "delete element "; family; str " "; table; str " "; set; str " { "; elem; str " }"].

(** The element and the set of an address: the text of the IPv4 form in the
    IPv4 set, or the text of the address in the IPv6 set. *)
Definition element (n : t) (addr : netip_Addr) : bytes * bytes :=
  if needs_ipv6 addr then (setV6 n, Addr_String addr) else (setV4 n, string4 (To4 (toIP addr))).

Section Ops.
Context {H : Type} `{Host H}.

Definition nft_input (ctx : Ctx) (input : bytes) : FW H (option bytes) := RunInput ctx input (str "nft") [str "-f"; str "-"].

Definition WithConfig (n : t) (c : Config) : FW H (res t) :=
  match validateFirewallPort (fc_Port c) (Name n) with
  | Some err => mret (Err err)
  | None => e ← validateNftablesConfig (fc_Nftables c); mret (match e with Some err => Err err | None => Ok (NewNftables c (name n)) end)
  end.

Definition Cleanup (n : t) (ctx : Ctx) : FW H (option error) :=
  validateNftablesConfig (fc_Nftables (cfg n)) >>?
  tolerated (nft_input ctx (line [str "delete table "; family n; str " "; table n])).

Definition cleanupDetached (n : t) : FW H (option error) := Cleanup n Detached.

Definition Init (n : t) (ctx : Ctx) : FW H (option error) :=
  validateNftablesConfig (fc_Nftables (cfg n)) >>?
  (ipv6 ← ipv6Enabled (cfg n) (Name n);
   Cleanup n ctx >>?
   or_cleanup (checked (nft_input ctx (createScript n ipv6))) (cleanupDetached n) (mret None)).

(** What an operation on an address does when it is valid and its family
    enabled. *)
Definition for_family {A} (n : t) (addr : netip_Addr) (invalid refuse : A) (k : FW H A) : FW H A :=
  if needs_ipv6 addr then
    if bool_decide (To16 (toIP addr) = []) then mret invalid
    else
      v6 ← ipv6Enabled (cfg n) (Name n);
      if v6 : bool then k else mret refuse
  else k.

Definition invalid_address (addr : netip_Addr) : error := EMsg (str "invalid IP address " ++ Addr_String addr).

Definition Allow (n : t) (ctx : Ctx) (addr : netip_Addr) (port ttl : Z) : FW H (option error) :=
  match validateBoundFirewallPort (Name n) (fc_Port (cfg n)) port with
  | Some err => mret (Some err)
  | None =>
      if Z.leb ttl 0 then mret (Some (EMsg (str "nftables allow ttl must be greater than zero")))
      else
        match ttlSeconds ttl with
        | Err err => mret (Some err)
        | Ok seconds =>
            for_family n addr (Some (invalid_address addr)) (Some (errIPv6Unsupported (Name n)))
              (let '(set, elem) := element n addr in
               checked (nft_input ctx (nftRenewElementInput (family n) (table n) set elem seconds)))
        end
  end.

Definition IsAllowed (n : t) (ctx : Ctx) (addr : netip_Addr) (port : Z) : FW H (res bool) :=
  match validateBoundFirewallPort (Name n) (fc_Port (cfg n)) port with
  | Some err => mret (Err err)
  | None =>
      for_family n addr (Err (invalid_address addr)) (Ok false)
        (let '(set, elem) := element n addr in
         e ← Run ctx (str "nft") [str "get"; str "element"; family n; table n; set; str "{"; elem; str "}"];
         mret (match e with
               | None => Ok true
               | Some text => if isMissingFirewallObject e then Ok false else Err (EMsg text)
               end))
  end.

Definition Revoke (n : t) (ctx : Ctx) (addr : netip_Addr) (port : Z) : FW H (option error) :=
  match validateBoundFirewallPort (Name n) (fc_Port (cfg n)) port with
  | Some err => mret (Some err)
  | None =>
      for_family n addr None None
        (let '(set, elem) := element n addr in
         tolerated (nft_input ctx (delete_element (family n) (table n) set elem)))
  end.

End Ops.
End Nft.

(** * script.go *)

Module Script.

Record t := mk { cfg : Config }.

Definition Name : bytes := str "script".
Definition NewScript (c : Config) : t := mk c.

Section Ops.
Context {H : Type} `{Host H}.

Definition WithConfig (c : Config) : res t :=
  match validateFirewallPort (fc_Port c) Name with Some err => Err err | None => Ok (NewScript c) end.

(** The commands of the script, in the order in which they are looked up. *)
Fixpoint find_commands (c : Config) (cmds : list bytes) : FW H (option error) :=
  match cmds with
  | [] => mret None
  | cmd :: cmds =>
      ok ← firewallCommandExists c cmd;
      if ok : bool then find_commands c cmds
      else mret (Some (EMsg (str "firewall backend script command " ++ fmt_q cmd ++ str " was not found")))
  end.

Definition missing_command (c : Config) : bool :=
  bool_decide (zc_AllowCmd (fc_Script c) = []) || bool_decide (zc_RevokeCmd (fc_Script c) = [])
  || bool_decide (zc_CleanupCmd (fc_Script c) = []).

Definition missing_command_error : error := EMsg (str "firewall backend script requires allow_cmd, revoke_cmd, and cleanup_cmd").

Definition Validate (s : t) : FW H (option error) :=
  let z := fc_Script (cfg s) in
  if missing_command (cfg s) then mret (Some missing_command_error)
  else if fc_Runner (cfg s) then mret None
  else find_commands (cfg s) [zc_AllowCmd z; zc_RevokeCmd z; zc_CleanupCmd z].

Definition Init (s : t) (ctx : Ctx) : FW H (option error) := Validate s.

Definition Allow (s : t) (ctx : Ctx) (addr : netip_Addr) (port ttl : Z) : FW H (option error) :=
  match validateBoundFirewallPort Name (fc_Port (cfg s)) port with
  | Some err => mret (Some err)
  | None =>
      match ttlSeconds ttl with
      | Err err => mret (Some err)
      | Ok seconds => checked (Run ctx (zc_AllowCmd (fc_Script (cfg s))) [Addr_String addr; itoa port; itoa seconds])
      end
  end.

Definition Revoke (s : t) (ctx : Ctx) (addr : netip_Addr) (port : Z) : FW H (option error) :=
  match validateBoundFirewallPort Name (fc_Port (cfg s)) port with
  | Some err => mret (Some err)
  | None => checked (Run ctx (zc_RevokeCmd (fc_Script (cfg s))) [Addr_String addr; itoa port])
  end.

Definition Cleanup (s : t) (ctx : Ctx) : FW H (option error) :=
  checked (Run ctx (zc_CleanupCmd (fc_Script (cfg s))) [itoa (fc_Port (cfg s))]).

End Ops.
End Script.

(** * The backends of the package *)

Inductive Backend :=
| Noop
| BNftables (n : Nft.t)
| BIptables (i : Iptables.t)
| BIPSet (i : IPSet.t)
| BScript (s : Script.t).

Definition Name (b : Backend) : bytes :=
  match b with
  | Noop => str "noop"
  | BNftables n => Nft.Name n
  | BIptables _ => Iptables.Name
  | BIPSet _ => IPSet.Name
  | BScript _ => Script.Name
  end.

(** The configuration of a [ConfigurableBackend]. *)
Definition Backend_Config (b : Backend) : option Config :=
  match b with
  | Noop => None
  | BNftables n => Some (Nft.cfg n)
  | BIptables i => Some (Iptables.cfg i)
  | BIPSet i => Some (IPSet.cfg i)
  | BScript s => Some (Script.cfg s)
  end.

Definition isNoopBackend (b : Backend) : bool := if b is Noop then true else false.

Definition backendCommands (name : bytes) : list bytes :=
  if bool_decide (name = str "nftables") then [str "nft"]
  else if bool_decide (name = str "ipset-iptables") then [str "ipset"; str "iptables"; str "ip6tables"]
  else if bool_decide (name = str "iptables") then [str "iptables"; str "ip6tables"]
  else [].

Record Capabilities := mkCapabilities { ca_Backend : bytes; ca_Commands : gmap bytes bytes; ca_Timeout : bool; ca_DropUDP : bool }.

(** Whether a backend lets its entries time out, and whether it can drop the
    knock port. *)
Definition has_timeout (name : bytes) : bool := bool_decide (name = str "nftables") || bool_decide (name = str "ipset-iptables").
Definition has_drop_udp (name : bytes) : bool := has_timeout name || bool_decide (name = str "iptables").

Section Backend.
Context {H : Type} `{Host H}.

Definition Init (b : Backend) (ctx : Ctx) : FW H (option error) :=
  match b with
  | Noop => mret None
  | BNftables n => Nft.Init n ctx
  | BIptables i => Iptables.Init i ctx
  | BIPSet i => IPSet.Init i ctx
  | BScript s => Script.Init s ctx
  end.

Definition Allow (b : Backend) (ctx : Ctx) (addr : netip_Addr) (port ttl : Z) : FW H (option error) :=
  match b with
  | Noop => mret None
  | BNftables n => Nft.Allow n ctx addr port ttl
  | BIptables i => Iptables.Allow i ctx addr port ttl
  | BIPSet i => IPSet.Allow i ctx addr port ttl
  | BScript s => Script.Allow s ctx addr port ttl
  end.

Definition Revoke (b : Backend) (ctx : Ctx) (addr : netip_Addr) (port : Z) : FW H (option error) :=
  match b with
  | Noop => mret None
  | BNftables n => Nft.Revoke n ctx addr port
  | BIptables i => Iptables.Revoke i ctx addr port
  | BIPSet i => IPSet.Revoke i ctx addr port
  | BScript s => Script.Revoke s ctx addr port
  end.

Definition Cleanup (b : Backend) (ctx : Ctx) : FW H (option error) :=
  match b with
  | Noop => mret None
  | BNftables n => Nft.Cleanup n ctx
  | BIptables i => Iptables.Cleanup i ctx
  | BIPSet i => IPSet.Cleanup i ctx
  | BScript s => Script.Cleanup s ctx
  end.

Fixpoint command_paths (cfg : Config) (cmds : list bytes) : FW H (gmap bytes bytes) :=
  match cmds with
  | [] => mret ∅
  | cmd :: cmds =>
      path ← firewallCommandPath cfg cmd;
      rest ← command_paths cfg cmds;
      mret (match path with Some p => <[cmd := p]> rest | None => rest end)
  end.

Definition DescribeWithConfig (name : bytes) (cfg : Config) : FW H Capabilities :=
  commands ← command_paths cfg (backendCommands name);
  mret (mkCapabilities name commands (has_timeout name) (has_drop_udp name)).

Definition Detect (cfg : Config) : FW H (res bytes) :=
  os ← FW_read GOOS;
  let scripted := negb (bool_decide (zc_AllowCmd (fc_Script cfg) = [])) in
  if negb (bool_decide (os = str "linux")) then
    mret (if scripted then Ok (str "script")
          else Err (EMsg (str "firewall backend auto is only supported on linux unless script backend is configured; current OS is " ++ os)))
  else
    nft ← firewallCommandExists cfg (str "nft");
    if nft : bool then mret (Ok (str "nftables"))
    else
      ipset ← firewallCommandExists cfg (str "ipset");
      both ← (if ipset : bool then firewallCommandExists cfg (str "iptables") else mret false);
      if both : bool then mret (Ok (str "ipset-iptables"))
      else
        iptables ← firewallCommandExists cfg (str "iptables");
        if iptables : bool then mret (Ok (str "iptables"))
        else mret (if scripted then Ok (str "script")
                   else Err (EMsg (str "no usable firewall backend was detected; install nftables or iptables/ipset, or configure firewall backend script"))).

Definition not_found (backend cmd : bytes) : error :=
  EMsg (str "firewall backend " ++ backend ++ str " selected, but command " ++ fmt_q cmd ++ str " was not found").

(** The backend of a name, after [auto] has been resolved. *)
Definition new_named (cfg : Config) (name : bytes) : FW H (res Backend) :=
  let bound (k : FW H (res Backend)) : FW H (res Backend) :=
    match validateFirewallPort (fc_Port cfg) name with Some err => mret (Err err) | None => k end in
  if bool_decide (name = str "noop") then mret (Ok Noop)
  else if bool_decide (name = str "nftables") then bound (
    e ← validateNftablesConfig (fc_Nftables cfg);
    match e with
    | Some err => mret (Err err)
    | None =>
        nft ← firewallCommandExists cfg (str "nft");
        mret (if nft : bool then Ok (BNftables (Nft.NewNftables cfg name)) else Err (not_found (str "nftables") (str "nft")))
    end)
  else if bool_decide (name = str "ipset-iptables") then bound (
    e ← validateIPSetIptablesConfig cfg;
    match e with
    | Some err => mret (Err err)
    | None =>
        ipset ← firewallCommandExists cfg (str "ipset");
        if ipset : bool then
          iptables ← firewallCommandExists cfg (str "iptables");
          mret (if iptables : bool then Ok (BIPSet (IPSet.NewIPSetIptables cfg)) else Err iptablesMissingError)
        else mret (Err (not_found (str "ipset-iptables") (str "ipset")))
    end)
  else if bool_decide (name = str "iptables") then bound (
    match validateIptablesConfig (fc_Iptables cfg) with
    | Some err => mret (Err err)
    | None =>
        iptables ← firewallCommandExists cfg (str "iptables");
        mret (if iptables : bool then Ok (BIptables (Iptables.NewIptables cfg)) else Err iptablesMissingError)
    end)
  else if bool_decide (name = str "script") then bound (
    if Script.missing_command cfg then mret (Err Script.missing_command_error)
    else if fc_DropUDPKnockPort cfg then
      mret (Err (EMsg (str "firewall backend script cannot manage drop_udp_knock_port; use nftables, iptables, ipset-iptables, or disable udp-passive")))
    else mret (Ok (BScript (Script.NewScript cfg))))
  else mret (Err (EMsg (str "unknown firewall backend " ++ fmt_q name))).

Definition New (cfg : Config) : FW H (res Backend) :=
  let cfg := fw_WithDefaults cfg in
  let name := if bool_decide (fc_Backend cfg = []) then str "auto" else fc_Backend cfg in
  if bool_decide (name = str "auto") then
    detected ← Detect cfg;
    match detected with Err err => mret (Err err) | Ok name => new_named cfg name end
  else new_named cfg name.

Definition Validate (cfg : Config) : FW H (res Capabilities) :=
  let cfg := fw_WithDefaults cfg in
  b ← New cfg;
  match b with
  | Err err => mret (Err err)
  | Ok b =>
      e ← match b with BScript s => Script.Validate s | _ => mret None end;
      match e with
      | Some err => mret (Err err)
      | None => caps ← DescribeWithConfig (Name b) cfg; mret (Ok caps)
      end
  end.

(** A nil backend is [None]. *)
Definition WithPort (b : option Backend) (port : Z) : FW H (res Backend) :=
  match b with
  | None => mret (Err (EMsg (str "firewall backend is nil")))
  | Some b =>
      if isNoopBackend b then mret (Ok b)
      else
        match validateFirewallPort port (Name b) with
        | Some err => mret (Err err)
        | None =>
            match b with
            | Noop => mret (Ok b)
            | BNftables n => r ← Nft.WithConfig n (with_port port (Nft.cfg n)); mret (n ← r; Ok (BNftables n))
            | BIptables i => mret (i ← Iptables.WithConfig (with_port port (Iptables.cfg i)); Ok (BIptables i))
            | BIPSet i => r ← IPSet.WithConfig (with_port port (IPSet.cfg i)); mret (i ← r; Ok (BIPSet i))
            | BScript s => mret (s ← Script.WithConfig (with_port port (Script.cfg s)); Ok (BScript s))
            end
        end
  end.

End Backend.
