(* ===== verification/FirewallSpec.v ===== *)
(** What the firewall backends do to the host.

    [commands_confined]: whatever the tools answer, a backend that [New] made
    runs only commands on its own chain, sets and table, never a flush or a
    delete of a built-in chain or of a system table.

    [iptables_access_exact]: with tools that behave as documented, the packet
    filter that the iptables backend leaves accepts a new connection to the
    protected port exactly from the addresses allowed and not revoked. *)

From Stdlib Require Import ZArith Lia String.
From Stdlib Require Strings.Byte.
From stdpp Require Import base list gmap strings.
From S2P Require Import Prelude GoStd Net Packet GoText Firewall.

Open Scope Z_scope.

(** * The commands a backend runs *)

Inductive call :=
| CRun (ctx : Ctx) (name : bytes) (args : list bytes)
| CInput (ctx : Ctx) (input name : bytes) (args : list bytes).

(** A host that also keeps the list of the commands it ran. *)
Definition traced (H : Type) : Type := list call * H.

#[export] Instance traced_host {H} `{Host H} : Host (traced H) := {|
  Run ctx name args s := let '(r, h) := Run ctx name args (snd s) in (r, (fst s ++ [CRun ctx name args], h));
  RunInput ctx input name args s :=
    let '(r, h) := RunInput ctx input name args (snd s) in (r, (fst s ++ [CInput ctx input name args], h));
  LookPath name s := LookPath name (snd s);
  GOOS s := GOOS (snd s);
  range_order l s := range_order l (snd s);
|}.

Create HintDb calls.

Section Calls.
Context {H : Type} `{Host H}.
Implicit Types P : call -> Prop.

(** Every command that [m] runs satisfies [P]. *)
Definition runs_only {A} P (m : FW (traced H) A) : Prop :=
  forall s a s', m s = (a, s') -> exists cs, fst s' = fst s ++ cs /\ Forall P cs.

Lemma runs_ret {A} P (a : A) : runs_only P (mret a).
Proof. intros s a' s' [= <- <-]. exists []. by rewrite app_nil_r. Qed.

Lemma runs_bind {A B} P (m : FW (traced H) A) (f : A -> FW (traced H) B) :
  runs_only P m -> (forall a, runs_only P (f a)) -> runs_only P (m ≫= f).
Proof.
  intros Hm Hf s b s' E. unfold mbind, FW_bind in E. destruct (m s) as [a s1] eqn:Em.
  destruct (Hm _ _ _ Em) as (c1 & E1 & F1). destruct (Hf _ _ _ _ E) as (c2 & E2 & F2).
  exists (c1 ++ c2). rewrite E2, E1, app_assoc. split; [done|]. by apply Forall_app.
Qed.

Lemma runs_read {A} P (f : traced H -> A) : runs_only P (FW_read f).
Proof. intros s a' s' [= <- <-]. exists []. by rewrite app_nil_r. Qed.

Lemma runs_run P ctx name args : P (CRun ctx name args) -> runs_only P (Run ctx name args).
Proof.
  intros HP s a s' E. cbn in E. destruct (Run ctx name args (snd s)) as [r h]. injection E as <- <-.
  exists [CRun ctx name args]. by rewrite Forall_singleton.
Qed.

Lemma runs_input P ctx input name args : P (CInput ctx input name args) -> runs_only P (RunInput ctx input name args).
Proof.
  intros HP s a s' E. cbn in E. destruct (RunInput ctx input name args (snd s)) as [r h]. injection E as <- <-.
  exists [CInput ctx input name args]. by rewrite Forall_singleton.
Qed.

Lemma runs_or_return {A} P (m k : FW (traced H) (option A)) : runs_only P m -> runs_only P k -> runs_only P (or_return m k).
Proof. intros Hm Hk. apply runs_bind; [done|]. intros [a|]; [apply runs_ret|done]. Qed.

Lemma runs_checked P (m : FW (traced H) (option bytes)) : runs_only P m -> runs_only P (checked m).
Proof. intros Hm. apply runs_bind; [done|]. intros e. apply runs_ret. Qed.

Lemma runs_tolerated P (m : FW (traced H) (option bytes)) : runs_only P m -> runs_only P (tolerated m).
Proof. intros Hm. apply runs_bind; [done|]. intros e. apply runs_ret. Qed.

Lemma runs_joined P err (m : FW (traced H) (option error)) : runs_only P m -> runs_only P (joined err m).
Proof. intros Hm. apply runs_bind; [done|]. intros e. apply runs_ret. Qed.

Lemma runs_or_cleanup P (m c k : FW (traced H) (option error)) :
  runs_only P m -> runs_only P c -> runs_only P k -> runs_only P (or_cleanup m c k).
Proof. intros Hm Hc Hk. apply runs_bind; [done|]. intros [e|]; [by apply runs_joined|done]. Qed.

Lemma runs_delete_all P n (d : FW (traced H) (option bytes)) err : runs_only P d -> runs_only P (delete_all n d err).
Proof.
  intros Hd. revert err. induction n as [|n IH]; intros err; [apply runs_ret|]. cbn [delete_all].
  apply runs_bind; [done|]. intros [text|]; [apply runs_ret|apply IH].
Qed.

End Calls.

#[export] Hint Resolve runs_ret runs_read runs_run runs_input runs_or_return runs_checked runs_tolerated runs_joined
  runs_or_cleanup runs_delete_all : calls.

(** The chain, the sets and the programs of a backend. *)
Definition own_chain (b : Backend) : option bytes :=
  match b with BIptables i => Some (Iptables.chain i) | BIPSet i => Some (IPSet.chain i) | _ => None end.
Definition own_sets (b : Backend) : list bytes := match b with BIPSet i => [IPSet.set i; IPSet.setV6 i] | _ => [] end.
Definition own_scripts (b : Backend) : list bytes :=
  match b with
  | BScript s => let z := fc_Script (Script.cfg s) in [zc_AllowCmd z; zc_RevokeCmd z; zc_CleanupCmd z]
  | _ => []
  end.

(** The rules a backend keeps in the built-in chain INPUT: the jump to its own
    chain for the protected port, and the drop of the knock port. *)
Definition own_input_rules (b : Backend) : list (list bytes) :=
  match own_chain b, Backend_Config b with
  | Some chain, Some c =>
      [[str "-p"; str "tcp"; str "--dport"; itoa (fc_Port c); str "-j"; chain]; udp_drop_args (itoa (udpKnockPort c))]
  | _, _ => []
  end.

(** The commands on a chain and on a set. *)
Definition chain_verbs : list bytes := [str "-N"; str "-F"; str "-X"; str "-A"; str "-C"; str "-I"; str "-D"].
Definition set_verbs : list bytes := [str "create"; str "flush"; str "destroy"; str "add"; str "test"; str "del"].

(** The commands that stay within what a backend owns. *)
Inductive confined (b : Backend) : call -> Prop :=
| confined_probe ctx name arg : arg ∈ [str "--help"; str "--version"] -> confined b (CRun ctx name [arg])
| confined_chain ctx name verb chain rest :
    name ∈ [str "iptables"; str "ip6tables"] -> verb ∈ chain_verbs ->
    own_chain b = Some chain -> isReservedIptablesChain chain = false ->
    confined b (CRun ctx name ([str "-w"; str "5"; verb; chain] ++ rest))
| confined_input ctx name verb rule :
    name ∈ [str "iptables"; str "ip6tables"] -> rule ∈ own_input_rules b ->
    verb ∈ [[str "-C"; str "INPUT"]; [str "-I"; str "INPUT"; str "1"]; [str "-D"; str "INPUT"]] ->
    confined b (CRun ctx name ([str "-w"; str "5"] ++ verb ++ rule))
| confined_set ctx verb set rest :
    verb ∈ set_verbs -> set ∈ own_sets b ->
    fwNameRE set = true -> confined b (CRun ctx (str "ipset") (verb :: set :: rest))
| confined_nft ctx n verb rest :
    b = BNftables n -> isSafeNftablesTable (Nft.table n) = true -> Nft.family n = str "inet" ->
    verb ∈ [str "table "; str "delete table "; str "add element "; str "delete element "] ->
    confined b (CInput ctx (verb ++ str "inet " ++ Nft.table n ++ rest) (str "nft") [str "-f"; str "-"])
| confined_script ctx name args : name ∈ own_scripts b -> confined b (CRun ctx name args).

(** The operations of the [Backend] interface. *)
Inductive fw_op :=
| OpInit (ctx : Ctx)
| OpAllow (ctx : Ctx) (addr : netip_Addr) (port ttl : Z)
| OpRevoke (ctx : Ctx) (addr : netip_Addr) (port : Z)
| OpCleanup (ctx : Ctx).

Definition perform {H} `{Host H} (b : Backend) (o : fw_op) : FW H (option error) :=
  match o with
  | OpInit ctx => Init b ctx
  | OpAllow ctx addr port ttl => Allow b ctx addr port ttl
  | OpRevoke ctx addr port => Revoke b ctx addr port
  | OpCleanup ctx => Cleanup b ctx
  end.

(** A [range] over a map visits every entry once. *)
Class HostLaws (H : Type) `{Host H} := range_perm : forall l (h : H), range_order l h ≡ₚ l.

(** What [New] and [WithPort] make sure of. *)
Record sound (b : Backend) : Prop := {
  sound_chain : forall chain, own_chain b = Some chain -> isReservedIptablesChain chain = false;
  sound_sets : Forall (fun set => fwNameRE set = true) (own_sets b);
  sound_nft : forall n, b = BNftables n -> isSafeNftablesTable (Nft.table n) = true /\ Nft.family n = str "inet";
}.

Section Sound.
Context {H : Type} `{HostLaws H}.

Lemma first_error_None check l (h : H) : first_error check (range_order l h) = None ->
  Forall (fun e => check (fst e) (snd e) = None) l.
Proof.
  intros E. rewrite <- (range_perm l h). clear -E. revert E. induction (range_order l h) as [|[k v] r IH]; simpl; [done|].
  destruct (check k v) eqn:Ek; [done|]. intros E. constructor; auto.
Qed.

Lemma chain_safe c fallback : validateIptablesConfig c = None -> isReservedIptablesChain fallback = false ->
  isReservedIptablesChain (name_or (ic_Chain c) fallback) = false.
Proof.
  unfold validateIptablesConfig, name_or. case_bool_decide; [done|].
  destruct (validateFirewallObjectName _ _); [done|]. by destruct (isReservedIptablesChain (ic_Chain c)).
Qed.

Lemma set_safe label value fallback : ipset_name_error label value = None -> fwNameRE fallback = true ->
  fwNameRE (name_or value fallback) = true.
Proof.
  unfold ipset_name_error, validateFirewallObjectName, name_or. case_bool_decide; [done|].
  destruct (fwNameRE value); [done|]. by rewrite orb_true_r.
Qed.

Lemma NewNftables_sound c name (h h' : H) : validateNftablesConfig (fc_Nftables c) h = (None, h') -> sound (BNftables (Nft.NewNftables c name)).
Proof.
  unfold validateNftablesConfig, FW_read. intros [= E _]. split; [done|constructor|].
  intros n [= <-]. unfold Nft.NewNftables, name_or; cbn.
  destruct (decide (nc_Family (fc_Nftables c) = [])) as [F|F], (decide (nc_Table (fc_Nftables c) = [])) as [T|T];
    rewrite ?(bool_decide_eq_true_2 _ F), ?(bool_decide_eq_false_2 _ F), ?(bool_decide_eq_true_2 _ T), ?(bool_decide_eq_false_2 _ T) in *;
    cbn in E; [done|..]; repeat (case_bool_decide; cbn in E; [|done]); split; try done;
    by destruct (isSafeNftablesTable (nc_Table (fc_Nftables c))).
Qed.

Lemma NewIptables_sound c : validateIptablesConfig (fc_Iptables c) = None -> sound (BIptables (Iptables.NewIptables c)).
Proof.
  intros E. split; [|constructor|done]. intros chain [= <-]. unfold Iptables.NewIptables; cbn. by apply chain_safe.
Qed.

Lemma NewIPSet_sound c (h h' : H) : validateIPSetIptablesConfig c h = (None, h') -> sound (BIPSet (IPSet.NewIPSetIptables c)).
Proof.
  unfold validateIPSetIptablesConfig, FW_read. intros [= E _].
  destruct (validateIptablesConfig (fc_Iptables c)) eqn:Ec; [done|].
  apply first_error_None in E. rewrite !Forall_cons in E. destruct E as (E1 & E2 & _).
  split; [|..|done].
  - intros chain [= <-]. unfold IPSet.NewIPSetIptables; cbn. by apply chain_safe.
  - unfold IPSet.NewIPSetIptables; cbn. repeat constructor; [by eapply (set_safe (str "ipset set"))|by eapply (set_safe (str "ipset set_v6"))].
Qed.

Lemma NewScript_sound s : sound (BScript s).
Proof. split; [done|constructor|done]. Qed.

Lemma Noop_sound : sound Noop.
Proof. split; [done|constructor|done]. Qed.

Lemma new_named_sound c name b (h h' : H) : new_named c name h = (Ok b, h') -> sound b.
Proof.
  unfold new_named. case_bool_decide; [intros [= <- _]; apply Noop_sound|].
  destruct (validateFirewallPort (fc_Port c) name) eqn:Ep; [repeat (case_bool_decide; [done|]); done|].
  repeat case_bool_decide; unfold mbind, FW_bind, mret, FW_ret; [..|done]; intros E.
  - destruct (validateNftablesConfig _ h) as [[e|] h1] eqn:Ev; [done|].
    destruct (firewallCommandExists _ _ h1) as [[] h2]; [|done]. injection E as <- _. by eapply NewNftables_sound.
  - destruct (validateIPSetIptablesConfig _ h) as [[e|] h1] eqn:Ev; [done|].
    destruct (firewallCommandExists _ _ h1) as [[] h2]; [|done].
    destruct (firewallCommandExists _ _ h2) as [[] h3]; [|done]. injection E as <- _. by eapply NewIPSet_sound.
  - destruct (validateIptablesConfig _) eqn:Ev; [done|].
    destruct (firewallCommandExists _ _ h) as [[] h2]; [|done]. injection E as <- _. by eapply NewIptables_sound.
  - destruct (Script.missing_command c); [done|]. destruct (fc_DropUDPKnockPort c); [done|]. injection E as <- _. apply NewScript_sound.
Qed.

Lemma New_sound c b (h h' : H) : New c h = (Ok b, h') -> sound b.
Proof.
  unfold New. case_bool_decide; [|apply new_named_sound].
  unfold mbind, FW_bind. destruct (Detect _ h) as [[name|e] h1]; [apply new_named_sound|done].
Qed.

Lemma WithPort_sound b port b' (h h' : H) : WithPort b port h = (Ok b', h') -> sound b'.
Proof.
  destruct b as [b|]; [|done]. unfold WithPort. destruct (isNoopBackend b) eqn:En.
  { intros [= <- _]. by destruct b. }
  destruct (validateFirewallPort port (Name b)) eqn:Ep; [done|].
  destruct b as [|n|i|i|s]; [done|..]; unfold mbind, FW_bind, mret, FW_ret.
  - unfold Nft.WithConfig, mbind, FW_bind, mret, FW_ret. destruct (validateFirewallPort _ _); [done|].
    destruct (validateNftablesConfig _ h) as [[e|] h1] eqn:Ev; [done|]. intros [= <- _]. by eapply NewNftables_sound.
  - unfold Iptables.WithConfig. destruct (validateFirewallPort _ _); [done|].
    destruct (validateIptablesConfig _) eqn:Ev; [done|]. intros [= <- _]. by apply NewIptables_sound.
  - unfold IPSet.WithConfig, mbind, FW_bind, mret, FW_ret. destruct (validateFirewallPort _ _); [done|].
    destruct (validateIPSetIptablesConfig _ h) as [[e|] h1] eqn:Ev; [done|]. intros [= <- _]. by eapply NewIPSet_sound.
  - unfold Script.WithConfig. destruct (validateFirewallPort _ _); [done|]. intros [= <- _]. apply NewScript_sound.
Qed.

End Sound.

(** * Every command is confined *)

Ltac by_verb := first [done | solve [auto with calls] | unfold chain_verbs, set_verbs; set_solver].

Section Confined.
Context {H : Type} `{Host H}.

Lemma runs_path b cfg name : runs_only (confined b) (firewallCommandPath (H := traced H) cfg name).
Proof.
  unfold firewallCommandPath. destruct (fc_Runner cfg); [|apply runs_read].
  apply runs_bind; [apply runs_run; constructor; set_solver|]. intros [e|]; [|apply runs_ret].
  apply runs_bind; [apply runs_run; constructor; set_solver|]. intros; apply runs_ret.
Qed.

Lemma runs_exists b cfg name : runs_only (confined b) (firewallCommandExists (H := traced H) cfg name).
Proof. apply runs_bind; [apply runs_path|]. intros; apply runs_ret. Qed.

Lemma runs_ipv6 b cfg name : runs_only (confined b) (ipv6Enabled (H := traced H) cfg name).
Proof. unfold ipv6Enabled. destruct (fc_EnableIPv6 cfg); [apply runs_ret|]. case_bool_decide; [apply runs_ret|apply runs_exists]. Qed.

Lemma runs_nft_valid b c : runs_only (confined b) (validateNftablesConfig (H := traced H) c).
Proof. apply runs_read. Qed.

(** The commands on the chain of the backend and on INPUT. *)
Section Tables.
Context (b : Backend) (chain : bytes) (c : Config).
Hypothesis (Hs : sound b) (Hchain : own_chain b = Some chain) (Hcfg : Backend_Config b = Some c).

Definition tool (name : bytes) : Prop := name ∈ [str "iptables"; str "ip6tables"].

Lemma confined_own ctx name verb rest : tool name -> verb ∈ chain_verbs ->
  runs_only (confined b) (runIptables (H := traced H) ctx name (verb :: chain :: rest)).
Proof. intros Hn Hv. apply runs_run. by apply (confined_chain _ _ _ _ chain rest); [..|eapply sound_chain]. Qed.

Lemma input_rules : own_input_rules b =
  [[str "-p"; str "tcp"; str "--dport"; itoa (fc_Port c); str "-j"; chain]; udp_drop_args (itoa (udpKnockPort c))].
Proof. unfold own_input_rules. by rewrite Hchain, Hcfg. Qed.

Lemma confined_builtin ctx name verb rule : tool name -> rule ∈ own_input_rules b ->
  verb ∈ [[str "-C"; str "INPUT"]; [str "-I"; str "INPUT"; str "1"]; [str "-D"; str "INPUT"]] ->
  runs_only (confined b) (runIptables (H := traced H) ctx name (verb ++ rule)).
Proof. intros Hn Hr Hv. apply runs_run. by apply confined_input. Qed.

Lemma runs_ensure_input ctx name rule : tool name -> rule ∈ own_input_rules b ->
  runs_only (confined b) (ensure_first (H := traced H) ctx name (str "INPUT") rule).
Proof.
  intros Hn Hr. apply runs_bind; [apply (confined_builtin _ _ [_; _]); set_solver|].
  intros [e|]; [|apply runs_ret]. apply runs_checked, (confined_builtin _ _ [_; _; _]); set_solver.
Qed.

Lemma runs_ensure_own ctx name rule : tool name ->
  runs_only (confined b) (ensure_first (H := traced H) ctx name chain rule).
Proof.
  intros Hn. apply runs_bind; [apply confined_own; by_verb|].
  intros [e|]; [|apply runs_ret]. apply runs_checked, confined_own; by_verb.
Qed.

Lemma runs_init_chain ctx name : tool name ->
  runs_only (confined b) (init_chain (H := traced H) ctx c chain name (itoa (fc_Port c)) (itoa (udpKnockPort c))).
Proof.
  intros Hn. unfold init_chain. apply runs_bind; [apply confined_own; by_verb|]. intros _.
  apply runs_bind; [apply confined_own; by_verb|]. intros _. apply runs_or_return.
  - apply runs_ensure_input; [done|]. rewrite input_rules. set_solver.
  - destruct (fc_DropUDPKnockPort c); [|apply runs_ret]. apply runs_ensure_input; [done|]. rewrite input_rules. set_solver.
Qed.

Lemma runs_append ctx name rule : tool name -> runs_only (confined b) (append_rule (H := traced H) ctx name chain rule).
Proof. intros Hn. apply runs_checked, confined_own; by_verb. Qed.

Lemma runs_cleanup_rules ctx name : tool name ->
  runs_only (confined b) (cleanupIptablesRules (H := traced H) ctx c chain name (itoa (fc_Port c)) (itoa (udpKnockPort c))).
Proof.
  intros Hn. unfold cleanupIptablesRules. apply runs_bind.
  { destruct (fc_DropUDPKnockPort c); [|apply runs_ret]. apply runs_delete_all, (confined_builtin _ _ [_; _]); [done|..|set_solver].
    rewrite input_rules. set_solver. }
  intros e. apply runs_bind.
  { apply runs_delete_all, (confined_builtin _ _ [_; _]); [done|..|set_solver]. rewrite input_rules. set_solver. }
  intros e1. apply runs_bind; [apply runs_joined, runs_tolerated, confined_own; by_verb|].
  intros e2. apply runs_joined, runs_tolerated, confined_own; by_verb.
Qed.

End Tables.

Lemma tool_v4 : tool (str "iptables").
Proof. unfold tool. set_solver. Qed.
Lemma tool_v6 : tool (str "ip6tables").
Proof. unfold tool. set_solver. Qed.

Hint Resolve runs_ipv6 runs_exists runs_nft_valid tool_v4 tool_v6 runs_cleanup_rules runs_init_chain runs_append runs_ensure_own : calls.

(** Go through the binds of a computation, the rest by the lemmas above. *)
Ltac runs :=
  repeat first
    [ solve [eauto 4 with calls]
    | apply runs_or_return | apply runs_or_cleanup | apply runs_joined | apply runs_checked | apply runs_tolerated
    | apply runs_bind; [|intros ?] | apply runs_ret
    | match goal with |- runs_only _ (if ?c then _ else _) => destruct c end
    | match goal with |- runs_only _ (match ?e with _ => _ end) => destruct e end ].

Lemma iptables_confined i o : sound (BIptables i) -> runs_only (confined (BIptables i)) (perform (H := traced H) (BIptables i) o).
Proof.
  intros Hs. assert (Ht : forall ctx name, tool name ->
    runs_only (confined (BIptables i)) (Iptables.cleanupCommand (H := traced H) i ctx name (itoa (fc_Port (Iptables.cfg i))) (itoa (udpKnockPort (Iptables.cfg i))))).
  { intros. by apply (runs_cleanup_rules _ (Iptables.chain i)). }
  assert (Hi : forall ctx name, tool name ->
    runs_only (confined (BIptables i)) (Iptables.initCommand (H := traced H) i ctx name (itoa (fc_Port (Iptables.cfg i))) (itoa (udpKnockPort (Iptables.cfg i))))).
  { intros. unfold Iptables.initCommand. runs. }
  assert (Hc : forall ctx, runs_only (confined (BIptables i)) (Iptables.Cleanup (H := traced H) i ctx)).
  { intros. unfold Iptables.Cleanup. runs. }
  destruct o; cbn [perform Init Allow Revoke Cleanup]; [|..|apply Hc].
  - unfold Iptables.Init, Iptables.cleanupDetached. runs.
  - unfold Iptables.Allow, Iptables.for_family. runs.
  - unfold Iptables.Revoke, Iptables.for_family. runs; (apply confined_own; by_verb).
Qed.

Lemma confined_ipset i ctx verb set rest : sound (BIPSet i) -> set ∈ own_sets (BIPSet i) ->
  verb ∈ set_verbs ->
  runs_only (confined (BIPSet i)) (IPSet.run_ipset (H := traced H) ctx (verb :: set :: rest)).
Proof.
  intros Hs Hset Hv. apply runs_run, confined_set; [done|done|]. pose proof (sound_sets _ Hs) as Hf.
  rewrite Forall_forall in Hf. by apply Hf.
Qed.

Lemma ipset_confined i o : sound (BIPSet i) -> runs_only (confined (BIPSet i)) (perform (H := traced H) (BIPSet i) o).
Proof.
  intros Hs. assert (Ht : forall ctx name, tool name ->
    runs_only (confined (BIPSet i)) (IPSet.cleanupCommand (H := traced H) i ctx name (itoa (fc_Port (IPSet.cfg i))) (itoa (udpKnockPort (IPSet.cfg i))))).
  { intros. by apply (runs_cleanup_rules _ (IPSet.chain i)). }
  assert (Hi : forall ctx name set, tool name ->
    runs_only (confined (BIPSet i)) (IPSet.initCommand (H := traced H) i ctx name set (itoa (fc_Port (IPSet.cfg i))) (itoa (udpKnockPort (IPSet.cfg i))))).
  { intros. unfold IPSet.initCommand. runs. }
  assert (H4 : forall ctx verb rest, verb ∈ set_verbs ->
    runs_only (confined (BIPSet i)) (IPSet.run_ipset (H := traced H) ctx (verb :: IPSet.set i :: rest))).
  { intros. apply confined_ipset; [done|set_solver|done]. }
  assert (H6 : forall ctx verb rest, verb ∈ set_verbs ->
    runs_only (confined (BIPSet i)) (IPSet.run_ipset (H := traced H) ctx (verb :: IPSet.setV6 i :: rest))).
  { intros. apply confined_ipset; [done|set_solver|done]. }
  assert (Hc : forall ctx, runs_only (confined (BIPSet i)) (IPSet.Cleanup (H := traced H) i ctx)).
  { intros. unfold IPSet.Cleanup. runs; (first [apply H4 | apply H6]; by_verb). }
  destruct o; cbn [perform Init Allow Revoke Cleanup]; [|..|apply Hc].
  - unfold IPSet.Init, IPSet.cleanupDetached. runs; (first [apply H4 | apply H6]; by_verb).
  - unfold IPSet.Allow, IPSet.for_family. runs; (first [apply H4 | apply H6]; by_verb).
  - unfold IPSet.Revoke, IPSet.for_family. runs; (first [apply H4 | apply H6]; by_verb).
Qed.

Lemma confined_nft_input n ctx verb rest : sound (BNftables n) ->
  verb ∈ [str "table "; str "delete table "; str "add element "; str "delete element "] ->
  runs_only (confined (BNftables n)) (Nft.nft_input (H := traced H) ctx (verb ++ Nft.family n ++ str " " ++ Nft.table n ++ rest)).
Proof.
  intros Hs Hv. destruct (sound_nft _ Hs n eq_refl) as [Ht Hf]. apply runs_input. rewrite Hf.
  by apply (confined_nft _ ctx n verb rest).
Qed.

Lemma nft_confined n o : sound (BNftables n) -> runs_only (confined (BNftables n)) (perform (H := traced H) (BNftables n) o).
Proof.
  intros Hs. assert (Hc : forall ctx, runs_only (confined (BNftables n)) (Nft.Cleanup (H := traced H) n ctx)).
  { intros. unfold Nft.Cleanup. runs. unfold Nft.line. cbn [concat]. rewrite <- !app_assoc. apply confined_nft_input; [done|set_solver]. }
  destruct o; cbn [perform Init Allow Revoke Cleanup]; [|..|apply Hc].
  - unfold Nft.Init, Nft.cleanupDetached. runs. unfold Nft.createScript, Nft.line. cbn [concat].
    rewrite <- !app_assoc. apply confined_nft_input; [done|set_solver].
  - unfold Nft.Allow, Nft.for_family. destruct (Nft.element n addr) as [set elem].
    runs; unfold Nft.nftRenewElementInput, Nft.line; cbn [app concat]; rewrite <- !app_assoc;
      (apply confined_nft_input; [done|set_solver]).
  - unfold Nft.Revoke, Nft.for_family. destruct (Nft.element n addr) as [set elem].
    runs; unfold Nft.delete_element, Nft.line; cbn [app concat]; rewrite <- !app_assoc;
      (apply confined_nft_input; [done|set_solver]).
Qed.

Lemma script_confined s o : runs_only (confined (BScript s)) (perform (H := traced H) (BScript s) o).
Proof.
  assert (Hr : forall ctx name args, name ∈ own_scripts (BScript s) -> runs_only (confined (BScript s)) (Run (H := traced H) ctx name args)).
  { intros. by apply runs_run, confined_script. }
  assert (Hf : forall cmds, runs_only (confined (BScript s)) (Script.find_commands (H := traced H) (Script.cfg s) cmds)).
  { induction cmds; cbn [Script.find_commands]; runs. }
  destruct o; cbn [perform Init Allow Revoke Cleanup].
  - unfold Script.Init, Script.Validate. runs; apply Hf.
  - unfold Script.Allow. runs; apply Hr; unfold own_scripts; set_solver.
  - unfold Script.Revoke. runs; apply Hr; unfold own_scripts; set_solver.
  - unfold Script.Cleanup. runs; apply Hr; unfold own_scripts; set_solver.
Qed.

Lemma perform_confined b o : sound b -> runs_only (confined b) (perform (H := traced H) b o).
Proof.
  intros Hs. destruct b; [destruct o; apply runs_ret|by apply nft_confined|by apply iptables_confined|by apply ipset_confined|apply script_confined].
Qed.

End Confined.


(** * The packet filter behind iptables *)

(** The chains of the filter table of each tool, as the lists of the rules'
    arguments. *)
Abbreviation ruleset := (gmap bytes (list (list bytes))).

Definition rules_of (t : ruleset) (chain : bytes) : list (list bytes) := default [] (t !! chain).

(** What the manual of iptables says of the commands used here. A command that
    fails changes nothing, and a command of one tool leaves the other's table;
    [-C] looks for a rule, [-I chain 1] puts one first, [-A] last, [-D] removes
    the first that is equal; [-N] makes a chain, [-F] empties it and [-X]
    removes it. The two errors for a missing rule or chain say so. *)
Class IptablesLaws (H : Type) `{Host H} (tables : H -> bytes -> ruleset) := {
  law_other ctx name args (h h' : H) r other :
    tool name -> runIptables ctx name args h = (r, h') -> other <> name -> tables h' other = tables h other;
  law_fail ctx name args (h h' : H) e :
    tool name -> runIptables ctx name args h = (Some e, h') -> tables h' name = tables h name;
  law_check ctx name chain rule (h h' : H) r :
    tool name -> runIptables ctx name ([str "-C"; chain] ++ rule) h = (r, h') ->
    tables h' name = tables h name /\ (r = None <-> rule ∈ rules_of (tables h name) chain);
  law_insert ctx name chain rule (h h' : H) :
    tool name -> runIptables ctx name ([str "-I"; chain; str "1"] ++ rule) h = (None, h') ->
    exists rs, tables h name !! chain = Some rs /\ tables h' name = <[chain := rule :: rs]> (tables h name);
  law_append ctx name chain rule (h h' : H) :
    tool name -> runIptables ctx name ([str "-A"; chain] ++ rule) h = (None, h') ->
    exists rs, tables h name !! chain = Some rs /\ tables h' name = <[chain := rs ++ [rule]]> (tables h name);
  law_delete ctx name chain rule (h h' : H) :
    tool name -> runIptables ctx name ([str "-D"; chain] ++ rule) h = (None, h') ->
    exists l1 l2, tables h name !! chain = Some (l1 ++ rule :: l2) /\ (rule ∉ l1) /\
      tables h' name = <[chain := l1 ++ l2]> (tables h name);
  law_delete_missing ctx name chain rule (h h' : H) e :
    tool name -> runIptables ctx name ([str "-D"; chain] ++ rule) h = (Some e, h') ->
    isMissingFirewallObject (Some e) = true -> rule ∉ rules_of (tables h name) chain;
  law_new ctx name chain (h h' : H) :
    tool name -> runIptables ctx name [str "-N"; chain] h = (None, h') ->
    tables h name !! chain = None /\ tables h' name = <[chain := []]> (tables h name);
  law_flush ctx name chain (h h' : H) :
    tool name -> runIptables ctx name [str "-F"; chain] h = (None, h') ->
    is_Some (tables h name !! chain) /\ tables h' name = <[chain := []]> (tables h name);
  law_remove ctx name chain (h h' : H) :
    tool name -> runIptables ctx name [str "-X"; chain] h = (None, h') -> tables h' name = delete chain (tables h name);
  law_remove_missing ctx name chain (h h' : H) e :
    tool name -> runIptables ctx name [str "-X"; chain] h = (Some e, h') ->
    isMissingFirewallObject (Some e) = true -> tables h name !! chain = None;
}.

Record packet := mkPacket { pk_src : bytes; pk_proto : bytes; pk_dport : bytes; pk_established : bool }.

(** Whether a rule matches a packet, option by option; the options of a module
    this model does not know match nothing. *)
Fixpoint matches (rule : list bytes) (p : packet) : bool :=
  match rule with
  | [] => true
  | opt :: value :: rest =>
      if bool_decide (opt = str "-j") then true
      else
        (if bool_decide (opt = str "-p") then bool_decide (value = pk_proto p)
         else if bool_decide (opt = str "-s") then bool_decide (value = pk_src p)
         else if bool_decide (opt = str "--dport") then bool_decide (value = pk_dport p)
         else if bool_decide (opt = str "--ctstate") then pk_established p
         else bool_decide (opt = str "-m") || bool_decide (opt = str "--comment"))
        && matches rest p
  | _ => false
  end.

Definition target (rule : list bytes) : bytes := default [] (last rule).

(** The verdict of a chain: the first rule that matches decides, or sends the
    packet through another chain; [None] when the packet falls through. The
    first argument bounds the nesting of chains. *)
Fixpoint verdict (depth : nat) (t : ruleset) (p : packet) : list (list bytes) -> option bool :=
  fix walk rules :=
    match rules with
    | [] => None
    | rule :: rules =>
        if matches rule p then
          if bool_decide (target rule = str "ACCEPT") then Some true
          else if bool_decide (target rule = str "DROP") then Some false
          else
            match depth with
            | O => walk rules
            | S depth => match verdict depth t p (rules_of t (target rule)) with Some v => Some v | None => walk rules end
            end
        else walk rules
    end.

(** * The iptables backend against the packet filter *)

Lemma filter_delete (rule : list bytes) (l1 l2 : list (list bytes)) : length (filter (.= rule) (l1 ++ rule :: l2)) = S (length (filter (.= rule) (l1 ++ l2))).
Proof. rewrite !filter_app, filter_cons_True by done. rewrite !length_app. simpl. lia. Qed.

Lemma filter_absent (rule : list bytes) (l : list (list bytes)) : rule ∉ l -> filter (fun r => r <> rule) l = l.
Proof.
  induction l as [|r l IH]; [done|]. rewrite not_elem_of_cons. intros [Hr Hl]. by rewrite filter_cons_True, IH by done.
Qed.

Section Access.
Context {H : Type} `{Host H} (tables : H -> bytes -> ruleset) `{!IptablesLaws H tables}.
Context (i : Iptables.t) (v6 : bool).
Let chain := Iptables.chain i.
Let port := fc_Port (Iptables.cfg i).

Definition jump_rule : list bytes := [str "-p"; str "tcp"; str "--dport"; itoa port; str "-j"; chain].
Definition udp_rule : list bytes := udp_drop_args (itoa (udpKnockPort (Iptables.cfg i))).

(** IPv6 stays enabled or disabled, and looking for the tool changes no table. *)
Hypothesis (Hv6 : forall h, exists h', ipv6Enabled (Iptables.cfg i) Iptables.Name h = (v6, h') /\ forall name, tables h' name = tables h name).

(** Fewer leftovers of an earlier run than one cleanup removes. *)
Definition few_leftovers (h : H) (name : bytes) : Prop :=
  (length (filter (.= jump_rule) (rules_of (tables h name) (str "INPUT"))) < maxCleanupDeletes)%nat /\
  (length (filter (.= udp_rule) (rules_of (tables h name) (str "INPUT"))) < maxCleanupDeletes)%nat.

(** The loop of deletes removes every copy of the rule and nothing else. *)
Lemma delete_all_ok ctx name rule n err : tool name -> forall h h',
  delete_all n (runIptables ctx name ([str "-D"; str "INPUT"] ++ rule)) err h = (None, h') ->
  (length (filter (.= rule) (rules_of (tables h name) (str "INPUT"))) < n)%nat ->
  err = None /\ (forall other, other <> name -> tables h' other = tables h other) /\
  (forall c, c <> str "INPUT" -> tables h' name !! c = tables h name !! c) /\
  (is_Some (tables h name !! str "INPUT") -> is_Some (tables h' name !! str "INPUT")) /\
  rules_of (tables h' name) (str "INPUT") = filter (fun r => r <> rule) (rules_of (tables h name) (str "INPUT")).
Proof.
  intros Ht. induction n as [|n IH]; intros h h' E Hn; [lia|]. cbn [delete_all] in E. unfold mbind, FW_bind, mret, FW_ret in E.
  destruct (runIptables ctx name _ h) as [[e|] h1] eqn:Er.
  - destruct (isMissingFirewallObject (Some e)) eqn:Em.
    + injection E as -> <-. pose proof (law_delete_missing _ _ _ _ _ _ _ Ht Er Em) as Hr.
      pose proof (law_fail _ _ _ _ _ _ Ht Er) as Hf.
      split; [done|]. split; [intros; by eapply law_other|]. rewrite Hf. split; [done|]. split; [done|].
      symmetry. by apply filter_absent.
    + destruct err; done.
  - destruct (law_delete _ _ _ _ _ _ Ht Er) as (l1 & l2 & El & Hl & Eh).
    assert (Ei : rules_of (tables h name) (str "INPUT") = l1 ++ rule :: l2) by (unfold rules_of; by rewrite El).
    assert (E1 : rules_of (tables h1 name) (str "INPUT") = l1 ++ l2) by (unfold rules_of; by rewrite Eh, lookup_insert_eq).
    destruct (IH _ _ E) as (-> & Ho & Hc & Hs & Hr).
    { rewrite E1. rewrite Ei, filter_delete in Hn. lia. }
    split; [done|]. split; [intros; rewrite Ho by done; by eapply law_other|].
    split; [intros; rewrite Hc by done; by rewrite Eh, lookup_insert_ne|].
    split; [intros _; apply Hs; by rewrite Eh, lookup_insert_eq|].
    rewrite Hr, E1, Ei, !filter_app, filter_cons_False by (intros Hne; by apply Hne). done.
Qed.

Lemma delete_all_err (d : FW H (option bytes)) n err : forall h h', delete_all n d err h = (None, h') -> err = None.
Proof.
  induction n as [|n IH]; intros h h'; cbn [delete_all]; unfold mbind, FW_bind, mret, FW_ret; [by intros [= -> _]|].
  destruct (d h) as [[e|] h1]; [|apply IH]. destruct (isMissingFirewallObject _), err; done.
Qed.

Lemma ignored_None e : ignoreMissingFirewallObject e = None -> e = None \/ isMissingFirewallObject e = true.
Proof. unfold ignoreMissingFirewallObject. destruct (isMissingFirewallObject e), e; auto; done. Qed.

Lemma errors_Join_None a b : errors_Join a b = None -> a = None /\ b = None.
Proof. by destruct a, b. Qed.

Lemma filter_sub (rule rule' : list bytes) (l : list (list bytes)) :
  (length (filter (.= rule) (filter (fun r => r <> rule') l)) <= length (filter (.= rule) l))%nat.
Proof.
  induction l as [|r l IH]; [done|]. rewrite !filter_cons. repeat (case_decide; rewrite ?filter_cons); simpl; try case_decide; simpl; lia.
Qed.

(** What one tool's table is after a cleanup that reports no error: no rule of
    the backend in INPUT, and no chain of it. *)
Lemma cleanup_ok ctx name h h' : tool name -> chain <> str "INPUT" -> few_leftovers h name ->
  Iptables.cleanupCommand i ctx name (itoa port) (itoa (udpKnockPort (Iptables.cfg i))) h = (None, h') ->
  (forall other, other <> name -> tables h' other = tables h other) /\
  tables h' name !! chain = None /\
  (jump_rule ∉ rules_of (tables h' name) (str "INPUT")) /\
  (fc_DropUDPKnockPort (Iptables.cfg i) = true -> udp_rule ∉ rules_of (tables h' name) (str "INPUT")).
Proof.
  intros Ht Hc [Hj Hu]. unfold Iptables.cleanupCommand, cleanupIptablesRules, joined, tolerated, mbind, FW_bind, mret, FW_ret.
  set (udp := if fc_DropUDPKnockPort _ then _ else _). destruct (udp h) as [e0 h0] eqn:E0.
  destruct (delete_all _ _ e0 h0) as [e1 h1] eqn:E1.
  destruct (runIptables _ _ [str "-F"; _] h1) as [e2 h2] eqn:E2. destruct (runIptables _ _ [str "-X"; _] h2) as [e3 h3] eqn:E3.
  intros [= Ej <-]. apply errors_Join_None in Ej as [[-> _]%errors_Join_None E3n].
  pose proof (delete_all_err _ _ _ _ _ E1) as ->.
  assert (Hu0 : (forall other, other <> name -> tables h0 other = tables h other) /\
    (length (filter (.= jump_rule) (rules_of (tables h0 name) (str "INPUT"))) < maxCleanupDeletes)%nat /\
    (fc_DropUDPKnockPort (Iptables.cfg i) = true -> udp_rule ∉ rules_of (tables h0 name) (str "INPUT"))).
  { subst udp. destruct (fc_DropUDPKnockPort _).
    - destruct (delete_all_ok _ _ _ _ _ Ht _ _ E0 Hu) as (_ & Ho & _ & _ & Hr). split; [done|]. rewrite Hr. split.
      + eapply Nat.le_lt_trans; [apply filter_sub|done].
      + intros _ Hin. by apply list_elem_of_filter in Hin as [].
    - injection E0 as <-. split; [done|]. split; [done|done]. }
  destruct Hu0 as (Ho0 & Hj0 & Hn0).
  destruct (delete_all_ok _ _ jump_rule _ _ Ht _ _ E1 Hj0) as (_ & Ho1 & _ & _ & Hr1).
  assert (Hi : rules_of (tables h3 name) (str "INPUT") = rules_of (tables h1 name) (str "INPUT")).
  { transitivity (rules_of (tables h2 name) (str "INPUT")).
    - destruct e3 as [e3|]; [by rewrite (law_fail _ _ _ _ _ _ Ht E3)|].
      rewrite (law_remove _ _ _ _ _ Ht E3). unfold rules_of. by rewrite lookup_delete_ne.
    - destruct e2 as [e2|]; [by rewrite (law_fail _ _ _ _ _ _ Ht E2)|].
      destruct (law_flush _ _ _ _ _ Ht E2) as [_ ->]. unfold rules_of. by rewrite lookup_insert_ne. }
  split; [|split; [|rewrite Hi, Hr1; split]].
  - intros other Hn. rewrite (law_other _ _ _ _ _ _ _ Ht E3 Hn), (law_other _ _ _ _ _ _ _ Ht E2 Hn), Ho1, Ho0; done.
  - apply ignored_None in E3n as [->|Em]; [rewrite (law_remove _ _ _ _ _ Ht E3); apply lookup_delete_eq|].
    destruct e3 as [e3|]; [|done]. rewrite (law_fail _ _ _ _ _ _ Ht E3). by eapply law_remove_missing.
  - intros Hin. by apply list_elem_of_filter in Hin as [].
  - intros Hd Hin. apply list_elem_of_filter in Hin as [_ Hin]. by apply Hn0.
Qed.

(** A rule is put first unless it is there; an error changes nothing. *)
Lemma ensure_spec ctx name c rule h r h' : tool name -> ensure_first ctx name c rule h = (r, h') ->
  (forall other, other <> name -> tables h' other = tables h other) /\
  match r with
  | Some _ => tables h' name = tables h name
  | None =>
      (rule ∈ rules_of (tables h name) c /\ tables h' name = tables h name) \/
      (rule ∉ rules_of (tables h name) c) /\
        exists rs, tables h name !! c = Some rs /\ tables h' name = <[c := rule :: rs]> (tables h name)
  end.
Proof.
  intros Ht. unfold ensure_first, checked, mbind, FW_bind, mret, FW_ret.
  destruct (runIptables _ _ ([str "-C"; c] ++ rule) h) as [[e|] h1] eqn:E1.
  - destruct (runIptables _ _ ([str "-I"; c; str "1"] ++ rule) h1) as [e2 h2] eqn:E2. intros [= <- <-].
    destruct (law_check _ _ _ _ _ _ _ Ht E1) as [Hs Hr].
    split; [intros o Ho; by rewrite (law_other _ _ _ _ _ _ _ Ht E2 Ho), (law_other _ _ _ _ _ _ _ Ht E1 Ho)|].
    destruct e2 as [e2|]; cbn; [by rewrite (law_fail _ _ _ _ _ _ Ht E2)|].
    right. split; [intros Hin; by apply Hr in Hin|]. rewrite <- Hs. by apply law_insert in E2.
  - intros [= <- <-]. destruct (law_check _ _ _ _ _ _ _ Ht E1) as [Hs Hr].
    split; [intros; by eapply law_other|]. left. split; [by apply Hr|done].
Qed.

Lemma append_spec ctx name c rule h h' : tool name -> append_rule ctx name c rule h = (None, h') ->
  (forall other, other <> name -> tables h' other = tables h other) /\
  exists rs, tables h name !! c = Some rs /\ tables h' name = <[c := rs ++ [rule]]> (tables h name).
Proof.
  intros Ht. unfold append_rule, checked, mbind, FW_bind, mret, FW_ret.
  destruct (runIptables _ _ _ h) as [[e|] h1] eqn:E; [done|]. intros [= <-].
  split; [intros; by eapply law_other|by eapply law_append].
Qed.

(** The two rules every chain of the backend ends with. *)
Definition chain_end : list (list bytes) := [established_rule; drop_rule (itoa port)].

(** INPUT sends the packets for the protected port to the chain before it
    does anything else with them. *)
Definition input_ok (t : ruleset) : Prop :=
  exists pre rest, rules_of t (str "INPUT") = pre ++ jump_rule :: rest /\ (pre = [] \/ pre = [udp_rule]).

Lemma or_return_None {A} (m k : FW H (option A)) h h' : or_return m k h = (None, h') ->
  exists h1, m h = (None, h1) /\ k h1 = (None, h').
Proof. unfold or_return, mbind, FW_bind, mret, FW_ret. destruct (m h) as [[e|] h1]; [done|]. eauto. Qed.

Lemma or_cleanup_None (m c k : FW H (option error)) h h' : or_cleanup m c k h = (None, h') ->
  exists h1, m h = (None, h1) /\ k h1 = (None, h').
Proof.
  unfold or_cleanup, joined, mbind, FW_bind, mret, FW_ret. destruct (m h) as [[e|] h1]; [|eauto].
  destruct (c h1) as [[e'|] h2]; done.
Qed.

Lemma init_ok ctx name h h' : tool name -> chain <> str "INPUT" -> tables h name !! chain = None ->
  (jump_rule ∉ rules_of (tables h name) (str "INPUT")) ->
  (fc_DropUDPKnockPort (Iptables.cfg i) = true -> udp_rule ∉ rules_of (tables h name) (str "INPUT")) ->
  Iptables.initCommand i ctx name (itoa port) (itoa (udpKnockPort (Iptables.cfg i))) h = (None, h') ->
  (forall other, other <> name -> tables h' other = tables h other) /\
  tables h' name !! chain = Some chain_end /\ input_ok (tables h' name).
Proof.
  intros Ht Hc Hn Hj Hu E. apply or_return_None in E as (h5 & E5 & E). apply or_return_None in E as (h6 & E6 & E7).
  unfold init_chain in E5. unfold mbind, FW_bind, mret, FW_ret in E5.
  destruct (runIptables _ _ [str "-N"; _] h) as [e1 h1] eqn:E1. destruct (runIptables _ _ [str "-F"; _] h1) as [e2 h2] eqn:E2.
  apply or_return_None in E5 as (h3 & E3 & E5).
  (* the chain is absent or empty before the rules are appended, INPUT as it was *)
  assert (Hs : (tables h2 name !! chain = None \/ tables h2 name !! chain = Some []) /\
               rules_of (tables h2 name) (str "INPUT") = rules_of (tables h name) (str "INPUT")).
  { assert (H1 : (tables h1 name !! chain = None \/ tables h1 name !! chain = Some []) /\
                 rules_of (tables h1 name) (str "INPUT") = rules_of (tables h name) (str "INPUT")).
    { destruct e1 as [e1|]; [rewrite (law_fail _ _ _ _ _ _ Ht E1); auto|].
      destruct (law_new _ _ _ _ _ Ht E1) as [_ ->]. unfold rules_of. rewrite lookup_insert_eq, lookup_insert_ne by done. auto. }
    destruct e2 as [e2|]; [by rewrite (law_fail _ _ _ _ _ _ Ht E2)|].
    destruct (law_flush _ _ _ _ _ Ht E2) as [_ ->]. unfold rules_of in *. rewrite lookup_insert_eq, lookup_insert_ne by done. naive_solver. }
  destruct Hs as [Hs Hi]. destruct (ensure_spec _ _ _ _ _ _ _ Ht E3) as [Ho3 [[Hin _]|(_ & rs & Ers & E3t)]]; [by rewrite Hi in Hin|].
  assert (H5 : (forall other, other <> name -> tables h5 other = tables h3 other) /\
               tables h5 name !! chain = tables h3 name !! chain /\ input_ok (tables h5 name)).
  { assert (Hi3 : rules_of (tables h3 name) (str "INPUT") = jump_rule :: rs) by (rewrite E3t; unfold rules_of; by rewrite lookup_insert_eq).
    destruct (fc_DropUDPKnockPort _) eqn:Ed.
    - destruct (ensure_spec _ _ _ _ _ _ _ Ht E5) as [Ho5 [[Hin Es]|(_ & rs5 & Ers5 & E5t)]].
      { exfalso. rewrite Hi3 in Hin. apply elem_of_cons in Hin as [Hin|Hin]; [discriminate Hin|].
        apply (Hu eq_refl). rewrite <- Hi. unfold rules_of. by rewrite Ers. }
      split; [done|]. rewrite E5t, lookup_insert_ne by done. split; [done|]. exists [udp_rule], rs. split; [|by right].
      unfold rules_of in *. rewrite lookup_insert_eq. rewrite Ers5 in Hi3. simpl in *. by subst.
    - injection E5 as <-. split; [done|]. split; [done|]. exists [], rs. auto. }
  destruct H5 as (Ho5 & Hc5 & pre & rest & Hin & Hpre).
  destruct (append_spec _ _ _ _ _ _ Ht E6) as (Ho6 & rs6 & Er6 & E6t). destruct (append_spec _ _ _ _ _ _ Ht E7) as (Ho7 & rs7 & Er7 & E7t).
  change (Iptables.chain i) with chain in E6t, Er6, E7t, Er7. assert (rs6 = []) as ->.
  { rewrite Hc5, E3t, lookup_insert_ne in Er6 by done. destruct Hs as [Hs|Hs]; rewrite Hs in Er6; congruence. }
  rewrite E6t, lookup_insert_eq in Er7. injection Er7 as <-. split; [|split].
  - intros o Hne. rewrite Ho7, Ho6, Ho5, Ho3 by done.
    by rewrite (law_other _ _ _ _ _ _ _ Ht E2 Hne), (law_other _ _ _ _ _ _ _ Ht E1 Hne).
  - by rewrite E7t, lookup_insert_eq.
  - exists pre, rest. split; [|done]. unfold rules_of in *. by rewrite E7t, lookup_insert_ne, E6t, lookup_insert_ne by done.
Qed.

(** ** The state the operations keep *)

Definition tool_of (ipv6 : bool) : bytes := if ipv6 then str "ip6tables" else str "iptables".

Lemma tool_of_tool f : tool (tool_of f).
Proof. destruct f; [apply tool_v6|apply tool_v4]. Qed.

Lemma tool_of_ne f g : f <> g -> tool_of f <> tool_of g.
Proof. by destruct f, g. Qed.

(** The rule that accepts a source, by the text of its address. *)
Definition accept (src : bytes) : list bytes :=
  [str "-s"; src; str "-p"; str "tcp"; str "--dport"; itoa port; str "-j"; str "ACCEPT"].

(** The table of one tool while the sources [l] are let in. *)
Record installed (t : ruleset) (l : list bytes) : Prop := {
  in_chain : t !! chain = Some (map accept l ++ chain_end);
  in_input : input_ok t;
  in_nodup : NoDup l;
}.

Lemma accept_inj a b : accept a = accept b -> a = b.
Proof. by intros [= ->]. Qed.

Lemma accept_in a l : accept a ∈ map accept l ++ chain_end <-> a ∈ l.
Proof.
  rewrite elem_of_app. split.
  - intros [Hin|Hin].
    + apply list_elem_of_fmap in Hin as (b & E & Hb). by apply accept_inj in E as ->.
    + unfold chain_end in Hin. apply elem_of_cons in Hin as [E|Hin]; [discriminate E|].
      apply elem_of_cons in Hin as [E|Hin]; [discriminate E|]. by apply not_elem_of_nil in Hin.
  - intros Hin. left. apply list_elem_of_fmap. eauto.
Qed.

Lemma first_split_unique {A} (x : A) l1 l2 k1 k2 : l1 ++ x :: l2 = k1 ++ x :: k2 -> x ∉ l1 -> x ∉ k1 -> l1 = k1 /\ l2 = k2.
Proof.
  revert k1. induction l1 as [|a l1 IH]; intros [|b k1] E Hl Hk; simpl in E; [by injection E|..].
  - injection E as <- _. by destruct Hk; left.
  - injection E as -> _. by destruct Hl; left.
  - injection E as -> E. rewrite not_elem_of_cons in Hl, Hk. destruct (IH _ E) as [-> ->]; naive_solver.
Qed.

Lemma chain_not_input : validateIptablesConfig (mkIptablesConfig chain) = None -> isReservedIptablesChain chain = false \/ chain = [].
Proof.
  unfold validateIptablesConfig. cbn. case_bool_decide; [by right|]. left.
  destruct (validateFirewallObjectName _ _); [done|]. by destruct (isReservedIptablesChain chain).
Qed.

(** A chain whose name is not reserved is none of the targets here. *)
Lemma chain_names : validateIptablesConfig (mkIptablesConfig chain) = None ->
  chain <> str "INPUT" /\ chain <> str "ACCEPT" /\ chain <> str "DROP".
Proof. intros [Hr|Hr]%chain_not_input; split_and!; intros E; rewrite E in Hr; discriminate Hr. Qed.

Lemma Init_installed ctx h h' : few_leftovers h (str "iptables") -> (v6 = true -> few_leftovers h (str "ip6tables")) ->
  Iptables.Init i ctx h = (None, h') ->
  validateIptablesConfig (mkIptablesConfig chain) = None /\
  forall f, f = false \/ v6 = true -> installed (tables h' (tool_of f)) [].
Proof.
  intros F4 F6. unfold Iptables.Init. fold chain. destruct (validateIptablesConfig _) eqn:Ev; [done|]. intros E.
  destruct (chain_names Ev) as [Hc _]. split; [done|]. pose proof tool_v4 as T4. pose proof tool_v6 as T6.
  apply or_return_None in E as (h1 & E1 & E). destruct (cleanup_ok _ _ _ _ T4 Hc F4 E1) as (O1 & C1 & J1 & U1).
  apply or_cleanup_None in E as (h2 & E2 & E). destruct (init_ok _ _ _ _ T4 Hc C1 J1 U1 E2) as (O2 & C2 & I2).
  unfold mbind at 1, FW_bind at 1 in E. destruct (Hv6 h2) as (h3 & E3 & T3). rewrite E3 in E.
  assert (Hne : str "ip6tables" <> str "iptables") by done.
  destruct v6.
  - apply or_cleanup_None in E as (h4 & E4 & E). apply or_cleanup_None in E as (h5 & E5 & E). injection E as <-.
    assert (F3 : few_leftovers h3 (str "ip6tables")).
    { unfold few_leftovers. rewrite T3, (O2 _ Hne), (O1 _ Hne). by apply F6. }
    destruct (cleanup_ok _ _ _ _ T6 Hc F3 E4) as (O4 & C4 & J4 & U4).
    destruct (init_ok _ _ _ _ T6 Hc C4 J4 U4 E5) as (O5 & C5 & I5).
    assert (Es : tables h5 (str "iptables") = tables h2 (str "iptables")) by (by rewrite O5, O4, T3).
    intros [] _; unfold tool_of; [|rewrite Es]; by constructor; [..|constructor].
  - injection E as <-. intros f [->|]; [|done]. unfold tool_of. rewrite T3. by constructor; [..|constructor].
Qed.

(** The sources let in, per family, after an operation that returned [r]. *)
Definition access_step (o : fw_op) (r : option error) (s : gset (bool * bytes)) : gset (bool * bytes) :=
  match o, r with
  | OpAllow _ addr _ _, None => {[(needs_ipv6 addr, Addr_String addr)]} ∪ s
  | OpRevoke _ addr _, None => s ∖ {[(needs_ipv6 addr, Addr_String addr)]}
  | _, _ => s
  end.

Definition access_inv (h : H) (s : gset (bool * bytes)) : Prop :=
  forall f, f = false \/ v6 = true -> exists l, installed (tables h (tool_of f)) l /\ forall a, a ∈ l <-> (f, a) ∈ s.

Lemma bound_port got : validateBoundFirewallPort Iptables.Name port got = None -> got = port.
Proof.
  unfold validateBoundFirewallPort. destruct (validateFirewallPort _ _); [done|]. destruct (Z.eqb_spec got port); [done|discriminate].
Qed.

Lemma access_same h h' s : (forall name, tables h' name = tables h name) -> access_inv h s -> access_inv h' s.
Proof. intros E Hi f Hf. rewrite E. by apply Hi. Qed.

(** One tool's table changes to the sources [l'], the set accordingly. *)
Lemma access_change h h' s f l' s' : access_inv h s ->
  (forall other, other <> tool_of f -> tables h' other = tables h other) -> installed (tables h' (tool_of f)) l' ->
  (forall a, a ∈ l' <-> (f, a) ∈ s') -> (forall g a, g <> f -> (g, a) ∈ s <-> (g, a) ∈ s') -> access_inv h' s'.
Proof.
  intros Hi Ho Hl Hs Hn g Hg. destruct (decide (g = f)) as [->|Hgf]; [eauto|].
  destruct (Hi g Hg) as (l & Hgl & Hga). exists l. rewrite Ho by (by apply tool_of_ne). split; [done|].
  intros a. rewrite Hga. by apply Hn.
Qed.

Lemma installed_update t l l' : chain <> str "INPUT" -> installed t l -> NoDup l' ->
  installed (<[chain := map accept l' ++ chain_end]> t) l'.
Proof.
  intros Hc [_ (pre & rest & Hi & Hp) _] Hd. split; [apply lookup_insert_eq|..|done].
  exists pre, rest. split; [|done]. unfold rules_of in *. by rewrite lookup_insert_ne.
Qed.

Lemma allow_tool ctx f addr h r h' s : chain <> str "INPUT" -> f = needs_ipv6 addr -> f = false \/ v6 = true -> access_inv h s ->
  ensure_first ctx (tool_of f) chain (accept (Addr_String addr)) h = (r, h') ->
  access_inv h' (access_step (OpAllow ctx addr port 0) r s).
Proof.
  intros Hc Ef Hf Hi E. destruct (Hi f Hf) as (l & Hl & Hla). pose proof (in_chain _ _ Hl) as Hch.
  destruct (ensure_spec _ _ _ _ _ _ _ (tool_of_tool f) E) as [Ho Hr]. cbn. rewrite <- Ef. destruct r as [e|].
  - eapply access_change; [done..|by rewrite Hr|done|done].
  - unfold rules_of in Hr. rewrite Hch in Hr. cbn [default] in Hr. unfold id in Hr. rewrite accept_in in Hr.
    destruct Hr as [[Hin Hs]|(Hn & rs & Ers & Es)].
    + eapply access_change; [done..|by rewrite Hs|set_solver|set_solver].
    + injection Ers as <-. eapply (access_change _ _ _ _ (Addr_String addr :: l)); [done..|rewrite Es|set_solver|set_solver].
      eapply (installed_update _ l (_ :: l)); [done..|by constructor; [|eapply in_nodup]].
Qed.

Lemma revoke_tool ctx f addr h r h' s : chain <> str "INPUT" -> f = needs_ipv6 addr -> f = false \/ v6 = true -> access_inv h s ->
  tolerated (runIptables ctx (tool_of f) ([str "-D"; chain] ++ accept (Addr_String addr))) h = (r, h') ->
  access_inv h' (access_step (OpRevoke ctx addr port) r s).
Proof.
  intros Hc Ef Hf Hi E. destruct (Hi f Hf) as (l & Hl & Hla). pose proof (in_chain _ _ Hl) as Hch. pose proof (tool_of_tool f) as Ht.
  unfold tolerated, mbind, FW_bind, mret, FW_ret in E. destruct (runIptables _ _ _ h) as [e h1] eqn:Er. injection E as <- <-.
  assert (Ho : forall other, other <> tool_of f -> tables h1 other = tables h other) by (intros; by eapply law_other).
  cbn. rewrite <- Ef. destruct e as [e|].
  - pose proof (law_fail _ _ _ _ _ _ Ht Er) as Hs. destruct (ignoreMissingFirewallObject _) eqn:Ei.
    + eapply access_change; [done..|by rewrite Hs|done|done].
    + apply ignored_None in Ei as [|Em]; [done|]. pose proof (law_delete_missing _ _ _ _ _ _ _ Ht Er Em) as Hn.
      unfold rules_of in Hn. rewrite Hch in Hn. cbn [default] in Hn. unfold id in Hn. rewrite accept_in in Hn.
      eapply access_change; [done..|by rewrite Hs|set_solver|set_solver].
  - destruct (law_delete _ _ _ _ _ _ Ht Er) as (l1 & l2 & El & Hn & Es). rewrite Hch in El. injection El as El.
    assert (Hin : Addr_String addr ∈ l) by (apply accept_in; rewrite El; set_solver).
    apply list_elem_of_split in Hin as (k1 & k2 & ->). pose proof (in_nodup _ _ Hl) as Hd.
    apply NoDup_app in Hd as (Hd1 & Hd2 & [Hd3 Hd4]%NoDup_cons).
    rewrite map_app, <- app_assoc in El. cbn [map app] in El.
    destruct (first_split_unique _ _ _ _ _ El) as [<- <-]; [|done|].
    { intros (b & Eb & Hb)%list_elem_of_fmap. apply accept_inj in Eb as <-. by apply (Hd2 _ Hb); left. }
    rewrite app_assoc, <- map_app in Es.
    eapply (access_change _ _ _ _ (k1 ++ k2)); [done..|rewrite Es|set_solver|set_solver].
    eapply installed_update; [done..|]. apply NoDup_app. split; [done|]. split; [|done]. set_solver.
Qed.

(** The operations on single addresses. *)
Definition on_address (o : fw_op) : Prop := match o with OpAllow _ _ _ _ | OpRevoke _ _ _ => True | _ => False end.

Lemma access_perform o h r h' s : chain <> str "INPUT" -> on_address o -> access_inv h s ->
  perform (BIptables i) o h = (r, h') -> access_inv h' (access_step o r s).
Proof.
  intros Hc Ho Hi. destruct o as [|ctx addr got ttl|ctx addr got|]; [done|..|done]; cbn [perform Allow Revoke].
  - unfold Iptables.Allow. fold port. destruct (validateBoundFirewallPort _ _ _) eqn:Ep; [by intros [= <- <-]|].
    apply bound_port in Ep as ->. unfold Iptables.for_family, mbind, FW_bind, mret, FW_ret.
    destruct (needs_ipv6 addr) eqn:En.
    + destruct (Hv6 h) as (h1 & E1 & T1). rewrite E1.
      destruct (sumbool_of_bool v6) as [Ev|Ev]; rewrite Ev; [|intros [= <- <-]; by eapply access_same].
      apply (allow_tool ctx true); [done|done|by right|by eapply access_same].
    + apply (allow_tool ctx false); [done|done|by left|done].
  - unfold Iptables.Revoke. fold port. destruct (validateBoundFirewallPort _ _ _) eqn:Ep; [by intros [= <- <-]|].
    apply bound_port in Ep as ->. unfold Iptables.for_family, mbind, FW_bind, mret, FW_ret.
    destruct (needs_ipv6 addr) eqn:En.
    + destruct (Hv6 h) as (h1 & E1 & T1). rewrite E1. destruct (sumbool_of_bool v6) as [Ev|Ev]; rewrite Ev.
      * apply (revoke_tool ctx true); [done|done|by right|by eapply access_same].
      * intros [= <- <-]. intros f [->|Ev']; [|by rewrite Ev in Ev']. destruct (Hi false (or_introl eq_refl)) as (l & Hl & Hla). exists l. rewrite T1.
        split; [done|]. intros a. rewrite Hla. cbn. rewrite En. set_solver.
    + apply (revoke_tool ctx false); [done|done|by left|done].
Qed.

Fixpoint perform_all (ops : list fw_op) (h : H) : list (option error) * H :=
  match ops with
  | [] => ([], h)
  | o :: ops => let '(r, h) := perform (BIptables i) o h in let '(rs, h) := perform_all ops h in (r :: rs, h)
  end.

Definition access (ops : list fw_op) (rs : list (option error)) (s : gset (bool * bytes)) : gset (bool * bytes) :=
  fold_left (fun s '(o, r) => access_step o r s) (zip ops rs) s.

Lemma access_run ops : forall h rs h' s, chain <> str "INPUT" -> Forall on_address ops -> access_inv h s ->
  perform_all ops h = (rs, h') -> access_inv h' (access ops rs s).
Proof.
  induction ops as [|o ops IH]; intros h rs h' s Hc Ho Hi E; simpl in E; [by injection E as <- <-|].
  destruct (perform _ o h) as [r h1] eqn:E1. destruct (perform_all ops h1) as [rs1 h2] eqn:E2. injection E as <- <-.
  apply Forall_cons in Ho as [Ho Hos]. eapply (IH h1); [done..|by eapply access_perform|done].
Qed.

(** A new connection to the protected port. *)
Definition new_connection (addr : netip_Addr) : packet := mkPacket (Addr_String addr) (str "tcp") (itoa port) false.

Lemma matches_accept a p : matches (accept a) p
  = bool_decide (a = pk_src p) && (bool_decide (str "tcp" = pk_proto p) && (bool_decide (itoa port = pk_dport p) && true)).
Proof. reflexivity. Qed.

Lemma matches_port tgt p : matches [str "-p"; str "tcp"; str "--dport"; itoa port; str "-j"; tgt] p
  = bool_decide (str "tcp" = pk_proto p) && (bool_decide (itoa port = pk_dport p) && true).
Proof. reflexivity. Qed.

Lemma matches_established p : matches established_rule p = pk_established p && true.
Proof. reflexivity. Qed.

(** One rule whose target accepts or drops. *)
Lemma verdict_cons depth t p rule rules : verdict depth t p (rule :: rules)
  = if matches rule p then
      if bool_decide (target rule = str "ACCEPT") then Some true
      else if bool_decide (target rule = str "DROP") then Some false
      else match depth with
           | O => verdict depth t p rules
           | S d => match verdict d t p (rules_of t (target rule)) with Some v => Some v | None => verdict depth t p rules end
           end
    else verdict depth t p rules.
Proof. by destruct depth. Qed.

Lemma verdict_accepts depth t addr l :
  verdict depth t (new_connection addr) (map accept l ++ chain_end) = Some (bool_decide (Addr_String addr ∈ l)).
Proof.
  induction l as [|a l IH]; cbn [map app].
  - unfold chain_end, drop_rule. rewrite !verdict_cons, matches_established, matches_port. cbn [pk_established new_connection andb pk_proto pk_dport].
    rewrite !bool_decide_eq_true_2 by done. reflexivity.
  - rewrite verdict_cons, matches_accept, IH. cbn [new_connection pk_src pk_proto pk_dport].
    rewrite (bool_decide_eq_true_2 (str "tcp" = _)), (bool_decide_eq_true_2 (itoa port = _)), andb_true_r by done.
    rewrite (bool_decide_eq_true_2 (target (accept a) = _)) by done.
    destruct (decide (a = Addr_String addr)) as [->|E].
    { rewrite (bool_decide_eq_true_2 (Addr_String addr = _)) by done. by rewrite bool_decide_eq_true_2 by left. }
    rewrite (bool_decide_eq_false_2 (a = _)) by done. f_equal. apply bool_decide_ext. rewrite elem_of_cons. naive_solver.
Qed.

Lemma verdict_installed depth t addr l : validateIptablesConfig (mkIptablesConfig chain) = None -> installed t l ->
  verdict (S depth) t (new_connection addr) (rules_of t (str "INPUT")) = Some (bool_decide (Addr_String addr ∈ l)).
Proof.
  intros Hv Hl. destruct (chain_names Hv) as (_ & Ha & Hd). destruct (in_input _ _ Hl) as (pre & rest & -> & Hpre).
  assert (Hj : verdict (S depth) t (new_connection addr) (jump_rule :: rest) = Some (bool_decide (Addr_String addr ∈ l))).
  { unfold jump_rule. rewrite verdict_cons, matches_port. cbn [new_connection pk_proto pk_dport target last default].
    unfold id. rewrite !bool_decide_eq_true_2 by done. cbn [andb]. rewrite !bool_decide_eq_false_2 by done.
    unfold rules_of. rewrite (in_chain _ _ Hl). cbn [default]. unfold id. by rewrite verdict_accepts. }
  destruct Hpre as [->| ->]; [done|]. cbn [app]. rewrite <- Hj. reflexivity.
Qed.

End Access.

(** Property C21. With iptables that behaves as its manual says, and fewer
    leftovers of an earlier run than a cleanup removes: once [Init] has returned
    no error, after any sequence of [Allow] and [Revoke] calls the packet filter
    accepts a new connection to the protected port exactly when its source was
    allowed, by a call that returned no error, and not revoked since; every
    other source is dropped. For IPv6 sources this holds when IPv6 is enabled. *)
Theorem iptables_access_exact {H} `{Host H} (tables : H -> bytes -> ruleset) `{!IptablesLaws H tables}
    (i : Iptables.t) (v6 : bool) (ctx : Ctx) (h h1 h2 : H) (ops : list fw_op) (rs : list (option error)) (addr : netip_Addr) (depth : nat) :
  (forall h, exists h', ipv6Enabled (Iptables.cfg i) Iptables.Name h = (v6, h') /\ forall name, tables h' name = tables h name) ->
  few_leftovers tables i h (str "iptables") -> (v6 = true -> few_leftovers tables i h (str "ip6tables")) ->
  Iptables.Init i ctx h = (None, h1) ->
  Forall on_address ops -> perform_all i ops h1 = (rs, h2) ->
  needs_ipv6 addr = false \/ v6 = true ->
  let t := tables h2 (tool_of (needs_ipv6 addr)) in
  verdict (S depth) t (new_connection i addr) (rules_of t (str "INPUT"))
  = Some (bool_decide ((needs_ipv6 addr, Addr_String addr) ∈ access ops rs ∅)).
Proof.
  intros Hv6 F4 F6 E1 Ho E2 Hf t. destruct (Init_installed tables i v6 Hv6 ctx h h1 F4 F6 E1) as [Hv Hi].
  destruct (chain_names i Hv) as [Hc _].
  assert (He : access_inv tables i v6 h1 ∅). { intros f Hff. exists []. split; [by apply Hi|]. set_solver. }
  pose proof (access_run tables i v6 Hv6 ops h1 rs h2 ∅ Hc Ho He E2) as Hr.
  destruct (Hr _ Hf) as (l & Hl & Hla). subst t. rewrite (verdict_installed i depth _ addr l Hv Hl). f_equal.
  by apply bool_decide_ext.
Qed.

(** Deletes in INPUT leave every other chain. *)
Lemma delete_all_keeps {H} `{Host H} (tables : H -> bytes -> ruleset) `{!IptablesLaws H tables} ctx name rule c n err :
  tool name -> c <> str "INPUT" -> forall h r h',
  delete_all n (runIptables ctx name ([str "-D"; str "INPUT"] ++ rule)) err h = (r, h') -> tables h' name !! c = tables h name !! c.
Proof.
  intros Ht Hc. induction n as [|n IH]; intros h r h'; cbn [delete_all]; unfold mbind, FW_bind, mret, FW_ret; [by intros [= _ <-]|].
  destruct (runIptables ctx name _ h) as [[e|] h1] eqn:Er.
  - intros [= _ <-]. by rewrite (law_fail _ _ _ _ _ _ Ht Er).
  - intros E. rewrite (IH _ _ _ E). destruct (law_delete _ _ _ _ _ _ Ht Er) as (l1 & l2 & _ & _ & ->). by rewrite lookup_insert_ne.
Qed.

Lemma join_Some_r err e : exists e', errors_Join err (Some e) = Some e'.
Proof. destruct err; cbn; eauto. Qed.

(** When iptables answers the flush of a chain that does not exist
    with "No chain/target/match by that name", [Init] fails on every host where
    the chain of the backend is not there yet: the error is not taken for a
    missing object, and the cleanup before the set-up reports it. *)
Theorem iptables_first_init_fails {H} `{Host H} (tables : H -> bytes -> ruleset) `{!IptablesLaws H tables} (i : Iptables.t) (ctx : Ctx) (h : H) :
  (forall h chain, tables h (str "iptables") !! chain = None -> exists text h',
     runIptables ctx (str "iptables") [str "-F"; chain] h = (Some text, h') /\
     Contains (ToLower text) (str "no chain/target/match by that name") = true) ->
  tables h (str "iptables") !! Iptables.chain i = None ->
  exists e h', Iptables.Init i ctx h = (Some e, h').
Proof.
  intros Hf Hn. unfold Iptables.Init. destruct (validateIptablesConfig _) eqn:Ev; [by eexists _, _|].
  destruct (chain_names i Ev) as [Hc _]. pose proof tool_v4 as Ht.
  unfold or_return, Iptables.cleanupCommand, cleanupIptablesRules, joined, tolerated, mbind, FW_bind, mret, FW_ret.
  set (udp := if fc_DropUDPKnockPort _ then _ else _). destruct (udp h) as [e0 h0] eqn:E0.
  assert (H0n : tables h0 (str "iptables") !! Iptables.chain i = None).
  { rewrite <- Hn. subst udp. destruct (fc_DropUDPKnockPort _); [by eapply delete_all_keeps|by injection E0 as _ <-]. }
  destruct (delete_all _ _ e0 h0) as [e1 h1] eqn:E1. rewrite <- (delete_all_keeps tables _ _ _ _ _ _ Ht Hc _ _ _ E1) in H0n.
  destruct (Hf _ _ H0n) as (text & h2 & E2 & Hm). rewrite E2.
  assert (ignoreMissingFirewallObject (Some text) = Some (EMsg text)) as ->.
  { unfold ignoreMissingFirewallObject, isMissingFirewallObject. by rewrite Hm. }
  destruct (runIptables _ _ [str "-X"; _] h2) as [e3 h3]. destruct (join_Some_r e1 (EMsg text)) as [e' ->].
  destruct (ignoreMissingFirewallObject e3); by eexists _, _.
Qed.

(** * A host for examples *)

(** A small iptables: two tables and the commands above, and what it says of a
    chain that is missing. *)
Record toy (says : bytes) := mkToy { toy_v4 : ruleset; toy_v6 : ruleset }.
Arguments mkToy {says} _ _.
Arguments toy_v4 {says} _.
Arguments toy_v6 {says} _.

Definition bad_rule : bytes := str "Bad rule (does a matching rule exist in that chain?)".

Fixpoint remove_first (rule : list bytes) (l : list (list bytes)) : list (list bytes) :=
  match l with [] => [] | r :: l => if bool_decide (r = rule) then l else r :: remove_first rule l end.

Definition toy_exec (no_chain : bytes) (args : list bytes) (t : ruleset) : option bytes * ruleset :=
  match args with
  | _ :: _ :: verb :: chain :: rest =>
      let rs := rules_of t chain in
      let on_chain (t' : ruleset) := if t !! chain is Some _ then (None, t') else (Some no_chain, t) in
      if bool_decide (verb = str "-C") then (if bool_decide (rest ∈ rs) then None else Some bad_rule, t)
      else if bool_decide (verb = str "-I") then on_chain (<[chain := tail rest :: rs]> t)
      else if bool_decide (verb = str "-A") then on_chain (<[chain := rs ++ [rest]]> t)
      else if bool_decide (verb = str "-D")
      then if bool_decide (rest ∈ rs) then (None, <[chain := remove_first rest rs]> t) else (Some bad_rule, t)
      else if bool_decide (verb = str "-N") then if t !! chain is Some _ then (Some (str "Chain already exists."), t) else (None, <[chain := []]> t)
      else if bool_decide (verb = str "-F") then on_chain (<[chain := []]> t)
      else if bool_decide (verb = str "-X") then on_chain (delete chain t)
      else (Some (str "unknown command"), t)
  | _ => (None, t)
  end.

#[export] Instance toy_host says : Host (toy says) := {|
  Run ctx name args h :=
    if bool_decide (name = str "iptables") then let '(r, t) := toy_exec says args (toy_v4 h) in (r, mkToy t (toy_v6 h))
    else if bool_decide (name = str "ip6tables") then let '(r, t) := toy_exec says args (toy_v6 h) in (r, mkToy (toy_v4 h) t)
    else (None, h);
  RunInput _ _ _ _ h := (None, h);
  LookPath name _ := Some name;
  GOOS _ := str "linux";
  range_order l _ := l;
|}.

#[export] Instance toy_host_laws says : HostLaws (toy says).
Proof. by intros l h. Qed.

Definition toy_tables {says} (h : toy says) (name : bytes) : ruleset :=
  if bool_decide (name = str "iptables") then toy_v4 h else if bool_decide (name = str "ip6tables") then toy_v6 h else ∅.

Lemma toy_run {says} ctx name args (h : toy says) r h' : tool name -> runIptables ctx name args h = (r, h') ->
  toy_exec says ([str "-w"; str "5"] ++ args) (toy_tables h name) = (r, toy_tables h' name) /\
  forall other, other <> name -> toy_tables h' other = toy_tables h other.
Proof.
  intros Ht. unfold runIptables, Run, toy_host, toy_tables.
  apply elem_of_cons in Ht as [->|Ht%list_elem_of_singleton]; [|subst name].
  - rewrite bool_decide_eq_true_2 by done. destruct (toy_exec _ _ _) as [r1 t1]. intros [= <- <-].
    split; [done|]. intros other Hn. by rewrite bool_decide_eq_false_2.
  - rewrite (bool_decide_eq_false_2 (str "ip6tables" = str "iptables")), bool_decide_eq_true_2 by done.
    destruct (toy_exec _ _ _) as [r1 t1]. intros [= <- <-].
    split; [done|]. intros other Hn. rewrite !(bool_decide_eq_false_2 (other = str "ip6tables")) by done. done.
Qed.

Lemma remove_first_split rule l : rule ∈ l -> exists l1 l2, l = l1 ++ rule :: l2 /\ (rule ∉ l1) /\ remove_first rule l = l1 ++ l2.
Proof.
  induction l as [|r l IH]; [by intros ?%not_elem_of_nil|]. intros Hin. cbn [remove_first]. case_bool_decide as E.
  - subst r. exists [], l. split_and!; [done|apply not_elem_of_nil|done].
  - apply elem_of_cons in Hin as [->|Hin]; [done|]. destruct (IH Hin) as (l1 & l2 & -> & Hn & ->).
    exists (r :: l1), l2. split_and!; [done|by apply not_elem_of_cons|done].
Qed.

Section ToyCommands.
Context (no_chain chain : bytes) (rule : list bytes) (t : ruleset).
Let pre := [str "-w"; str "5"].

Lemma toy_check : toy_exec no_chain (pre ++ [str "-C"; chain] ++ rule) t = (if bool_decide (rule ∈ rules_of t chain) then None else Some bad_rule, t).
Proof. reflexivity. Qed.
Lemma toy_insert : toy_exec no_chain (pre ++ [str "-I"; chain; str "1"] ++ rule) t
  = if t !! chain is Some _ then (None, <[chain := rule :: rules_of t chain]> t) else (Some no_chain, t).
Proof. reflexivity. Qed.
Lemma toy_append : toy_exec no_chain (pre ++ [str "-A"; chain] ++ rule) t
  = if t !! chain is Some _ then (None, <[chain := rules_of t chain ++ [rule]]> t) else (Some no_chain, t).
Proof. reflexivity. Qed.
Lemma toy_delete : toy_exec no_chain (pre ++ [str "-D"; chain] ++ rule) t
  = if bool_decide (rule ∈ rules_of t chain) then (None, <[chain := remove_first rule (rules_of t chain)]> t) else (Some bad_rule, t).
Proof. reflexivity. Qed.
Lemma toy_new : toy_exec no_chain (pre ++ [str "-N"; chain]) t
  = if t !! chain is Some _ then (Some (str "Chain already exists."), t) else (None, <[chain := []]> t).
Proof. reflexivity. Qed.
Lemma toy_flush : toy_exec no_chain (pre ++ [str "-F"; chain]) t = if t !! chain is Some _ then (None, <[chain := []]> t) else (Some no_chain, t).
Proof. reflexivity. Qed.
Lemma toy_remove : toy_exec no_chain (pre ++ [str "-X"; chain]) t = if t !! chain is Some _ then (None, delete chain t) else (Some no_chain, t).
Proof. reflexivity. Qed.

End ToyCommands.

#[export] Instance toy_laws says : IptablesLaws (toy says) toy_tables.
Proof.
  split; intros ctx name; intros *; intros Ht E; destruct (toy_run _ _ _ _ _ _ Ht E) as [Ee Ho].
  - by apply Ho.
  - revert Ee. generalize (toy_tables h name) as t. intros t. destruct args as [|verb [|chain rest]]; [done..|].
    cbn [toy_exec app]. destruct (t !! chain); repeat case_bool_decide; intros Ee; by simplify_eq.
  - rewrite toy_check in Ee. injection Ee as <- <-. split; [done|]. case_bool_decide; naive_solver.
  - rewrite toy_insert in Ee. unfold rules_of in Ee. destruct (toy_tables h name !! chain) as [rs|]; [|done]. injection Ee as <-. eauto.
  - rewrite toy_append in Ee. unfold rules_of in Ee. destruct (toy_tables h name !! chain) as [rs|]; [|done]. injection Ee as <-. eauto.
  - rewrite toy_delete in Ee. case_bool_decide as Hin; [|done]. injection Ee as <-.
    destruct (remove_first_split _ _ Hin) as (l1 & l2 & El & Hn & ->). exists l1, l2. split_and!; [|done|done].
    unfold rules_of in *. destruct (toy_tables h name !! chain); simpl in *; [by subst|by destruct l1].
  - intros _. rewrite toy_delete in Ee. by case_bool_decide.
  - rewrite toy_new in Ee. destruct (toy_tables h name !! chain); [done|]. by injection Ee as <-.
  - rewrite toy_flush in Ee. destruct (toy_tables h name !! chain); [|done]. by injection Ee as <-.
  - rewrite toy_remove in Ee. destruct (toy_tables h name !! chain); [|done]. by injection Ee as <-.
  - intros _. rewrite toy_remove in Ee. by destruct (toy_tables h name !! chain).
Qed.

(** A host that has only an INPUT chain with one rule, and a backend with both
    families and the knock port dropped. *)
Definition no_chain : bytes := str "Chain does not exist".
Definition ex_toy {says} : toy says :=
  mkToy {[ str "INPUT" := [[str "-p"; str "icmp"; str "-j"; str "ACCEPT"]] ]} {[ str "INPUT" := [] ]}.

Definition ex_fw_config : Config :=
  mkConfig (str "iptables") 22 0 0 false true 0 (Some true) (mkNftablesConfig [] [] [] [] []) (mkIptablesConfig [])
    (mkIPSetConfig [] []) (mkScriptConfig [] [] []).

Definition ex_iptables : Iptables.t := Iptables.NewIptables ex_fw_config.

Definition ex_a : netip_Addr := Addr4 [Byte.x0a; Byte.x00; Byte.x00; Byte.x01].
Definition ex_b : netip_Addr := Addr4 [Byte.x0a; Byte.x00; Byte.x00; Byte.x02].

Definition ex_ops : list fw_op := [OpAllow Serving ex_a 22 Second; OpAllow Serving ex_b 22 Second; OpRevoke Serving ex_a 22; OpAllow Serving ex_a 23 Second].


Lemma iptables_access_exact_witness :
  let h1 := snd (Iptables.Init ex_iptables Serving (ex_toy (says := no_chain))) in
  let '(rs, h2) := perform_all ex_iptables ex_ops h1 in
  let open addr := verdict 1 (toy_v4 h2) (new_connection ex_iptables addr) (rules_of (toy_v4 h2) (str "INPUT")) in
  open ex_a = Some false /\ open ex_b = Some true.
Proof.
  cbv zeta. destruct (perform_all ex_iptables ex_ops (snd (Iptables.Init ex_iptables Serving (ex_toy (says := no_chain))))) as [rs h2] eqn:E.
  assert (Hrs : rs = fst (perform_all ex_iptables ex_ops (snd (Iptables.Init ex_iptables Serving (ex_toy (says := no_chain)))))) by (by rewrite E).
  assert (Ha : forall addr, needs_ipv6 addr = false ->
    verdict 1 (toy_v4 h2) (new_connection ex_iptables addr) (rules_of (toy_v4 h2) (str "INPUT"))
    = Some (bool_decide ((needs_ipv6 addr, Addr_String addr) ∈ access ex_ops rs ∅))).
  { intros addr Hn. replace (toy_v4 h2) with (toy_tables h2 (tool_of (needs_ipv6 addr))) by (by rewrite Hn).
    eapply (iptables_access_exact toy_tables ex_iptables true Serving ex_toy _ h2 ex_ops rs addr 0).
    - intros h. exists h. split; reflexivity.
    - split; vm_compute; lia.
    - intros _. split; vm_compute; lia.
    - rewrite (surjective_pairing (Iptables.Init _ _ _)). f_equal.
    - repeat constructor.
    - exact E.
    - by left. }
  split; (rewrite Ha by reflexivity); rewrite Hrs; vm_compute; reflexivity.
Defined.

(** The same host with the answer of iptables for a missing chain. *)
Definition missing_chain : bytes := str "iptables: No chain/target/match by that name.".

Lemma iptables_first_init_fails_witness : exists e h', Iptables.Init ex_iptables Serving (ex_toy (says := missing_chain)) = (Some e, h').
Proof.
  apply (iptables_first_init_fails toy_tables); [|reflexivity].
  intros h chain Hn. exists missing_chain, h. split; [|reflexivity]. unfold runIptables, Run, toy_host.
  rewrite bool_decide_eq_true_2 by reflexivity. rewrite toy_flush. unfold toy_tables in Hn. rewrite bool_decide_eq_true_2 in Hn by reflexivity.
  rewrite Hn. by destruct h.
Defined.
