(* ===== verification/Gateway.v ===== *)
(** The gateways: relay/knock.go, relay/auth.go ([removeKnockAccess]), the knock
    handlers of gate/gate.go and the firewall helpers of internal/gatewaycore.

    A gateway turns an accepted knock into a firewall opening, a lease in the
    session store, a knock session and a timer that takes them back. The
    handler runs on the listener's goroutine, the timers and the connections on
    goroutines of their own: the state machine [gstep] at the end interleaves
    their steps, split where one goroutine can be overtaken by another. *)

From Stdlib Require Import ZArith Lia String.
From Stdlib Require Strings.Byte.
From stdpp Require Import base list gmap strings.
From S2P Require Import Prelude GoStd Cache Net AuthTypes AuthServer Session Packet KnockListen Firewall.

Open Scope Z_scope.

(** * The firewall a gateway uses *)

(** The methods of a [firewall.Backend]. *)
Record firewall_ops (F : Type) := mkOps {
  fo_name : bytes;
  fo_Init : Ctx -> FW F (option error);
  fo_Allow : Ctx -> netip_Addr -> Z -> Z -> FW F (option error);
  fo_Revoke : Ctx -> netip_Addr -> Z -> FW F (option error);
  fo_Cleanup : Ctx -> FW F (option error);
}.
Arguments mkOps {F} _ _ _ _ _.
Arguments fo_name {F} _.
Arguments fo_Init {F} _ _.
Arguments fo_Allow {F} _ _ _ _ _.
Arguments fo_Revoke {F} _ _ _ _.
Arguments fo_Cleanup {F} _ _.

Definition backend_ops {H} `{Host H} (b : Backend) : firewall_ops H :=
  mkOps (Name b) (Init b) (Allow b) (Revoke b) (Cleanup b).

(** The addresses the gateways work with: well formed and not an IPv4 address
    in IPv6 clothes. *)
Definition plain (a : netip_Addr) : Prop := Addr_wf a /\ Unmap a = a /\ a <> AddrZero.

(** What a gateway relies on: an opening or a closing that returns no error has
    happened, one that returns an error has changed nothing. [fc_open] is the
    set of sources let in to [port], by the text of their address. *)
Class FirewallContract {F} (fw : firewall_ops F) (port : Z) := {
  fc_ok : F -> Prop;
  fc_open : F -> gset bytes;
  fc_allow ctx a ttl f r f' : fc_ok f -> plain a -> fo_Allow fw ctx a port ttl f = (r, f') ->
    fc_ok f' /\ fc_open f' = match r with None => {[Addr_String a]} ∪ fc_open f | Some _ => fc_open f end;
  fc_revoke ctx a f r f' : fc_ok f -> plain a -> fo_Revoke fw ctx a port f = (r, f') ->
    fc_ok f' /\ fc_open f' = match r with None => fc_open f ∖ {[Addr_String a]} | Some _ => fc_open f end;
}.

(** * The world of a gateway *)

(** What the gateway tells its event sink. *)
Inductive gw_event :=
| KnockOK (remote : netip_Addr) (clientID method : bytes) (parts ttl : Z)
| KnockFail (remote : option netip_Addr) (clientID reason : bytes) (err : option error)
| FirewallAllow (remote : netip_Addr) (port ttl : Z)
| FirewallError (remote : option netip_Addr) (port : Z) (err : error).

(** The session store with the calls made on it so far, the firewall, the
    events and the error [Close] will report. *)
Record world (F : Type) := mkWorld {
  w_store : option SessionStore; w_log : list (Session.op * Session.ret); w_fw : F; w_events : list gw_event; w_closeErr : option error;
}.
Arguments mkWorld {F} _ _ _ _ _.
Arguments w_store {F} _.
Arguments w_log {F} _.
Arguments w_fw {F} _.
Arguments w_events {F} _.
Arguments w_closeErr {F} _.

Inductive mode := Relay | KnockFirewallAuth | KnockFirewallOnly.

(** The fields of [relay.Gateway] and [gate.Config] the handlers read; [gw_port]
    is the protected port, [gw_Listen] the port in the listen address. *)
Record gateway := mkGateway { gw_mode : mode; gw_port : Z; gw_Listen : Z; gw_AllowTTL : Z; gw_MaxConnectionsPerKnock : Z }.

Definition firewallOnlyClientID : bytes := str "*".

Definition allow_ttl (g : gateway) : Z := if Z.leb (gw_AllowTTL g) 0 then Minute else gw_AllowTTL g.

(** The client under which a session is stored. *)
Definition store_client (g : gateway) (ev : Event) : bytes :=
  match gw_mode g with KnockFirewallOnly => firewallOnlyClientID | _ => ev_ClientID ev end.

(** A timer: when it is due, when its lease expires, and what it is about. *)
Record timer := mkTimer { tm_due : Z; tm_expires : Z; tm_remote : netip_Addr; tm_client : bytes; tm_lease : Z }.

Section Handlers.
Context {F : Type} (fw : firewall_ops F) (g : gateway).

Definition emit (e : gw_event) : FW (world F) unit := fun w =>
  (tt, mkWorld (w_store w) (w_log w) (w_fw w) (w_events w ++ [e]) (w_closeErr w)).

Definition on_fw {A} (m : FW F A) : FW (world F) A := fun w =>
  let '(a, f) := m (w_fw w) in (a, mkWorld (w_store w) (w_log w) f (w_events w) (w_closeErr w)).

(** A call on the session store. *)
Definition call_store (o : Session.op) : FW (world F) Session.ret := fun w =>
  let '(r, p) := Session.step o (w_store w) in
  (r, mkWorld p (w_log w ++ [(o, r)]) (w_fw w) (w_events w) (w_closeErr w)).

(** ** internal/gatewaycore/firewall.go *)

Definition ShouldManualRevoke : bool := negb (has_timeout (fo_name fw)).

Definition AllowFirewall (ctx : Ctx) (remote : netip_Addr) (port ttl : Z) : FW (world F) (option error) :=
  e ← on_fw (fo_Allow fw ctx remote port ttl);
  match e with
  | Some err => _ ← emit (FirewallError (Some remote) port err); mret (Some err)
  | None => _ ← emit (FirewallAllow remote port ttl); mret None
  end.

Definition revokeFirewall (ctx : Ctx) (remote : netip_Addr) (port : Z) : FW (world F) (option error) :=
  e ← on_fw (fo_Revoke fw ctx remote port);
  match e with
  | Some err => _ ← emit (FirewallError (Some remote) port err); mret (Some err)
  | None => mret None
  end.

Definition RevokeFirewall (ctx : Ctx) (remote : netip_Addr) (port : Z) : FW (world F) (option error) :=
  revokeFirewall ctx remote port.

Definition RevokeFirewallDetached (remote : netip_Addr) (port : Z) : FW (world F) (option error) :=
  revokeFirewall Detached remote port.

Definition CleanupFirewallDetached : FW (world F) (option error) := on_fw (fo_Cleanup fw Detached).

Definition InitFirewall (ctx : Ctx) : FW (world F) (option error) :=
  e ← on_fw (fo_Init fw ctx);
  match e with
  | None => mret None
  | Some err =>
      cleanupErr ← CleanupFirewallDetached;
      mret (errors_Join (Some (EWrap (str "initialize firewall backend " ++ fo_name fw ++ str ": ") err)) cleanupErr)
  end.

(** [gate.recordCleanupErr] *)
Definition recordCleanupErr (err : option error) : FW (world F) unit :=
  match err with
  | None => mret tt
  | Some e => fun w => (tt, mkWorld (w_store w) (w_log w) (w_fw w) (w_events w ++ [FirewallError None 0 e]) (errors_Join (w_closeErr w) (Some e)))
  end.

(** ** The knock handler *)

(** Up to the opening of the firewall: the source that was let in. *)
Definition knock_open (ctx : Ctx) (ev : Event) : FW (world F) (option netip_Addr) :=
  match AddrFromIP (ev_SourceIP ev) with
  | None => _ ← emit (KnockFail None (ev_ClientID ev) (str "invalid_source_ip") None); mret None
  | Some remote =>
      e ← AllowFirewall ctx remote (gw_port g) (allow_ttl g);
      match e with
      | Some err => _ ← emit (KnockFail (Some remote) (ev_ClientID ev) (str "firewall_allow_failed") (Some err)); mret None
      | None => mret (Some remote)
      end
  end.

(** The session of a knock: bound to the protected port, or, without
    authentication, for any client of the address. *)
Definition add_session (remote : netip_Addr) (ev : Event) (now : Z) : Session.op :=
  match gw_mode g with
  | KnockFirewallOnly => OAdd remote firewallOnlyClientID [] 0 (allow_ttl g) (gw_MaxConnectionsPerKnock g) now
  | _ => OAdd remote (ev_ClientID ev) (ev_SessionID ev) (gw_port g) (allow_ttl g) (gw_MaxConnectionsPerKnock g) now
  end.

(** From the lease to the timer; [at_mark], [at_add] and [at_arm] are when the
    lease is made, the session added and the timer started. *)
Definition knock_admit (ctx : Ctx) (remote : netip_Addr) (ev : Event) (at_mark at_add at_arm : Z) : FW (world F) (option timer) :=
  let port := gw_port g in
  let ttl := allow_ttl g in
  r ← call_store (OMarkFirewall remote port ttl at_mark);
  match r with
  | RLease (leaseID, true) =>
      _ ← call_store (add_session remote ev at_add);
      _ ← emit (KnockOK remote (ev_ClientID ev) (ev_Method ev) (ev_Parts ev) ttl);
      mret (Some (mkTimer (at_arm + ttl) (at_mark + ttl) remote (store_client g ev) leaseID))
  | _ =>
      _ ← (if ShouldManualRevoke then RevokeFirewall ctx remote port else mret None);
      _ ← emit (KnockFail (Some remote) (ev_ClientID ev) (str "firewall_lease_store_full") None);
      mret None
  end.

Definition knockHandler (ctx : Ctx) (ev : Event) (at_mark at_add at_arm : Z) : FW (world F) (option timer) :=
  remote ← knock_open ctx ev;
  match remote with None => mret None | Some remote => knock_admit ctx remote ev at_mark at_add at_arm end.

(** ** The timer *)

(** Whether the firewall is to be closed. *)
Definition timer_expire (t : timer) (now now' : Z) : FW (world F) bool :=
  _ ← call_store (OExpire (tm_remote t) (tm_client t) now);
  r ← call_store (OExpireFirewall (tm_remote t) (gw_port g) (tm_lease t) now');
  mret (match r with RFlag true => ShouldManualRevoke | _ => false end).

Definition timer_revoke (remote : netip_Addr) : FW (world F) unit :=
  err ← RevokeFirewallDetached remote (gw_port g);
  match gw_mode g with Relay => mret tt | _ => recordCleanupErr err end.

(** ** relay/auth.go *)

Definition access_port (port : Z) : Z := if Z.leb port 0 then gw_Listen g else port.

(** [removeKnockAccess] up to the closing of the firewall. *)
Definition remove_access (remote : option net_Addr) (clientID : bytes) (port : Z) : FW (world F) (option netip_Addr) :=
  match AddrFromNet remote with
  | None => mret None
  | Some addr =>
      _ ← call_store (ORemoveForPort addr clientID port);
      _ ← call_store (ORemoveFirewall addr (access_port port));
      mret (Some addr)
  end.

Definition access_revoke (remote : netip_Addr) (port : Z) : FW (world F) unit :=
  e ← on_fw (fo_Revoke fw Detached remote port);
  match e with Some err => emit (FirewallError (Some remote) port err) | None => mret tt end.

Definition removeKnockAccess (remote : option net_Addr) (clientID : bytes) (port : Z) : FW (world F) unit :=
  addr ← remove_access remote clientID port;
  match addr with None => mret tt | Some addr => access_revoke addr (access_port port) end.

(** * The state machine *)

(** The knock handler in progress, the timers that wait, and the closings that
    are decided and not done yet (of a timer, or of an authenticated
    connection). *)
Record gw_state := mkState {
  g_world : world F; g_handler : option (netip_Addr * Event); g_timers : list timer; g_revoking : list (bool * netip_Addr);
}.

Inductive gw_step :=
| SKnock (ctx : Ctx) (ev : Event)
| SAdmit (ctx : Ctx) (at_mark at_add at_arm : Z)
| SFire (k : nat) (now now' : Z)
| SRevoke (k : nat)
| SConnect (peer : PeerInfo) (remote : option net_Addr) (now : Z)
| SRemove (remote : option net_Addr) (clientID : bytes).

(** A step, when it can be taken: the handler is called for one knock at a
    time, and a timer fires when it is due. *)
Definition gstep (s : gw_state) (x : gw_step) : option gw_state :=
  match x with
  | SKnock ctx ev =>
      if g_handler s is Some _ then None
      else
        let '(remote, w) := knock_open ctx ev (g_world s) in
        Some (mkState w (remote ← remote; Some (remote, ev)) (g_timers s) (g_revoking s))
  | SAdmit ctx at_mark at_add at_arm =>
      match g_handler s with
      | None => None
      | Some (remote, ev) =>
          let '(t, w) := knock_admit ctx remote ev at_mark at_add at_arm (g_world s) in
          Some (mkState w None (g_timers s ++ option_list t) (g_revoking s))
      end
  | SFire k now now' =>
      match g_timers s !! k with
      | None => None
      | Some t =>
          if Z.ltb now (tm_due t) then None
          else
            let '(close, w) := timer_expire t now now' (g_world s) in
            Some (mkState w (g_handler s) (delete k (g_timers s)) (g_revoking s ++ (if close : bool then [(true, tm_remote t)] else [])))
      end
  | SRevoke k =>
      match g_revoking s !! k with
      | None => None
      | Some (timed, remote) =>
          let '(_, w) := (if timed : bool then timer_revoke remote else access_revoke remote (access_port (gw_port g))) (g_world s) in
          Some (mkState w (g_handler s) (g_timers s) (delete k (g_revoking s)))
      end
  | SConnect peer remote now =>
      let '(_, w) := call_store (OCheck peer remote now) (g_world s) in
      Some (mkState w (g_handler s) (g_timers s) (g_revoking s))
  | SRemove remote clientID =>
      let '(addr, w) := remove_access remote clientID (gw_port g) (g_world s) in
      Some (mkState w (g_handler s) (g_timers s) (g_revoking s ++ (pair false <$> option_list addr)))
  end.

Fixpoint grun (s : gw_state) (xs : list gw_step) : option gw_state :=
  match xs with [] => Some s | x :: xs => s ← gstep s x; grun s xs end.

(** A gateway that starts on an initialised firewall. *)
Definition gstart (max : Z) (f : F) : gw_state :=
  mkState (mkWorld (Some (NewKnockSessionStoreWithLimit max)) [] f [] None) None [] [].

End Handlers.
