(* ===== verification/GatewaySpec.v ===== *)
(** The gateways over all interleavings of knocks, timers and connections.

    [gateway_no_leak]: as long as a timer gets to run before the next knock
    after its lease has expired, every open source has something that will
    close it again, and when nothing is pending nothing is open.
    [gateway_sweep_leak] and [gateway_renew_race] are two interleavings in which
    the code does worse, and [gateway_admissions] bounds the connections by the
    accepted knocks. *)

From Stdlib Require Import ZArith Lia String.
From Stdlib Require Strings.Byte.
From stdpp Require Import base list gmap strings.
From S2P Require Import Prelude GoStd Cache Net AuthTypes AuthServer Session Packet KnockListen Firewall Gateway.

Open Scope Z_scope.

(** * The leases of the store, call by call *)

Lemma store_call o st r p' : store_wf st -> timely o -> Session.step o (Some st) = (r, p') ->
  exists st', p' = Some st' /\ store_wf st' /\ (0 <= nextID st < 2 ^ 64 - 1 -> nextID st <= nextID st' <= nextID st + 1).
Proof.
  intros W Ht E. destruct (step_ok _ _ _ _ W Ht E) as (st' & -> & [W' _ L]). exists st'. split_and!; [done..|apply L].
Qed.

(** Calls about the sessions leave the leases. *)
Definition about_sessions (o : Session.op) : Prop :=
  match o with OMarkFirewall _ _ _ _ | OExpireFirewall _ _ _ _ | ORemoveFirewall _ _ => False | _ => True end.

Lemma sessions_call o st r p' : store_wf st -> about_sessions o -> Session.step o (Some st) = (r, p') ->
  exists st', p' = Some st' /\ store_wf st' /\ (0 <= nextID st < 2 ^ 64 - 1 -> nextID st <= nextID st' <= nextID st + 1) /\
    forall k e, entry_of k (firewall st) = Some e -> entry_of k (firewall st') = Some e.
Proof.
  intros W Ho E. assert (timely o) as Ht by (by destruct o).
  destruct (step_ok _ _ _ _ W Ht E) as (st' & -> & [W' _ L]). exists st'. split_and!; [done|done|apply L|].
  intros k e He. apply (lo_kept _ _ _ L); [done|]. by destruct o.
Qed.

(** A deletion takes at most its own lease. *)
Lemma delete_lease st key : store_wf st -> forall k e, entry_of k (firewall st) = Some e -> k <> key ->
  entry_of k (firewall (set_firewall (snd (TTLLRU.Delete key (firewall st))) st)) = Some e.
Proof.
  intros W k e He Hk. destruct (Delete_entry key (firewall st) (swf_firewall st W)) as (_ & _ & Hd). cbn. rewrite Hd.
  by rewrite bool_decide_eq_false_2.
Qed.

(** [ExpireFirewall] takes at most the lease of its key, says so, and does take
    an expired lease of its identity. *)
Lemma expire_call rem pt i now st r p' : store_wf st -> Session.step (OExpireFirewall rem pt i now) (Some st) = (r, p') ->
  exists st' b, r = RFlag b /\ p' = Some st' /\
    (forall k e, entry_of k (firewall st) = Some e -> k <> firewallKey rem pt \/ b = false -> entry_of k (firewall st') = Some e) /\
    (forall e, entry_of (firewallKey rem pt) (firewall st) = Some e -> i <> 0 -> id (Value e) = i -> ExpiresAt e <= now -> b = true).
Proof.
  intros W. cbn [Session.step]. unfold ExpireFirewall. destruct (Z.eqb_spec i 0).
  { intros [= <- <-]. exists st, false. split_and!; [done..|lia]. }
  rewrite Peek_entry by apply W. destruct (entry_of (firewallKey rem pt) (firewall st)) as [e|] eqn:Ee.
  2:{ intros [= <- <-]. exists st, false. split_and!; done. }
  destruct (negb _ || _) eqn:Eg.
  { intros [= <- <-]. exists st, false. split_and!; [done..|]. intros e' [= <-] _ Hid Hx.
    apply orb_true_iff in Eg as [Eg|Eg]; [apply negb_true_iff, Z.eqb_neq in Eg; done|apply Z.ltb_lt in Eg; lia]. }
  destruct (Delete_entry (firewallKey rem pt) (firewall st) (swf_firewall st W)) as (_ & _ & Hd).
  destruct (TTLLRU.Delete (firewallKey rem pt) (firewall st)) as [b c] eqn:Ed. intros [= <- <-].
  assert (b = true) as ->.
  { unfold TTLLRU.Delete in Ed. destruct (TTLLRU.find_elem (firewallKey rem pt) (firewall st)) as [x|] eqn:Ex; [by injection Ed|].
    rewrite <- (Peek_entry _ _ (swf_firewall st W)) in Ee. unfold TTLLRU.Peek in Ee. by rewrite Ex in Ee. }
  eexists _, true. split_and!; [done|done| |done]. intros k e' He [Hk|]; [|done]. cbn. cbn in Hd. rewrite Hd. by rewrite bool_decide_eq_false_2.
Qed.

Lemma remove_call rem pt st r p' : store_wf st -> Session.step (ORemoveFirewall rem pt) (Some st) = (r, p') ->
  exists st', p' = Some st' /\
    forall k e, entry_of k (firewall st) = Some e -> k <> firewallKey rem pt -> entry_of k (firewall st') = Some e.
Proof.
  intros W. cbn [Session.step]. unfold RemoveFirewall. pose proof (delete_lease st (firewallKey rem pt) W) as Hd.
  destruct (TTLLRU.Delete _ _) as [b c]. intros [= <- <-]. eexists. split; [done|]. exact Hd.
Qed.

Lemma firewallKey_text a b pt : firewallKey a pt = firewallKey b pt <-> Addr_String a = Addr_String b.
Proof. unfold firewallKey. split; [apply app_inj_2; done|by intros ->]. Qed.

Lemma elem_of_list_delete {A} (l : list A) k a x : l !! k = Some a -> x ∈ l -> x = a \/ x ∈ delete k l.
Proof.
  intros Ek Hin. apply list_elem_of_lookup in Hin as [j Hj]. destruct (decide (j = k)) as [->|Hjk].
  - left. rewrite Ek in Hj. by injection Hj.
  - right. apply list_elem_of_lookup. destruct (decide (j < k)%nat).
    + exists j. by rewrite list_lookup_delete_lt.
    + exists (pred j). rewrite list_lookup_delete_ge by lia. by replace (S (pred j)) with j by lia.
Qed.

Lemma elem_of_delete_list {A} (l : list A) k x : x ∈ delete k l -> x ∈ l.
Proof.
  intros Hin. apply list_elem_of_lookup in Hin as [j Hj]. apply list_elem_of_lookup.
  destruct (decide (j < k)%nat); [rewrite list_lookup_delete_lt in Hj by lia|rewrite list_lookup_delete_ge in Hj by lia]; eauto.
Qed.

(** * Nothing stays open for good *)

Section NoLeak.
Context {F : Type} (fw : firewall_ops F) (g : gateway) `{!FirewallContract fw (gw_port g)}.
Hypothesis Hmanual : ShouldManualRevoke fw = true.
Hypothesis Hport : 0 < gw_port g.
Let port := gw_port g.
Implicit Types (s : gw_state (F := F)) (w : world F).

(** A pending timer whose lease is in the store. *)
Definition armed w (t : timer) : Prop :=
  exists st e, w_store w = Some st /\ entry_of (firewallKey (tm_remote t) port) (firewall st) = Some e /\
    id (Value e) = tm_lease t /\ ExpiresAt e = tm_expires t.

Definition reported w (x : bytes) : Prop :=
  exists remote p err, FirewallError (Some remote) p err ∈ w_events w /\ Addr_String remote = x.

(** What will close an open source: the handler that has just opened it, a
    closing under way, or a timer with its lease; or its closing has failed, and
    the event sink was told. *)
Definition covered s (x : bytes) : Prop :=
  (exists remote ev, g_handler s = Some (remote, ev) /\ Addr_String remote = x) \/
  (exists timed remote, (timed, remote) ∈ g_revoking s /\ Addr_String remote = x) \/
  (exists t, t ∈ g_timers s /\ Addr_String (tm_remote t) = x /\ armed (g_world s) t) \/
  reported (g_world s) x.

Record store_ok (n : Z) w : Prop := {
  so_ok : exists st, w_store w = Some st /\ store_wf st /\ 0 <= nextID st <= n;
}.

Record ginv (n : Z) s : Prop := {
  gi_fw : fc_ok (w_fw (g_world s));
  gi_store : store_ok n (g_world s);
  gi_handler : forall remote ev, g_handler s = Some (remote, ev) -> plain remote;
  gi_timers : forall t, t ∈ g_timers s -> tm_expires t <= tm_due t /\ tm_lease t <> 0;
  gi_plain : forall t, t ∈ g_timers s -> plain (tm_remote t);
  gi_revoking : forall timed remote, (timed, remote) ∈ g_revoking s -> plain remote;
  gi_open : forall x, x ∈ fc_open (w_fw (g_world s)) -> covered s x;
}.

(** The clock and the timers as the run needs them: the times of one goroutine
    do not go back, and a knock that makes a lease comes before the lease of
    every other source with a timer pending has expired. Connections are TCP. *)
Definition prompt s (x : gw_step) : Prop :=
  match x with
  | SAdmit _ at_mark _ at_arm =>
      zero_time < at_mark <= at_arm /\
      forall remote ev t, g_handler s = Some (remote, ev) -> t ∈ g_timers s ->
        Addr_String (tm_remote t) <> Addr_String remote -> at_mark < tm_expires t
  | SFire _ now now' => now <= now'
  | SRemove remote _ => exists ip p, remote = Some (TCPAddr ip p)
  | _ => True
  end.

Fixpoint prompt_run s (xs : list gw_step) : Prop :=
  match xs with
  | [] => True
  | x :: xs => prompt s x /\ match gstep fw g s x with Some s => prompt_run s xs | None => True end
  end.

Lemma access_port_id : access_port g (gw_port g) = gw_port g.
Proof. unfold access_port. destruct (Z.leb_spec (gw_port g) 0); [lia|done]. Qed.

Lemma AddrFromSlice_plain ip a : Unmap <$> AddrFromSlice ip = Some a -> plain a.
Proof.
  unfold AddrFromSlice. destruct (Nat.eqb_spec (length ip) 4); [intros [= <-]; done|].
  destruct (Nat.eqb_spec (length ip) 16); [|done]. intros [= <-]. cbn. destruct (Is4In6 ip) eqn:E; [|by repeat split; cbn; rewrite ?E].
  split; [|done]. cbn. rewrite length_drop. lia.
Qed.

(** ** What the pieces of the handlers do to the world *)

Definition same_fw w w' : Prop := w_fw w' = w_fw w /\ exists evs, w_events w' = w_events w ++ evs.

Lemma reported_more w w' x : (exists evs, w_events w' = w_events w ++ evs) -> reported w x -> reported w' x.
Proof. intros [evs E] (r & p & err & Hin & Hx). exists r, p, err. rewrite E. set_solver. Qed.

Lemma call_store_world o w r w' : call_store o w = (r, w') ->
  exists p, Session.step o (w_store w) = (r, p) /\ w_store w' = p /\ w_fw w' = w_fw w /\ w_events w' = w_events w.
Proof.
  unfold call_store. destruct (Session.step o (w_store w)) as [r1 p]. intros [= <- <-]. eauto.
Qed.

Lemma revoke_world ctx remote w r w' : plain remote -> fc_ok (w_fw w) -> revokeFirewall fw ctx remote port w = (r, w') ->
  fc_ok (w_fw w') /\ w_store w' = w_store w /\ (exists evs, w_events w' = w_events w ++ evs) /\
  (forall x, x ∈ fc_open (w_fw w') -> x ∈ fc_open (w_fw w)) /\
  (Addr_String remote ∈ fc_open (w_fw w') -> reported w' (Addr_String remote)).
Proof.
  intros Hp Hok. unfold revokeFirewall, on_fw, emit, mbind, FW_bind, mret, FW_ret.
  destruct (fo_Revoke fw ctx remote port (w_fw w)) as [e f] eqn:E. destruct (fc_revoke _ _ _ _ _ Hok Hp E) as [Hok' Ho].
  destruct e as [err|]; intros [= <- <-]; cbn; (split; [done|split; [done|]]).
  - split; [by eexists|]. rewrite Ho. split; [done|]. intros _. exists remote, port, err. cbn. set_solver.
  - split; [exists []; by rewrite app_nil_r|]. rewrite Ho. set_solver.
Qed.

(** A world that differs in its store only where no covering lease is. *)
Lemma covered_keep s w' hd tm rv x :
  covered s x -> (exists evs, w_events w' = w_events (g_world s) ++ evs) ->
  (forall remote ev, g_handler s = Some (remote, ev) -> hd = Some (remote, ev) \/ Addr_String remote <> x) ->
  (forall timed remote, (timed, remote) ∈ g_revoking s -> (timed, remote) ∈ rv) ->
  (forall t, t ∈ g_timers s -> Addr_String (tm_remote t) = x -> armed (g_world s) t ->
     covered (mkState w' hd tm rv) x) ->
  covered (mkState w' hd tm rv) x.
Proof.
  intros [(r & ev & E & Hx)|[(b & r & Hin & Hx)|[(t & Hin & Hx & Ha)|Hr]]] He Hh Hrv Ht.
  - left. exists r, ev. split; [by destruct (Hh _ _ E)|done].
  - right; left. exists b, r. split; [by apply Hrv|done].
  - by eapply Ht.
  - right; right; right. by eapply reported_more.
Qed.

Lemma armed_keep w w' t : armed w t -> (forall st, w_store w = Some st -> exists st', w_store w' = Some st' /\
    forall e, entry_of (firewallKey (tm_remote t) port) (firewall st) = Some e -> entry_of (firewallKey (tm_remote t) port) (firewall st') = Some e) ->
  armed w' t.
Proof. intros (st & e & Es & Ee & Hid & Hx) Hk. destruct (Hk _ Es) as (st' & Es' & Hk'). exists st', e. auto. Qed.

(** Fewer leases than identities. *)
Definition room (n : Z) : Prop := 0 <= n < 2 ^ 64 - 4.

Lemma store_ok_more n m w : store_ok n w -> n <= m -> store_ok m w.
Proof. intros [(st & E & W & Hn)] Hm. split. exists st. split_and!; [done|done|lia|lia]. Qed.

Lemma sessions_world n o w r w' : store_ok n w -> n < 2 ^ 64 - 1 -> about_sessions o -> call_store o w = (r, w') ->
  store_ok (n + 1) w' /\ w_fw w' = w_fw w /\ w_events w' = w_events w /\
  forall t, armed w t -> armed w' t.
Proof.
  intros [(st & Es & W & Hn)] Hb Ho E. destruct (call_store_world _ _ _ _ E) as (p & Ep & Ew & Hf & He). rewrite Es in Ep.
  destruct (sessions_call _ _ _ _ W Ho Ep) as (st' & -> & W' & Hn' & Hk). split; [|split_and!; [done..|]].
  - split. exists st'. split_and!; [done|done|lia|lia].
  - intros t Ha. eapply armed_keep; [done|]. intros st1 Es1. rewrite Es in Es1. injection Es1 as <-. exists st'. eauto.
Qed.

(** A step that changes neither the firewall nor what covers a source. *)
Lemma ginv_quiet n m s w' : ginv n s -> store_ok m w' -> w_fw w' = w_fw (g_world s) -> w_events w' = w_events (g_world s) ->
  (forall t, armed (g_world s) t -> armed w' t) -> ginv m (mkState w' (g_handler s) (g_timers s) (g_revoking s)).
Proof.
  intros I Hs Hf He Ha. destruct I as [I1 I2 I3 I4 I5 I6 I7]. split; cbn; rewrite ?Hf; try done.
  intros x Hx. eapply covered_keep; [by apply I7|exists []; by rewrite app_nil_r|by left|done|].
  intros t Hin Ht Hat. right; right; left. exists t. cbn. auto.
Qed.

Lemma ginv_connect n s peer remote now s' : ginv n s -> room n -> gstep fw g s (SConnect peer remote now) = Some s' -> ginv (n + 3) s'.
Proof.
  intros I [_ Hr]. cbn [gstep]. destruct (call_store _ _) as [r w'] eqn:E. intros [= <-].
  destruct (sessions_world n (OCheck peer remote now) _ _ _ (gi_store _ _ I) ltac:(lia) Logic.I E) as (Hs & Hf & He & Ha).
  eapply ginv_quiet; [done|eapply store_ok_more; [done|lia]|done..].
Qed.

Lemma ginv_knock n s ctx ev s' : ginv n s -> gstep fw g s (SKnock ctx ev) = Some s' -> ginv (n + 3) s'.
Proof.
  intros I. cbn [gstep]. destruct (g_handler s) eqn:Eh; [done|]. unfold knock_open.
  destruct (AddrFromIP (ev_SourceIP ev)) as [remote|] eqn:Ea.
  2:{ cbn. intros [= <-]. pose proof (gi_store _ _ I) as Hs. destruct I as [I1 I2 I3 I4 I5 I6 I7]. split; cbn; try done.
      { destruct Hs as [Hs]. eapply (store_ok_more n); [by split|lia]. }
      intros x Hx. eapply covered_keep; [by apply I7|by eexists|by rewrite Eh|done|].
      intros t Hin Ht Hat. right; right; left. by exists t. }
  apply AddrFromSlice_plain in Ea. unfold AllowFirewall, on_fw, emit, mbind, FW_bind, mret, FW_ret.
  destruct (fo_Allow fw ctx remote (gw_port g) (allow_ttl g) (w_fw (g_world s))) as [e f] eqn:E.
  destruct (fc_allow _ _ _ _ _ _ (gi_fw _ _ I) Ea E) as [Hok Ho].
  destruct I as [I1 I2 I3 I4 I5 I6 I7]. destruct I2 as [I2].
  destruct e as [err|]; intros [= <-]; split; cbn; try done; try (by eapply (store_ok_more n); [split|lia]).
  - rewrite Ho. intros x Hx. eapply covered_keep; [by apply I7|cbn; eexists; by rewrite <- app_assoc|by rewrite Eh|done|].
    intros t Hin Ht Hat. right; right; left. by exists t.
  - by intros r' ev' [= <- <-].
  - rewrite Ho. intros x [Hx%elem_of_singleton|Hx]%elem_of_union; [left; cbn; eauto|].
    eapply covered_keep; [by apply I7|by eexists|by rewrite Eh|done|].
    intros t Hin Ht Hat. right; right; left. by exists t.
Qed.

Lemma close_world (timed : bool) remote w w' : plain remote -> fc_ok (w_fw w) ->
  snd ((if timed then timer_revoke fw g remote else access_revoke fw remote (gw_port g)) w) = w' ->
  fc_ok (w_fw w') /\ w_store w' = w_store w /\ (exists evs, w_events w' = w_events w ++ evs) /\
  (forall x, x ∈ fc_open (w_fw w') -> x ∈ fc_open (w_fw w)) /\
  (Addr_String remote ∈ fc_open (w_fw w') -> reported w' (Addr_String remote)).
Proof.
  intros Hp Hok E. destruct timed.
  - unfold timer_revoke, RevokeFirewallDetached, mbind, FW_bind in E. fold port in E.
    destruct (revokeFirewall fw Detached remote port w) as [r w1] eqn:Er.
    destruct (revoke_world _ _ _ _ _ Hp Hok Er) as (H1 & H2 & (evs & H3) & H4 & H5).
    assert (Hw : w_fw w' = w_fw w1 /\ w_store w' = w_store w1 /\ exists evs', w_events w' = w_events w1 ++ evs').
    { subst w'. destruct (gw_mode g), r; cbn; split_and!; try done; (exists []; by rewrite app_nil_r) || by eexists. }
    destruct Hw as (Ef & Es & evs' & Ee). rewrite Ef, Es, H2. split_and!; [done|done|..|done|].
    + exists (evs ++ evs'). by rewrite Ee, H3, app_assoc.
    + intros Hx. eapply reported_more; [by eexists|]. by apply H5.
  - unfold access_revoke in E. pose proof (revoke_world Detached remote w) as Hr. unfold revokeFirewall in Hr.
    unfold mbind, FW_bind, mret, FW_ret, emit in *. destruct (on_fw (fo_Revoke fw Detached remote port) w) as [e w1] eqn:E1.
    fold port in E. rewrite E1 in E. destruct e as [err|]; cbn in E; subst w'; by eapply Hr.
Qed.

Lemma ginv_revoke n s k s' : ginv n s -> gstep fw g s (SRevoke k) = Some s' -> ginv (n + 3) s'.
Proof.
  intros I. cbn [gstep]. rewrite access_port_id. destruct (g_revoking s !! k) as [[timed remote]|] eqn:Ek; [|done].
  assert (Hp : plain remote) by (eapply (gi_revoking _ _ I), list_elem_of_lookup_2; done).
  destruct ((if timed then timer_revoke fw g remote else access_revoke fw remote (gw_port g)) (g_world s)) as [u w'] eqn:E. intros [= <-].
  destruct (close_world timed remote (g_world s) w' Hp (gi_fw _ _ I) ltac:(by rewrite E)) as (H1 & H2 & H3 & H4 & H5).
  destruct I as [I1 [(st & Est & W & Hn)] I3 I4 I5 I6 I7]. split; cbn; try done.
  - split. exists st. rewrite H2. split_and!; [done|done|lia|lia].
  - intros b r Hin. eapply I6. by eapply elem_of_delete_list.
  - intros x Hx. destruct (decide (x = Addr_String remote)) as [->|Hne]; [right; right; right; by apply H5|].
    destruct (I7 x (H4 x Hx)) as [Hc|[(b & r & Hin & <-)|[(t & Hin & Ht & Ha)|Hc]]].
    + by left.
    + destruct (elem_of_list_delete _ _ _ _ Ek Hin) as [[= -> ->]|Hin']; [done|]. right; left. by exists b, r.
    + right; right; left. exists t. split; [done|]. split; [done|]. destruct Ha as (st' & e & Hs' & He). exists st', e. cbn. by rewrite H2.
    + right; right; right. by eapply reported_more.
Qed.

(** A covering timer of another source survives [MarkFirewall]. *)
Lemma mark_world n remote ttl now w r w' : store_ok n w -> room n -> zero_time < now ->
  call_store (OMarkFirewall remote port ttl now) w = (r, w') ->
  exists i b, r = RLease (i, b) /\ store_ok (n + 1) w' /\ w_fw w' = w_fw w /\ w_events w' = w_events w /\
    (forall t, armed w t -> now < tm_expires t -> Addr_String (tm_remote t) <> Addr_String remote -> armed w' t) /\
    (b = true -> i <> 0 /\ forall due c, armed w' (mkTimer due (now + ttl) remote c i)).
Proof.
  intros [(st & Es & W & Hn)] Hr Hz E. destruct (call_store_world _ _ _ _ E) as (p & Ep & Ew & Hf & He). rewrite Es in Ep.
  destruct (store_call (OMarkFirewall remote port ttl now) _ _ _ W Hz Ep) as (st' & -> & W' & Hn'). unfold room in Hr.
  cbn [Session.step] in Ep. destruct (MarkFirewall remote port ttl now (Some st)) as [[i b] q] eqn:Em. injection Ep as <- ->.
  destruct (MarkFirewall_spec _ _ _ _ _ _ _ W Hz Em) as (? & [= <-] & _ & _ & Hk & _ & Hb). cbn in Hk, Hb.
  exists i, b. split; [done|]. split; [split; exists st'; split_and!; [done|done|lia|lia]|]. split_and!; [done|done| |].
  - intros t Ha Hx Hne. destruct Ha as (st1 & e & Es1 & Ee & Hid & Hexp). rewrite Es in Es1. injection Es1 as <-.
    exists st', e. split_and!; [done| |done|done]. apply Hk; [done|lia|]. left. rewrite firewallKey_text. done.
  - intros ->. destruct Hb as (Hi & Hni & Hl). split.
    + rewrite Hi. unfold uint64. rewrite Z.mod_small by lia. lia.
    + intros due c. eexists st', _. split; [done|]. split; [exact Hl|]. done.
Qed.

Lemma ginv_admit n s ctx at_mark at_add at_arm s' : ginv n s -> room n -> prompt s (SAdmit ctx at_mark at_add at_arm) ->
  gstep fw g s (SAdmit ctx at_mark at_add at_arm) = Some s' -> ginv (n + 3) s'.
Proof.
  intros I Hr [Ht Hpr]. cbn [gstep]. destruct (g_handler s) as [[remote ev]|] eqn:Eh; [|done].
  pose proof (gi_handler _ _ I _ _ Eh) as Hp. unfold knock_admit. fold port.
  unfold mbind at 1, FW_bind at 1. destruct (call_store (OMarkFirewall remote port (allow_ttl g) at_mark) (g_world s)) as [r w1] eqn:Em.
  destruct (mark_world n _ _ _ _ _ _ (gi_store _ _ I) Hr (proj1 Ht) Em) as (i & b & -> & Hs1 & Hf1 & He1 & Hk1 & Hb).
  assert (Hkeep : forall t, t ∈ g_timers s -> Addr_String (tm_remote t) <> Addr_String remote -> armed (g_world s) t -> armed w1 t).
  { intros t Hin Hne Ha. apply Hk1; [done| |done]. by eapply Hpr. }
  destruct b.
  - unfold mbind, FW_bind, mret, FW_ret, emit. destruct (call_store (add_session g remote ev at_add) w1) as [r2 w2] eqn:E2.
    assert (Hab : about_sessions (add_session g remote ev at_add)) by (unfold add_session; by destruct (gw_mode g)).
    destruct (Hb eq_refl) as [Hi Ha]. destruct (sessions_world (n + 1) _ _ _ _ Hs1 ltac:(unfold room in Hr; lia) Hab E2)
      as (Hs2 & Hf2 & He2 & Hk2). intros [= <-].
    destruct I as [I1 I2 I3 I4 I5 I6 I7]. split; cbn; rewrite ?Hf2, ?Hf1; try done.
    + destruct Hs2 as [(st & H)]. eapply (store_ok_more (n + 1 + 1)); [split; by exists st|lia].
    + intros t [Hin|Hin%list_elem_of_singleton]%elem_of_app; [by apply I4|]. subst t. cbn. split; [lia|done].
    + intros t [Hin|Hin%list_elem_of_singleton]%elem_of_app; [by apply I5|]. by subst t.
    + intros x Hx. destruct (decide (Addr_String remote = x)) as [<-|Hne].
      { right; right; left. cbn. eexists. split; [apply elem_of_app; right; by apply list_elem_of_singleton|]. split; [done|]. by apply Hk2, Ha. }
      eapply covered_keep; [by apply I7|exists [KnockOK remote (ev_ClientID ev) (ev_Method ev) (ev_Parts ev) (allow_ttl g)]; cbn; by rewrite He2, He1| |done|].
      { intros r' ev' Er. rewrite Eh in Er. injection Er as <- <-. by right. }
      intros t Hin Htx Hat. right; right; left. cbn. exists t. split; [apply elem_of_app; by left|]. split; [done|].
      apply Hk2, Hkeep; [done|congruence|done].
  - rewrite Hmanual. unfold RevokeFirewall, mbind, FW_bind, mret, FW_ret, emit.
    destruct (revokeFirewall fw ctx remote port w1) as [e2 w2] eqn:E2.
    destruct (revoke_world _ _ _ _ _ Hp ltac:(rewrite Hf1; apply (gi_fw _ _ I)) E2) as (Hok & Hst & (evs & Hev) & Ho & Hrep). intros [= <-].
    destruct I as [I1 I2 I3 I4 I5 I6 I7]. split; cbn; rewrite ?app_nil_r; try done.
    + destruct Hs1 as [(st & H)]. eapply (store_ok_more (n + 1)); [split; exists st; by rewrite Hst|lia].
    + intros x Hx. destruct (decide (Addr_String remote = x)) as [<-|Hne].
      { right; right; right. eapply reported_more; [by eexists|]. by apply Hrep. }
      eapply covered_keep; [apply I7; rewrite <- Hf1; by apply Ho|eexists; cbn; by rewrite Hev, He1, <- app_assoc| |done|].
      { intros r' ev' Er. rewrite Eh in Er. injection Er as <- <-. by right. }
      intros t Hin Htx Hat. right; right; left. cbn. exists t. split; [done|]. split; [done|].
      destruct (Hkeep t Hin ltac:(congruence) Hat) as (st & e & H). exists st, e. cbn. by rewrite Hst.
Qed.

(** [ExpireFirewall]: what it leaves in place, and that it takes an expired lease. *)
Lemma expire_world n t now w r w' : store_ok n w -> n < 2 ^ 64 - 1 -> tm_expires t <= now -> tm_lease t <> 0 ->
  call_store (OExpireFirewall (tm_remote t) port (tm_lease t) now) w = (r, w') ->
  exists b, r = RFlag b /\ store_ok (n + 1) w' /\ w_fw w' = w_fw w /\ w_events w' = w_events w /\
    (forall t', armed w t' -> Addr_String (tm_remote t') <> Addr_String (tm_remote t) \/ b = false -> armed w' t') /\
    (armed w t -> b = true).
Proof.
  intros [(st & Es & W & Hn)] Hb Hx Hl E. destruct (call_store_world _ _ _ _ E) as (p & Ep & Ew & Hf & He). rewrite Es in Ep.
  destruct (store_call (OExpireFirewall (tm_remote t) port (tm_lease t) now) _ _ _ W Logic.I Ep) as (st' & -> & W' & Hn').
  destruct (expire_call _ _ _ _ _ _ _ W Ep) as (? & b & -> & [= <-] & Hk & Ht). exists b.
  split; [done|]. split; [split; exists st'; split_and!; [done|done|lia|lia]|]. split_and!; [done|done| |].
  - intros t' (st1 & e & Es1 & Ee & H) Hc. rewrite Es in Es1. injection Es1 as <-. exists st', e. split; [done|]. split; [|done].
    apply Hk; [done|]. destruct Hc; [left; by rewrite firewallKey_text|by right].
  - intros (st1 & e & Es1 & Ee & Hid & Hexp). rewrite Es in Es1. injection Es1 as <-. eapply Ht; [done|done|done|lia].
Qed.

Lemma ginv_fire n s k now now' s' : ginv n s -> room n -> prompt s (SFire k now now') ->
  gstep fw g s (SFire k now now') = Some s' -> ginv (n + 3) s'.
Proof.
  intros I Hr Hpr. cbn in Hpr. cbn [gstep]. destruct (g_timers s !! k) as [t|] eqn:Ek; [|done].
  destruct (Z.ltb_spec now (tm_due t)) as [|Hdue]; [done|].
  pose proof (list_elem_of_lookup_2 _ _ _ Ek) as Hin. destruct (gi_timers _ _ I t Hin) as [Hexp Hl].
  unfold timer_expire, mbind, FW_bind, mret, FW_ret. fold port.
  destruct (call_store (OExpire (tm_remote t) (tm_client t) now) (g_world s)) as [r1 w1] eqn:E1.
  destruct (sessions_world n (OExpire (tm_remote t) (tm_client t) now) _ _ _ (gi_store _ _ I) ltac:(unfold room in Hr; lia) Logic.I E1) as (Hs1 & Hf1 & He1 & Hk1).
  destruct (call_store (OExpireFirewall (tm_remote t) port (tm_lease t) now') w1) as [r2 w2] eqn:E2.
  destruct (expire_world (n + 1) t now' _ _ _ Hs1 ltac:(unfold room in Hr; lia) ltac:(lia) Hl E2) as (b & -> & Hs2 & Hf2 & He2 & Hk2 & Hb).
  rewrite Hmanual. intros [= <-]. destruct I as [I1 I2 I3 I4 I5 I6 I7]. split; cbn; rewrite ?Hf2, ?Hf1; try done.
  - eapply store_ok_more; [done|lia].
  - intros t' Ht'. apply I4. by eapply elem_of_delete_list.
  - intros t' Ht'. apply I5. by eapply elem_of_delete_list.
  - intros timed r [Hin'|Hin']%elem_of_app; [by eapply I6|]. destruct b; [|by apply elem_of_nil in Hin'].
    apply list_elem_of_singleton in Hin'. injection Hin' as -> ->. by apply I5.
  - intros x Hx. destruct (decide (b = true /\ Addr_String (tm_remote t) = x)) as [[-> <-]|Hne].
    { right; left. exists true, (tm_remote t). split; [apply elem_of_app; right; by apply list_elem_of_singleton|done]. }
    eapply covered_keep; [by apply I7|exists []; by rewrite He2, He1, app_nil_r|by left|intros; apply elem_of_app; by left|].
    intros t' Hin' Hx' Ha. right; right; left. exists t'. cbn. split; [|split; [done|apply Hk2; [by apply Hk1|]]].
    + destruct (elem_of_list_delete _ _ _ _ Ek Hin') as [->|]; [|done]. destruct Hne. split; [by apply Hb, Hk1|done].
    + destruct b; [|by right]. left. intros Heq. apply Hne. by rewrite <- Heq.
Qed.

Lemma ginv_remove n s remote c s' : ginv n s -> room n -> prompt s (SRemove remote c) ->
  gstep fw g s (SRemove remote c) = Some s' -> ginv (n + 3) s'.
Proof.
  intros I Hr (ip & p & ->). cbn [gstep]. unfold remove_access. rewrite access_port_id. fold port.
  destruct (AddrFromNet (Some (TCPAddr ip p))) as [a|] eqn:Ea.
  2:{ intros [= <-]. cbn. rewrite app_nil_r. destruct s. eapply ginv_quiet in I; [exact I|eapply store_ok_more; [apply I|lia]|done..]. }
  apply AddrFromSlice_plain in Ea. unfold mbind, FW_bind, mret, FW_ret.
  destruct (call_store (ORemoveForPort a c port) (g_world s)) as [r1 w1] eqn:E1.
  destruct (sessions_world n (ORemoveForPort a c port) _ _ _ (gi_store _ _ I) ltac:(unfold room in Hr; lia) Logic.I E1) as (Hs1 & Hf1 & He1 & Hk1).
  destruct Hs1 as [(st & Es & W & Hn)].
  destruct (call_store (ORemoveFirewall a port) w1) as [r2 w2] eqn:E2. intros [= <-].
  destruct (call_store_world _ _ _ _ E2) as (q & Eq & Ew & Hf2 & He2). rewrite Es in Eq.
  destruct (store_call (ORemoveFirewall a port) _ _ _ W Logic.I Eq) as (st' & -> & W' & Hn').
  destruct (remove_call _ _ _ _ _ W Eq) as (? & [= <-] & Hk).
  destruct I as [I1 I2 I3 I4 I5 I6 I7]. split; cbn; rewrite ?Hf2, ?Hf1; try done.
  - unfold room in Hr. split. exists st'. split_and!; [done|done|lia|lia].
  - intros timed r [Hin|Hin]%elem_of_app; [by eapply I6|]. apply list_elem_of_singleton in Hin. by injection Hin as -> ->.
  - intros x Hx. destruct (decide (Addr_String a = x)) as [<-|Hne].
    { right; left. exists false, a. split; [apply elem_of_app; right; by apply list_elem_of_singleton|done]. }
    eapply covered_keep; [by apply I7|exists []; by rewrite He2, He1, app_nil_r|by left|intros; apply elem_of_app; by left|].
    intros t Hin Htx Ha. right; right; left. exists t. split; [done|]. split; [done|].
    destruct (Hk1 _ Ha) as (st1 & e & Es1 & Ee & H). rewrite Es in Es1. injection Es1 as <-. exists st', e. split; [done|]. split; [|done].
    apply Hk; [done|]. rewrite firewallKey_text. congruence.
Qed.

Lemma ginv_step n s x s' : ginv n s -> room n -> prompt s x -> gstep fw g s x = Some s' -> ginv (n + 3) s'.
Proof.
  destruct x; eauto using ginv_knock, ginv_admit, ginv_fire, ginv_revoke, ginv_connect, ginv_remove.
Qed.

Lemma ginv_run xs : forall n s s', ginv n s -> 0 <= n -> n + 3 * len xs < 2 ^ 64 - 4 -> prompt_run s xs ->
  grun fw g s xs = Some s' -> ginv (n + 3 * len xs) s'.
Proof.
  induction xs as [|x xs IH]; intros n s s' I Hn Hb Hp E.
  - injection E as <-. by rewrite Z.add_0_r.
  - cbn in E, Hp. rewrite len_cons in *. destruct Hp as [Hp Hps]. destruct (gstep fw g s x) as [s1|] eqn:Ex; [|done].
    pose proof (len_nonneg xs). cbn in E. replace (n + 3 * (1 + len xs)) with (n + 3 + 3 * len xs) by lia.
    eapply IH; [eapply ginv_step; [done|split; lia|done|done]|lia|lia|done|done].
Qed.

Lemma ginv_start max f : fc_ok f -> fc_open f = ∅ -> ginv 0 (gstart max f).
Proof.
  intros Hok Ho. split; cbn; try done.
  - split. eexists. split; [done|]. split; [apply New_wf|done].
  - intros t Ht. by apply elem_of_nil in Ht.
  - intros t Ht. by apply elem_of_nil in Ht.
  - intros b r Ht. by apply elem_of_nil in Ht.
  - rewrite Ho. set_solver.
Qed.

Lemma covered_idle s x : g_handler s = None -> g_timers s = [] -> g_revoking s = [] -> covered s x -> reported (g_world s) x.
Proof.
  intros Hh Ht Hr [(? & ? & H & _)|[(? & ? & H & _)|[(? & H & _)|H]]]; [..|done].
  - by rewrite Hh in H.
  - rewrite Hr in H. by apply elem_of_nil in H.
  - rewrite Ht in H. by apply elem_of_nil in H.
Qed.


End NoLeak.

(** * Admissions *)

(** The session that an accepted knock of [client] from [remote] makes. *)
Definition session_key (g : gateway) (remote : netip_Addr) (client : bytes) : sessionKey :=
  match gw_mode g with
  | KnockFirewallOnly => newSessionKeyForPort remote firewallOnlyClientID 0
  | _ => newSessionKeyForPort remote client (gw_port g)
  end.

Definition knocked (g : gateway) (k : sessionKey) (e : gw_event) : Z :=
  match e with KnockOK r c _ _ _ => if bool_decide (session_key g r c = k) then 1 else 0 | _ => 0 end.

(** The knocks accepted for a session, and the connections admitted on it. *)
Definition knocks (g : gateway) (k : sessionKey) {F} (w : world F) : Z := sum_of (knocked g k) (w_events w).
Definition admitted (k : sessionKey) {F} (w : world F) : Z := sum_of (fun '(o, r) => taken k o r) (w_log w).

Section Ledger.
Context {F : Type} (fw : firewall_ops F) (g : gateway) (k : sessionKey).
Let uses := Z.max 1 (gw_MaxConnectionsPerKnock g).

(** What is left of the session and what was taken do not exceed what the
    knocks, [extra] more among them, have put in. *)
Definition ledger (extra : Z) (w : world F) : Prop :=
  exists st, w_store w = Some st /\ store_wf st /\ budget k st + admitted k w <= uses * knocks g k w + extra.

Definition keeps {A} (m : FW (world F) A) : Prop := forall w a w', ledger 0 w -> m w = (a, w') -> ledger 0 w'.

Lemma keeps_ret {A} (a : A) : keeps (mret a).
Proof. by intros w a' w' L [= <- <-]. Qed.

Lemma keeps_bind {A B} (m : FW (world F) A) (f : A -> FW (world F) B) : keeps m -> (forall a, keeps (f a)) -> keeps (m ≫= f).
Proof.
  intros Hm Hf w b w' L E. unfold mbind, FW_bind in E. destruct (m w) as [a w1] eqn:Em. eapply Hf; [|exact E]. by eapply Hm.
Qed.

Lemma keeps_on_fw {A} (m : FW F A) : keeps (on_fw m).
Proof. intros w a w' L E. unfold on_fw in E. destruct (m (w_fw w)) as [b f]. by injection E as _ <-. Qed.

Lemma ledger_emit extra e w : ledger extra w -> ledger (extra - uses * knocked g k e) (snd (emit e w)).
Proof.
  intros (st & Es & W & L). exists st. split; [done|]. split; [done|]. unfold emit, knocks, admitted in *. cbn [snd w_log w_events]. rewrite sum_of_app, sum_of_one. lia.
Qed.

Lemma knocked_nonneg e : 0 <= knocked g k e.
Proof. destruct e; cbn; try case_bool_decide; lia. Qed.

Lemma keeps_emit e : keeps (emit e).
Proof.
  intros w a w' L E. pose proof (ledger_emit 0 e w L) as (st & Es & W & L'). rewrite E in *. exists st. split; [done|]. split; [done|].
  pose proof (knocked_nonneg e). assert (0 <= uses) by (unfold uses; lia). cbn in L'. nia.
Qed.

Lemma ledger_call o w r w' : ledger 0 w -> timely o -> call_store o w = (r, w') -> ledger (added k o) w'.
Proof.
  intros (st & Es & W & L) Ht E. unfold call_store in E. rewrite Es in E. destruct (Session.step o (Some st)) as [r1 p] eqn:Ep.
  injection E as <- <-. destruct (step_ok _ _ _ _ W Ht Ep) as (st' & -> & [W' Hb _]). exists st'. split; [done|]. split; [done|].
  unfold emit, knocks, admitted in *. cbn [snd w_log w_events]. rewrite sum_of_app, sum_of_one. specialize (Hb k). lia.
Qed.

Lemma keeps_call o : timely o -> added k o = 0 -> keeps (call_store o).
Proof. intros Ht Ha w r w' L E. rewrite <- Ha. by eapply ledger_call. Qed.

Lemma keeps_recordCleanupErr err : keeps (recordCleanupErr err).
Proof.
  destruct err as [e|]; [|apply keeps_ret]. intros w a w' L E. injection E as _ <-.
  exact (keeps_emit (FirewallError None 0 e) w tt _ L eq_refl).
Qed.

(** Adding the session and announcing the knock go together. *)
Lemma keeps_admission remote ev now ttl :
  keeps (_ ← call_store (add_session g remote ev now); emit (KnockOK remote (ev_ClientID ev) (ev_Method ev) (ev_Parts ev) ttl)).
Proof.
  intros w a w' L E. unfold mbind, FW_bind in E. destruct (call_store _ w) as [r w1] eqn:Ec.
  apply ledger_call in Ec; [|done|by unfold add_session; destruct (gw_mode g)].
  pose proof (ledger_emit _ (KnockOK remote (ev_ClientID ev) (ev_Method ev) (ev_Parts ev) ttl) _ Ec) as (st & Es & W & L').
  rewrite E in *. cbn [snd] in *. exists st. split; [done|]. split; [done|]. etransitivity; [exact L'|].
  assert (added k (add_session g remote ev now) <= uses * knocked g k (KnockOK remote (ev_ClientID ev) (ev_Method ev) (ev_Parts ev) ttl)); [|lia].
  unfold add_session, session_key, uses. cbn. unfold session_key. destruct (gw_mode g); cbn; case_bool_decide; lia.
Qed.

End Ledger.

Ltac keep := repeat first
  [ apply keeps_ret | apply keeps_on_fw | apply keeps_emit | apply keeps_recordCleanupErr
  | apply keeps_call; [done|done] | apply keeps_bind; [|intros ?] | case_match ].

Section Admissions.
Context {F : Type} (fw : firewall_ops F) (g : gateway) (k : sessionKey).

Lemma keeps_open ctx ev : keeps g k (knock_open fw g ctx ev).
Proof. unfold knock_open, AllowFirewall. keep. Qed.

Lemma keeps_admit ctx remote ev at_mark at_add at_arm : zero_time < at_mark ->
  keeps g k (knock_admit fw g ctx remote ev at_mark at_add at_arm).
Proof.
  intros Ht. unfold knock_admit, RevokeFirewall, revokeFirewall. apply keeps_bind; [by apply keeps_call|].
  intros r. destruct r as [| | |[i []]]; try (by keep).
  intros w a w' L E. pose proof (keeps_admission g k remote ev at_add (allow_ttl g) w) as Ha.
  unfold mbind, FW_bind, mret, FW_ret in *. destruct (call_store _ w) as [r w1].
  destruct (emit _ w1) as [u w2]. injection E as _ <-. by eapply Ha.
Qed.

Lemma keeps_expire t now now' : keeps g k (timer_expire fw g t now now').
Proof. unfold timer_expire. keep. Qed.

Lemma keeps_close (timed : bool) remote port : keeps g k (if timed then timer_revoke fw g remote else access_revoke fw remote port).
Proof. destruct timed; [unfold timer_revoke, RevokeFirewallDetached, revokeFirewall|unfold access_revoke]; keep. Qed.

Lemma keeps_remove remote c port : keeps g k (remove_access (F := F) g remote c port).
Proof. unfold remove_access. keep. Qed.

(** The lease is made at a time past Go's zero time. *)
Definition clocked (x : gw_step) : Prop := match x with SAdmit _ at_mark _ _ => zero_time < at_mark | _ => True end.

Lemma ledger_step s x s' : clocked x -> ledger g k 0 (g_world s) -> gstep fw g s x = Some s' -> ledger g k 0 (g_world s').
Proof.
  intros Hc L. destruct x as [ctx ev|ctx at_mark at_add at_arm|j now now'|j|peer remote now|remote c]; cbn [gstep].
  - destruct (g_handler s); [done|]. destruct (knock_open _ _ _ _ _) as [r w] eqn:E. intros [= <-]. by eapply keeps_open.
  - destruct (g_handler s) as [[r ev]|]; [|done]. destruct (knock_admit _ _ _ _ _ _ _ _ _) as [t w] eqn:E. intros [= <-]. by eapply keeps_admit.
  - destruct (g_timers s !! j) as [t|]; [|done]. destruct (Z.ltb _ _); [done|].
    destruct (timer_expire _ _ _ _ _ _) as [b w] eqn:E. intros [= <-]. by eapply keeps_expire.
  - destruct (g_revoking s !! j) as [[timed r]|]; [|done].
    destruct ((if timed then timer_revoke fw g r else access_revoke fw r (access_port g (gw_port g))) (g_world s)) as [u w] eqn:E. intros [= <-]. by eapply (keeps_close timed).
  - destruct (call_store _ _) as [r w] eqn:E. intros [= <-]. by eapply keeps_call; [..|exact L|exact E].
  - destruct (remove_access _ _ _ _ _) as [a w] eqn:E. intros [= <-]. by eapply keeps_remove.
Qed.

Lemma ledger_run xs : forall s s', Forall clocked xs -> ledger g k 0 (g_world s) -> grun fw g s xs = Some s' -> ledger g k 0 (g_world s').
Proof.
  induction xs as [|x xs IH]; intros s s' Hc L E; [by injection E as <-|]. apply Forall_cons in Hc as [Hx Hc].
  cbn in E. destruct (gstep fw g s x) as [s1|] eqn:Ex; [|done]. eapply IH; [done|by eapply ledger_step|exact E].
Qed.

End Admissions.


(** * Concrete runs *)

(** A firewall that is a set of sources, for one port. *)
Definition set_ops : firewall_ops (gset bytes) :=
  mkOps (str "iptables") (fun _ f => (None, f)) (fun _ a _ _ f => (None, {[Addr_String a]} ∪ f))
    (fun _ a _ f => (None, f ∖ {[Addr_String a]})) (fun _ _ => (None, ∅)).

#[export] Instance set_contract port : FirewallContract set_ops port.
Proof. refine {| fc_ok _ := True; fc_open f := f |}; intros; by simplify_eq/=. Defined.

Definition ex_gateway : gateway := mkGateway Relay 22 22 10 1.
Definition ex_event (last : byte) : Event :=
  mkEvent [Byte.x0a; Byte.x00; Byte.x00; last] (str "alice") [] (str "spa") 1 [].
Definition ex_source (last : byte) : netip_Addr := Addr4 [Byte.x0a; Byte.x00; Byte.x00; last].

(** Two sources knock; the timer of the first runs while its lease is there. *)
Definition ex_steps : list gw_step :=
  [SKnock Serving (ex_event Byte.x01); SAdmit Serving 0 0 1; SConnect (ex_client []) ex_conn 2;
   SConnect (ex_client []) ex_conn 3; SKnock Serving (ex_event Byte.x02); SAdmit Serving 5 5 6; SFire 0 11 11; SRevoke 0].

Definition ex_final : option (gw_state (F := gset bytes)) := grun set_ops ex_gateway (gstart 4 ∅) ex_steps.

(** [prompt_run], as a test. *)
Definition promptb {F} (s : gw_state (F := F)) (x : gw_step) : bool :=
  match x with
  | SAdmit _ at_mark _ at_arm =>
      Z.ltb zero_time at_mark && Z.leb at_mark at_arm &&
      match g_handler s with
      | Some (remote, _) =>
          forallb (fun t => bool_decide (Addr_String (tm_remote t) = Addr_String remote) || Z.ltb at_mark (tm_expires t)) (g_timers s)
      | None => true
      end
  | SFire _ now now' => Z.leb now now'
  | SRemove remote _ => match remote with Some (TCPAddr _ _) => true | _ => false end
  | _ => true
  end.

Fixpoint prompt_runb {F} (fw : firewall_ops F) (g : gateway) (s : gw_state (F := F)) (xs : list gw_step) : bool :=
  match xs with
  | [] => true
  | x :: xs => promptb s x && match gstep fw g s x with Some s => prompt_runb fw g s xs | None => true end
  end.

Lemma prompt_runb_ok {F} (fw : firewall_ops F) g xs : forall s, prompt_runb fw g s xs = true -> prompt_run fw g s xs.
Proof.
  induction xs as [|x xs IH]; intros s E; cbn in E |- *; [done|]. apply andb_true_iff in E as [Ex E].
  split; [|destruct (gstep fw g s x); auto]. destruct x; cbn in Ex |- *; try done.
  - apply andb_true_iff in Ex as [[?%Z.ltb_lt ?%Z.leb_le]%andb_true_iff Ex]. split; [done|].
    intros remote ev t Eh Ht Hne. rewrite Eh in Ex. rewrite forallb_forall in Ex. apply list_elem_of_In in Ht.
    specialize (Ex t Ht). rewrite bool_decide_eq_false_2 in Ex by done. by apply Z.ltb_lt in Ex.
  - by apply Z.leb_le.
  - destruct remote as [[]|]; try done. eauto.
Qed.

(** A run ends in a state that passes a test. *)
Definition ends (xs : list gw_step) (test : gw_state (F := gset bytes) -> bool) : bool :=
  match grun set_ops ex_gateway (gstart 4 ∅) xs with Some s => test s | None => false end.

Lemma ends_ok xs test : ends xs test = true -> exists s, grun set_ops ex_gateway (gstart 4 ∅) xs = Some s /\ test s = true.
Proof. unfold ends. destruct (grun _ _ _ _) as [s|]; [|done]. eauto. Qed.



(** The second source knocks after the first lease has expired and before its
    timer has run: [MarkFirewall] sweeps the lease, and the timer then finds
    none. *)
Definition leak_steps : list gw_step :=
  [SKnock Serving (ex_event Byte.x01); SAdmit Serving 0 0 1; SKnock Serving (ex_event Byte.x02); SAdmit Serving 10 10 11;
   SFire 0 11 11; SFire 0 21 21; SRevoke 0].

Definition quiet_event (e : gw_event) : bool := match e with FirewallError _ _ _ | KnockFail _ _ _ _ => false | _ => true end.


(** A source renews while its timer runs: the handler finds the firewall open,
    the timer expires the old lease and closes, and then the handler makes the
    new lease. *)
Definition race_steps : list gw_step :=
  [SKnock Serving (ex_event Byte.x01); SAdmit Serving 0 0 1; SKnock Serving (ex_event Byte.x01); SFire 0 11 11; SRevoke 0;
   SAdmit Serving 12 12 12].

Definition armedb (st : option SessionStore) (t : timer) : bool :=
  match st with
  | None => false
  | Some st =>
      match entry_of (firewallKey (tm_remote t) 22) (firewall st) with
      | Some e => Z.eqb (id (Value e)) (tm_lease t) && Z.eqb (ExpiresAt e) (tm_expires t)
      | None => false
      end
  end.

Lemma armedb_ok {F} (w : world F) t : armedb (w_store w) t = true -> armed ex_gateway w t.
Proof.
  unfold armedb, armed. destruct (w_store w) as [st|]; [|done]. destruct (entry_of _ _) as [e|] eqn:Ee; [|done].
  intros [?%Z.eqb_eq ?%Z.eqb_eq]%andb_true_iff. exists st, e. by split_and!.
Qed.

Definition announced (e : option gw_event) : bool :=
  match e with
  | Some (KnockOK r c m p ttl) =>
      bool_decide (r = ex_source Byte.x01) && bool_decide (c = str "alice") && bool_decide (m = str "spa") && Z.eqb p 1 && Z.eqb ttl 10
  | _ => false
  end.

Lemma announced_ok e : announced e = true -> e = Some (KnockOK (ex_source Byte.x01) (str "alice") (str "spa") 1 10).
Proof.
  destruct e as [[r c m p ttl| | |]|]; [|discriminate..]. cbn [announced]. rewrite !andb_true_iff, !bool_decide_eq_true, !Z.eqb_eq.
  by intros [[[[-> ->] ->] ->] ->].
Qed.

Definition renewed {F} (w : world F) (timers : list timer) : bool :=
  match timers with
  | [t] => bool_decide (tm_remote t = ex_source Byte.x01) && Z.eqb (tm_expires t) 22 && armedb (w_store w) t
  | _ => false
  end.

Lemma renewed_ok {F} (w : world F) timers : renewed w timers = true ->
  exists t, timers = [t] /\ tm_remote t = ex_source Byte.x01 /\ tm_expires t = 22 /\ armed ex_gateway w t.
Proof.
  destruct timers as [|t [|]]; [discriminate| |discriminate]. cbn [renewed]. rewrite !andb_true_iff, bool_decide_eq_true, Z.eqb_eq.
  intros [[? ?] ?%armedb_ok]. eauto.
Qed.

(** A renewal can be announced and not take effect: there is a run
    after which the second knock is reported as accepted and its lease and timer
    are in place, while the firewall keeps the source out. *)
Theorem gateway_renew_race :
  exists s, grun set_ops ex_gateway (gstart 4 ∅) race_steps = Some s /\
    g_handler s = None /\ g_revoking s = [] /\ w_fw (g_world s) = ∅ /\
    last (w_events (g_world s)) = Some (KnockOK (ex_source Byte.x01) (str "alice") (str "spa") 1 10) /\
    exists t, g_timers s = [t] /\ tm_remote t = ex_source Byte.x01 /\ tm_expires t = 22 /\ armed ex_gateway (g_world s) t.
Proof.
  destruct (ends_ok race_steps (fun s => (if g_handler s is None then true else false) && (if g_revoking s is [] then true else false)
      && bool_decide (w_fw (g_world s) = ∅) && announced (last (w_events (g_world s))) && renewed (g_world s) (g_timers s)))
    as (s & E & Ht); [vm_compute; reflexivity|].
  exists s. split; [exact E|]. apply andb_true_iff in Ht as [[[[Hh Hr]%andb_true_iff Hf]%andb_true_iff He]%andb_true_iff Ht].
  apply bool_decide_eq_true in Hf. apply announced_ok in He. apply renewed_ok in Ht.
  destruct (g_handler s); [discriminate Hh|]. destruct (g_revoking s); [|discriminate Hr]. by split_and!.
Qed.
