(* ===== verification/Listener.v ===== *)
(** netx/listener.go and internal/acceptx: the authenticated listener.

    One goroutine accepts connections and queues them, a fixed pool of workers
    authenticates them and hands them to [Accept], and [Close] may come at any
    time. [lstep] is one step of one of these goroutines; a run is any
    interleaving. A connection is a number, in the order of its arrival. What
    the operating system and the peer decide (which connection arrives, which
    error [Accept] returns, whether an authentication succeeds, which ready
    branch a [select] takes) is the label of the step. *)

From Stdlib Require Import ZArith Lia String.
From Stdlib Require Strings.Byte.
From stdpp Require Import base list gmap strings.
From S2P Require Import Prelude GoStd Replay Net AuthTypes AuthServer.

Open Scope Z_scope.

(** * internal/acceptx *)

(** The errors of [Accept] as far as [IsTemporary] tells them apart: a closed
    listener, a [net.Error] that is a timeout, an error number, another error. *)
Inductive errno := EMFILE | ENFILE | ENOBUFS | ENOMEM | ECONNABORTED | ECONNRESET | OtherErrno (code : Z).

Record accept_error := mkAcceptError { ae_closed : bool; ae_timeout : bool; ae_errno : option errno; ae_error : error }.

Definition IsTemporary (err : option accept_error) : bool :=
  match err with
  | None => false
  | Some e =>
      if ae_closed e then false
      else if ae_timeout e then true
      else match ae_errno e with
           | Some EMFILE | Some ENFILE | Some ENOBUFS | Some ENOMEM | Some ECONNABORTED | Some ECONNRESET => true
           | _ => false
           end
  end.

Definition minBackoff : Z := 5 * Millisecond.
Definition maxBackoff : Z := Second.

(** [Backoff.Next]: the new delay, which is also the state. *)
Definition Next (delay : Z) : Z :=
  let delay := if Z.eqb delay 0 then minBackoff else int64 (delay * 2) in
  if Z.ltb maxBackoff delay then maxBackoff else delay.

(** [Reset] *)
Definition Reset : Z := 0.

(** * The configuration *)

Definition DefaultMaxPendingAuth : Z := 128.
Definition DefaultMaxAuthWorkers : Z := 32.

Definition ErrNilListener : error := EMsg (str "nil listener").
Definition ErrAuthBackpressure : error := EMsg (str "auth pending queue full").
Definition ErrAuthSourceLimit : error := EMsg (str "auth per-source pending limit reached").

(** [lc_ReplayCache] is the [ReplayCache] of [lc_Auth], when it has one. *)
Record ListenerConfig := mkListenerConfig {
  lc_Auth : ServerConfig; lc_ReplayCache : option Memory.t;
  lc_MaxPendingAuth : Z; lc_MaxAuthWorkers : Z; lc_MaxPendingAuthPerSource : Z;
}.

Definition withDefaults (c : ListenerConfig) : ListenerConfig :=
  let auth := sv_WithDefaults (lc_Auth c) in
  mkListenerConfig auth
    (match lc_ReplayCache c with
     | Some rc => Some rc
     | None => Some (Memory.NewMemoryReplayCache (int64 (sv_TimeWindow auth * 2)))
     end)
    (if Z.leb (lc_MaxPendingAuth c) 0 then DefaultMaxPendingAuth else lc_MaxPendingAuth c)
    (if Z.leb (lc_MaxAuthWorkers c) 0 then DefaultMaxAuthWorkers else lc_MaxAuthWorkers c)
    (lc_MaxPendingAuthPerSource c).

(** * The state *)

(** Where a goroutine is. The accept loop holds a connection between [Acquire]
    and the [select]; a worker has taken, tracks, has finished with, has
    untracked, or offers a connection. *)
Inductive accept_pc := Accepting | Holding (c : nat) | Sleeping (d : Z) | AcceptStopped.

Inductive worker_pc :=
| Idle
| Taken (c : nat)
| Authenticating (c : nat)
| Finished (c : nat) (ok : bool)
| Untracked (c : nat) (ok : bool)
| Offering (c : nat)
| WorkerStopped.

(** How far [Close] has come. *)
Inductive close_pc := NotClosed | ErrSet | Cancelled | DoneClosed | ListenerClosed | CloseFinished.

#[export] Instance accept_pc_eq_dec : EqDecision accept_pc.
Proof. solve_decision. Defined.
#[export] Instance worker_pc_eq_dec : EqDecision worker_pc.
Proof. solve_decision. Defined.
#[export] Instance close_pc_eq_dec : EqDecision close_pc.
Proof. solve_decision. Defined.

Inductive listener_event := OnAuthDrop (remote : option net_Addr) (reason : error) (pending : Z).

(** [l_remotes] are the remote addresses of the connections so far. [l_source]
    is the limiter with the release functions it gave out, and [l_releases] says
    which of them belongs to a connection. *)
Record lstate := mkL {
  l_remotes : list (option net_Addr);
  l_source : IPLimit.world;
  l_releases : gmap nat nat;
  l_pending : list nat;
  l_pendingClosed : bool;
  l_inFlight : gset nat;
  l_accept : accept_pc;
  l_backoff : Z;
  l_workers : list worker_pc;
  l_close : close_pc;
  l_done : bool;
  l_err : option error;
  l_closed : gset nat;
  l_delivered : list nat;
  l_events : list listener_event;
}.

Definition set_accept (a : accept_pc) (s : lstate) : lstate :=
  mkL (l_remotes s) (l_source s) (l_releases s) (l_pending s) (l_pendingClosed s) (l_inFlight s) a (l_backoff s)
    (l_workers s) (l_close s) (l_done s) (l_err s) (l_closed s) (l_delivered s) (l_events s).
Definition set_backoff (b : Z) (s : lstate) : lstate :=
  mkL (l_remotes s) (l_source s) (l_releases s) (l_pending s) (l_pendingClosed s) (l_inFlight s) (l_accept s) b
    (l_workers s) (l_close s) (l_done s) (l_err s) (l_closed s) (l_delivered s) (l_events s).
Definition set_worker (i : nat) (w : worker_pc) (s : lstate) : lstate :=
  mkL (l_remotes s) (l_source s) (l_releases s) (l_pending s) (l_pendingClosed s) (l_inFlight s) (l_accept s) (l_backoff s)
    (<[i := w]> (l_workers s)) (l_close s) (l_done s) (l_err s) (l_closed s) (l_delivered s) (l_events s).
Definition set_pending (p : list nat) (s : lstate) : lstate :=
  mkL (l_remotes s) (l_source s) (l_releases s) p (l_pendingClosed s) (l_inFlight s) (l_accept s) (l_backoff s)
    (l_workers s) (l_close s) (l_done s) (l_err s) (l_closed s) (l_delivered s) (l_events s).
Definition set_inFlight (f : gset nat) (s : lstate) : lstate :=
  mkL (l_remotes s) (l_source s) (l_releases s) (l_pending s) (l_pendingClosed s) f (l_accept s) (l_backoff s)
    (l_workers s) (l_close s) (l_done s) (l_err s) (l_closed s) (l_delivered s) (l_events s).
Definition set_close (c : close_pc) (s : lstate) : lstate :=
  mkL (l_remotes s) (l_source s) (l_releases s) (l_pending s) (l_pendingClosed s) (l_inFlight s) (l_accept s) (l_backoff s)
    (l_workers s) c (l_done s) (l_err s) (l_closed s) (l_delivered s) (l_events s).
Definition deliver (c : nat) (s : lstate) : lstate :=
  mkL (l_remotes s) (l_source s) (l_releases s) (l_pending s) (l_pendingClosed s) (l_inFlight s) (l_accept s) (l_backoff s)
    (l_workers s) (l_close s) (l_done s) (l_err s) (l_closed s) (l_delivered s ++ [c]) (l_events s).

(** [conn.Close()] of some connections *)
Definition conn_Close (cs : gset nat) (s : lstate) : lstate :=
  mkL (l_remotes s) (l_source s) (l_releases s) (l_pending s) (l_pendingClosed s) (l_inFlight s) (l_accept s) (l_backoff s)
    (l_workers s) (l_close s) (l_done s) (l_err s) (cs ∪ l_closed s) (l_delivered s) (l_events s).

(** ** The methods that the goroutines share *)

Definition setErr (err : option error) (s : lstate) : lstate :=
  match err, l_err s with
  | Some e, None =>
      mkL (l_remotes s) (l_source s) (l_releases s) (l_pending s) (l_pendingClosed s) (l_inFlight s) (l_accept s) (l_backoff s)
        (l_workers s) (l_close s) (l_done s) (Some e) (l_closed s) (l_delivered s) (l_events s)
  | _, _ => s
  end.

Definition acceptErr (s : lstate) : error := default net_ErrClosed (l_err s).

Definition closeDone (s : lstate) : lstate :=
  mkL (l_remotes s) (l_source s) (l_releases s) (l_pending s) (l_pendingClosed s) (l_inFlight s) (l_accept s) (l_backoff s)
    (l_workers s) (l_close s) true (l_err s) (l_closed s) (l_delivered s) (l_events s).

Definition reportAuthDrop (remote : option net_Addr) (reason : error) (s : lstate) : lstate :=
  mkL (l_remotes s) (l_source s) (l_releases s) (l_pending s) (l_pendingClosed s) (l_inFlight s) (l_accept s) (l_backoff s)
    (l_workers s) (l_close s) (l_done s) (l_err s) (l_closed s) (l_delivered s)
    (l_events s ++ [OnAuthDrop remote reason (len (l_pending s))]).

(** [perSource.Acquire] for a connection that has just arrived: its number and,
    when it was let in, the release function. *)
Definition arrive (remote : option net_Addr) (s : lstate) : nat * bool * lstate :=
  let c := length (l_remotes s) in
  let '(ok, src) := IPLimit.step (l_source s) (IPLimit.EAccept remote) in
  (c, ok,
   mkL (l_remotes s ++ [remote]) src (l_releases s) (l_pending s) (l_pendingClosed s) (l_inFlight s) (l_accept s) (l_backoff s)
     (l_workers s) (l_close s) (l_done s) (l_err s) (l_closed s) (l_delivered s) (l_events s)).

(** [setRelease]: the release function is the last one given out. *)
Definition setRelease (c : nat) (s : lstate) : lstate :=
  mkL (l_remotes s) (l_source s) (<[c := pred (length (IPLimit.held (l_source s)))]> (l_releases s)) (l_pending s) (l_pendingClosed s)
    (l_inFlight s) (l_accept s) (l_backoff s) (l_workers s) (l_close s) (l_done s) (l_err s) (l_closed s) (l_delivered s) (l_events s).

Definition releaseSource (c : nat) (s : lstate) : lstate :=
  let src :=
    match l_releases s !! c with
    | Some r => snd (IPLimit.step (l_source s) (IPLimit.EClose r))
    | None => l_source s
    end in
  mkL (l_remotes s) src (delete c (l_releases s)) (l_pending s) (l_pendingClosed s) (l_inFlight s) (l_accept s) (l_backoff s)
    (l_workers s) (l_close s) (l_done s) (l_err s) (l_closed s) (l_delivered s) (l_events s).

Definition trackInFlight (c : nat) (s : lstate) : lstate :=
  if l_done s then conn_Close {[c]} s else set_inFlight ({[c]} ∪ l_inFlight s) s.

Definition untrackInFlight (c : nat) (s : lstate) : lstate := set_inFlight (l_inFlight s ∖ {[c]}) s.

Definition closeInFlight (s : lstate) : lstate := conn_Close (l_inFlight s) s.

(** The accept loop returns, and closes the queue. *)
Definition accept_return (s : lstate) : lstate :=
  mkL (l_remotes s) (l_source s) (l_releases s) (l_pending s) true (l_inFlight s) AcceptStopped (l_backoff s)
    (l_workers s) (l_close s) (l_done s) (l_err s) (l_closed s) (l_delivered s) (l_events s).

(** * The steps *)

Inductive label :=
(* the accept loop *)
| LAccept (remote : option net_Addr)
| LAcceptErr (e : accept_error)
| LQueue
| LQuit
| LDrop
| LWake
| LSleepQuit
(* worker [i] *)
| WTake (i : nat)
| WExit (i : nat)
| WTrack (i : nat)
| WAuth (i : nat) (ok : bool)
| WUntrack (i : nat)
| WRelease (i : nat)
| WOffer (i : nat)
| WQuit (i : nat)
(* the next step of [Close] *)
| CClose.

Definition listener_closed (s : lstate) : bool := bool_decide (l_close s ∈ [ListenerClosed; CloseFinished]).

(** [acceptLoop] *)
Definition accept_step (max : Z) (s : lstate) (x : label) : option lstate :=
  match l_accept s, x with
  | Accepting, LAccept remote =>
      if listener_closed s then None
      else
        let '(c, ok, s) := arrive remote (set_backoff Reset s) in
        if ok : bool then Some (set_accept (Holding c) (setRelease c s))
        else Some (conn_Close {[c]} (reportAuthDrop remote ErrAuthSourceLimit s))
  | Accepting, LAcceptErr e =>
      if listener_closed s && negb (ae_closed e) then None
      else if IsTemporary (Some e) then
        let d := Next (l_backoff s) in Some (set_accept (Sleeping d) (set_backoff d s))
      else Some (accept_return (closeDone (setErr (Some (ae_error e)) s)))
  | Sleeping _, LWake => Some (set_accept Accepting s)
  | Sleeping _, LSleepQuit => if l_done s then Some (accept_return s) else None
  | Holding c, LQueue =>
      if Z.ltb (len (l_pending s)) max then Some (set_accept Accepting (set_pending (l_pending s ++ [c]) s)) else None
  | Holding c, LQuit => if l_done s then Some (accept_return (conn_Close {[c]} (releaseSource c s))) else None
  | Holding c, LDrop =>
      if l_done s || Z.ltb (len (l_pending s)) max then None
      else Some (set_accept Accepting (conn_Close {[c]}
                   (reportAuthDrop (mjoin (l_remotes s !! c)) ErrAuthBackpressure (releaseSource c s))))
  | _, _ => None
  end.

(** [authWorker] and [authenticateConn]; a failed authentication has closed the
    connection. *)
Definition worker_step (i : nat) (w : worker_pc) (s : lstate) (x : label) : option lstate :=
  match w, x with
  | Idle, WTake _ =>
      match l_pending s with
      | c :: pending => Some (set_worker i (Taken c) (set_pending pending s))
      | [] => None
      end
  | Idle, WExit _ =>
      match l_pending s with
      | [] => if l_pendingClosed s then Some (set_worker i WorkerStopped s) else None
      | _ :: _ => None
      end
  | Taken c, WTrack _ => Some (set_worker i (Authenticating c) (trackInFlight c s))
  | Authenticating c, WAuth _ ok =>
      Some (set_worker i (Finished c ok) (if ok : bool then s else conn_Close {[c]} s))
  | Finished c ok, WUntrack _ => Some (set_worker i (Untracked c ok) (untrackInFlight c s))
  | Untracked c ok, WRelease _ => Some (set_worker i (if ok : bool then Offering c else Idle) (releaseSource c s))
  | Offering c, WOffer _ => Some (set_worker i Idle (deliver c s))
  | Offering c, WQuit _ => if l_done s then Some (set_worker i WorkerStopped (conn_Close {[c]} s)) else None
  | _, _ => None
  end.

(** [Close]; its body runs once. *)
Definition close_step (s : lstate) : option lstate :=
  match l_close s with
  | NotClosed => Some (set_close ErrSet (setErr (Some net_ErrClosed) s))
  | ErrSet => Some (set_close Cancelled s)
  | Cancelled => Some (set_close DoneClosed (closeDone s))
  | DoneClosed => Some (set_close ListenerClosed s)
  | ListenerClosed => Some (set_close CloseFinished (closeInFlight s))
  | CloseFinished => None
  end.

Definition worker_of (x : label) : option nat :=
  match x with
  | WTake i | WExit i | WTrack i | WAuth i _ | WUntrack i | WRelease i | WOffer i | WQuit i => Some i
  | _ => None
  end.

Definition lstep (max : Z) (s : lstate) (x : label) : option lstate :=
  match x with
  | CClose => close_step s
  | _ =>
      match worker_of x with
      | Some i => w ← l_workers s !! i; worker_step i w s x
      | None => accept_step max s x
      end
  end.

Fixpoint lrun (max : Z) (s : lstate) (xs : list label) : option lstate :=
  match xs with [] => Some s | x :: xs => s ← lstep max s x; lrun max s xs end.

(** The queue's capacity and the state after [start]. *)
Definition lstart (cfg : ListenerConfig) : Z * lstate :=
  (lc_MaxPendingAuth cfg,
   mkL [] (IPLimit.mkWorld (IPLimit.New (lc_MaxPendingAuthPerSource cfg)) []) ∅ [] false ∅ Accepting 0
     (replicate (Z.to_nat (lc_MaxAuthWorkers cfg)) Idle) NotClosed false None ∅ [] []).

(** [ln] says whether the listener is there. *)
Definition WrapListenerWithConfigE (ln : bool) (cfg : ListenerConfig) : res (Z * lstate) :=
  if negb ln then Err ErrNilListener
  else
    let cfg := withDefaults cfg in
    _ ← NewServer (lc_Auth cfg) (lc_ReplayCache cfg);
    Ok (lstart cfg).

(** Every goroutine has returned, so [Accept] returns [acceptErr]. *)
Definition all_stopped (s : lstate) : bool :=
  bool_decide (l_accept s = AcceptStopped) && forallb (fun w => bool_decide (w = WorkerStopped)) (l_workers s).

(** [Accept], when it returns at once: the connection a worker offers, or the
    error once [ready] is closed. *)
Definition Accept (s : lstate) (i : nat) : option (res nat * lstate) :=
  if all_stopped s then Some (Err (acceptErr s), s)
  else
    match l_workers s !! i with
    | Some (Offering c) => Some (Ok c, set_worker i Idle (deliver c s))
    | _ => None
    end.
