(* ===== verification/ListenerSpec.v ===== *)
(** The authenticated listener over all interleavings of its goroutines.

    [effect_of] says what a step does to the connections: enter a slot, be
    refused, leave, pass to the consumer's side, be delivered or be abandoned.
    The theorems follow by going over the effects: the limits hold and no slot
    is lost ([listener_limits]), every connection is in one place or closed and
    only authenticated ones are delivered ([listener_accounting]), a closed
    listener comes to rest ([listener_shutdown]), and what it may forget when it
    does ([listener_close_leak]). *)

From Stdlib Require Import ZArith Lia String.
From Stdlib Require Strings.Byte.
From stdpp Require Import base list gmap strings.
From S2P Require Import Prelude GoStd Envelope Replay Net AuthTypes AuthServer Listener.

Open Scope Z_scope.

#[local] Arguments sum_of : simpl never.
#[local] Arguments setErr : simpl never.
#[local] Arguments IPLimit.step : simpl never.

(** * Where the connections are *)

Definition b2z (b : bool) : Z := if b then 1 else 0.

Section Counts.
Context (p : nat -> bool).
Implicit Types (s : lstate) (w : worker_pc).

Definition hold_w (a : accept_pc) : Z := match a with Holding c => b2z (p c) | _ => 0 end.
Definition slot_w w : Z := match w with Taken c | Authenticating c | Finished c _ | Untracked c _ => b2z (p c) | _ => 0 end.
Definition offer_w w : Z := match w with Offering c => b2z (p c) | _ => 0 end.

(** The connections with a slot of their source, those offered to [Accept] and
    those it has returned. *)
Definition in_slots s : Z := hold_w (l_accept s) + sum_of (fun c => b2z (p c)) (l_pending s) + sum_of slot_w (l_workers s).
Definition offered s : Z := sum_of offer_w (l_workers s).
Definition delivered s : Z := sum_of (fun c => b2z (p c)) (l_delivered s).
Definition placed s : Z := in_slots s + offered s + delivered s.

Lemma b2z_bound b : 0 <= b2z b <= 1.
Proof. destruct b; simpl; lia. Qed.

Lemma in_slots_nonneg s : 0 <= in_slots s.
Proof.
  unfold in_slots. pose proof (sum_of_nonneg (fun c => b2z (p c)) (l_pending s) ltac:(intros; apply b2z_bound)).
  pose proof (sum_of_nonneg slot_w (l_workers s) ltac:(intros []; simpl; try apply b2z_bound; lia)).
  destruct (l_accept s); simpl; try pose proof (b2z_bound (p c)); lia.
Qed.

Lemma offered_nonneg s : 0 <= offered s.
Proof. apply sum_of_nonneg. intros []; simpl; try apply b2z_bound; lia. Qed.

Lemma delivered_nonneg s : 0 <= delivered s.
Proof. apply sum_of_nonneg. intros; apply b2z_bound. Qed.

End Counts.

(** One connection. *)
Definition only (c : nat) : nat -> bool := fun c' => bool_decide (c' = c).

(** The connections of a source. *)
Definition from (s : lstate) (k : bytes) : nat -> bool := fun c => bool_decide (Key (mjoin (l_remotes s !! c)) = Some k).

(** * Effects *)

Inductive effect :=
| Quiet
| Enter (remote : option net_Addr)
| Refuse (remote : option net_Addr)
| Leave (c : nat)
| Pass (c : nat)
| Deliver (c : nat)
| Abandon (c : nat).

Definition effect_of (s : lstate) (x : label) : effect :=
  match x with
  | LAccept remote => if fst (IPLimit.step (l_source s) (IPLimit.EAccept remote)) then Enter remote else Refuse remote
  | LQuit | LDrop => match l_accept s with Holding c => Leave c | _ => Quiet end
  | WRelease i =>
      match l_workers s !! i with Some (Untracked c ok) => if ok : bool then Pass c else Leave c | _ => Quiet end
  | WOffer i => match l_workers s !! i with Some (Offering c) => Deliver c | _ => Quiet end
  | WQuit i => match l_workers s !! i with Some (Offering c) => Abandon c | _ => Quiet end
  | _ => Quiet
  end.

Section Deltas.
Context (s : lstate).
Let n := length (l_remotes s).

Definition d_slots (e : effect) (p : nat -> bool) : Z :=
  match e with Enter _ => b2z (p n) | Leave c | Pass c => - b2z (p c) | _ => 0 end.
Definition d_offered (e : effect) (p : nat -> bool) : Z :=
  match e with Pass c => b2z (p c) | Deliver c | Abandon c => - b2z (p c) | _ => 0 end.
Definition d_delivered (e : effect) : list nat := match e with Deliver c => [c] | _ => [] end.
Definition d_remotes (e : effect) : list (option net_Addr) := match e with Enter r | Refuse r => [r] | _ => [] end.

(** The limiter and the release functions afterwards. *)
Definition d_source (e : effect) : IPLimit.world * gmap nat nat :=
  match e with
  | Enter r =>
      let src := snd (IPLimit.step (l_source s) (IPLimit.EAccept r)) in
      (src, <[n := pred (length (IPLimit.held src))]> (l_releases s))
  | Leave c | Pass c =>
      (match l_releases s !! c with
       | Some r => snd (IPLimit.step (l_source s) (IPLimit.EClose r))
       | None => l_source s
       end, delete c (l_releases s))
  | _ => (l_source s, l_releases s)
  end.

End Deltas.

Record does (s : lstate) (e : effect) (s' : lstate) : Prop := {
  do_slots : forall p, in_slots p s' = in_slots p s + d_slots s e p;
  do_offered : forall p, offered p s' = offered p s + d_offered e p;
  do_delivered : l_delivered s' = l_delivered s ++ d_delivered e;
  do_remotes : l_remotes s' = l_remotes s ++ d_remotes e;
  do_source : (l_source s', l_releases s') = d_source s e;
  do_closed : l_closed s ⊆ l_closed s';
  do_refused : match e with Refuse _ => length (l_remotes s) ∈ l_closed s' | Abandon c => c ∈ l_closed s' | _ => True end;
}.

(** The ways a step changes the places. *)
Ltac places := unfold in_slots, offered; intros; cbn; autorewrite with sums; cbn;
  rewrite ?(sum_of_insert _ _ _ _ _ ltac:(eassumption)); cbn; autorewrite with sums; cbn; try lia.

Lemma refused_same w r : fst (IPLimit.step w (IPLimit.EAccept r)) = false -> snd (IPLimit.step w (IPLimit.EAccept r)) = w.
Proof.
  destruct w as [l h]. unfold IPLimit.step. cbn. unfold IPLimit.Acquire. destruct l as [l|]; [|done]. destruct (Key r); [|done]. by destruct (Z.leb _ _).
Qed.

Lemma setErr_same err s : l_accept (setErr err s) = l_accept s /\ l_pending (setErr err s) = l_pending s /\
  l_workers (setErr err s) = l_workers s /\ l_delivered (setErr err s) = l_delivered s /\ l_remotes (setErr err s) = l_remotes s /\
  l_source (setErr err s) = l_source s /\ l_releases (setErr err s) = l_releases s /\ l_closed (setErr err s) = l_closed s /\
  l_close (setErr err s) = l_close s /\ l_done (setErr err s) = l_done s /\ l_inFlight (setErr err s) = l_inFlight s /\
  l_pendingClosed (setErr err s) = l_pendingClosed s.
Proof. unfold setErr. destruct err, (l_err s); by split_and!. Qed.

(** A step that moves nothing. *)
Lemma does_quiet s s' : (forall p, in_slots p s' = in_slots p s) -> (forall p, offered p s' = offered p s) ->
  l_delivered s' = l_delivered s -> l_remotes s' = l_remotes s -> l_source s' = l_source s -> l_releases s' = l_releases s ->
  l_closed s ⊆ l_closed s' -> does s Quiet s'.
Proof.
  intros H1 H2 H3 H4 H5 H6 H7. split; cbn; rewrite ?app_nil_r; auto; [intros; rewrite H1; lia|intros; rewrite H2; lia|congruence].
Qed.

Lemma accept_does max s x s' : accept_step max s x = Some s' -> worker_of x = None -> does s (effect_of s x) s'.
Proof.
  unfold accept_step. destruct (l_accept s) as [|c|d|] eqn:Ea; destruct x; try done.
  - destruct (listener_closed s); [done|]. cbn [effect_of]. unfold arrive. cbn [l_source set_backoff].
    destruct (IPLimit.step (l_source s) (IPLimit.EAccept remote)) as [ok src] eqn:Es. cbn [fst].
    destruct ok; intros [= <-] _.
    + split; try done; [places; rewrite Ea; cbn; lia|places|by rewrite app_nil_r|unfold d_source; by rewrite Es].
    + assert (src = l_source s) as ->.
      { pose proof (refused_same (l_source s) remote) as Hr. rewrite Es in Hr. by apply Hr. }
      split; try done; [places; rewrite Ea; cbn; lia|places|by rewrite app_nil_r|set_solver|cbn; set_solver].
  - destruct (listener_closed s && negb (ae_closed e)); [done|]. destruct (IsTemporary _); intros [= <-] _.
    + apply does_quiet; try done. places. rewrite Ea. cbn. lia.
    + destruct (setErr_same (Some (ae_error e)) s) as (E1 & E2 & E3 & E4 & E5 & E6 & E7 & E8 & _).
      apply does_quiet; cbn; try done; [|by intros; unfold offered; cbn; rewrite E3|by rewrite E8].
      intros p. unfold in_slots. cbn. rewrite Ea, E2, E3. cbn. lia.
  - destruct (Z.ltb _ _); [|done]. intros [= <-] _. apply does_quiet; try done. places. rewrite Ea. cbn. lia.
  - destruct (l_done s); [|done]. intros [= <-] _. cbn [effect_of]. rewrite Ea.
    split; try done; [places; rewrite Ea; cbn; lia|places|by rewrite app_nil_r|by rewrite app_nil_r|set_solver].
  - destruct (l_done s || _); [done|]. intros [= <-] _. cbn [effect_of]. rewrite Ea.
    split; try done; [places; rewrite Ea; cbn; lia|places|by rewrite app_nil_r|by rewrite app_nil_r|set_solver].
  - intros [= <-] _. apply does_quiet; try done. places. rewrite Ea. cbn. lia.
  - destruct (l_done s); [|done]. intros [= <-] _. apply does_quiet; try done. places. rewrite Ea. cbn. lia.
Qed.

Lemma worker_does i w s x s' : l_workers s !! i = Some w -> worker_of x = Some i -> worker_step i w s x = Some s' ->
  does s (effect_of s x) s'.
Proof.
  intros Ei Hx. unfold worker_step. destruct w as [|c|c|c ok|c ok|c|], x; try done; injection Hx as ->.
  - destruct (l_pending s) as [|c pending] eqn:Ep; [done|]. intros [= <-]. apply does_quiet; try done; places. rewrite Ep.
    autorewrite with sums. lia.
  - destruct (l_pending s) as [|c pending] eqn:Ep; [|done]. destruct (l_pendingClosed s); [|done]. intros [= <-].
    apply does_quiet; try done; places.
  - intros [= <-]. unfold trackInFlight. destruct (l_done s); apply does_quiet; try done; try (by places); set_solver.
  - intros [= <-]. destruct ok; apply does_quiet; try done; try (by places); set_solver.
  - intros [= <-]. apply does_quiet; try done; places.
  - intros [= <-]. cbn [effect_of]. rewrite Ei. destruct ok; (split; try done; [places..|by rewrite app_nil_r|by rewrite app_nil_r]).
  - intros [= <-]. cbn [effect_of]. rewrite Ei. split; try done; [places..|by rewrite app_nil_r].
  - destruct (l_done s); [|done]. intros [= <-]. cbn [effect_of]. rewrite Ei.
    split; try done; [places..|by rewrite app_nil_r|by rewrite app_nil_r|set_solver|cbn; set_solver].
Qed.

Lemma close_does s s' : close_step s = Some s' -> does s Quiet s'.
Proof.
  unfold close_step. destruct (setErr_same (Some net_ErrClosed) s) as (E1 & E2 & E3 & E4 & E5 & E6 & E7 & E8 & _).
  destruct (l_close s); try done; intros [= <-]; apply does_quiet; cbn; try done; try (by rewrite E8); try set_solver.
  - intros p. unfold in_slots. cbn. by rewrite E1, E2, E3.
  - intros p. unfold offered. cbn. by rewrite E3.
Qed.

Lemma step_does max s x s' : lstep max s x = Some s' -> does s (effect_of s x) s'.
Proof.
  unfold lstep. destruct x; cbn [worker_of]; intros E;
    try (by eapply accept_does; [exact E|]);
    try (destruct (l_workers s !! i) as [w|] eqn:Ei; [|done]; by eapply worker_does; [exact Ei|done|exact E]).
  by apply close_does.
Qed.

(** * Every connection is somewhere *)

(** A connection whose authentication failed is closed. *)
Definition failed_closed (s : lstate) : Prop :=
  forall i c, l_workers s !! i = Some (Finished c false) \/ l_workers s !! i = Some (Untracked c false) -> c ∈ l_closed s.

Lemma failed_worker i w s s' : failed_closed s -> l_workers s' = <[i := w]> (l_workers s) -> l_closed s ⊆ l_closed s' ->
  (forall c, w = Finished c false \/ w = Untracked c false -> c ∈ l_closed s') -> failed_closed s'.
Proof.
  intros F Ew Hc Hw j c Hj. rewrite Ew in Hj. destruct (decide (i = j)) as [->|Hne].
  - destruct (decide (j < length (l_workers s))%nat) as [Hl|Hl].
    + rewrite list_lookup_insert_eq in Hj by done. apply Hw. naive_solver.
    + rewrite list_insert_ge in Hj by lia. destruct Hj as [Hj|Hj]; apply lookup_lt_Some in Hj; lia.
  - rewrite list_lookup_insert_ne in Hj by done. apply Hc. by eapply F.
Qed.

Lemma failed_same s s' : failed_closed s -> l_workers s' = l_workers s -> l_closed s ⊆ l_closed s' -> failed_closed s'.
Proof. intros F Ew Hc i c Hi. rewrite Ew in Hi. apply Hc. by eapply F. Qed.

Lemma accept_workers max s x s' : accept_step max s x = Some s' -> l_workers s' = l_workers s.
Proof.
  unfold accept_step, arrive. destruct (l_accept s), x; try done; repeat case_match; try done; intros [= <-]; simplify_eq/=; try done.
  match goal with |- context [setErr ?err s] => exact (proj1 (proj2 (proj2 (setErr_same err s)))) end.
Qed.

Lemma close_workers s s' : close_step s = Some s' -> l_workers s' = l_workers s.
Proof.
  unfold close_step. destruct (l_close s); try done; intros [= <-]; try done.
  exact (proj1 (proj2 (proj2 (setErr_same (Some net_ErrClosed) s)))).
Qed.

(** What a worker's step leaves in its place. *)
Lemma worker_next i w s x s' : worker_step i w s x = Some s' -> exists w', l_workers s' = <[i := w']> (l_workers s) /\
  match w' with
  | Finished c ok => w = Authenticating c /\ (ok = false -> c ∈ l_closed s')
  | Untracked c ok => w = Finished c ok
  | _ => True
  end.
Proof.
  unfold worker_step, trackInFlight. destruct w as [|c|c|c ok|c ok|c|], x; try done.
  - destruct (l_pending s); [done|]. intros [= <-]. by eexists.
  - destruct (l_pending s); [|done]. destruct (l_pendingClosed s); [|done]. intros [= <-]. by eexists.
  - intros [= <-]. destruct (l_done s); by eexists.
  - intros [= <-]. destruct ok; (eexists; split; [done|]); cbn; split; try done; intros; set_solver.
  - intros [= <-]. by eexists.
  - intros [= <-]. destruct ok; by eexists.
  - intros [= <-]. by eexists.
  - destruct (l_done s); [|done]. intros [= <-]. by eexists.
Qed.

Lemma step_cases max s x s' : lstep max s x = Some s' ->
  (worker_of x = None /\ l_workers s' = l_workers s) \/
  exists i w, worker_of x = Some i /\ l_workers s !! i = Some w /\ worker_step i w s x = Some s'.
Proof.
  unfold lstep. destruct x; cbn [worker_of]; intros E;
    try (left; split; [done|]; by eapply accept_workers);
    try (destruct (l_workers s !! i) as [w|] eqn:Ei; [|done]; right; by exists i, w).
  left. split; [done|]. by apply close_workers.
Qed.

Lemma failed_step max s x s' : failed_closed s -> lstep max s x = Some s' -> failed_closed s'.
Proof.
  intros F E. pose proof (do_closed _ _ _ (step_does _ _ _ _ E)) as Hc.
  destruct (step_cases _ _ _ _ E) as [[_ Ew]|(i & w & _ & Ei & Es)]; [by eapply failed_same|].
  destruct (worker_next _ _ _ _ _ Es) as (w' & Ew & Hw). eapply failed_worker; [done|exact Ew|done|].
  intros c [->| ->]; [by apply Hw|]. subst w. apply Hc. eapply F. left. exact Ei.
Qed.

(** A connection that leaves its slot without being offered is closed. *)
Lemma leave_closed max s x s' c : failed_closed s -> lstep max s x = Some s' -> effect_of s x = Leave c -> c ∈ l_closed s'.
Proof.
  intros F E. pose proof (do_closed _ _ _ (step_does _ _ _ _ E)) as Hc. destruct x; cbn [effect_of]; try done.
  - by case_match.
  - cbn in E. unfold accept_step in E. destruct (l_accept s) as [|c'| |]; try done. destruct (l_done s); [|done].
    injection E as <-. intros [= ->]. cbn. set_solver.
  - cbn in E. unfold accept_step in E. destruct (l_accept s) as [|c'| |]; try done. destruct (l_done s || _); [done|].
    injection E as <-. intros [= ->]. cbn. set_solver.
  - destruct (l_workers s !! i) as [w|] eqn:Ei; [|done]. destruct w as [| | | |c' []| |]; try done. intros [= ->]. apply Hc. eapply F. by right.
  - by repeat case_match.
  - by repeat case_match.
Qed.

Record accounted (s : lstate) : Prop := {
  ac_once : forall c, placed (only c) s <= 1;
  ac_new : forall c, (length (l_remotes s) <= c)%nat -> placed (only c) s = 0;
  ac_all : forall c, (c < length (l_remotes s))%nat -> placed (only c) s = 1 \/ c ∈ l_closed s;
}.

Lemma placed_step max s x s' c : lstep max s x = Some s' ->
  placed (only c) s' = placed (only c) s +
    match effect_of s x with
    | Enter _ => b2z (bool_decide (length (l_remotes s) = c))
    | Leave c' | Abandon c' => - b2z (bool_decide (c' = c))
    | _ => 0
    end.
Proof.
  intros E. destruct (step_does _ _ _ _ E) as [D1 D2 D3 _ _ _ _]. unfold placed, delivered. rewrite D1, D2, D3. autorewrite with sums.
  destruct (effect_of s x); cbn; autorewrite with sums; cbn; unfold only; lia.
Qed.

Lemma accounted_step max s x s' : failed_closed s -> accounted s -> lstep max s x = Some s' -> accounted s'.
Proof.
  intros F [A1 A2 A3] E. pose proof (fun c => placed_step _ _ _ _ c E) as Hp. pose proof (step_does _ _ _ _ E) as [_ _ _ D4 _ D6 D7].
  assert (Hlen : length (l_remotes s') = (length (l_remotes s) + length (d_remotes (effect_of s x)))%nat) by (by rewrite D4, length_app).
  assert (Hpos : forall c, 0 <= placed (only c) s').
  { intros c. unfold placed. pose proof (in_slots_nonneg (only c) s'). pose proof (offered_nonneg (only c) s'). pose proof (delivered_nonneg (only c) s'). lia. }
  assert (Hl : forall c, effect_of s x = Leave c -> c ∈ l_closed s') by (intros; by eapply leave_closed).
  split; intros c; specialize (Hp c); specialize (Hpos c); specialize (A1 c); specialize (A2 c); specialize (A3 c); rewrite ?Hlen;
    destruct (effect_of s x) as [|r|r|c'|c'|c'|c']; cbn in *; revert Hp; try case_bool_decide; cbn; intros Hp;
    try lia; intros Hc; try lia.
  all: try (right; apply D6; destruct A3; [lia|lia|done]); try (destruct A3 as [|A3]; [lia|left; lia|right; by apply D6]).
  all: try (left; rewrite A2 in Hp by lia; lia).
  all: subst; auto.
  destruct (decide (c = length (l_remotes s))) as [->|]; [by right|]. destruct A3 as [|A3]; [lia|left; lia|right; by apply D6].
Qed.

(** * The slots of the sources *)

(** The release function that [Acquire] gives for an address. *)
Definition fresh (lim : option IPLimit.Limiter) (remote : option net_Addr) : IPLimit.release :=
  match lim, Key remote with Some _, Some k => IPLimit.Lease k false | _, _ => IPLimit.Noop end.

Definition remote_of (s : lstate) (c : nat) : option net_Addr := mjoin (l_remotes s !! c).

Lemma accepted_source w r : fst (IPLimit.step w (IPLimit.EAccept r)) = true ->
  let w' := snd (IPLimit.step w (IPLimit.EAccept r)) in
  IPLimit.held w' = IPLimit.held w ++ [fresh (IPLimit.lim w) r] /\
  (IPLimit.lim w = None <-> IPLimit.lim w' = None) /\
  forall k, IPLimit.open_conns k w' = IPLimit.open_conns k w + b2z (IPLimit.is_open k (fresh (IPLimit.lim w) r)).
Proof.
  destruct w as [l h]. unfold IPLimit.step, fresh. cbn. unfold IPLimit.Acquire, IPLimit.open_conns.
  destruct l as [l|]; [destruct (Key r) as [key|]; [destruct (Z.leb _ _); [done|]|]|]; intros _; cbn; (split; [done|]);
    (split; [done|]); intros k; rewrite IPLimit.filter_snoc_len; reflexivity.
Qed.

Lemma released_source w r rel : IPLimit.held w !! r = Some rel -> (IPLimit.lim w = None -> rel = IPLimit.Noop) ->
  let w' := snd (IPLimit.step w (IPLimit.EClose r)) in
  (exists rel', IPLimit.held w' = <[r := rel']> (IPLimit.held w)) /\
  (IPLimit.lim w = None <-> IPLimit.lim w' = None) /\
  forall k, IPLimit.open_conns k w' = IPLimit.open_conns k w - b2z (IPLimit.is_open k rel).
Proof.
  destruct w as [l h]. unfold IPLimit.step. cbn. intros Er Hl. rewrite Er. unfold IPLimit.Release, IPLimit.open_conns.
  destruct rel as [|key []]; cbn; [..|destruct l as [l|]; [|by specialize (Hl eq_refl)]]; cbn;
    (split; [by eexists|]); (split; [done|]); intros k; rewrite (IPLimit.filter_insert_len _ _ _ _ _ Er); cbn; repeat case_bool_decide; cbn; lia.
Qed.

Record slots_ok (s : lstate) : Prop := {
  so_rel : forall c, in_slots (only c) s = b2z (bool_decide (is_Some (l_releases s !! c)));
  so_held : forall c r, l_releases s !! c = Some r -> IPLimit.held (l_source s) !! r = Some (fresh (IPLimit.lim (l_source s)) (remote_of s c));
  so_inj : forall c1 c2 r, l_releases s !! c1 = Some r -> l_releases s !! c2 = Some r -> c1 = c2;
  so_count : forall k, IPLimit.lim (l_source s) <> None -> in_slots (from s k) s = IPLimit.open_conns k (l_source s);
}.

(** [in_slots] looks only at the connections in the slots. *)
Lemma in_slots_ext p q s : (forall c, 0 < in_slots (only c) s -> p c = q c) -> in_slots p s = in_slots q s.
Proof.
  intros Hpq. assert (Hb : forall c c', 0 <= b2z (only c c') <= 1) by (intros; apply b2z_bound).
  assert (Hown : forall c, b2z (only c c) = 1) by (intros c; unfold only; by rewrite bool_decide_eq_true_2).
  assert (Hparts : forall c, 0 <= hold_w (only c) (l_accept s) /\ 0 <= sum_of (fun x => b2z (only c x)) (l_pending s) /\ 0 <= sum_of (slot_w (only c)) (l_workers s)).
  { intros c. split_and!; [destruct (l_accept s); cbn; try apply b2z_bound; lia|apply sum_of_nonneg; intros; apply b2z_bound|].
    apply sum_of_nonneg. intros []; cbn; try apply b2z_bound; lia. }
  unfold in_slots. f_equal; [f_equal|].
  - destruct (l_accept s) as [|c| |] eqn:Ea; cbn; try done. f_equal. apply Hpq. unfold in_slots. rewrite Ea. cbn. rewrite Hown.
    specialize (Hparts c). lia.
  - unfold sum_of. f_equal. apply list_fmap_ext. intros j c Hj. cbn. f_equal. apply Hpq. unfold in_slots.
    pose proof (sum_of_elem (fun x => b2z (only c x)) (l_pending s) c ltac:(intros; apply b2z_bound) ltac:(by eapply list_elem_of_lookup_2)) as He.
    cbn in He. rewrite Hown in He. specialize (Hparts c). lia.
  - unfold sum_of. f_equal. apply list_fmap_ext. intros j w Hj.
    assert (Hw : forall c, slot_w (only c) w = 1 -> p c = q c).
    { intros c Hc. apply Hpq. unfold in_slots.
      pose proof (sum_of_elem (slot_w (only c)) (l_workers s) w ltac:(intros []; cbn; try apply b2z_bound; lia) ltac:(by eapply list_elem_of_lookup_2)).
      specialize (Hparts c). lia. }
    destruct w; cbn; try done; f_equal; apply Hw; cbn; apply Hown.
Qed.

Section SlotStep.
Context (s : lstate) (x : label) (s' : lstate).
Hypothesis (A : accounted s) (S : slots_ok s) (D : does s (effect_of s x) s').

(** The connections in the slots have arrived. *)
Lemma slot_old c : 0 < in_slots (only c) s -> (c < length (l_remotes s))%nat.
Proof.
  intros Hc. destruct (decide (c < length (l_remotes s))%nat); [done|]. pose proof (ac_new _ A c ltac:(lia)) as Hp. unfold placed in Hp.
  pose proof (offered_nonneg (only c) s). pose proof (delivered_nonneg (only c) s). lia.
Qed.

Lemma rel_old c r : l_releases s !! c = Some r -> (c < length (l_remotes s))%nat.
Proof. intros Hr. apply slot_old. rewrite (so_rel _ S), bool_decide_eq_true_2 by eauto. done. Qed.

Lemma remote_kept c : (c < length (l_remotes s))%nat -> remote_of s' c = remote_of s c.
Proof. intros Hc. unfold remote_of. by rewrite (do_remotes _ _ _ D), lookup_app_l. Qed.

Lemma from_kept k c : (c < length (l_remotes s))%nat -> from s' k c = from s k c.
Proof. intros Hc. unfold from. pose proof (remote_kept c Hc) as Hr. unfold remote_of in Hr. by rewrite Hr. Qed.

Lemma slots_from k : in_slots (from s' k) s' = in_slots (from s k) s + d_slots s (effect_of s x) (from s' k).
Proof. rewrite (do_slots _ _ _ D). f_equal. apply in_slots_ext. intros c Hc. by apply from_kept, slot_old. Qed.

(** A step that gives and takes no slot. *)
Lemma slots_still : (forall p, d_slots s (effect_of s x) p = 0) -> d_source s (effect_of s x) = (l_source s, l_releases s) -> slots_ok s'.
Proof.
  intros Hd Hs. pose proof (do_source _ _ _ D) as Es. rewrite Hs in Es. injection Es as Es1 Es2. split; rewrite ?Es1, ?Es2.
  - intros c. rewrite (do_slots _ _ _ D), Hd, (so_rel _ S). lia.
  - intros c r Hr. rewrite remote_kept by (by eapply rel_old). by apply (so_held _ S).
  - apply (so_inj _ S).
  - intros k Hl. rewrite slots_from, Hd, (so_count _ S) by done. lia.
Qed.

Lemma is_open_fresh l r k : l <> None -> IPLimit.is_open k (fresh l r) = bool_decide (Key r = Some k).
Proof.
  intros Hl. unfold fresh. destruct l; [|done]. destruct (Key r); cbn; [|by rewrite bool_decide_eq_false_2].
  apply bool_decide_ext. naive_solver.
Qed.

Lemma slots_enter r : effect_of s x = Enter r -> slots_ok s'.
Proof.
  intros He. pose proof (do_source _ _ _ D) as Es. pose proof (do_remotes _ _ _ D) as Er. pose proof slots_from as Hf. rewrite He in Es, Er, Hf.
  cbn [d_source d_remotes d_slots] in Es, Er, Hf. set (n := length (l_remotes s)) in *.
  assert (Hok : fst (IPLimit.step (l_source s) (IPLimit.EAccept r)) = true).
  { destruct x; cbn [effect_of] in He; repeat case_match; try done; by simplify_eq. }
  destruct (accepted_source _ _ Hok) as (Hh & Hl & Ho). injection Es as Es1 Es2. rewrite Hh, length_app in Es2. cbn [length] in Es2.
  replace (pred (length (IPLimit.held (l_source s)) + 1)) with (length (IPLimit.held (l_source s))) in Es2 by lia.
  assert (Hn : l_releases s !! n = None).
  { destruct (l_releases s !! n) as [j|] eqn:Ej; [|done]. apply rel_old in Ej. lia. }
  assert (Hlt : forall c j, l_releases s !! c = Some j -> (j < length (IPLimit.held (l_source s)))%nat).
  { intros c j Hj. by eapply lookup_lt_Some, (so_held _ S). }
  assert (Hnew : remote_of s' n = r).
  { unfold remote_of. rewrite Er, lookup_app_r by lia. by rewrite Nat.sub_diag. }
  split; rewrite ?Es1, ?Es2, ?Hh.
  - intros c. rewrite (do_slots _ _ _ D), He, (so_rel _ S). cbn [d_slots]. unfold only. fold n.
    destruct (decide (n = c)) as [<-|Hne].
    + rewrite Hn, lookup_insert_eq, (bool_decide_eq_true_2 (n = n)) by done. reflexivity.
    + rewrite lookup_insert_ne, (bool_decide_eq_false_2 (n = c)) by done. cbn. lia.
  - intros c j. destruct (decide (n = c)) as [<-|Hne].
    + rewrite lookup_insert_eq. intros [= <-]. rewrite lookup_app_r, Nat.sub_diag by lia. cbn. rewrite Hnew. unfold fresh.
      destruct (IPLimit.lim (l_source s)), (IPLimit.lim _) eqn:El; try done; naive_solver.
    + rewrite lookup_insert_ne by done. intros Hj. rewrite lookup_app_l by (by eapply Hlt). rewrite remote_kept by (by eapply rel_old).
      rewrite (so_held _ S c j Hj). unfold fresh. destruct (IPLimit.lim (l_source s)), (IPLimit.lim (snd _)); try done; naive_solver.
  - intros c1 c2 j. destruct (decide (n = c1)) as [<-|H1], (decide (n = c2)) as [<-|H2]; rewrite ?lookup_insert_eq, ?lookup_insert_ne by done;
      intros E1 E2; simplify_eq; [done|apply Hlt in E2; lia|apply Hlt in E1; lia|by eapply (so_inj _ S)].
  - intros k Hne. assert (Hne' : IPLimit.lim (l_source s) <> None) by naive_solver.
    rewrite Hf, Ho, (so_count _ S), is_open_fresh by done. unfold from at 1. pose proof Hnew as Hr. unfold remote_of in Hr. by rewrite Hr.
Qed.

Lemma slots_free c : effect_of s x = Leave c \/ effect_of s x = Pass c -> slots_ok s'.
Proof.
  intros He.
  assert (Hd : forall p, d_slots s (effect_of s x) p = - b2z (p c)) by (intros; destruct He as [-> | ->]; done).
  pose proof (do_source _ _ _ D) as Es. pose proof slots_from as Hf.
  assert (Er : l_remotes s' = l_remotes s).
  { pose proof (do_remotes _ _ _ D) as Er. destruct He as [He|He]; rewrite He in Er; cbn in Er; by rewrite app_nil_r in Er. }
  assert (Hslot : in_slots (only c) s = 1 /\ is_Some (l_releases s !! c)).
  { pose proof (do_slots _ _ _ D (only c)) as Hs. rewrite Hd in Hs. unfold only at 3 in Hs. rewrite bool_decide_eq_true_2 in Hs by done.
    pose proof (in_slots_nonneg (only c) s'). rewrite (so_rel _ S) in *. cbn in Hs. revert Hs. case_bool_decide; cbn; [by auto|lia]. }
  destruct Hslot as [H1 [r Hr]].
  assert (Es' : l_source s' = snd (IPLimit.step (l_source s) (IPLimit.EClose r)) /\ l_releases s' = delete c (l_releases s)).
  { destruct He as [He|He]; rewrite He in Es; cbn [d_source] in Es; rewrite Hr in Es; by injection Es. }
  destruct Es' as [Es1 Es2]. pose proof (so_held _ S c r Hr) as Hh.
  destruct (released_source _ _ _ Hh) as ([rel' Hh'] & Hl & Ho). { intros Hn. unfold fresh. by rewrite Hn. }
  split; rewrite ?Es1, ?Es2, ?Hh'.
  - intros c'. rewrite (do_slots _ _ _ D), Hd. unfold only at 2. destruct (decide (c = c')) as [<-|Hne].
    + rewrite H1, lookup_delete_eq, (bool_decide_eq_true_2 (c = c)) by done. reflexivity.
    + rewrite lookup_delete_ne, (bool_decide_eq_false_2 (c = c')), (so_rel _ S) by done. cbn. lia.
  - intros c' j Hj. apply lookup_delete_Some in Hj as [Hne Hj].
    rewrite list_lookup_insert_ne by (intros ->; apply Hne; by eapply (so_inj _ S)).
    rewrite (so_held _ S c' j Hj), remote_kept by (by eapply rel_old). unfold fresh.
    destruct (IPLimit.lim (l_source s)), (IPLimit.lim (snd _)); try done; naive_solver.
  - intros c1 c2 j [_ E1]%lookup_delete_Some [_ E2]%lookup_delete_Some. by eapply (so_inj _ S).
  - intros k Hne. assert (Hne' : IPLimit.lim (l_source s) <> None) by naive_solver.
    rewrite Hf, Hd, Ho, (so_count _ S), is_open_fresh by done. rewrite from_kept by (by eapply rel_old). unfold from, remote_of. lia.
Qed.

Lemma slots_step : slots_ok s'.
Proof.
  assert (exists e, effect_of s x = e) as [[|r|r|c|c|c|c] He] by eauto; [|by eapply slots_enter| |apply (slots_free c); auto|apply (slots_free c); auto|..];
    apply slots_still; rewrite He; done.
Qed.

End SlotStep.

(** * Limits, stopping and errors *)

Definition closing (c : close_pc) : bool := bool_decide (c ∈ [DoneClosed; ListenerClosed; CloseFinished]).

Record misc_ok (max : Z) (nw : nat) (s : lstate) : Prop := {
  mi_pending : len (l_pending s) <= max;
  mi_workers : length (l_workers s) = nw;
  mi_stopped : l_pendingClosed s = true <-> l_accept s = AcceptStopped;
  mi_accept : l_accept s = AcceptStopped -> l_done s = true;
  mi_close : closing (l_close s) = true -> l_done s = true;
  mi_done : l_done s = true -> is_Some (l_err s);
  mi_err : l_close s <> NotClosed -> is_Some (l_err s);
}.

Lemma setErr_some e s : is_Some (l_err (setErr (Some e) s)).
Proof. unfold setErr. destruct (l_err s) eqn:El; [by rewrite El|by eexists]. Qed.

Ltac misc := split; cbn; autorewrite with len; rewrite ?length_insert; try done; try lia; try congruence; try (split; congruence); auto.

Lemma misc_accept max nw s x s' : misc_ok max nw s -> accept_step max s x = Some s' -> misc_ok max nw s'.
Proof.
  intros [M1 M2 M3 M4 M5 M6 M7]. unfold accept_step.
  assert (Hpc : l_accept s <> AcceptStopped -> l_pendingClosed s = false).
  { destruct (l_pendingClosed s); [|done]. intros Hne. by destruct Hne; apply M3. }
  destruct (l_accept s) as [|c|d|] eqn:Ea; destruct x; try done; specialize (Hpc ltac:(done)).
  - destruct (listener_closed s); [done|]. unfold arrive. destruct (IPLimit.step _ _) as [ok src]. destruct ok; intros [= <-]; misc.
  - destruct (listener_closed s && _); [done|]. destruct (IsTemporary _); intros [= <-]; [misc|].
    destruct (setErr_same (Some (ae_error e)) s) as (_ & E2 & E3 & _ & _ & _ & _ & _ & E9 & _).
    split; cbn; rewrite ?E2, ?E3; try done; intros; apply setErr_some.
  - destruct (Z.ltb_spec (len (l_pending s)) max); [|done]. intros [= <-]. misc. unfold len. simpl. unfold len in *. lia.
  - destruct (l_done s) eqn:Ed; [|done]. intros [= <-]. misc.
  - destruct (l_done s || _); [done|]. intros [= <-]. misc.
  - intros [= <-]. misc.
  - destruct (l_done s) eqn:Ed; [|done]. intros [= <-]. misc.
Qed.

Lemma misc_worker max nw i w s x s' : misc_ok max nw s -> worker_step i w s x = Some s' -> misc_ok max nw s'.
Proof.
  intros [M1 M2 M3 M4 M5 M6 M7]. unfold worker_step. destruct w as [|c|c|c ok|c ok|c|], x; try done.
  - destruct (l_pending s) as [|c pending] eqn:Ep; [done|]. intros [= <-]. rewrite len_cons in M1. misc.
  - destruct (l_pending s) eqn:Ep; [|done]. destruct (l_pendingClosed s) eqn:Ec; [|done]. intros [= <-]. misc.
  - intros [= <-]. unfold trackInFlight. generalize (l_done s) at 1. intros []; misc.
  - intros [= <-]. destruct ok; misc.
  - intros [= <-]. misc.
  - intros [= <-]. misc.
  - intros [= <-]. misc.
  - destruct (l_done s) eqn:Ed; [|done]. intros [= <-]. misc.
Qed.

Lemma misc_close max nw s s' : misc_ok max nw s -> close_step s = Some s' -> misc_ok max nw s'.
Proof.
  intros [M1 M2 M3 M4 M5 M6 M7]. destruct (setErr_same (Some net_ErrClosed) s) as (E1 & E2 & E3 & _ & _ & _ & _ & _ & E9 & E10 & _ & E12).
  unfold close_step. destruct (l_close s) eqn:Ec; try done; intros [= <-]; split; cbn; rewrite ?E1, ?E2, ?E3, ?E10, ?E12; try done;
    intros; try apply setErr_some; auto.
Qed.

Lemma misc_step max nw s x s' : misc_ok max nw s -> lstep max s x = Some s' -> misc_ok max nw s'.
Proof.
  intros M. unfold lstep. destruct x; cbn [worker_of]; intros E; try (by eapply misc_accept);
    try (destruct (l_workers s !! i) as [w|]; [|done]; by eapply misc_worker).
  by eapply misc_close.
Qed.

(** * Only authenticated connections are delivered *)

(** The connections whose authentication succeeded in a step, and in a run. *)
Definition authed (s : lstate) (x : label) : list nat :=
  match x with
  | WAuth i true => match l_workers s !! i with Some (Authenticating c) => [c] | _ => [] end
  | _ => []
  end.

Fixpoint authenticated (max : Z) (s : lstate) (xs : list label) : list nat :=
  match xs with
  | [] => []
  | x :: xs => match lstep max s x with Some s' => authed s x ++ authenticated max s' xs | None => [] end
  end.

Record authentic (L : list nat) (s : lstate) : Prop := {
  au_workers : forall i c, l_workers s !! i = Some (Finished c true) \/ l_workers s !! i = Some (Untracked c true) \/
    l_workers s !! i = Some (Offering c) -> c ∈ L;
  au_delivered : forall c, c ∈ l_delivered s -> c ∈ L;
}.

Lemma authentic_step max L s x s' : authentic L s -> lstep max s x = Some s' -> authentic (L ++ authed s x) s'.
Proof.
  intros [Hw Hd] E. pose proof (do_delivered _ _ _ (step_does _ _ _ _ E)) as Ed. split.
  - destruct (step_cases _ _ _ _ E) as [[_ Ew]|(i & w & Hx & Ei & Es)].
    { intros j c Hj. rewrite Ew in Hj. apply elem_of_app. left. by eapply Hw. }
    intros j c Hj.
    assert (exists w', l_workers s' = <[i := w']> (l_workers s) /\
      (w' = Finished c true \/ w' = Untracked c true \/ w' = Offering c -> c ∈ L ++ authed s x)) as (w' & Ew & Hw').
    { revert Es. clear -Hw Ei Hx. unfold worker_step, trackInFlight. destruct w as [|c'|c'|c' ok|c' ok|c'|], x; try done; injection Hx as ->.
      - destruct (l_pending s); [done|]. intros [= <-]. eexists; split; [done|naive_solver].
      - destruct (l_pending s); [|done]. destruct (l_pendingClosed s); [|done]. intros [= <-]. eexists; split; [done|naive_solver].
      - intros [= <-]. destruct (l_done s); (eexists; split; [done|naive_solver]).
      - intros [= <-]. destruct ok; (eexists; split; [done|]); [|naive_solver]. cbn. rewrite Ei. intros [[= ->]|[|]]; [set_solver|done..].
      - intros [= <-]. eexists; split; [done|]. intros [|[[= -> ->]|]]; [done|apply elem_of_app; left; eapply Hw; eauto|done].
      - intros [= <-]. destruct ok; (eexists; split; [done|]); [|naive_solver]. intros [|[|[= ->]]]; [done..|apply elem_of_app; left; eapply Hw; eauto].
      - intros [= <-]. eexists; split; [done|naive_solver].
      - destruct (l_done s); [|done]. intros [= <-]. eexists; split; [done|naive_solver]. }
    rewrite Ew in Hj. destruct (decide (i = j)) as [->|Hne].
    + rewrite list_lookup_insert_eq in Hj by (by eapply lookup_lt_Some). apply Hw'. naive_solver.
    + rewrite list_lookup_insert_ne in Hj by done. apply elem_of_app. left. by eapply Hw.
  - intros c. rewrite Ed, !elem_of_app. intros [Hc|Hc]; [left; by apply Hd|]. left.
    destruct x; cbn [effect_of] in Hc; repeat case_match; try (by apply elem_of_nil in Hc).
    apply list_elem_of_singleton in Hc as ->. eapply Hw. eauto.
Qed.

(** * Runs *)

Record linv (max : Z) (nw : nat) (lim : Z) (L : list nat) (s : lstate) : Prop := {
  li_failed : failed_closed s;
  li_places : accounted s;
  li_slots : slots_ok s;
  li_misc : misc_ok max nw s;
  li_auth : authentic L s;
  li_limit : 0 < lim -> IPLimit.inv lim (l_source s);
}.

Lemma limit_step lim s e s' : 0 < lim -> IPLimit.inv lim (l_source s) -> does s e s' -> IPLimit.inv lim (l_source s').
Proof.
  intros Hl I D. pose proof (do_source _ _ _ D) as Es.
  assert (l_source s' = fst (d_source s e)) as -> by (by rewrite <- Es).
  destruct e; cbn [d_source fst]; try done; try (destruct (l_releases s !! c); [|done]); by apply IPLimit.step_inv.
Qed.

Lemma linv_step max nw lim L s x s' : linv max nw lim L s -> lstep max s x = Some s' -> linv max nw lim (L ++ authed s x) s'.
Proof.
  intros [I1 I2 I3 I4 I5 I6] E. pose proof (step_does _ _ _ _ E) as D. split.
  - by eapply failed_step.
  - by eapply accounted_step.
  - by eapply slots_step.
  - by eapply misc_step.
  - by eapply authentic_step.
  - intros Hl. eapply limit_step; eauto.
Qed.

Lemma linv_run max nw lim xs : forall L s s', linv max nw lim L s -> lrun max s xs = Some s' ->
  linv max nw lim (L ++ authenticated max s xs) s'.
Proof.
  induction xs as [|x xs IH]; intros L s s' I E; cbn in E |- *; [injection E as <-; by rewrite app_nil_r|].
  destruct (lstep max s x) as [s1|] eqn:E1; [|done]. rewrite app_assoc. eapply IH; [by eapply linv_step|exact E].
Qed.

Lemma sum_of_replicate {A} (f : A -> Z) n x : f x = 0 -> sum_of f (replicate n x) = 0.
Proof. intros Hf. induction n; cbn; [done|]. rewrite sum_of_cons. lia. Qed.

Lemma linv_start cfg max s0 : WrapListenerWithConfigE true cfg = Ok (max, s0) ->
  max = lc_MaxPendingAuth (withDefaults cfg) /\
  linv max (Z.to_nat (lc_MaxAuthWorkers (withDefaults cfg))) (lc_MaxPendingAuthPerSource cfg) [] s0.
Proof.
  unfold WrapListenerWithConfigE. cbn [negb]. unfold mbind, res_bind. destruct (NewServer _ _) as [[]|]; [|done]. intros [= <- <-]. split; [done|].
  assert (Hz : forall p, in_slots p (lstart (withDefaults cfg)).2 = 0).
  { intros p. unfold in_slots. cbn. rewrite sum_of_nil, sum_of_replicate by done. lia. }
  assert (Hp : forall p, placed p (lstart (withDefaults cfg)).2 = 0).
  { intros p. unfold placed. rewrite Hz. unfold offered, delivered. cbn. rewrite sum_of_nil, sum_of_replicate by done. lia. }
  assert (Hw : forall i w, replicate (Z.to_nat (lc_MaxAuthWorkers (withDefaults cfg))) Idle !! i = Some w -> w = Idle).
  { intros i w Hi. by apply lookup_replicate in Hi as [-> _]. }
  split.
  - intros i c [Hi|Hi]; by apply Hw in Hi.
  - split; intros c; rewrite ?Hp; cbn; lia.
  - split; try (intros c; rewrite Hz); cbn; done.
  - split; cbn; try done; [|apply length_replicate].
    unfold len. cbn. unfold DefaultMaxPendingAuth. destruct (Z.leb_spec (lc_MaxPendingAuth cfg) 0); lia.
  - split; [|done]. intros i c [Hi|[Hi|Hi]]; by apply Hw in Hi.
  - intros Hl. cbn. unfold IPLimit.New. destruct (Z.leb_spec (lc_MaxPendingAuthPerSource cfg) 0); [lia|].
    eexists. split; [done|]. split; [done|]. intros k. cbn. rewrite lookup_empty. unfold IPLimit.open_conns, len. cbn. split; [done|lia].
Qed.

(** Property C8. The limits of the authenticated listener hold in every
    interleaving, and no slot is lost: the queue and the pool stay within their
    sizes, the counter of a source is the number of its connections that are
    queued or being authenticated, which never exceeds the configured limit, and
    a new connection of the source is refused exactly at that limit. *)
Theorem listener_limits (cfg : ListenerConfig) (max : Z) (s0 s : lstate) (xs : list label) (remote : option net_Addr) (k : bytes) :
  WrapListenerWithConfigE true cfg = Ok (max, s0) -> 0 < lc_MaxPendingAuthPerSource cfg ->
  lrun max s0 xs = Some s -> Key remote = Some k ->
  len (l_pending s) <= lc_MaxPendingAuth (withDefaults cfg) /\
  length (l_workers s) = Z.to_nat (lc_MaxAuthWorkers (withDefaults cfg)) /\
  in_slots (from s k) s <= lc_MaxPendingAuthPerSource cfg /\
  (exists l, IPLimit.lim (l_source s) = Some l /\ default 0 (IPLimit.n l !! k) = in_slots (from s k) s) /\
  (forall c, effect_of s (LAccept remote) = Refuse c <-> c = remote /\ in_slots (from s k) s = lc_MaxPendingAuthPerSource cfg).
Proof.
  intros Ew Hl Er Hk. destruct (linv_start _ _ _ Ew) as [Hm I0]. destruct (linv_run _ _ _ _ _ _ _ I0 Er) as [_ _ S M _ I].
  specialize (I Hl). pose proof I as (l & El & Hmax & Hc). destruct (Hc k) as [Hn Hle].
  assert (Hcount : in_slots (from s k) s = IPLimit.open_conns k (l_source s)) by (apply (so_count _ S); by rewrite El).
  rewrite Hcount. split; [rewrite <- Hm; apply M|]. split; [apply M|]. split; [done|]. split; [exists l; split; [done|by eapply IPLimit.cur_open]|].
  intros c. cbn [effect_of]. unfold IPLimit.step, IPLimit.Acquire. rewrite El, Hk, (IPLimit.cur_open _ _ _ k El I), Hmax.
  destruct (Z.leb_spec (lc_MaxPendingAuthPerSource cfg) (IPLimit.open_conns k (l_source s))); cbn; split; intros H'; try done.
  - injection H' as <-. split; [done|lia].
  - by destruct H' as [-> _].
  - lia.
Qed.

Lemma once_NoDup (l : list nat) : (forall c, sum_of (fun x => b2z (only c x)) l <= 1) -> NoDup l.
Proof.
  induction l as [|a l IH]; intros Hl; constructor.
  - intros Hin. specialize (Hl a). rewrite sum_of_cons in Hl.
    pose proof (sum_of_elem (fun x => b2z (only a x)) l a ltac:(intros; apply b2z_bound) Hin) as He. cbn in Hl, He.
    unfold only in Hl at 1, He at 1. rewrite bool_decide_eq_true_2 in Hl, He by done. cbn in Hl, He. lia.
  - apply IH. intros c. specialize (Hl c). rewrite sum_of_cons in Hl. pose proof (b2z_bound (only c a)). lia.
Qed.

(** Property C7. The authenticated listener loses and duplicates no connection:
    in every interleaving each connection that was accepted is in exactly one of
    the hands of the accept loop, the queue, a worker and the consumer, or it
    is closed; the consumer gets a connection at most once, and only one whose
    authentication succeeded. *)
Theorem listener_accounting (cfg : ListenerConfig) (max : Z) (s0 s : lstate) (xs : list label) :
  WrapListenerWithConfigE true cfg = Ok (max, s0) -> lrun max s0 xs = Some s ->
  (forall c, (c < length (l_remotes s))%nat -> placed (only c) s = 1 \/ placed (only c) s = 0 /\ c ∈ l_closed s) /\
  (forall c, (length (l_remotes s) <= c)%nat -> placed (only c) s = 0) /\
  NoDup (l_delivered s) /\ forall c, c ∈ l_delivered s -> c ∈ authenticated max s0 xs.
Proof.
  intros Ew Er. destruct (linv_start _ _ _ Ew) as [_ I0]. destruct (linv_run _ _ _ _ _ _ _ I0 Er) as [_ [A1 A2 A3] _ _ [_ Hd] _].
  assert (Hpos : forall c, 0 <= delivered (only c) s /\ delivered (only c) s <= placed (only c) s).
  { intros c. unfold placed. pose proof (in_slots_nonneg (only c) s). pose proof (offered_nonneg (only c) s). pose proof (delivered_nonneg (only c) s). lia. }
  split_and!; [|done| |exact Hd].
  - intros c Hc. specialize (A1 c). specialize (Hpos c). destruct (A3 c Hc) as [|]; [by left|]. destruct (Z.eq_dec (placed (only c) s) 1); [by left|right].
    split; [lia|done].
  - apply once_NoDup. intros c. specialize (Hpos c). specialize (A1 c). unfold delivered in Hpos. lia.
Qed.

(** * Shutting down *)

Definition accept_m (a : accept_pc) : Z := match a with Accepting => 1 | Sleeping _ => 2 | Holding _ => 8 | AcceptStopped => 0 end.
Definition worker_m (w : worker_pc) : Z :=
  match w with
  | WorkerStopped => 0 | Idle => 1 | Offering _ => 2 | Untracked _ _ => 3 | Finished _ _ => 4 | Authenticating _ => 5 | Taken _ => 6
  end.
Definition close_m (c : close_pc) : Z :=
  match c with NotClosed => 5 | ErrSet => 4 | Cancelled => 3 | DoneClosed => 2 | ListenerClosed => 1 | CloseFinished => 0 end.

(** The steps that a closed listener can still take. *)
Definition steps_left (s : lstate) : Z :=
  accept_m (l_accept s) + 6 * len (l_pending s) + sum_of worker_m (l_workers s) + close_m (l_close s).

Definition at_rest (s : lstate) : bool := all_stopped s && bool_decide (l_close s = CloseFinished).

Lemma worker_m_nonneg w : 0 <= worker_m w.
Proof. destruct w; cbn; lia. Qed.

Lemma steps_left_nonneg s : 0 <= steps_left s.
Proof.
  unfold steps_left. pose proof (len_nonneg (l_pending s)). pose proof (sum_of_nonneg worker_m (l_workers s) worker_m_nonneg).
  destruct (l_accept s), (l_close s); cbn; lia.
Qed.

Lemma closed_accept max s x s' : listener_closed s = true -> accept_step max s x = Some s' ->
  l_close s' = l_close s /\ steps_left s' < steps_left s.
Proof.
  intros Hc. unfold accept_step. destruct (l_accept s) as [|c|d|] eqn:Ea; destruct x; try done.
  - by rewrite Hc.
  - rewrite Hc. destruct (ae_closed e) eqn:Ee; [|done]. cbn [andb negb]. unfold IsTemporary. rewrite Ee. intros [= <-].
    destruct (setErr_same (Some (ae_error e)) s) as (_ & E2 & E3 & _ & _ & _ & _ & _ & E9 & _). split; [done|].
    unfold steps_left. cbn. rewrite E2, E3, E9, Ea. cbn. lia.
  - destruct (Z.ltb _ _); [|done]. intros [= <-]. split; [done|]. unfold steps_left. cbn. rewrite Ea, len_app. unfold len at 2. cbn. lia.
  - destruct (l_done s); [|done]. intros [= <-]. split; [done|]. unfold steps_left. cbn. rewrite Ea. cbn. lia.
  - destruct (l_done s || _); [done|]. intros [= <-]. split; [done|]. unfold steps_left. cbn. rewrite Ea. cbn. lia.
  - intros [= <-]. split; [done|]. unfold steps_left. cbn. rewrite Ea. cbn. lia.
  - destruct (l_done s); [|done]. intros [= <-]. split; [done|]. unfold steps_left. cbn. rewrite Ea. cbn. lia.
Qed.

Lemma closed_worker i w s x s' : l_workers s !! i = Some w -> worker_step i w s x = Some s' ->
  l_close s' = l_close s /\ steps_left s' < steps_left s.
Proof.
  intros Ei. unfold worker_step, steps_left. destruct w as [|c|c|c ok|c ok|c|], x; try done.
  - destruct (l_pending s) as [|c pending] eqn:Ep; [done|]. intros [= <-]. split; [done|]. cbn. rewrite (sum_of_insert _ _ _ _ _ Ei), len_cons. cbn. lia.
  - destruct (l_pending s) eqn:Ep; [|done]. destruct (l_pendingClosed s); [|done]. intros [= <-]. split; [done|]. cbn.
    rewrite (sum_of_insert _ _ _ _ _ Ei), Ep. cbn. lia.
  - intros [= <-]. unfold trackInFlight. destruct (l_done s); (split; [done|]); cbn; rewrite (sum_of_insert _ _ _ _ _ Ei); cbn; lia.
  - intros [= <-]. destruct ok; (split; [done|]); cbn; rewrite (sum_of_insert _ _ _ _ _ Ei); cbn; lia.
  - intros [= <-]. split; [done|]. cbn. rewrite (sum_of_insert _ _ _ _ _ Ei). cbn. lia.
  - intros [= <-]. split; [done|]. cbn. rewrite (sum_of_insert _ _ _ _ _ Ei). destruct ok; cbn; lia.
  - intros [= <-]. split; [done|]. cbn. rewrite (sum_of_insert _ _ _ _ _ Ei). cbn. lia.
  - destruct (l_done s); [|done]. intros [= <-]. split; [done|]. cbn. rewrite (sum_of_insert _ _ _ _ _ Ei). cbn. lia.
Qed.

Lemma closed_step max s x s' : listener_closed s = true -> lstep max s x = Some s' ->
  listener_closed s' = true /\ steps_left s' < steps_left s.
Proof.
  intros Hc E.
  assert (Hsame : l_close s' = l_close s -> listener_closed s' = true) by (unfold listener_closed; by intros ->).
  unfold lstep in E. destruct x; cbn [worker_of] in E; try (destruct (closed_accept _ _ _ _ Hc E); auto);
    try (destruct (l_workers s !! i) as [w|] eqn:Ei; [|done]; destruct (closed_worker _ _ _ _ _ Ei E); by auto).
  unfold close_step in E. unfold listener_closed in Hc. destruct (l_close s) eqn:Ec; try done. injection E as <-.
  split; [done|]. unfold steps_left. cbn. rewrite Ec. cbn. lia.
Qed.

Lemma closed_run max xs : forall s s', listener_closed s = true -> lrun max s xs = Some s' ->
  listener_closed s' = true /\ len xs + steps_left s' <= steps_left s.
Proof.
  induction xs as [|x xs IH]; intros s s' Hc E; cbn in E; [injection E as <-; unfold len; cbn; split; [done|lia]|].
  destruct (lstep max s x) as [s1|] eqn:E1; [|done]. destruct (closed_step _ _ _ _ Hc E1) as [Hc1 Hl].
  destruct (IH _ _ Hc1 E) as [Hc' Hr]. rewrite len_cons. split; [done|lia].
Qed.

Lemma worker_enabled i w s : w <> WorkerStopped -> l_done s = true -> l_pendingClosed s = true -> exists x s', worker_of x = Some i /\ worker_step i w s x = Some s'.
Proof.
  intros Hw Hd Hp. destruct w as [|c|c|c ok|c ok|c|]; [|by eexists (WTrack i), _|by eexists (WAuth i false), _|by eexists (WUntrack i), _|by eexists (WRelease i), _| |done].
  - destruct (l_pending s) as [|c pending] eqn:Ep.
    + eexists (WExit i), _. split; [done|]. cbn. by rewrite Ep, Hp.
    + eexists (WTake i), _. split; [done|]. cbn. by rewrite Ep.
  - eexists (WQuit i), _. split; [done|]. cbn. by rewrite Hd.
Qed.

(** A closed listener that is not at rest can take a step. *)
Lemma closed_progress max nw s : misc_ok max nw s -> listener_closed s = true -> at_rest s = false ->
  exists x s', lstep max s x = Some s'.
Proof.
  intros M Hc Hr. assert (Hd : l_done s = true).
  { apply (mi_close _ _ _ M). unfold closing. unfold listener_closed in Hc. by destruct (l_close s). }
  destruct (l_accept s) as [|c|d|] eqn:Ea.
  - eexists (LAcceptErr (mkAcceptError true false None net_ErrClosed)), _. cbn. unfold accept_step. rewrite Ea, Hc. reflexivity.
  - eexists LQuit, _. cbn. unfold accept_step. by rewrite Ea, Hd.
  - eexists LSleepQuit, _. cbn. unfold accept_step. by rewrite Ea, Hd.
  - pose proof (proj2 (mi_stopped _ _ _ M) Ea) as Hp.
    destruct (forallb (fun w => bool_decide (w = WorkerStopped)) (l_workers s)) eqn:Ef.
    + unfold at_rest, all_stopped in Hr. rewrite Ea, Ef in Hr. cbn in Hr. unfold listener_closed in Hc.
      destruct (l_close s) eqn:Ec; try done. eexists CClose, _. cbn. unfold close_step. by rewrite Ec.
    + apply not_true_iff_false in Ef. rewrite forallb_forall in Ef.
      assert (Hex : exists w, w ∈ l_workers s /\ w <> WorkerStopped).
      { destruct (decide (Forall (fun w => w = WorkerStopped) (l_workers s))) as [Hall|Hn].
        - exfalso. apply Ef. intros w Hw. apply bool_decide_eq_true. rewrite Forall_forall in Hall. by apply Hall, list_elem_of_In.
        - apply not_Forall_Exists in Hn; [|apply _]. by apply Exists_exists in Hn. }
      destruct Hex as (w & Hw & Hne). apply list_elem_of_lookup in Hw as [i Hi].
      destruct (worker_enabled i w s Hne Hd Hp) as (x & s' & Hx & Es). exists x, s'. unfold lstep. rewrite Hx.
      destruct x; try done; cbn in Hx; simplify_eq; by rewrite Hi.
Qed.

Lemma rest_places s c : at_rest s = true -> 0 < placed (only c) s -> c ∈ l_pending s \/ c ∈ l_delivered s.
Proof.
  unfold at_rest, all_stopped. rewrite !andb_true_iff, bool_decide_eq_true, forallb_forall. intros [[Ea Hw] _] Hp.
  assert (Hz : forall f : worker_pc -> Z, f WorkerStopped = 0 -> sum_of f (l_workers s) = 0).
  { intros f Hf. induction (l_workers s) as [|w ws IH]; [done|]. rewrite sum_of_cons, IH by (intros x Hx; apply Hw; by right).
    specialize (Hw w (or_introl eq_refl)). apply bool_decide_eq_true in Hw as ->. lia. }
  unfold placed, in_slots, offered, delivered in Hp. rewrite Ea, !Hz in Hp by done. cbn in Hp.
  assert (Hin : forall l, 0 < sum_of (fun x => b2z (only c x)) l -> c ∈ l).
  { intros l Hl. apply sum_of_pos in Hl as (x & Hx & Hpx); [|intros; apply b2z_bound]. unfold only in Hpx.
    revert Hpx. case_bool_decide; [by subst|done]. }
  destruct (Z.lt_decidable 0 (sum_of (fun x => b2z (only c x)) (l_pending s))); [left; by apply Hin|right; apply Hin; lia].
Qed.


(** * Concrete runs *)

Definition ex_listener : ListenerConfig :=
  mkListenerConfig (mkServerConfig 9000 (Some (StaticSecrets {[str "alice" := repeat Byte.x41 32]})) 0 0 0 [] []
    (mkEnvelopeV2Config [] [] []) false false 0 0 0 0 0) None 4 1 2.
Definition ex_peer : option net_Addr := Some (TCPAddr [Byte.x0a; Byte.x00; Byte.x00; Byte.x01] 40000).

Definition ex_run (xs : list label) : option lstate := lrun (fst (lstart (withDefaults ex_listener))) (snd (lstart (withDefaults ex_listener))) xs.

Lemma ex_wrapped : WrapListenerWithConfigE true ex_listener = Ok (fst (lstart (withDefaults ex_listener)), snd (lstart (withDefaults ex_listener))).
Proof.
  assert (Hn : match NewServer (lc_Auth (withDefaults ex_listener)) (lc_ReplayCache (withDefaults ex_listener)) with Ok _ => true | Err _ => false end = true)
    by (vm_compute; reflexivity).
  unfold WrapListenerWithConfigE. cbn [negb]. unfold mbind, res_bind. by destruct (NewServer _ _) as [[]|].
Qed.

Lemma ex_run_ok xs (test : lstate -> bool) : match ex_run xs with Some s => test s | None => false end = true ->
  exists s, ex_run xs = Some s /\ test s = true.
Proof. destruct (ex_run xs) as [s|]; [|done]. eauto. Qed.

(** One connection is authenticated, the second is queued, the third is refused. *)
Definition busy_run : list label :=
  [LAccept ex_peer; LQueue; WTake 0; WTrack 0; LAccept ex_peer; LQueue; LAccept ex_peer].

Lemma listener_limits_witness :
  exists s, ex_run busy_run = Some s /\ in_slots (from s (str "10.0.0.1")) s = 2 /\ effect_of s (LAccept ex_peer) = Refuse ex_peer.
Proof.
  destruct (ex_run_ok busy_run (fun s => Z.eqb (in_slots (from s (str "10.0.0.1")) s) 2)) as (s & E & Ht); [vm_compute; reflexivity|].
  apply Z.eqb_eq in Ht. exists s. split; [exact E|]. split; [exact Ht|].
  apply (listener_limits ex_listener _ _ s busy_run ex_peer (str "10.0.0.1") ex_wrapped eq_refl E); [vm_compute; reflexivity|]. split; [done|exact Ht].
Defined.

(** The worker offers its connection when [Close] comes, and gives up; the
    second connection stays behind. *)
Definition leak_run : list label :=
  [LAccept ex_peer; LQueue; WTake 0; WTrack 0; WAuth 0 true; WUntrack 0; WRelease 0; LAccept ex_peer; LQueue;
   CClose; CClose; CClose; WQuit 0; CClose; LAcceptErr (mkAcceptError true false None net_ErrClosed); CClose].

Lemma listener_accounting_witness :
  exists s, ex_run leak_run = Some s /\ (placed (only 1) s = 1 \/ placed (only 1) s = 0 /\ 1%nat ∈ l_closed s) /\ NoDup (l_delivered s).
Proof.
  destruct (ex_run_ok leak_run (fun s => Nat.ltb 1 (length (l_remotes s)))) as (s & E & Ht); [vm_compute; reflexivity|]. apply Nat.ltb_lt in Ht.
  destruct (listener_accounting ex_listener _ _ s leak_run ex_wrapped E) as (Hp & _ & Hd & _). exists s. split; [exact E|]. split; [by apply Hp|exact Hd].
Defined.


(** [Close] can forget connections: there is a run after which every
    goroutine has returned and [Close] is done while a queued connection is
    neither closed nor delivered, and its source still holds its slot. *)
Theorem listener_close_leak :
  exists s, ex_run leak_run = Some s /\ at_rest s = true /\
    l_pending s = [1%nat] /\ (1%nat ∉ l_closed s) /\ (1%nat ∉ l_delivered s) /\ in_slots (from s (str "10.0.0.1")) s = 1.
Proof.
  destruct (ex_run_ok leak_run (fun s => at_rest s && bool_decide (l_pending s = [1%nat]) && bool_decide (1%nat ∉ l_closed s)
    && bool_decide (1%nat ∉ l_delivered s) && Z.eqb (in_slots (from s (str "10.0.0.1")) s) 1)) as (s & E & Ht); [vm_compute; reflexivity|].
  rewrite !andb_true_iff, !bool_decide_eq_true, Z.eqb_eq in Ht. exists s. split; [exact E|]. naive_solver.
Qed.

(** The delays of consecutive temporary errors. *)
Lemma Next_double d : minBackoff <= d <= maxBackoff -> Next d = Z.min (2 * d) maxBackoff.
Proof.
  unfold Next, minBackoff, maxBackoff, Millisecond, Second. intros Hd. destruct (Z.eqb_spec d 0); [lia|].
  assert (int64 (d * 2) = d * 2) as ->. { unfold int64. rewrite Z.mod_small; lia. }
  destruct (Z.ltb_spec (10 ^ 9) (d * 2)); lia.
Qed.

(** The back-off of the accept loops after [n] temporary errors in a row is
    five milliseconds, doubled each time, and one second at most. *)
Lemma accept_backoff n : Nat.iter (S n) Next Reset = Z.min (minBackoff * 2 ^ Z.of_nat n) maxBackoff.
Proof.
  induction n as [|n IH]; [reflexivity|]. rewrite Nat.iter_succ, IH. clear IH.
  assert (0 < 2 ^ Z.of_nat n) by (apply Z.pow_pos_nonneg; lia).
  rewrite Next_double by (unfold minBackoff, maxBackoff, Millisecond, Second in *; lia).
  rewrite Nat2Z.inj_succ, Z.pow_succ_r by lia. unfold minBackoff, maxBackoff, Millisecond, Second in *. lia.
Qed.
