(* ===== verification/GoParse.v ===== *)
(** Go's text decoders as the configuration code uses them: [strings.TrimSpace],
    [encoding/hex], [encoding/base64] and [time.ParseDuration]. *)

From Stdlib Require Import ZArith Lia String.
From Stdlib Require Import Floats.SpecFloat.
From Stdlib Require Strings.Byte.
From stdpp Require Import base list strings.
From S2P Require Import Prelude GoStd Net GoText.

Open Scope Z_scope.

(** * strings.TrimSpace *)

(** The white space of [unicode.IsSpace] in UTF-8. *)
Definition space_runes : list bytes :=
  map (fun v => [byte_of v]) [9; 10; 11; 12; 13; 32]
  ++ map (map byte_of) ([[0xc2; 0x85]; [0xc2; 0xa0]; [0xe1; 0x9a; 0x80]]
       ++ map (fun v => [0xe2; 0x80; v]) (seqZ 0x80 11)
       ++ [[0xe2; 0x80; 0xa8]; [0xe2; 0x80; 0xa9]; [0xe2; 0x80; 0xaf]; [0xe2; 0x81; 0x9f]; [0xe3; 0x80; 0x80]]).

(** Drop a leading element of [runes], as often as there is one. *)
Fixpoint trim_prefixes (runes : list bytes) (fuel : nat) (s : bytes) : bytes :=
  match fuel with
  | O => s
  | S fuel =>
      match find (HasPrefix s) runes with
      | Some r => trim_prefixes runes fuel (drop (length r) s)
      | None => s
      end
  end.

Definition TrimSpace (s : bytes) : bytes :=
  let s := trim_prefixes space_runes (length s) s in
  reverse (trim_prefixes (map reverse space_runes) (length s) (reverse s)).

(** [strings.TrimPrefix] *)
Definition TrimPrefix (s prefix : bytes) : bytes := if HasPrefix s prefix then drop (length prefix) s else s.

(** * encoding/hex *)

Definition hex_ErrLength : error := EMsg (str "encoding/hex: odd length hex string").
Definition hex_InvalidByteError : error := EMsg (str "encoding/hex: invalid byte").

(** [hex.DecodeString]; the message of an invalid byte does not name it. *)
Fixpoint hex_DecodeString (s : bytes) : res bytes :=
  match s with
  | [] => Ok []
  | [p] => Err (match hex_val p with Some _ => hex_ErrLength | None => hex_InvalidByteError end)
  | p :: q :: s =>
      match hex_val p, hex_val q with
      | Some a, Some b => out ← hex_DecodeString s; Ok (byte_of (16 * a + b) :: out)
      | _, _ => Err hex_InvalidByteError
      end
  end.

(** * encoding/base64 *)

(** The standard alphabet. *)
Definition base64_char (v : Z) : byte :=
  byte_of (if Z.ltb v 26 then 65 + v else if Z.ltb v 52 then 71 + v else if Z.ltb v 62 then v - 4
           else if Z.eqb v 62 then 43 else 47).

Definition base64_val (c : byte) : option Z :=
  let v := byte_val c in
  if is_upper c then Some (v - 65)
  else if is_lower c then Some (v - 71)
  else if is_digit c then Some (v + 4)
  else if Z.eqb v 43 then Some 62
  else if Z.eqb v 47 then Some 63
  else None.

Definition is_newline (c : byte) : bool := bool_decide (c = Byte.x0a) || bool_decide (c = Byte.x0d).
Definition is_pad (c : byte) : bool := bool_decide (c = Byte.x3d).

Fixpoint skip_newlines (s : bytes) : bytes :=
  match s with c :: t => if is_newline c then skip_newlines t else s | [] => [] end.

(** [decodeQuantum] of the sextets [buf]: one byte less than there are. *)
Definition base64_quantum (buf : list Z) : bytes :=
  let d i := nth i buf 0 in
  let val := d 0%nat * 2 ^ 18 + d 1%nat * 2 ^ 12 + d 2%nat * 2 ^ 6 + d 3%nat in
  take (length buf - 1) [byte_of (val / 2 ^ 16); byte_of (val / 2 ^ 8); byte_of val].

(** [DecodeString] of [StdEncoding] ([padded]) and [RawStdEncoding], with [buf]
    the sextets of the quantum read so far. [None] is a [CorruptInputError]. *)
Fixpoint base64_decode (padded : bool) (buf : list Z) (s : bytes) : option bytes :=
  match s with
  | [] =>
      match buf with
      | [] => Some []
      | [_] => None
      | _ => if padded then None else Some (base64_quantum buf)
      end
  | c :: s =>
      match base64_val c with
      | Some v =>
          if Nat.eqb (length buf) 3 then app (base64_quantum (buf ++ [v])) <$> base64_decode padded [] s
          else base64_decode padded (buf ++ [v]) s
      | None =>
          if is_newline c then base64_decode padded buf s
          else if padded && is_pad c then
            match buf, skip_newlines s with
            | [_; _], c2 :: s => if is_pad c2 && bool_decide (skip_newlines s = []) then Some (base64_quantum buf) else None
            | [_; _; _], [] => Some (base64_quantum buf)
            | _, _ => None
            end
          else None
      end
  end.

Definition CorruptInputError : error := EMsg (str "illegal base64 data").

Definition base64_DecodeString (padded : bool) (s : bytes) : res bytes :=
  match base64_decode padded [] s with Some out => Ok out | None => Err CorruptInputError end.

(** [EncodeToString] of the two encodings. *)
Fixpoint base64_EncodeToString (padded : bool) (s : bytes) : bytes :=
  let d := byte_val in
  match s with
  | a :: b :: c :: s =>
      [base64_char (d a / 4); base64_char (d a mod 4 * 16 + d b / 16); base64_char (d b mod 16 * 4 + d c / 64); base64_char (d c mod 64)]
      ++ base64_EncodeToString padded s
  | [a; b] =>
      [base64_char (d a / 4); base64_char (d a mod 4 * 16 + d b / 16); base64_char (d b mod 16 * 4)]
      ++ (if padded then str "=" else [])
  | [a] => [base64_char (d a / 4); base64_char (d a mod 4 * 16)] ++ (if padded then str "==" else [])
  | [] => []
  end.

(** * time.ParseDuration *)

(** [leadingInt]; [None] is its overflow. *)
Fixpoint leadingInt (x : Z) (s : bytes) : option (Z * bytes) :=
  match s with
  | c :: t =>
      match digit_val c with
      | None => Some (x, s)
      | Some d =>
          if Z.ltb (2 ^ 63 / 10) x then None
          else if Z.ltb (2 ^ 63) (x * 10 + d) then None
          else leadingInt (x * 10 + d) t
      end
  | [] => Some (x, [])
  end.

(** [leadingFraction]; the scale is a power of ten below [2 ^ 63], which a
    [float64] holds exactly. *)
Fixpoint leadingFraction (x scale : Z) (overflow : bool) (s : bytes) : Z * Z * bytes :=
  match s with
  | c :: t =>
      match digit_val c with
      | None => (x, scale, s)
      | Some d =>
          if overflow || Z.ltb ((2 ^ 63 - 1) / 10) x then leadingFraction x scale true t
          else if Z.ltb (2 ^ 63) (x * 10 + d) then leadingFraction x scale true t
          else leadingFraction (x * 10 + d) (scale * 10) false t
      end
  | [] => (x, scale, [])
  end.

Definition unit_char (c : byte) : bool := negb (is_digit c || bool_decide (c = dot)).

Fixpoint leading_unit (s : bytes) : bytes * bytes :=
  match s with
  | c :: t => if unit_char c then let '(u, rest) := leading_unit t in (c :: u, rest) else ([], s)
  | [] => ([], [])
  end.

Definition unitMap (u : bytes) : option Z :=
  if bool_decide (u = str "ns") then Some Nanosecond
  else if bool_decide (u ∈ [str "us"; [Byte.xc2; Byte.xb5] ++ str "s"; [Byte.xce; Byte.xbc] ++ str "s"]) then Some 1000
  else if bool_decide (u = str "ms") then Some Millisecond
  else if bool_decide (u = str "s") then Some Second
  else if bool_decide (u = str "m") then Some Minute
  else if bool_decide (u = str "h") then Some (60 * Minute)
  else None.

(** [uint64(float64(f) * (float64(unit) / scale))] *)
Definition fraction_of (f unit scale : Z) : Z :=
  int_of_float (SFmul 53 1024 (float64_of f) (SFdiv 53 1024 (float64_of unit) (float64_of scale))).

Definition duration_invalid (orig : bytes) : error := EMsg (str "time: invalid duration " ++ fmt_q orig).
Definition duration_no_unit (orig : bytes) : error := EMsg (str "time: missing unit in duration " ++ fmt_q orig).
Definition duration_unit (orig u : bytes) : error := EMsg (str "time: unknown unit " ++ fmt_q u ++ str " in duration " ++ fmt_q orig).

(** One round of the loop: a number, a fraction and a unit. *)
Definition duration_term (orig s : bytes) : res (Z * bytes) :=
  match s with
  | c :: _ =>
      if negb (is_digit c || bool_decide (c = dot)) then Err (duration_invalid orig)
      else
        match leadingInt 0 s with
        | None => Err (duration_invalid orig)
        | Some (v, s1) =>
            let pre := negb (Nat.eqb (length s) (length s1)) in
            let '(f, scale, post, s2) :=
              match s1 with
              | c :: t =>
                  if bool_decide (c = dot) then
                    let '(f, scale, rest) := leadingFraction 0 1 false t in
                    (f, scale, negb (Nat.eqb (length t) (length rest)), rest)
                  else (0, 1, false, s1)
              | [] => (0, 1, false, [])
              end in
            if negb pre && negb post then Err (duration_invalid orig)
            else
              let '(u, s3) := leading_unit s2 in
              if bool_decide (u = []) then Err (duration_no_unit orig)
              else
                match unitMap u with
                | None => Err (duration_unit orig u)
                | Some unit =>
                    if Z.ltb (2 ^ 63 / unit) v then Err (duration_invalid orig)
                    else
                      let v := v * unit in
                      let v := if Z.ltb 0 f then uint64 (v + fraction_of f unit scale) else v in
                      if Z.ltb 0 f && Z.ltb (2 ^ 63) v then Err (duration_invalid orig) else Ok (v, s3)
                end
        end
  | [] => Err (duration_invalid orig)
  end.

(** Every round reads at least one character, so the length of the text is
    enough fuel. *)
Fixpoint duration_terms (orig : bytes) (fuel : nat) (d : Z) (s : bytes) : res Z :=
  match s, fuel with
  | [], _ => Ok d
  | _, O => Err (duration_invalid orig)
  | _, S fuel =>
      '(v, s) ← duration_term orig s;
      if Z.ltb (2 ^ 63) (d + v) then Err (duration_invalid orig) else duration_terms orig fuel (d + v) s
  end.

Definition ParseDuration (orig : bytes) : res Z :=
  let '(neg, s) :=
    match orig with
    | c :: t => if bool_decide (c = Byte.x2d) then (true, t) else if bool_decide (c = Byte.x2b) then (false, t) else (false, orig)
    | [] => (false, [])
    end in
  if bool_decide (s = str "0") then Ok 0
  else if bool_decide (s = []) then Err (duration_invalid orig)
  else
    d ← duration_terms orig (length s) 0 s;
    if neg : bool then Ok (int64 (- d)) else if Z.ltb (2 ^ 63 - 1) d then Err (duration_invalid orig) else Ok d.

Example durations : map ParseDuration (map str ["80ms"; "5s"; "2m"; "1h30m"; "-1.5s"; "0"; ".5h"; "1.0000000001s"; "3000000h"; "5"; "s"; ""])%string
  = [Ok (80 * Millisecond); Ok (5 * Second); Ok (2 * Minute); Ok (90 * Minute); Ok (-1500 * Millisecond); Ok 0; Ok (30 * Minute); Ok Second;
     Err (duration_invalid (str "3000000h")); Err (duration_no_unit (str "5")); Err (duration_invalid (str "s")); Err (duration_invalid [])].
Proof. vm_compute. reflexivity. Qed.

(** * Lemmas: what the decoders read back *)

Lemma HasPrefix_app (p s : bytes) : HasPrefix (p ++ s) p = true.
Proof. unfold HasPrefix. rewrite take_app_length. by apply bool_decide_eq_true. Qed.

Lemma TrimPrefix_app (p s : bytes) : TrimPrefix (p ++ s) p = s.
Proof. unfold TrimPrefix. rewrite HasPrefix_app. apply drop_app_length. Qed.

Lemma nibble_digits (b : byte) :
  hex_val (hex_digit (byte_val b / 16)) = Some (byte_val b / 16) /\ hex_val (hex_digit (byte_val b mod 16)) = Some (byte_val b mod 16).
Proof. by destruct b; vm_compute. Qed.

Lemma hex_decode_encode s : hex_DecodeString (hex_EncodeToString s) = Ok s.
Proof.
  induction s as [|b s IH]; [done|]. cbn [hex_EncodeToString hex_DecodeString]. destruct (nibble_digits b) as [-> ->]. rewrite IH. res_simpl.
  rewrite <- Z.div_mod by done. by rewrite byte_of_val.
Qed.

Lemma base64_val_char v : 0 <= v < 64 -> base64_val (base64_char v) = Some v.
Proof.
  intros Hv. assert (Hall : forallb (fun v => bool_decide (base64_val (base64_char v) = Some v)) (seqZ 0 64) = true) by (vm_compute; reflexivity).
  rewrite forallb_forall in Hall. apply (bool_decide_eq_true_1 (base64_val (base64_char v) = Some v)), Hall.
  apply list_elem_of_In, elem_of_seqZ. lia.
Qed.

(** The three bytes that four sextets stand for. *)
Lemma quantum_bytes (a b c : byte) (n : nat) (val : Z) :
  val = byte_val a * 65536 + byte_val b * 256 + byte_val c ->
  take n [byte_of (val / 2 ^ 16); byte_of (val / 2 ^ 8); byte_of val] = take n [a; b; c].
Proof.
  intros Hval. pose proof (byte_val_bound a). pose proof (byte_val_bound b). pose proof (byte_val_bound c).
  change (2 ^ 16) with 65536. change (2 ^ 8) with 256.
  assert (byte_of (val / 65536) = a) as -> by (apply byte_val_inj; rewrite byte_val_of; Z.div_mod_to_equations; lia).
  assert (byte_of (val / 256) = b) as -> by (apply byte_val_inj; rewrite byte_val_of; Z.div_mod_to_equations; lia).
  assert (byte_of val = c) as -> by (apply byte_val_inj; rewrite byte_val_of; Z.div_mod_to_equations; lia).
  done.
Qed.

Ltac quantum a b c n :=
  apply (quantum_bytes a b c n); pose proof (byte_val_bound a); pose proof (byte_val_bound b); pose proof (byte_val_bound c);
  cbn [nth]; change (byte_val Byte.x00) with 0; Z.div_mod_to_equations; lia.

Lemma quantum_3 (a b c : byte) :
  base64_quantum [byte_val a / 4; byte_val a mod 4 * 16 + byte_val b / 16; byte_val b mod 16 * 4 + byte_val c / 64; byte_val c mod 64] = [a; b; c].
Proof. quantum a b c 3%nat. Qed.

Lemma quantum_2 (a b : byte) :
  base64_quantum [byte_val a / 4; byte_val a mod 4 * 16 + byte_val b / 16; byte_val b mod 16 * 4] = [a; b].
Proof. quantum a b Byte.x00 2%nat. Qed.

Lemma quantum_1 (a : byte) : base64_quantum [byte_val a / 4; byte_val a mod 4 * 16] = [a].
Proof. quantum a Byte.x00 Byte.x00 1%nat. Qed.

Lemma base64_step padded buf v s : 0 <= v < 64 ->
  base64_decode padded buf (base64_char v :: s)
  = if Nat.eqb (length buf) 3 then app (base64_quantum (buf ++ [v])) <$> base64_decode padded [] s else base64_decode padded (buf ++ [v]) s.
Proof. intros Hv. cbn [base64_decode]. by rewrite base64_val_char. Qed.

Lemma base64_end_2 padded x y z :
  base64_decode padded [x; y; z] (if padded then str "=" else []) = Some (base64_quantum [x; y; z]).
Proof. by destruct padded. Qed.

Lemma base64_end_1 padded x y : base64_decode padded [x; y] (if padded then str "==" else []) = Some (base64_quantum [x; y]).
Proof. by destruct padded. Qed.

Lemma base64_decode_encode padded s : base64_decode padded [] (base64_EncodeToString padded s) = Some s.
Proof.
  induction s as [s IH] using (induction_ltof1 _ (@length byte)). unfold ltof in IH.
  assert (Hb : forall b, 0 <= byte_val b < 256) by apply byte_val_bound.
  destruct s as [|a [|b [|c s]]]; [done|..]; cbn [base64_EncodeToString app]; pose proof (Hb a); try pose proof (Hb b); try pose proof (Hb c).
  - rewrite !base64_step by (Z.div_mod_to_equations; lia). cbn [length Nat.eqb app]. by rewrite base64_end_1, quantum_1.
  - rewrite !base64_step by (Z.div_mod_to_equations; lia). cbn [length Nat.eqb app]. by rewrite base64_end_2, quantum_2.
  - rewrite !base64_step by (Z.div_mod_to_equations; lia). cbn [length Nat.eqb app]. rewrite IH by (cbn; lia). cbn [fmap option_fmap option_map]. by rewrite quantum_3.
Qed.

(** ** time.ParseDuration *)

Lemma leadingInt_facts s : forall x v r, 0 <= x <= 2 ^ 63 -> leadingInt x s = Some (v, r) -> 0 <= v <= 2 ^ 63 /\ (length r <= length s)%nat.
Proof.
  induction s as [|c s IH]; intros x v r Hx; cbn [leadingInt]; [intros [= <- <-]; done|].
  destruct (digit_val c) as [d|] eqn:Ed; [|intros [= <- <-]; done].
  destruct (Z.ltb_spec (2 ^ 63 / 10) x); [done|]. destruct (Z.ltb_spec (2 ^ 63) (x * 10 + d)); [done|].
  intros E. apply IH in E as [Hv Hl]; [cbn; lia|]. unfold digit_val in Ed. repeat case_match; simplify_eq. lia.
Qed.

Lemma leadingFraction_length s : forall x scale o f sc r, leadingFraction x scale o s = (f, sc, r) -> (length r <= length s)%nat.
Proof.
  induction s as [|c s IH]; intros x scale o f sc r; cbn [leadingFraction]; [by intros [= <- <- <-]|].
  destruct (digit_val c); [|by intros [= <- <- <-]].
  destruct (o || _); [|destruct (Z.ltb _ _)]; intros E; apply IH in E; cbn; lia.
Qed.

Lemma leading_unit_length s u r : leading_unit s = (u, r) -> (length u + length r = length s)%nat.
Proof.
  revert u r. induction s as [|c s IH]; intros u r; cbn [leading_unit]; [by intros [= <- <-]|].
  destruct (unit_char c); [|by intros [= <- <-]]. destruct (leading_unit s) as [u' r']. intros [= <- <-]. cbn. by rewrite (IH u' r').
Qed.

Lemma unitMap_pos u unit : unitMap u = Some unit -> 0 < unit.
Proof. unfold unitMap, Nanosecond, Millisecond, Second, Minute. repeat case_bool_decide; intros [= <-]; lia. Qed.

(** A round reads something and yields at most [2 ^ 63] nanoseconds. *)
Lemma duration_term_facts orig s v r : duration_term orig s = Ok (v, r) -> 0 <= v <= 2 ^ 63 /\ (length r < length s)%nat.
Proof.
  unfold duration_term. destruct s as [|c s]; [done|]. destruct (negb _); [done|].
  destruct (leadingInt 0 (c :: s)) as [[v1 s1]|] eqn:E1; [|done]. apply leadingInt_facts in E1 as [Hv1 Hl1]; [|lia].
  set (frac := match s1 with [] => _ | _ => _ end).
  assert (length (snd frac) <= length s1)%nat as Hl2.
  { subst frac. destruct s1 as [|c1 t]; [done|]. case_bool_decide; [|done].
    destruct (leadingFraction 0 1 false t) as [[f sc] rest] eqn:Ef. apply leadingFraction_length in Ef. cbn. lia. }
  destruct frac as [[[f sc] post] s2]. cbn in Hl2. destruct (negb _ && negb post); [done|].
  destruct (leading_unit s2) as [u s3] eqn:Eu. apply leading_unit_length in Eu. case_bool_decide as Hu; [done|].
  assert (length s3 < length (c :: s))%nat by (destruct u; [done|]; cbn in *; lia).
  destruct (unitMap u) as [unit|] eqn:Em; [|done]. apply unitMap_pos in Em.
  destruct (Z.ltb_spec (2 ^ 63 / unit) v1) as [?|Hle]; [done|].
  assert (0 <= v1 * unit <= 2 ^ 63) by (pose proof (Z.mul_div_le (2 ^ 63) unit Em); nia).
  destruct (Z.ltb_spec 0 f); cbn [andb].
  - destruct (Z.ltb_spec (2 ^ 63) (uint64 (v1 * unit + fraction_of f unit sc))); [done|]. intros [= <- <-].
    split; [|done]. split; [|lia]. apply Z.mod_pos_bound. lia.
  - intros [= <- <-]. done.
Qed.

(** The length of the text is enough fuel. *)
Lemma duration_terms_fuel orig n : forall m d s, (length s <= n)%nat -> (length s <= m)%nat -> duration_terms orig n d s = duration_terms orig m d s.
Proof.
  induction n as [|n IH]; intros m d s Hn Hm; [destruct s; [by destruct m|cbn in Hn; lia]|].
  destruct s as [|c s]; [by destruct m|]. destruct m as [|m]; [cbn in Hm; lia|].
  cbn [duration_terms]. destruct (duration_term orig (c :: s)) as [[v r]|] eqn:E; res_simpl; [|done]. apply duration_term_facts in E.
  destruct (Z.ltb _ _); [done|]. apply IH; cbn in *; lia.
Qed.

Lemma duration_terms_range orig n : forall d s v, 0 <= d <= 2 ^ 63 -> duration_terms orig n d s = Ok v -> 0 <= v <= 2 ^ 63.
Proof.
  induction n as [|n IH]; intros d s v Hd; (destruct s as [|c s]; [intros [= <-]; done|]); cbn [duration_terms]; [done|].
  destruct (duration_term orig (c :: s)) as [[w r]|] eqn:E; res_simpl; [|done]. apply duration_term_facts in E.
  destruct (Z.ltb_spec (2 ^ 63) (d + w)); [done|]. apply IH. lia.
Qed.

Lemma ParseDuration_range s d : ParseDuration s = Ok d -> is_int64 d.
Proof.
  unfold ParseDuration. destruct (match s with [] => _ | _ => _ end) as [neg t]. case_bool_decide; [intros [= <-]; unfold is_int64; lia|].
  case_bool_decide; [done|]. destruct (duration_terms s (length t) 0 t) as [v|] eqn:E; res_simpl; [|done]. apply duration_terms_range in E; [|lia].
  destruct neg; [intros [= <-]; apply int64_range|]. destruct (Z.ltb_spec (2 ^ 63 - 1) v); [done|]. intros [= <-]. unfold is_int64. lia.
Qed.

(** * Text that [TrimSpace] leaves alone *)

(** A byte with which no white space starts or ends. *)
Definition inner (b : byte) : bool := forallb (fun r => negb (bool_decide (head r = Some b)) && negb (bool_decide (last r = Some b))) space_runes.

Lemma trim_stops runes n s : Forall (fun r => HasPrefix s r = false) runes -> trim_prefixes runes n s = s.
Proof.
  intros Hr. destruct n; [done|]. cbn [trim_prefixes]. assert (find (HasPrefix s) runes = None) as ->; [|done].
  induction Hr as [|r runes E Hr IH]; cbn; [done|]. by rewrite E.
Qed.

Lemma inner_head b s r : inner b = true -> r ∈ space_runes -> HasPrefix (b :: s) r = false /\ HasPrefix (b :: s) (reverse r) = false.
Proof.
  intros Hb Hr. unfold inner in Hb. rewrite forallb_forall in Hb. specialize (Hb r (proj1 (list_elem_of_In _ _) Hr)).
  apply andb_true_iff in Hb as [Hh%negb_true_iff%bool_decide_eq_false Hl%negb_true_iff%bool_decide_eq_false].
  assert (Hne : r <> []).
  { intros ->. assert (forallb (fun r => negb (bool_decide (r = []))) space_runes = true) as Hall by (vm_compute; reflexivity).
    rewrite forallb_forall in Hall. by apply list_elem_of_In, Hall in Hr. }
  split; apply bool_decide_eq_false; intros E.
  - destruct r as [|c r]; [done|]. cbn in E, Hh. injection E as -> _. congruence.
  - rewrite <- last_reverse in Hh. rewrite <- head_reverse in Hl. destruct (reverse r) as [|c r'] eqn:Er; [by apply (f_equal reverse) in Er; rewrite reverse_involutive in Er|].
    cbn in E, Hl. injection E as -> _. congruence.
Qed.

Lemma inner_stops b s n : inner b = true -> trim_prefixes space_runes n (b :: s) = b :: s /\ trim_prefixes (map reverse space_runes) n (b :: s) = b :: s.
Proof.
  intros Hb. split; apply trim_stops; apply Forall_forall; intros r Hr.
  - by apply inner_head.
  - apply list_elem_of_fmap in Hr as (r0 & -> & Hr0). by apply inner_head.
Qed.

(** A line of text without white space around it. *)
Lemma TrimSpace_line a s b : inner a = true -> inner b = true -> TrimSpace (a :: s ++ [b; Byte.x0a]) = a :: s ++ [b].
Proof.
  intros Ha Hb. unfold TrimSpace. cbv zeta. rewrite (proj1 (inner_stops a _ _ Ha)).
  assert (reverse (a :: s ++ [b; Byte.x0a]) = Byte.x0a :: b :: reverse (a :: s)) as ->.
  { change (a :: s ++ [b; Byte.x0a]) with ((a :: s) ++ [b; Byte.x0a]). by rewrite reverse_app. }
  cbn [length trim_prefixes].
  assert (find (HasPrefix (Byte.x0a :: b :: reverse (a :: s))) (map reverse space_runes) = Some [Byte.x0a]) as -> by (vm_compute; reflexivity).
  cbn [length drop]. rewrite (proj2 (inner_stops b _ _ Hb)). change (a :: s ++ [b]) with ((a :: s) ++ [b]). rewrite <- (reverse_involutive ((a :: s) ++ [b])). by rewrite reverse_app.
Qed.

(** Text that starts and ends with such bytes. *)
Lemma TrimSpace_id a s b : inner a = true -> inner b = true -> TrimSpace (a :: s ++ [b]) = a :: s ++ [b].
Proof.
  intros Ha Hb. unfold TrimSpace. cbv zeta. rewrite (proj1 (inner_stops a _ _ Ha)).
  assert (reverse (a :: s ++ [b]) = b :: reverse (a :: s)) as E by (change (a :: s ++ [b]) with ((a :: s) ++ [b]); by rewrite reverse_app).
  rewrite E, (proj2 (inner_stops b _ _ Hb)), <- E. apply reverse_involutive.
Qed.
