(* ===== verification/HostPort.v ===== *)
(** Round trips of the address texts of Net: numbers through [strconv], and
    host and port through [net.JoinHostPort] and [net.SplitHostPort]. *)

From Stdlib Require Import ZArith Lia String.
From Stdlib Require Strings.Byte.
From stdpp Require Import base list strings pretty.
From S2P Require Import Prelude GoStd Net.

Open Scope Z_scope.

(** * Numbers *)

Lemma digit_char (d : N) : (d < 10)%N -> digit_val (Ascii.byte_of_ascii (pretty_N_char d)) = Some (Z.of_N d).
Proof.
  intros Hd. assert (d ∈ [0; 1; 2; 3; 4; 5; 6; 7; 8; 9]%N) as Hin.
  { rewrite !elem_of_cons. lia. }
  rewrite !elem_of_cons in Hin. repeat destruct Hin as [->|Hin]; try done. by apply elem_of_nil in Hin.
Qed.

Lemma digits_pretty (x : N) : forall s, digits_val 0 (str (pretty_N_go x s)) = digits_val (Z.of_N x) (str s).
Proof.
  induction (N.lt_wf_0 x) as [x _ IH]. intros s. destruct (decide (x = 0)%N) as [->|Hx]; [done|].
  rewrite pretty_N_go_step by lia. rewrite IH by (apply N.div_lt; lia). change (str (String (pretty_N_char (x `mod` 10)) s)) with (Ascii.byte_of_ascii (pretty_N_char (x `mod` 10)) :: str s).
  cbn [digits_val]. rewrite digit_char by (apply N.mod_lt; lia). f_equal. pose proof (N.div_mod x 10). lia.
Qed.

Lemma itoa_pretty n : 0 < n -> itoa n = str (pretty_N_go (Z.to_N n) "").
Proof. intros Hn. unfold itoa. destruct n as [|p|p]; [lia| |lia]. done. Qed.

Lemma digits_itoa n : 0 <= n -> digits_val 0 (itoa n) = Some n.
Proof.
  intros Hn. destruct (decide (n = 0)) as [->|]; [done|]. rewrite itoa_pretty by lia. rewrite digits_pretty. cbn. f_equal. lia.
Qed.

Lemma digits_val_chars s : forall acc v, digits_val acc s = Some v -> Forall (fun c => is_Some (digit_val c)) s.
Proof.
  induction s as [|c s IH]; intros acc v; cbn; [by constructor|]. destruct (digit_val c) eqn:Ec; [|done]. intros E. constructor; [done|by eapply IH].
Qed.

Lemma itoa_digits n : 0 <= n -> Forall (fun c => is_Some (digit_val c)) (itoa n).
Proof. intros Hn. eapply digits_val_chars, digits_itoa, Hn. Qed.

Lemma itoa_not_nil n : 0 <= n -> itoa n <> [].
Proof. intros Hn E. pose proof (digits_itoa n Hn) as Hd. rewrite E in Hd. cbn in Hd. assert (n = 0) as -> by congruence. done. Qed.

Lemma not_in_itoa n c : 0 <= n -> digit_val c = None -> c ∉ itoa n.
Proof. intros Hn Hc Hin. pose proof (itoa_digits n Hn) as H. rewrite Forall_forall in H. destruct (H c Hin). congruence. Qed.

Lemma Atoi_itoa n : 0 <= n < 2 ^ 63 -> Atoi (itoa n) = Some n.
Proof.
  intros Hn. unfold Atoi. pose proof (itoa_not_nil n ltac:(lia)) as Hne. pose proof (not_in_itoa n Byte.x2d ltac:(lia) eq_refl) as Hm.
  pose proof (not_in_itoa n Byte.x2b ltac:(lia) eq_refl) as Hp. pose proof (digits_itoa n ltac:(lia)) as Hd.
  destruct (itoa n) as [|c t]; [done|]. rewrite !elem_of_cons in *.
  rewrite !bool_decide_eq_false_2 by naive_solver. rewrite Hd. cbn [negb].
  destruct (Z.leb_spec (- 2 ^ 63) n); [|lia]. destruct (Z.ltb_spec n (2 ^ 63)); [done|lia].
Qed.

(** * Host and port *)

Lemma IndexByte_None s c : c ∉ s -> IndexByte s c = None.
Proof. induction s as [|b s IH]; cbn; [done|]. rewrite not_elem_of_cons. intros [Hb Hs]. rewrite bool_decide_eq_false_2 by congruence. by rewrite IH. Qed.

Lemma has_byte_false s c : has_byte s c = false <-> c ∉ s.
Proof. rewrite <- (has_byte_spec s c). by destruct (has_byte s c). Qed.

Lemma IndexByte_app s c t : c ∉ s -> IndexByte (s ++ c :: t) c = Some (length s).
Proof.
  induction s as [|b s IH]; cbn; [by rewrite bool_decide_eq_true_2|]. rewrite not_elem_of_cons. intros [Hb Hs].
  rewrite bool_decide_eq_false_2 by congruence. by rewrite IH.
Qed.

Lemma LastIndexByte_None s c : c ∉ s -> LastIndexByte s c = None.
Proof. induction s as [|b s IH]; cbn; [done|]. rewrite not_elem_of_cons. intros [Hb Hs]. rewrite IH by done. by rewrite bool_decide_eq_false_2 by congruence. Qed.

Lemma LastIndexByte_app s c t : c ∉ t -> LastIndexByte (s ++ c :: t) c = Some (length s).
Proof.
  intros Ht. induction s as [|b s IH]; cbn; [by rewrite LastIndexByte_None, bool_decide_eq_true_2|]. by rewrite IH.
Qed.

Lemma drop_S_app (s : bytes) c t : drop (S (length s)) (s ++ c :: t) = t.
Proof. induction s as [|b s IH]; cbn; [done|exact IH]. Qed.

Lemma SplitHostPort_bracketed host port :
  (lbracket ∉ host) -> (rbracket ∉ host) -> (colon ∉ port) -> (lbracket ∉ port) -> (rbracket ∉ port) ->
  SplitHostPort (lbracket :: host ++ rbracket :: colon :: port) = Some (host, port).
Proof.
  intros Hl Hr Hpc Hpl Hpr. set (s := lbracket :: host ++ rbracket :: colon :: port). unfold SplitHostPort.
  assert (LastIndexByte s colon = Some (S (S (length host)))) as ->.
  { subst s. change (lbracket :: host ++ rbracket :: colon :: port) with (([lbracket] ++ host) ++ [rbracket] ++ colon :: port). rewrite app_assoc.
    rewrite LastIndexByte_app by done. f_equal. rewrite !length_app. cbn. lia. }
  rewrite bool_decide_eq_true_2 by done.
  assert (IndexByte s rbracket = Some (S (length host))) as ->.
  { subst s. change (lbracket :: host ++ rbracket :: colon :: port) with (([lbracket] ++ host) ++ rbracket :: colon :: port).
    rewrite IndexByte_app; [f_equal; cbn; lia|]. rewrite elem_of_app, list_elem_of_singleton. by intros [?|?]. }
  rewrite Nat.eqb_refl. cbn [negb].
  assert (drop (S (S (length host))) s = colon :: port) as -> by (cbn [drop]; apply drop_S_app).
  assert (drop (S (S (S (length host)))) s = port) as ->.
  { subst s. cbn [drop]. change (host ++ rbracket :: colon :: port) with (host ++ [rbracket] ++ colon :: port). rewrite app_assoc.
    replace (S (S (length host))) with (S (length (host ++ [rbracket]))) by (rewrite length_app; cbn; lia). apply drop_S_app. }
  assert (has_byte (drop 1 s) lbracket = false) as ->.
  { apply has_byte_false. change (drop 1 s) with (host ++ rbracket :: colon :: port). rewrite elem_of_app, !elem_of_cons. by intros [?|[?|[?|?]]]. }
  assert (has_byte (colon :: port) rbracket = false) as -> by (apply has_byte_false; rewrite elem_of_cons; by intros [?|?]).
  cbn [orb]. do 2 f_equal. unfold slice. change (drop 1 s) with (host ++ rbracket :: colon :: port). apply take_app_length'. lia.
Qed.

Lemma SplitHostPort_plain host port :
  (colon ∉ host) -> (lbracket ∉ host) -> (rbracket ∉ host) -> (colon ∉ port) -> (lbracket ∉ port) -> (rbracket ∉ port) ->
  SplitHostPort (host ++ colon :: port) = Some (host, port).
Proof.
  intros Hc Hl Hr Hpc Hpl Hpr. unfold SplitHostPort. rewrite LastIndexByte_app by done. rewrite drop_S_app, take_app_length.
  assert (forall b, b ∉ host -> b ∉ port -> b <> colon -> b ∉ host ++ colon :: port) as Hnot
    by (intros b ???; rewrite elem_of_app, elem_of_cons; naive_solver).
  rewrite bool_decide_eq_false_2.
  2:{ intros E. apply (Hnot lbracket Hl Hpl ltac:(done)). rewrite <- E. destruct (host ++ colon :: port) eqn:Es; [by destruct host|].
      apply elem_of_cons. by left. }
  rewrite (proj2 (has_byte_false host colon)) by done. rewrite (proj2 (has_byte_false _ lbracket)), (proj2 (has_byte_false _ rbracket)); [done|by apply Hnot..].
Qed.

Lemma SplitHostPort_Join host port :
  (lbracket ∉ host) -> (rbracket ∉ host) -> (colon ∉ port) -> (lbracket ∉ port) -> (rbracket ∉ port) ->
  SplitHostPort (JoinHostPort host port) = Some (host, port).
Proof.
  intros. unfold JoinHostPort. destruct (has_byte host colon) eqn:Ec; [by apply SplitHostPort_bracketed|].
  apply SplitHostPort_plain; try done. by apply has_byte_false.
Qed.

Lemma IndexByte_split s c i : IndexByte s c = Some i -> c ∉ take i s.
Proof.
  revert i. induction s as [|b s IH]; intros i; cbn [IndexByte]; [done|]. case_bool_decide as Hb; [intros [= <-]; apply not_elem_of_nil|].
  intros (j & Hj & ->)%fmap_Some. cbn [take]. rewrite elem_of_cons. intros [?|Hin]; [congruence|]. by apply (IH j).
Qed.

Lemma take_sub (n : nat) (s : bytes) c : c ∈ take n s -> c ∈ s.
Proof. intros (j & Hj & _)%elem_of_take. by eapply list_elem_of_lookup_2. Qed.

Lemma drop_sub (n : nat) (s : bytes) c : c ∈ drop n s -> c ∈ s.
Proof. intros Hc. rewrite <- (take_drop n s). apply elem_of_app. by right. Qed.

(** A host that was split off has no brackets. *)
Lemma SplitHostPort_host s host port : SplitHostPort s = Some (host, port) -> (lbracket ∉ host) /\ (rbracket ∉ host).
Proof.
  unfold SplitHostPort. destruct (LastIndexByte s colon) as [i|]; [|done]. case_bool_decide.
  - destruct (IndexByte s rbracket) as [e|] eqn:Er; [|done]. destruct (negb _); [done|].
    destruct (has_byte (drop 1 s) lbracket) eqn:El; [done|]. cbn [orb]. destruct (has_byte _ rbracket); [done|]. intros [= <- _].
    apply IndexByte_split in Er. apply has_byte_false in El. split; intros Hin.
    + apply El. by apply take_sub in Hin.
    + apply Er. unfold slice in Hin. rewrite <- skipn_firstn_comm in Hin. by apply drop_sub in Hin.
  - destruct (has_byte _ colon); [done|]. destruct (has_byte s lbracket) eqn:El; [done|]. destruct (has_byte s rbracket) eqn:Er; [done|].
    intros [= <- _]. apply has_byte_false in El, Er.
    split; intros Hin%take_sub; [by apply El|by apply Er].
Qed.
