(* ===== verification/RelayConfig.v ===== *)
(** relay/config.go, types.go, util.go, validate.go, the start of
    [Gateway.run] (relay/gateway.go), the choice of the knock listener
    (relay/knock.go [listenKnock]) and the checks of internal/gatewaycore they
    use.

    The event sink is not a field here: the events are part of the [world] of
    Gateway. [net.Listen], the sockets of the knock listeners and what arrives on
    them are arguments. *)

From Stdlib Require Import ZArith Lia String.
From Stdlib Require Strings.Byte.
From stdpp Require Import base list gmap strings.
From S2P Require Import Prelude GoStd Cryptox Cache Replay Net Session KnockFrame KnockSeq KnockSyn KnockListen GoText Firewall Gateway AuthServer AuthTypes.

Open Scope Z_scope.

(** * Configuration *)

(** [g_ReplayCache] and [g_KnockStore] are the fields of [g_Auth] that the
    gateway looks at: the replay cache, and the knock store when it is a
    [KnockSessionStore]. *)
Record relay_Gateway := mkRelay {
  rg_Listen : bytes; rg_Upstream : bytes; rg_Auth : ServerConfig; rg_ReplayCache : option Memory.t; rg_KnockStore : option SessionStore;
  rg_Firewall : option Backend; rg_KnockMethod : bytes; rg_KnockListen : bytes; rg_KnockPort : Z; rg_KnockClients : list ClientSecret;
  rg_KnockTimeWindow : Z; rg_KnockMaxFrameSize : Z; rg_KnockSequence : SequenceOptions; rg_KnockNonceTTL : Z; rg_AllowTTL : Z;
  rg_UpstreamConnectTimeout : Z; rg_IdleTimeout : Z; rg_RemoveAfterAuth : bool; rg_MaxConnectionsPerKnock : Z; rg_DisableSessionBinding : bool;
  rg_MaxPendingAuth : Z; rg_MaxAuthWorkers : Z; rg_MaxPendingAuthPerSource : Z;
}.

(** [relay.Config] has the fields of [relay.Gateway]. *)
Record relay_Config := mkRelayConfig { rc_fields : relay_Gateway }.

Definition relay_WithDefaults (c : relay_Config) : relay_Config :=
  let g := rc_fields c in
  mkRelayConfig (mkRelay (rg_Listen g) (rg_Upstream g) (rg_Auth g) (rg_ReplayCache g) (rg_KnockStore g)
    (Some (default Noop (rg_Firewall g))) (rg_KnockMethod g) (rg_KnockListen g) (rg_KnockPort g) (rg_KnockClients g)
    (rg_KnockTimeWindow g) (rg_KnockMaxFrameSize g) (rg_KnockSequence g) (rg_KnockNonceTTL g)
    (if Z.leb (rg_AllowTTL g) 0 then Minute else rg_AllowTTL g)
    (if Z.leb (rg_UpstreamConnectTimeout g) 0 then 5 * Second else rg_UpstreamConnectTimeout g)
    (rg_IdleTimeout g) (rg_RemoveAfterAuth g) (rg_MaxConnectionsPerKnock g) (rg_DisableSessionBinding g)
    (if Z.leb (rg_MaxPendingAuth g) 0 then 128 else rg_MaxPendingAuth g)
    (if Z.leb (rg_MaxAuthWorkers g) 0 then 32 else rg_MaxAuthWorkers g) (rg_MaxPendingAuthPerSource g)).

Definition NewGateway (cfg : relay_Config) : relay_Gateway := rc_fields (relay_WithDefaults cfg).

(** relay/util.go *)
Definition nonzero (v d : Z) : Z := if Z.ltb 0 v then v else d.
Definition maxPendingAuth (g : relay_Gateway) : Z := nonzero (rg_MaxPendingAuth g) 128.
Definition maxPendingAuthPerSource (g : relay_Gateway) : Z := rg_MaxPendingAuthPerSource g.
Definition maxAuthWorkers (g : relay_Gateway) : Z := nonzero (rg_MaxAuthWorkers g) 32.

(** internal/gatewaycore/misc.go *)
Definition DefaultString (v fallback : bytes) : bytes := if bool_decide (v = []) then fallback else v.

(** relay/validate.go *)
Definition validateRelayFirewallMode (fw : option Backend) (method : bytes) : option error :=
  match fw with
  | None => None
  | Some fw =>
      if bool_decide (Name fw = str "noop") then None
      else if bool_decide (method = []) then Some (EMsg (str "relay firewall backend requires a knock method; auth-only relay must use firewall backend noop"))
      else ValidateRelayServerMethod method
  end.

(** internal/gatewaycore/firewall.go *)
Definition ValidateDropUDPKnockPort (fw : Backend) (method : bytes) : option error :=
  match Backend_Config fw with
  | None => None
  | Some cfg =>
      if negb (fc_DropUDPKnockPort cfg) then None
      else if bool_decide (method = str "udp-passive") || bool_decide (method = str "udp-passive-seq") then None
      else Some (EMsg (str "drop_udp_knock_port requires udp-passive knock methods, got " ++ fmt_q method))
  end.

Definition ConfigureFirewallPort {H} `{Host H} (fw : Backend) (port : Z) : FW H (res Backend) := WithPort (Some fw) port.

(** * The start of [run] *)

(** The [ServerConfig] the connections are authenticated with. *)
Definition set_port (port : Z) (c : ServerConfig) : ServerConfig :=
  mkServerConfig port (sv_Secrets c) (sv_AuthTimeout c) (sv_TimeWindow c) (sv_MaxFrameSize c) (sv_Protocol c) (sv_AcceptProtocols c) (sv_EnvelopeV2 c)
    (sv_RequireKnock c) (sv_ServerProof c) (sv_FailDelayJitterMin c) (sv_FailDelayJitterMax c) (sv_DrainOnFailBytes c) (sv_DrainOnFailTimeout c) (sv_MaxAuthAttempts c).

Definition require_knock (c : ServerConfig) : ServerConfig :=
  mkServerConfig (sv_ServerPort c) (sv_Secrets c) (sv_AuthTimeout c) (sv_TimeWindow c) (sv_MaxFrameSize c) (sv_Protocol c) (sv_AcceptProtocols c) (sv_EnvelopeV2 c)
    true (sv_ServerProof c) (sv_FailDelayJitterMin c) (sv_FailDelayJitterMax c) (sv_DrainOnFailBytes c) (sv_DrainOnFailTimeout c) (sv_MaxAuthAttempts c).

(** What the goroutines of [run] start from. *)
Record relay_start := mkRelayStart {
  rs_auth : ServerConfig; rs_replay : Memory.t; rs_store : SessionStore; rs_port : Z; rs_firewall : Backend;
  rs_pending : Z; rs_perSource : Z; rs_workers : Z;
}.

(** The checks of [run] before it listens: the firewall. *)
Definition run_checks (g : relay_Gateway) : res Backend :=
  _ ← guard_err (bool_decide (rg_Listen g = [])) (EMsg (str "relay gateway listen address is required"));
  _ ← guard_err (bool_decide (rg_Upstream g = [])) (EMsg (str "relay gateway upstream address is required"));
  _ ← guard_err (rg_RemoveAfterAuth g && Z.ltb 1 (rg_MaxConnectionsPerKnock g)) (EMsg (str "remove_after_auth=true conflicts with max_connections_per_knock > 1"));
  let fw := default Noop (rg_Firewall g) in
  match validateRelayFirewallMode (Some fw) (rg_KnockMethod g) with
  | Some err => Err err
  | None => match ValidateDropUDPKnockPort fw (rg_KnockMethod g) with Some err => Err err | None => Ok fw end
  end.

(** The authentication of the connections, with its replay cache. *)
Definition run_auth (g : relay_Gateway) : ServerConfig * Memory.t :=
  let authCfg := if sv_RequireKnock (rg_Auth g) || negb (bool_decide (rg_KnockMethod g = [])) then require_knock (rg_Auth g) else rg_Auth g in
  let authCfg := sv_WithDefaults authCfg in
  (authCfg, default (Memory.NewMemoryReplayCache (int64 (sv_TimeWindow authCfg * 2))) (rg_ReplayCache g)).

(** [run] until the goroutines start; [listen] is what [net.Listen] returns. *)
Definition run_start {H} `{Host H} (ctx : Ctx) (g : relay_Gateway) (listen : res net_Addr) : FW (world H) (res relay_start) :=
  match run_checks g with
  | Err err => mret (Err err)
  | Ok fw =>
      let store := default NewKnockSessionStore (rg_KnockStore g) in
      let '(authCfg, cache) := run_auth g in
      match listen with
      | Err err => mret (Err err)
      | Ok addr =>
          let protectedPort := if Z.leb (sv_ServerPort authCfg) 0 then ListenerPort (Some addr) else sv_ServerPort authCfg in
          fw ← on_fw (ConfigureFirewallPort fw protectedPort);
          match fw with
          | Err err => mret (Err err)
          | Ok fw =>
              e ← InitFirewall (backend_ops fw) ctx;
              mret (match e with
                    | Some err => Err err
                    | None => Ok (mkRelayStart (set_port protectedPort authCfg) cache store protectedPort fw
                                    (maxPendingAuth g) (maxPendingAuthPerSource g) (maxAuthWorkers g))
                    end)
          end
      end
  end.

(** * The knock listener *)

Definition knock_options (g : relay_Gateway) (protectedPort : Z) : ListenOptions (option Memory.t) :=
  mkListenOptions protectedPort (rg_KnockPort g) (rg_KnockClients g) (rg_KnockTimeWindow g) (rg_KnockMaxFrameSize g)
    (negb (rg_DisableSessionBinding g)) (Some (Some (Memory.NewMemoryReplayCache (KnockReplayTTL (rg_KnockTimeWindow g)))))
    false false false (rg_KnockSequence g) (rg_KnockNonceTTL g).

Definition knock_listen_addr (g : relay_Gateway) : bytes :=
  DefaultString (rg_KnockListen g) (UDPListenStringForKnockPort (rg_Listen g) (rg_KnockPort g)).

(** [listenKnock]: the knocks given to the handler and the final error. *)
Definition listenKnock `{AEAD} (g : relay_Gateway) (protectedPort : Z) (bind : option error) (socket : option sock_error)
    (arrivals : list arrival) (e : ending) : list output * error :=
  match ValidateClientSecrets (rg_KnockClients g) with
  | Some err => ([], err)
  | None =>
      match ValidateRelayServerMethod (rg_KnockMethod g) with
      | Some err => ([], err)
      | None =>
          let opts := knock_options g protectedPort in
          let method := NormalizeMethod (rg_KnockMethod g) in
          if bool_decide (method = TCPSYNMethod) then Listen opts socket arrivals e
          else if bool_decide (method = UDPMethod) then ListenUDP (knock_listen_addr g) opts bind arrivals e
          else if bool_decide (method = UDPSeqMethod) then ListenUDPSequence (knock_listen_addr g) opts bind arrivals e
          else if bool_decide (method = UDPPassiveMethod) then ListenUDPPassive opts socket arrivals e
          else if bool_decide (method = UDPPassiveSeq) then ListenUDPPassiveSequence opts socket arrivals e
          else if bool_decide (method = TCP_SYNSeqMethod) then ListenSYNSequence opts socket arrivals e
          else ([], unsupported_method (rg_KnockMethod g))
      end
  end.

(** The fields of the gateway that its knock handler reads. *)
Definition handler_of (g : relay_Gateway) (protectedPort : Z) : gateway :=
  mkGateway Relay protectedPort (ListenerPortFromString (rg_Listen g)) (rg_AllowTTL g) (rg_MaxConnectionsPerKnock g).
