(* ===== verification/Dialer.v ===== *)
(** netx/dialer.go: a connection is dialled after its knock and then
    authenticated, with the session identifier of the knock. *)

From Stdlib Require Import ZArith Lia String.
From Stdlib Require Strings.Byte.
From stdpp Require Import base list strings.
From S2P Require Import Prelude GoStd Cryptox Net AuthTypes AuthServer AuthClient.

Open Scope Z_scope.

(** [auth.KnockSender] and, when [ks_SetSessionID] is there,
    [auth.SessionBoundKnockSender]. [E] is what the network does to a knock and
    [O] what the knock puts on it. *)
Class KnockSender (S E O : Type) := {
  ks_SetSessionID : option (bytes -> S -> S);
  ks_Knock : S -> E -> O * option error;
}.

Definition with_session (sid : bytes) (c : ClientConfig) : ClientConfig :=
  mkClientConfig (cl_ClientID c) (cl_Secret c) (cl_ServerPort c) (cl_AuthTimeout c) (cl_Protocol c) (cl_EnvelopeV2 c) (cl_Method c) sid
    (cl_Extensions c) (cl_RequireServerProof c).

Section Dial.
Context `{AEAD} {S E O : Type} `{KnockSender S E O}.

(** The knock of [DialContext]: the configuration with its session, the sender
    and what it sent. *)
Definition dial_knock (cfg : ClientConfig) (sender : S) (env : E) (r : rng) : res (ClientConfig * S * O * rng) :=
  '(sid, r) ← (if bool_decide (cl_SessionID cfg = []) then rand_Read 16 r else Ok (cl_SessionID cfg, r));
  let cfg := with_session sid cfg in
  let sender := match ks_SetSessionID with Some set => set sid sender | None => sender end in
  let '(sent, err) := ks_Knock sender env in
  match err with Some e => Err e | None => Ok (cfg, sender, sent, r) end.

(** [base] is what dialling gives: the connection, when it is made; [ctx_deadline],
    [deadline_now] and [now] are those of [ClientAuth]. The result is the
    connection the caller gets or the error, and what became of the connection
    that was dialled. *)
Definition DialContext (cfg : ClientConfig) (sender : option S) (env : E) (base : res conn) (ctx_deadline : option Z) (deadline_now now : Z) (r : rng)
    : res conn * option conn :=
  let cfg := cl_WithDefaults cfg in
  match cl_ValidateRuntime cfg with
  | Err e => (Err e, None)
  | Ok _ =>
      match (match sender with
             | None => Ok (cfg, r)
             | Some sender => '(cfg, _, _, r) ← dial_knock cfg sender env r; Ok (cfg, r)
             end) with
      | Err e => (Err e, None)
      | Ok (cfg, r) =>
          match base with
          | Err e => (Err e, None)
          | Ok c =>
              match ClientAuthWithInfo ctx_deadline (Some c) cfg deadline_now now r with
              | (Ok _, Some c) => (Ok c, Some c)
              | (Ok _, None) => (Ok c, None)
              | (Err e, c) => (Err e, c)
              end
          end
      end
  end.

End Dial.
