(* ===== verification/ProxyConfig.v ===== *)
(** cmd/knock-proxy/config.go: the configuration file of the proxy and the
    runtime values made of it.

    The YAML parser (gopkg.in/yaml.v3) is the class [Yaml]: the node tree of a
    document and the decoding of a document into a configuration. Reading a
    file is the argument [ReadFile]. *)

From Stdlib Require Import ZArith Lia String.
From Stdlib Require Strings.Byte.
From stdpp Require Import base list gmap strings.
From S2P Require Import Prelude GoStd Net AuthTypes KnockFrame KnockSeq KnockSyn KnockListen GoText GoParse Firewall.

Open Scope Z_scope.

Definition modeClient : bytes := str "client".
Definition modeServer : bytes := str "server".

(** * The file *)

Record clientConfig := mkClientFile {
  cli_Listen : bytes; cli_ServerAddr : bytes; cli_ProtectedTCPPort : Z; cli_UDPServerAddr : bytes; cli_ClientID : bytes;
  cli_Secret : bytes; cli_SecretFile : bytes;
}.
Record serverConfig := mkServerFile { srv_TCPListen : bytes; srv_Upstream : bytes }.
Record accessConfig := mkAccess {
  acc_Mode : bytes; acc_RequireTCPAuth : option bool; acc_RemoveAfterFirstConnect : option bool; acc_MaxConnectionsPerKnock : Z;
}.
Record sequenceConfig := mkSequence {
  sq_Length : Z; sq_SlotSeconds : Z; sq_Window : bytes; sq_PacketInterval : bytes; sq_MaxJitter : bytes;
  sq_MaxInflightPerIP : Z; sq_MaxTotalInflight : Z;
}.
Record replayConfig := mkReplay { rp_NonceTTL : bytes }.
Record knockConfig := mkKnock {
  kn_Method : bytes; kn_Frame : bytes; kn_MaxFrameSize : Z; kn_TimeWindow : bytes; kn_SequenceWindow : bytes; kn_SequenceMaxParts : Z;
  kn_RequireSessionBinding : option bool; kn_UDPListen : bytes; kn_UDPPort : Z; kn_UDPKnockPort : Z; kn_TimeoutSeconds : Z;
  kn_Retry : Z; kn_TimeWindowSeconds : Z; kn_Sequence : sequenceConfig; kn_Replay : replayConfig;
}.
Record authClient := mkAuthClient { ac_ClientID : bytes; ac_Secret : bytes; ac_SecretFile : bytes; ac_MaxConnections : Z }.
Record authConfig := mkAuth { au_TimeWindowSeconds : Z; au_NonceCacheSeconds : Z; au_Clients : list authClient }.
Record nftablesConfig := mkNft { nf_Table : bytes; nf_Chain : bytes; nf_SetV4 : bytes; nf_SetV6 : bytes; nf_Family : bytes }.
Record iptablesConfig := mkIpt { it_Chain : bytes }.
Record ipsetConfig := mkIpset { is_Set : bytes; is_SetV6 : bytes }.
Record scriptConfig := mkScript { sx_AllowCmd : bytes; sx_RevokeCmd : bytes; sx_CleanupCmd : bytes }.
Record firewallConfig := mkFirewall {
  fw_Backend : bytes; fw_Port : Z; fw_DefaultAction : bytes; fw_AllowSeconds : Z; fw_RemoveAfterAuth : bool; fw_EnableIPv6 : option bool;
  fw_Nftables : nftablesConfig; fw_Iptables : iptablesConfig; fw_IPSet : ipsetConfig; fw_Script : scriptConfig;
}.
Record transportConfig := mkTransport { tr_Encryption : bool; tr_Method : bytes }.
Record limitsConfig := mkLimits { li_MaxPendingAuth : Z; li_MaxAuthWorkers : Z; li_MaxPendingAuthPerSource : Z }.
Record timeoutsConfig := mkTimeouts { ti_ConnectSeconds : Z; ti_UpstreamConnectSeconds : Z; ti_AuthSeconds : Z; ti_IdleSeconds : Z }.
Record metricsConfig := mkMetrics { me_Enabled : bool }.

Record fileConfig := mkFile {
  c_Mode : bytes; c_Client : clientConfig; c_Server : serverConfig; c_Access : accessConfig; c_Knock : knockConfig; c_Auth : authConfig;
  c_Firewall : firewallConfig; c_Transport : transportConfig; c_Limits : limitsConfig; c_Timeouts : timeoutsConfig; c_Metrics : metricsConfig;
}.

Definition defaultConfig : fileConfig :=
  mkFile [] (mkClientFile [] [] 0 [] [] [] []) (mkServerFile [] [])
    (mkAccess (str "proxy") None None 1)
    (mkKnock [] (str "binary-v1") DefaultMaxKnockFrameSize [] [] DefaultSequenceMaxParts None [] 0 0 3 2 30
       (mkSequence 3 30 (str "5s") (str "80ms") [] 8 4096) (mkReplay (str "2m")))
    (mkAuth 30 300 [])
    (mkFirewall (str "auto") 0 (str "drop") 15 true None
       (mkNft (str "knock_proxy") (str "input") (str "allowed_clients_v4") (str "allowed_clients_v6") (str "inet"))
       (mkIpt (str "KNOCK_PROXY")) (mkIpset (str "knock_proxy_allowed") (str "knock_proxy_allowed_v6")) (mkScript [] [] []))
    (mkTransport false (str "chacha20-poly1305")) (mkLimits 128 32 0) (mkTimeouts 5 5 5 300) (mkMetrics false).

(** * Small helpers *)

(** [seconds]: the product is an [int64] that wraps. *)
Definition seconds (v : Z) : Z := int64 (v * Second).
Definition defaultInt (v fallback : Z) : Z := if Z.eqb v 0 then fallback else v.
Definition defaultString (v fallback : bytes) : bytes := if bool_decide (v = []) then fallback else v.

Definition parseDurationDefault (v : bytes) (d : Z) : res Z := if bool_decide (v = []) then Ok d else ParseDuration v.

(** [fmt.Errorf] with [%w] at the end of the message *)
Definition wrap {A} (msg : bytes) (r : res A) : res A := match r with Ok a => Ok a | Err e => Err (EWrap msg e) end.

(** [splitHostPort]; the message of [net.SplitHostPort] does not give the reason. *)
Definition splitHostPort (addr : bytes) : res (bytes * Z) :=
  match SplitHostPort addr with
  | None => Err (EMsg (str "address " ++ addr ++ str ": invalid"))
  | Some (host, p) =>
      let invalid := Err (EMsg (str "invalid port " ++ fmt_q p)) in
      match Atoi p with
      | None => invalid
      | Some port => if Z.ltb port 1 || Z.ltb 65535 port then invalid else Ok (host, port)
      end
  end.

Definition validateAddress (name addr : bytes) : res unit :=
  '(host, _) ← wrap (name ++ str ": ") (splitHostPort addr);
  guard_err (bool_decide (TrimSpace host = [])) (EMsg (name ++ str ": host is empty")).

Definition normalizeKnockMethod (method : bytes) : bytes :=
  if bool_decide (method = str "udp-sequence") then UDPSeqMethod
  else if bool_decide (method = str "udp-passive-sequence") then UDPPassiveSeq
  else method.

Definition isKnockMethod (method : bytes) : bool :=
  bool_decide (method ∈ [TCPSYNMethod; UDPMethod; UDPPassiveMethod; UDPSeqMethod; UDPPassiveSeq; TCP_SYNSeqMethod]).

(** * Loading *)

Inductive node_kind := NoKind | DocumentNode | SequenceNode | MappingNode | ScalarNode | AliasNode.
Inductive Node := mkNode { n_Kind : node_kind; n_Value : bytes; n_Content : list Node }.

#[export] Instance node_kind_eq_dec : EqDecision node_kind.
Proof. solve_decision. Defined.

(** The value of a key in the content of a mapping: the first one that matches. *)
Fixpoint mapping_value (key : bytes) (content : list Node) : option Node :=
  match content with
  | k :: v :: rest => if bool_decide (n_Value k = key) then Some v else mapping_value key rest
  | _ => None
  end.

Fixpoint yaml_keys (n : Node) (path : list bytes) : option Node :=
  match path with
  | [] => Some n
  | key :: path =>
      if bool_decide (n_Kind n = MappingNode) then n ← mapping_value key (n_Content n); yaml_keys n path else None
  end.

Definition yamlPath (n : Node) (path : list bytes) : option Node :=
  match n_Kind n, n_Content n with
  | DocumentNode, n :: _ => yaml_keys n path
  | _, _ => yaml_keys n path
  end.

(** [yaml.Unmarshal] into a node, [decoder.Decode] of the first document into a
    configuration that holds the defaults, and of what follows it ([io.EOF] when
    nothing does). *)
Class Yaml := {
  yaml_Unmarshal : bytes -> res Node;
  yaml_Decode : bytes -> fileConfig -> res fileConfig;
  yaml_DecodeNext : bytes -> option error;
}.

Definition legacy_paths : list (list bytes) :=
  [[str "knock"; str "frame"]; [str "knock_frame_format"]; [str "legacy_json"]; [str "allow_json_knock"]; [str "json_compat"]; [str "json_sequence_compat"]].

Fixpoint strings_Join (sep : bytes) (l : list bytes) : bytes :=
  match l with [] => [] | [s] => s | s :: l => s ++ sep ++ strings_Join sep l end.

Definition legacy_error (path : list bytes) : error :=
  EMsg (str "unsupported legacy UDP knock config " ++ fmt_q (strings_Join (str ".") path) ++ str "; binary-v1 is required").

(** One round of the loop of [rejectLegacyKnockConfig]. *)
Definition legacy_path (root : Node) (path : list bytes) : bool :=
  match yamlPath root path with
  | None => false
  | Some n =>
      negb (bool_decide (path = [str "knock"; str "frame"]) && negb (bool_decide (n_Value n = str "json"))
            && negb (bool_decide (n_Value n = str "legacy-json")))
  end.

Definition reject_legacy (root : Node) : res unit :=
  match find (legacy_path root) legacy_paths with Some path => Err (legacy_error path) | None => Ok tt end.

Definition non_negative_fields (c : fileConfig) : list (bytes * Z) :=
  [(str "client.protected_tcp_port", cli_ProtectedTCPPort (c_Client c));
   (str "access.max_connections_per_knock", acc_MaxConnectionsPerKnock (c_Access c));
   (str "knock.max_frame_size", kn_MaxFrameSize (c_Knock c));
   (str "knock.sequence_max_parts", kn_SequenceMaxParts (c_Knock c));
   (str "knock.udp_port", kn_UDPPort (c_Knock c));
   (str "knock.udp_knock_port", kn_UDPKnockPort (c_Knock c));
   (str "knock.timeout_seconds", kn_TimeoutSeconds (c_Knock c));
   (str "knock.retry", kn_Retry (c_Knock c));
   (str "knock.time_window_seconds", kn_TimeWindowSeconds (c_Knock c));
   (str "knock.sequence.length", sq_Length (kn_Sequence (c_Knock c)));
   (str "knock.sequence.slot_seconds", sq_SlotSeconds (kn_Sequence (c_Knock c)));
   (str "knock.sequence.max_inflight_per_ip", sq_MaxInflightPerIP (kn_Sequence (c_Knock c)));
   (str "knock.sequence.max_total_inflight", sq_MaxTotalInflight (kn_Sequence (c_Knock c)));
   (str "auth.time_window_seconds", au_TimeWindowSeconds (c_Auth c));
   (str "auth.nonce_cache_seconds", au_NonceCacheSeconds (c_Auth c));
   (str "firewall.port", fw_Port (c_Firewall c));
   (str "firewall.allow_seconds", fw_AllowSeconds (c_Firewall c));
   (str "limits.max_pending_auth", li_MaxPendingAuth (c_Limits c));
   (str "limits.max_auth_workers", li_MaxAuthWorkers (c_Limits c));
   (str "limits.max_pending_auth_per_source", li_MaxPendingAuthPerSource (c_Limits c));
   (str "timeouts.connect_seconds", ti_ConnectSeconds (c_Timeouts c));
   (str "timeouts.upstream_connect_seconds", ti_UpstreamConnectSeconds (c_Timeouts c));
   (str "timeouts.auth_seconds", ti_AuthSeconds (c_Timeouts c));
   (str "timeouts.idle_seconds", ti_IdleSeconds (c_Timeouts c))].

Fixpoint check_max_connections (i : Z) (clients : list authClient) : res unit :=
  match clients with
  | [] => Ok tt
  | client :: clients =>
      if Z.ltb (ac_MaxConnections client) 0
      then Err (EMsg (str "auth.clients[" ++ itoa i ++ str "].max_connections must not be negative"))
      else check_max_connections (i + 1) clients
  end.

(** [order] is the order in which the map of fields is visited. *)
Definition validateNonNegativeConfig (order : list (bytes * Z) -> list (bytes * Z)) (c : fileConfig) : res unit :=
  match find (fun f => Z.ltb (snd f) 0) (order (non_negative_fields c)) with
  | Some (path, _) => Err (EMsg (path ++ str " must not be negative"))
  | None => check_max_connections 0 (au_Clients (c_Auth c))
  end.

Section Files.
Context (ReadFile : bytes -> res bytes).

Definition rejectLegacyKnockConfig `{Yaml} (data : bytes) : res unit := root ← yaml_Unmarshal data; reject_legacy root.

Definition loadConfig `{Yaml} (order : list (bytes * Z) -> list (bytes * Z)) (path : bytes) : res fileConfig :=
  if bool_decide (path = []) then Ok defaultConfig
  else
    data ← ReadFile path;
    _ ← rejectLegacyKnockConfig data;
    cfg ← yaml_Decode data defaultConfig;
    _ ← match yaml_DecodeNext data with
        | Some e => if bool_decide (e = io_EOF) then Ok tt else Err e
        | None => Err (EMsg (str "config must contain exactly one YAML document"))
        end;
    _ ← validateNonNegativeConfig order cfg;
    Ok cfg.

(** * Secrets *)

Definition parseSecret (value file : bytes) : res bytes :=
  _ ← guard_err (negb (bool_decide (value = [])) && negb (bool_decide (file = []))) (EMsg (str "secret and secret_file are mutually exclusive"));
  value ← (if bool_decide (file = []) then Ok value else data ← ReadFile file; Ok (TrimSpace data));
  _ ← guard_err (bool_decide (value = [])) (EMsg (str "secret is required"));
  out ← (if HasPrefix value (str "base64:") then
           let raw := TrimPrefix value (str "base64:") in
           match base64_DecodeString true raw with Ok out => Ok out | Err _ => base64_DecodeString false raw end
         else if HasPrefix value (str "hex:") then hex_DecodeString (TrimPrefix value (str "hex:"))
         else Ok value);
  _ ← guard_err (Z.ltb (len out) auth_MinSecretSize) (EMsg (str "secret must be at least " ++ itoa auth_MinSecretSize ++ str " bytes"));
  Ok out.

(** * The sections of the file *)

Definition validateKnockBinaryConfig (k : knockConfig) : res unit :=
  let frame := defaultString (kn_Frame k) (str "binary-v1") in
  guard_err (negb (bool_decide (frame = str "binary-v1"))) (EMsg (str "knock.frame must be binary-v1, got " ++ fmt_q frame)).

Definition knockTimeWindow (k : knockConfig) : res Z :=
  if bool_decide (kn_TimeWindow k = []) then Ok (seconds (defaultInt (kn_TimeWindowSeconds k) 30))
  else
    window ← wrap (str "knock.time_window: ") (ParseDuration (kn_TimeWindow k));
    _ ← guard_err (Z.leb window 0) (EMsg (str "knock.time_window must be positive"));
    Ok window.

Definition knockMaxFrameSize (k : knockConfig) : res Z :=
  let max := defaultInt (kn_MaxFrameSize k) DefaultMaxKnockFrameSize in
  _ ← guard_err (Z.ltb max KnockFrameHeaderSize || Z.ltb 65535 max)
        (EMsg (str "knock.max_frame_size must be between " ++ itoa KnockFrameHeaderSize ++ str " and 65535"));
  Ok max.

(** The options and the nonce TTL. *)
Definition sequenceOptions (k : knockConfig) : res (SequenceOptions * Z) :=
  let s := kn_Sequence k in
  let r := kn_Replay k in
  let maxParts := defaultInt (kn_SequenceMaxParts k) DefaultSequenceMaxParts in
  _ ← guard_err (Z.ltb maxParts 2 || Z.ltb DefaultSequenceMaxParts maxParts)
        (EMsg (str "knock.sequence_max_parts must be between 2 and " ++ itoa DefaultSequenceMaxParts));
  let length := defaultInt (sq_Length s) 3 in
  _ ← guard_err (Z.ltb length 2 || Z.ltb maxParts length) (EMsg (str "knock.sequence.length must be between 2 and " ++ itoa maxParts));
  let slot := defaultInt (sq_SlotSeconds s) 30 in
  _ ← guard_err (Z.ltb slot 5) (EMsg (str "knock.sequence.slot_seconds must be at least 5"));
  let windowText := if bool_decide (kn_SequenceWindow k = []) then sq_Window s else kn_SequenceWindow k in
  window ← wrap (str "knock.sequence.window: ") (parseDurationDefault windowText (5 * Second));
  interval ← wrap (str "knock.sequence.packet_interval: ") (parseDurationDefault (sq_PacketInterval s) (80 * Millisecond));
  jitter ← wrap (str "knock.sequence.max_jitter: ") (parseDurationDefault (sq_MaxJitter s) 0);
  nonceTTL ← wrap (str "knock.replay.nonce_ttl: ") (parseDurationDefault (rp_NonceTTL r) (2 * Minute));
  _ ← guard_err (Z.leb nonceTTL window) (EMsg (str "knock.replay.nonce_ttl must be greater than knock.sequence.window"));
  Ok (mkSequenceOptions length slot window interval jitter (defaultInt (sq_MaxInflightPerIP s) 8) (defaultInt (sq_MaxTotalInflight s) 4096) false,
      nonceTTL).

Definition firewallConfigToLib (c : firewallConfig) : Config :=
  mkConfig (fw_Backend c) (fw_Port c) (fw_AllowSeconds c) 0 false false 0 (fw_EnableIPv6 c)
    (mkNftablesConfig (nf_Table (fw_Nftables c)) (nf_Chain (fw_Nftables c)) (nf_SetV4 (fw_Nftables c)) (nf_SetV6 (fw_Nftables c)) (nf_Family (fw_Nftables c)))
    (mkIptablesConfig (it_Chain (fw_Iptables c)))
    (mkIPSetConfig (is_Set (fw_IPSet c)) (is_SetV6 (fw_IPSet c)))
    (mkScriptConfig (sx_AllowCmd (fw_Script c)) (sx_RevokeCmd (fw_Script c)) (sx_CleanupCmd (fw_Script c))).

(** [udp_knock_port], or else [udp_port] *)
Definition udp_port (k : knockConfig) : res Z :=
  let udpPort := defaultInt (kn_UDPKnockPort k) (kn_UDPPort k) in
  _ ← guard_err (Z.ltb udpPort 0 || Z.ltb 65535 udpPort) (EMsg (str "knock.udp_knock_port (" ++ itoa udpPort ++ str ") is invalid"));
  Ok udpPort.

Definition resolveUDPListen (k : knockConfig) (tcpListen : bytes) : res (bytes * Z) :=
  '(host, tcpPort) ← wrap (str "server.tcp_listen: ") (splitHostPort tcpListen);
  udpPort ← udp_port k;
  if bool_decide (kn_UDPListen k = []) then
    let udpPort := if Z.eqb udpPort 0 then tcpPort else udpPort in
    Ok (JoinHostPort host (itoa udpPort), udpPort)
  else
    '(_, parsed) ← wrap (str "knock.udp_listen: ") (splitHostPort (kn_UDPListen k));
    Ok (kn_UDPListen k, if Z.eqb udpPort 0 then parsed else udpPort).

(** The loop over the clients of the file. *)
Fixpoint read_clients (cs : list authClient) (secrets : gmap bytes bytes) (clients : list ClientSecret)
    : res (gmap bytes bytes * list ClientSecret) :=
  match cs with
  | [] => Ok (secrets, clients)
  | client :: cs =>
      _ ← guard_err (negb (Z.eqb (ac_MaxConnections client) 0))
            (EMsg (str "auth.clients[].max_connections is not supported by the compatibility cmd; use access.max_connections_per_knock"));
      _ ← guard_err (bool_decide (ac_ClientID client = [])) (EMsg (str "auth.clients contains empty client_id"));
      _ ← guard_err (bool_decide (is_Some (secrets !! ac_ClientID client))) (EMsg (str "duplicate auth client_id " ++ fmt_q (ac_ClientID client)));
      secret ← wrap (str "auth.clients[" ++ ac_ClientID client ++ str "].secret: ") (parseSecret (ac_Secret client) (ac_SecretFile client));
      read_clients cs (<[ac_ClientID client := secret]> secrets) (clients ++ [mkClientSecret (ac_ClientID client) secret])
  end.

(** * The runtime values *)

Record serverRuntime := mkServerRuntime {
  sr_Listen : bytes; sr_Upstream : bytes; sr_KnockListen : bytes; sr_KnockMethod : bytes;
  sr_Port : Z; sr_KnockPort : Z; sr_MaxConnectionsPerKnock : Z;
  sr_Secrets : gmap bytes bytes; sr_KnockClients : list ClientSecret; sr_Sequence : SequenceOptions;
  sr_KnockTimeWindow : Z; sr_NonceTTL : Z; sr_AllowTTL : Z; sr_KnockMaxFrameSize : Z;
  sr_AuthTimeWindow : Z; sr_NonceCacheTTL : Z; sr_AuthTimeout : Z; sr_UpstreamConnectTimeout : Z; sr_IdleTimeout : Z;
  sr_RemoveAfterAuth : bool; sr_DisableSessionBinding : bool;
  sr_MaxPendingAuth : Z; sr_MaxAuthWorkers : Z; sr_MaxPendingAuthPerSource : Z; sr_Firewall : Config;
}.

Record clientRuntime := mkClientRuntime {
  cr_Listen : bytes; cr_ServerAddr : bytes; cr_UDPServerAddr : bytes; cr_ClientID : bytes; cr_KnockMethod : bytes; cr_Secret : bytes;
  cr_ServerPort : Z; cr_KnockRetry : Z; cr_Sequence : SequenceOptions;
  cr_KnockTimeout : Z; cr_KnockTimeWindow : Z; cr_ConnectTimeout : Z; cr_AuthTimeout : Z; cr_IdleTimeout : Z; cr_KnockMaxFrameSize : Z;
}.

Definition transport_error (method : bytes) : error := EMsg (str "compatibility cmd does not support transport.method " ++ fmt_q method).
Definition bad_transport (method : bytes) : bool := negb (bool_decide (method = [])) && negb (bool_decide (method = str "chacha20-poly1305")).

Definition is_false (b : option bool) : bool := bool_decide (b = Some false).

Definition is_passive (method : bytes) : bool := bool_decide (method = UDPPassiveMethod) || bool_decide (method = UDPPassiveSeq).

(** The firewall configuration of the server. *)
Definition server_firewall (c : firewallConfig) (port udpPort : Z) (passive : bool) : Config :=
  let fw := firewallConfigToLib c in
  mkConfig (if bool_decide (fc_Backend fw = []) then str "auto" else fc_Backend fw) port (fc_AllowSeconds fw) (fc_CommandTimeout fw) (fc_Runner fw)
    passive udpPort (fc_EnableIPv6 fw) (fc_Nftables fw) (fc_Iptables fw) (fc_IPSet fw) (fc_Script fw).

Definition fileConfig_serverRuntime (c : fileConfig) : res serverRuntime :=
  _ ← guard_err (negb (bool_decide (c_Mode c = [])) && negb (bool_decide (c_Mode c = modeServer)))
        (EMsg (str "config mode must be " ++ fmt_q modeServer ++ str " for server"));
  _ ← guard_err (tr_Encryption (c_Transport c)) (EMsg (str "compatibility cmd does not terminate the old encrypted transport; disable transport.encryption or use the full knock-proxy product"));
  _ ← guard_err (bad_transport (tr_Method (c_Transport c))) (transport_error (tr_Method (c_Transport c)));
  _ ← guard_err (me_Enabled (c_Metrics c)) (EMsg (str "compatibility cmd does not host a metrics HTTP server; wire observability/prometheus from an embedding application"));
  _ ← validateKnockBinaryConfig (c_Knock c);
  _ ← guard_err (negb (bool_decide (defaultString (acc_Mode (c_Access c)) (str "proxy") = str "proxy"))) (EMsg (str "compatibility cmd server supports access.mode=proxy only"));
  _ ← guard_err (is_false (acc_RequireTCPAuth (c_Access c))) (EMsg (str "compatibility cmd server requires access.require_tcp_auth=true; disable the full relay product feature or use the standalone knock-proxy"));
  _ ← guard_err (bool_decide (srv_TCPListen (c_Server c) = [])) (EMsg (str "server.tcp_listen is required"));
  _ ← guard_err (bool_decide (srv_Upstream (c_Server c) = [])) (EMsg (str "server.upstream is required"));
  '(_, listenPort) ← wrap (str "server.tcp_listen: ") (splitHostPort (srv_TCPListen (c_Server c)));
  _ ← wrap (str "server.upstream: ") (splitHostPort (srv_Upstream (c_Server c)));
  let port := defaultInt (fw_Port (c_Firewall c)) listenPort in
  _ ← guard_err (negb (Z.eqb port listenPort))
        (EMsg (str "firewall.port (" ++ itoa port ++ str ") must match server.tcp_listen port (" ++ itoa listenPort ++ str ")"));
  let method := normalizeKnockMethod (defaultString (kn_Method (c_Knock c)) UDPMethod) in
  _ ← guard_err (negb (isKnockMethod method)) (EMsg (str "unsupported knock.method " ++ fmt_q method));
  '(udpListen, udpPort) ← resolveUDPListen (c_Knock c) (srv_TCPListen (c_Server c));
  '(seq, nonceTTL) ← sequenceOptions (c_Knock c);
  knockWindow ← knockTimeWindow (c_Knock c);
  maxFrameSize ← knockMaxFrameSize (c_Knock c);
  '(secrets, clients) ← read_clients (au_Clients (c_Auth c)) ∅ [];
  _ ← guard_err (bool_decide (secrets = ∅)) (EMsg (str "auth.clients must contain at least one client"));
  let fw := server_firewall (c_Firewall c) port udpPort (is_passive method) in
  _ ← guard_err (negb (bool_decide (defaultString (fw_DefaultAction (c_Firewall c)) (str "drop") = str "drop"))) (EMsg (str "firewall.default_action must be drop"));
  let removeAfterAuth := default (fw_RemoveAfterAuth (c_Firewall c)) (acc_RemoveAfterFirstConnect (c_Access c)) in
  let maxConnectionsPerKnock := defaultInt (acc_MaxConnectionsPerKnock (c_Access c)) 1 in
  _ ← guard_err (removeAfterAuth && Z.ltb 1 maxConnectionsPerKnock) (EMsg (str "remove_after_auth=true conflicts with max_connections_per_knock > 1"));
  let disableSessionBinding := is_false (kn_RequireSessionBinding (c_Knock c)) in
  Ok (mkServerRuntime (srv_TCPListen (c_Server c)) (srv_Upstream (c_Server c)) udpListen method port udpPort maxConnectionsPerKnock
        secrets clients seq knockWindow nonceTTL (seconds (defaultInt (fw_AllowSeconds (c_Firewall c)) 15)) maxFrameSize
        (seconds (defaultInt (au_TimeWindowSeconds (c_Auth c)) 30)) (seconds (defaultInt (au_NonceCacheSeconds (c_Auth c)) 300))
        (seconds (defaultInt (ti_AuthSeconds (c_Timeouts c)) 5))
        (seconds (defaultInt (ti_UpstreamConnectSeconds (c_Timeouts c)) (defaultInt (ti_ConnectSeconds (c_Timeouts c)) 5)))
        (seconds (defaultInt (ti_IdleSeconds (c_Timeouts c)) 300))
        removeAfterAuth disableSessionBinding (defaultInt (li_MaxPendingAuth (c_Limits c)) 128) (defaultInt (li_MaxAuthWorkers (c_Limits c)) 32)
        (li_MaxPendingAuthPerSource (c_Limits c)) fw).

(** The address the client knocks at. *)
Definition client_udp_addr (c : fileConfig) (host : bytes) : res bytes :=
  let cl := c_Client c in
  udpAddr ← (if bool_decide (cli_UDPServerAddr cl = []) then Ok (cli_ServerAddr cl)
             else _ ← wrap (str "client.udp_server_addr: ") (splitHostPort (cli_UDPServerAddr cl)); Ok (cli_UDPServerAddr cl));
  udpPort ← udp_port (c_Knock c);
  Ok (if Z.ltb 0 udpPort then JoinHostPort host (itoa udpPort) else udpAddr).

Definition fileConfig_clientRuntime (c : fileConfig) : res clientRuntime :=
  let cl := c_Client c in
  _ ← guard_err (negb (bool_decide (c_Mode c = [])) && negb (bool_decide (c_Mode c = modeClient)))
        (EMsg (str "config mode must be " ++ fmt_q modeClient ++ str " for client"));
  _ ← guard_err (tr_Encryption (c_Transport c)) (EMsg (str "compatibility cmd does not implement the old encrypted transport; disable transport.encryption or use the full knock-proxy product"));
  _ ← guard_err (bad_transport (tr_Method (c_Transport c))) (transport_error (tr_Method (c_Transport c)));
  _ ← validateKnockBinaryConfig (c_Knock c);
  _ ← guard_err (bool_decide (cli_Listen cl = [])) (EMsg (str "client.listen is required"));
  _ ← validateAddress (str "client.listen") (cli_Listen cl);
  _ ← guard_err (bool_decide (cli_ServerAddr cl = [])) (EMsg (str "client.server_addr is required"));
  '(host, serverPort) ← wrap (str "client.server_addr: ") (splitHostPort (cli_ServerAddr cl));
  let protectedPort := if Z.ltb 0 (cli_ProtectedTCPPort cl) then cli_ProtectedTCPPort cl else serverPort in
  _ ← guard_err (Z.ltb protectedPort 1 || Z.ltb 65535 protectedPort)
        (EMsg (str "client.protected_tcp_port (" ++ itoa protectedPort ++ str ") is invalid"));
  udpAddr ← client_udp_addr c host;
  let method := normalizeKnockMethod (defaultString (kn_Method (c_Knock c)) UDPMethod) in
  _ ← guard_err (negb (isKnockMethod method)) (EMsg (str "unsupported knock.method " ++ fmt_q method));
  _ ← guard_err (bool_decide (cli_ClientID cl = [])) (EMsg (str "client.client_id is required"));
  secret ← wrap (str "client.secret: ") (parseSecret (cli_Secret cl) (cli_SecretFile cl));
  '(seq, _) ← sequenceOptions (c_Knock c);
  knockWindow ← knockTimeWindow (c_Knock c);
  maxFrameSize ← knockMaxFrameSize (c_Knock c);
  Ok (mkClientRuntime (cli_Listen cl) (cli_ServerAddr cl) udpAddr (cli_ClientID cl) method secret protectedPort (defaultInt (kn_Retry (c_Knock c)) 2) seq
        (seconds (defaultInt (kn_TimeoutSeconds (c_Knock c)) 3)) knockWindow (seconds (defaultInt (ti_ConnectSeconds (c_Timeouts c)) 5))
        (seconds (defaultInt (ti_AuthSeconds (c_Timeouts c)) 5)) (seconds (defaultInt (ti_IdleSeconds (c_Timeouts c)) 300)) maxFrameSize).

End Files.
