(* ===== verification/ProxyRun.v ===== *)
(** cmd/knock-proxy/runtime.go and doctor.go: from the runtime values to the gateway and
    the dialer, the knock sender with its retries, and the exit code of the
    doctor. *)

From Stdlib Require Import ZArith Lia String.
From Stdlib Require Strings.Byte.
From stdpp Require Import base list gmap strings.
From S2P Require Import Prelude GoStd Cryptox Envelope Replay Net Session KnockFrame KnockSeq KnockSyn KnockListen GoText GoParse Firewall Gateway RelayConfig ProxyConfig Dialer AuthServer AuthTypes.

Open Scope Z_scope.

Record runSummary := mkSummary {
  su_Mode : bytes; su_Listen : bytes; su_Upstream : bytes; su_ServerAddr : bytes; su_KnockMethod : bytes; su_Firewall : bytes;
  su_FirewallInstalls : bool; su_PortHidden : bool; su_AllowSeconds : Z; su_IPv6 : bytes; su_Clients : Z;
}.

Definition ipv6Summary (cfg : Config) : bytes :=
  match fc_EnableIPv6 cfg with None => str "auto" | Some true => str "enabled" | Some false => str "disabled" end.

(** The zero values of the fields that are not set. *)
Definition proxy_server_auth (rt : serverRuntime) : ServerConfig :=
  mkServerConfig (sr_Port rt) (Some (NewStaticSecretResolver (sr_Secrets rt))) (sr_AuthTimeout rt) (sr_AuthTimeWindow rt) 0 [] []
    (mkEnvelopeV2Config [] [] []) false false 0 0 0 0 0.

Definition proxy_gateway (rt : serverRuntime) (fw : Backend) : relay_Gateway :=
  mkRelay (sr_Listen rt) (sr_Upstream rt) (proxy_server_auth rt)
    (Some (Memory.NewMemoryReplayCache (authReplayTTL (sr_NonceCacheTTL rt) (sr_AuthTimeWindow rt)))) None
    (Some fw) (sr_KnockMethod rt) (sr_KnockListen rt) (sr_KnockPort rt) (sr_KnockClients rt) (sr_KnockTimeWindow rt) (sr_KnockMaxFrameSize rt)
    (sr_Sequence rt) (sr_NonceTTL rt) (sr_AllowTTL rt) (sr_UpstreamConnectTimeout rt) (sr_IdleTimeout rt) (sr_RemoveAfterAuth rt)
    (sr_MaxConnectionsPerKnock rt) (sr_DisableSessionBinding rt) (sr_MaxPendingAuth rt) (sr_MaxAuthWorkers rt) (sr_MaxPendingAuthPerSource rt).

Section Build.
Context (ReadFile : bytes -> res bytes).

Definition buildServer {H} `{Host H} (cfg : fileConfig) : FW H (res (relay_Gateway * runSummary)) :=
  match fileConfig_serverRuntime ReadFile cfg with
  | Err err => mret (Err err)
  | Ok rt =>
      fw ← New (sr_Firewall rt);
      mret (fw ← wrap (str "firewall: ") fw;
            let hides := negb (bool_decide (Name fw = str "noop")) in
            Ok (proxy_gateway rt fw,
                mkSummary modeServer (sr_Listen rt) (sr_Upstream rt) [] (sr_KnockMethod rt) (Name fw) hides hides
                  (fc_AllowSeconds (fw_WithDefaults (sr_Firewall rt))) (ipv6Summary (sr_Firewall rt)) (Z.of_nat (size (sr_Secrets rt)))))
  end.

Record knockSender := mkKnockSender { ks_method : bytes; ks_opts : SendOptions; ks_retry : Z; ks_timeout : Z }.

(** The dialer of the client: its authentication and its sender. *)
Definition proxy_client_auth (rt : clientRuntime) : ClientConfig :=
  mkClientConfig (cr_ClientID rt) (cr_Secret rt) (cr_ServerPort rt) (cr_AuthTimeout rt) [] (mkEnvelopeV2Config [] [] []) [] [] [] false.

Definition is_udp_method (method : bytes) : bool := bool_decide (method ∈ [UDPMethod; UDPPassiveMethod; UDPSeqMethod; UDPPassiveSeq]).

Definition proxy_sender (rt : clientRuntime) : knockSender :=
  let knockAddr := if is_udp_method (cr_KnockMethod rt) then cr_UDPServerAddr rt else cr_ServerAddr rt in
  mkKnockSender (cr_KnockMethod rt)
    (mkSendOptions knockAddr (cr_ClientID rt) (cr_Secret rt) (cr_ServerPort rt) (cr_KnockTimeWindow rt) (cr_KnockMaxFrameSize rt) (cr_Sequence rt) [])
    (cr_KnockRetry rt) (cr_KnockTimeout rt).

Definition buildClient (cfg : fileConfig) : res (clientRuntime * (ClientConfig * knockSender) * runSummary) :=
  rt ← fileConfig_clientRuntime ReadFile cfg;
  Ok (rt, (proxy_client_auth rt, proxy_sender rt),
      mkSummary modeClient (cr_Listen rt) [] (cr_ServerAddr rt) (cr_KnockMethod rt) [] false false 0 [] 1).

End Build.

(** * The knock sender *)

Definition SetSessionID (sessionID : bytes) (s : knockSender) : knockSender :=
  let o := ks_opts s in
  mkKnockSender (ks_method s)
    (mkSendOptions (se_ServerAddr o) (se_ClientID o) (se_Secret o) (se_ServerPort o) (se_TimeWindow o) (se_MaxFrameSize o) (se_Sequence o) sessionID)
    (ks_retry s) (ks_timeout s).

(** What one call of [SendMethod] meets: dialling, the moments of its writes,
    the addresses and the time of a raw packet and the error of its write, the
    random bytes. *)
Record attempt := mkAttempt {
  at_dial : option error; at_moment : moment; at_moments : list moment; at_local : bytes; at_remote : bytes; at_now : Z; at_write : option error; at_rng : rng;
}.

Section Sender.
Context `{AEAD} (support : bytes -> option error).

(** What [SendMethod] writes, and its error. *)
Definition send_method (method : bytes) (o : SendOptions) (a : attempt) : list bytes * option error :=
  match SendMethod method support with
  | Err e => ([], Some e)
  | Ok (SenderUDP method) => SendUDPMethod o method (at_dial a) (at_moment a) (at_rng a)
  | Ok (SenderUDPSequence method) => SendUDPSequenceMethod o method (at_dial a) (at_moments a) (at_rng a)
  | Ok SenderSYN =>
      match Send o (at_local a) (at_remote a) (at_now a) (at_rng a) with Err e => ([], Some e) | Ok packet => ([packet], at_write a) end
  | Ok SenderSYNSequence =>
      match SendSYNSequence o (at_local a) (at_remote a) (at_now a) (at_rng a) with Err e => ([], Some e) | Ok packets => (packets, at_write a) end
  end.

(** The loop over the attempts from [i] on, [n] of them at most. *)
Fixpoint knock_attempts (method : bytes) (o : SendOptions) (env : nat -> attempt) (n i : nat) (last : option error) : list bytes * option error :=
  match n with
  | O => ([], last)
  | S n =>
      let '(sent, last) := send_method method o (env i) in
      match last with
      | None => (sent, None)
      | Some _ => let '(more, err) := knock_attempts method o env n (S i) last in (sent ++ more, err)
      end
  end.

Definition knock_rounds (s : knockSender) : nat :=
  let attempts := int64 (ks_retry s + 1) in Z.to_nat (if Z.ltb attempts 1 then 1 else attempts).

(** [Knock] *)
Definition Knock (s : knockSender) (env : nat -> attempt) : list bytes * option error :=
  knock_attempts (ks_method s) (ks_opts s) env (knock_rounds s) 0 None.

#[export] Instance proxy_knock_sender : KnockSender knockSender (nat -> attempt) (list bytes) :=
  { ks_SetSessionID := Some SetSessionID; ks_Knock := Knock }.

End Sender.

(** * firewall.Probe *)

(** What the process is allowed to do: [os.Geteuid] and the capabilities
    CAP_NET_ADMIN and CAP_NET_RAW. *)
Record privileges := mkPrivileges { pr_EUID : Z; pr_NetAdmin : bool; pr_NetRaw : bool }.

Record ProbeResult := mkProbe { pb_Capabilities : Capabilities; pb_privileges : privileges }.

Section Probe.
Context {H : Type} `{Host H}.

(** The commands with which [Probe] tries the backend out. *)
Definition probe_commands (ctx : Ctx) (name : bytes) : FW H (option error) :=
  if bool_decide (name = str "nftables") then checked (Run ctx (str "nft") [str "list"; str "ruleset"])
  else if bool_decide (name = str "iptables") then checked (runIptables ctx (str "iptables") [str "-L"; str "INPUT"; str "-n"])
  else if bool_decide (name = str "ipset-iptables") then
    checked (Run ctx (str "ipset") [str "list"; str "-name"]) >>?
    checked (runIptables ctx (str "iptables") [str "-L"; str "INPUT"; str "-n"])
  else mret None.

Definition Probe (ctx : Ctx) (cfg : Config) (p : privileges) : FW H (res ProbeResult) :=
  let cfg := fw_WithDefaults cfg in
  b ← New cfg;
  match b with
  | Err err => mret (Err err)
  | Ok b =>
      e ← match b with BScript s => Script.Validate s | _ => mret None end;
      match e with
      | Some err => mret (Err err)
      | None =>
          caps ← DescribeWithConfig (Name b) cfg;
          e ← probe_commands ctx (Name b);
          mret (match e with Some err => Err err | None => Ok (mkProbe caps p) end)
      end
  end.

End Probe.

(** * doctor.go *)

(** What is printed: text, the text of an error, a duration. *)
Inductive piece := PText (text : bytes) | PError (err : option error) | PDuration (d : Z).

Definition fmt_t (b : bool) : bytes := if b then str "true" else str "false".

Record doctorCheck := mkCheck { dc_Name : bytes; dc_OK : bool; dc_Blocking : bool; dc_Info : list piece }.

Definition nonzeroDuration (v fallback : Z) : Z := if Z.ltb 0 v then v else fallback.

Definition runtime_info (s : runSummary) : bytes :=
  str "listen=" ++ su_Listen s ++ str " upstream=" ++ su_Upstream s ++ str " knock=" ++ su_KnockMethod s ++ str " firewall=" ++ su_Firewall s.

Definition firewall_info (s : runSummary) : bytes :=
  str "backend=" ++ su_Firewall s ++ str " installs_rules=" ++ fmt_t (su_FirewallInstalls s) ++ str " port_hidden=" ++ fmt_t (su_PortHidden s) ++
  str " allow_seconds=" ++ itoa (su_AllowSeconds s) ++ str " ipv6=" ++ su_IPv6 s.

(** The checks of a server whose firewall answered the probe. *)
Definition probe_checks (summary : runSummary) (probe : ProbeResult) : list doctorCheck :=
  let backend := ca_Backend (pb_Capabilities probe) in
  let pr := pb_privileges probe in
  [mkCheck (str "firewall probe") true false [PText (str "backend=" ++ backend)];
   mkCheck (str "root") (Z.eqb (pr_EUID pr) 0) (negb (bool_decide (backend = str "noop"))) [PText (str "euid=" ++ itoa (pr_EUID pr))]]
  ++ (if negb (bool_decide (backend = str "noop")) && negb (bool_decide (backend = str "script")) then [mkCheck (str "CAP_NET_ADMIN") (pr_NetAdmin pr) true []] else [])
  ++ (if bool_decide (su_KnockMethod summary = str "tcp-syn") || bool_decide (su_KnockMethod summary = str "tcp-syn-seq")
      then [mkCheck (str "CAP_NET_RAW") (pr_NetRaw pr) true []] else [])
  ++ omap (fun name => (fun path => mkCheck name true false [PText path]) <$> ca_Commands (pb_Capabilities probe) !! name) [str "nft"; str "iptables"; str "ipset"].

(** [doctorServer]; [upstream] is what dialling the upstream gives, when it is asked for. *)
Definition doctorServer {H} `{Host H} (RF : bytes -> res bytes) (ctx : Ctx) (cfg : fileConfig) (p : privileges) (upstream : option (option error))
    : FW H (list doctorCheck * option error) :=
  match fileConfig_serverRuntime RF cfg with
  | Err err => mret ([mkCheck (str "config") false true [PError (Some err)]], Some err)
  | Ok rt =>
      let checks := [mkCheck (str "config") true false [PText (str "server config parsed")]] in
      b ← buildServer RF cfg;
      match b with
      | Err err => mret (checks ++ [mkCheck (str "firewall build") false true [PError (Some err)]], Some err)
      | Ok (_, summary) =>
          let checks := checks ++ [mkCheck (str "runtime") true false [PText (runtime_info summary)];
                                   mkCheck (str "firewall summary") (negb (bool_decide (su_Firewall summary = str "noop"))) false [PText (firewall_info summary)]] in
          probe ← Probe ctx (sr_Firewall rt) p;
          mret (match probe with
                | Err err => (checks ++ [mkCheck (str "firewall probe") false true [PError (Some err)]], Some err)
                | Ok probe =>
                    let checks := checks ++ probe_checks summary probe in
                    match upstream with
                    | None => (checks, None)
                    | Some (Some err) => (checks ++ [mkCheck (str "upstream") false true [PError (Some err)]], Some err)
                    | Some None => (checks ++ [mkCheck (str "upstream") true false [PText (sr_Upstream rt)]], None)
                    end
                end)
      end
  end.

Definition doctorExitCode (checks : list doctorCheck) (err : option error) : Z :=
  if existsb (fun c => negb (dc_OK c) && dc_Blocking c) checks then 1
  else match err with Some _ => 1 | None => 0 end.
