(* ===== verification/ProxySpec.v ===== *)
(** What a configuration of knock-proxy that is accepted gives: a gateway that
    starts, a client and a server that understand each other, and a server that
    accepts no frame twice. *)

From Stdlib Require Import ZArith Lia String.
From Stdlib Require Strings.Byte.
From stdpp Require Import base list gmap strings.
From S2P Require Import Prelude GoStd Cryptox Envelope Cache Replay Net HostPort Session KnockFrame KnockSeq KnockSyn KnockListen GoText GoParse Firewall FirewallSpec Gateway RelayConfig ProxyConfig Dialer ProxyRun AuthServer AuthClient AuthTypes.

Open Scope Z_scope.

(** * Inversion of the checks *)

(** Take the checks and calls of a successful function one by one. *)
Ltac res_step H :=
  lazymatch type of H with
  | mbind _ (guard_err ?c _) = Ok _ =>
      let Hc := fresh "Hc" in destruct c eqn:Hc; [discriminate H|]; cbn [guard_err mbind res_bind] in H
  | mbind _ ?m = Ok _ =>
      let a := fresh "a" in let E := fresh "E" in destruct m as [a|] eqn:E; [|discriminate H]; cbn [mbind res_bind] in H;
      lazymatch type of a with
      | prod _ _ => let b := fresh "b" in let z := fresh "z" in destruct a as [b z]
      | unit => destruct a
      | _ => idtac
      end; cbn [mbind res_bind] in H
  end.
Ltac res_inv H := repeat (res_step H; cbv zeta in H).

Lemma wrap_Ok {A} msg (r : res A) a : wrap msg r = Ok a -> r = Ok a.
Proof. by destruct r. Qed.

Lemma splitHostPort_Ok addr host port : splitHostPort addr = Ok (host, port) ->
  1 <= port <= 65535 /\ (lbracket ∉ host) /\ (rbracket ∉ host).
Proof.
  unfold splitHostPort. destruct (SplitHostPort addr) as [[h p]|] eqn:E; [|done]. apply SplitHostPort_host in E.
  destruct (Atoi p) as [n|]; [|done]. destruct (Z.ltb_spec n 1); [done|]. destruct (Z.ltb_spec 65535 n); [done|]. intros [= <- <-]. split; [lia|done].
Qed.

Lemma splitHostPort_Join host port : (lbracket ∉ host) -> (rbracket ∉ host) -> 1 <= port <= 65535 ->
  splitHostPort (JoinHostPort host (itoa port)) = Ok (host, port).
Proof.
  intros Hl Hr Hp. unfold splitHostPort. rewrite SplitHostPort_Join by (try done; (apply not_in_itoa; [lia|done])).
  rewrite Atoi_itoa by lia. destruct (Z.ltb_spec port 1); [lia|]. destruct (Z.ltb_spec 65535 port); [lia|done].
Qed.

Lemma parseSecret_Ok RF value file s : parseSecret RF value file = Ok s -> 16 <= len s.
Proof.
  unfold parseSecret. intros E. res_inv E. injection E as <-. apply Z.ltb_ge in Hc1. exact Hc1.
Qed.

Lemma udp_port_Ok k p : udp_port k = Ok p -> 0 <= p <= 65535.
Proof. unfold udp_port. cbv zeta. intros E. res_inv E. injection E as <-. apply orb_false_iff in Hc as [?%Z.ltb_ge ?%Z.ltb_ge]. lia. Qed.

(** The port of the knocks, and the text of the address that is listened on. *)
Lemma resolveUDPListen_Ok k tcp listen port : resolveUDPListen k tcp = Ok (listen, port) ->
  1 <= port <= 65535 /\
  exists host tcpPort udpPort, splitHostPort tcp = Ok (host, tcpPort) /\ udp_port k = Ok udpPort /\
    (udpPort <> 0 -> port = udpPort) /\
    (udpPort = 0 \/ kn_UDPListen k = [] -> exists h, splitHostPort listen = Ok (h, port)) /\
    (udpPort = 0 -> kn_UDPListen k = [] -> port = tcpPort).
Proof.
  unfold resolveUDPListen. intros E. res_step E. res_step E. apply wrap_Ok in E0. pose proof (splitHostPort_Ok _ _ _ E0) as (Hp & Hl & Hr).
  pose proof (udp_port_Ok _ _ E1) as Hu. case_bool_decide as Hn.
  - injection E as <- <-. set (p := if Z.eqb a 0 then z else a). assert (1 <= p <= 65535) by (subst p; destruct (Z.eqb_spec a 0); lia).
    split; [done|]. exists b, z, a. repeat split; try done.
    + intros Ha. subst p. by destruct (Z.eqb_spec a 0).
    + intros _. exists b. by apply splitHostPort_Join.
    + intros ->. done.
  - res_step E. apply wrap_Ok in E2. pose proof (splitHostPort_Ok _ _ _ E2) as (Hp' & _). injection E as <- <-.
    split; [destruct (Z.eqb_spec a 0); lia|]. exists b, z, a. repeat split; try done.
    + intros Ha. by destruct (Z.eqb_spec a 0).
    + intros [->|?]; [|done]. by eexists.
Qed.

(** * The clients *)

Record clients_ok (secrets : gmap bytes bytes) (clients : list ClientSecret) : Prop := {
  ck_ids : NoDup (cs_ClientID <$> clients);
  ck_each : Forall (fun c => cs_ClientID c <> [] /\ 16 <= len (cs_Secret c)) clients;
  ck_secrets : forall id s, secrets !! id = Some s <-> mkClientSecret id s ∈ clients;
}.

Lemma clients_ok_nil : clients_ok ∅ [].
Proof. split; [constructor|constructor|]. intros id s. rewrite lookup_empty. split; [done|]. by intros ?%not_elem_of_nil. Qed.

Lemma clients_ok_snoc secrets clients id s : clients_ok secrets clients -> id <> [] -> secrets !! id = None -> 16 <= len s ->
  clients_ok (<[id := s]> secrets) (clients ++ [mkClientSecret id s]).
Proof.
  intros [Hn He Hs] Hid Hnew Hlen.
  assert (id ∉ cs_ClientID <$> clients) as Hfresh.
  { intros ([i' s'] & -> & Hin)%list_elem_of_fmap. cbn in Hnew. apply Hs in Hin. congruence. }
  split.
  - rewrite fmap_app. apply NoDup_app. split; [done|]. split; [|apply NoDup_singleton]. intros x Hx. cbn. rewrite list_elem_of_singleton. by intros ->.
  - apply Forall_app. split; [done|]. by constructor.
  - intros i s'. rewrite elem_of_app, list_elem_of_singleton. destruct (decide (i = id)) as [->|Hne].
    + rewrite lookup_insert_eq. split; [intros [= ->]; by right|]. intros [Hin|[= ->]]; [|done]. apply Hs in Hin. congruence.
    + rewrite lookup_insert_ne by done. rewrite Hs. split; [by left|]. intros [?|[= ??]]; [done|congruence].
Qed.

Lemma read_clients_Ok RF cs : forall secrets clients secrets' clients', clients_ok secrets clients ->
  read_clients RF cs secrets clients = Ok (secrets', clients') -> clients_ok secrets' clients'.
Proof.
  induction cs as [|c cs IH]; intros secrets clients secrets' clients' Hok; cbn [read_clients]; [by intros [= <- <-]|].
  intros E. res_step E. res_step E. res_step E. res_step E. apply wrap_Ok, parseSecret_Ok in E0.
  apply bool_decide_eq_false in Hc0, Hc1. rewrite <- eq_None_not_Some in Hc1. eapply IH, E. by apply clients_ok_snoc.
Qed.

(** Every client of the file is there, with the secret its text stands for. *)
Lemma read_clients_mono RF cs : forall secrets clients secrets' clients', read_clients RF cs secrets clients = Ok (secrets', clients') ->
  secrets ⊆ secrets'.
Proof.
  induction cs as [|c cs IH]; intros secrets clients secrets' clients'; cbn [read_clients]; [by intros [= <- <-]|].
  intros E. res_step E. res_step E. res_step E. res_step E. apply IH in E. apply bool_decide_eq_false in Hc1. rewrite <- eq_None_not_Some in Hc1.
  etransitivity; [|exact E]. by apply insert_subseteq.
Qed.

Lemma read_clients_listed RF cs c : forall secrets clients secrets' clients', read_clients RF cs secrets clients = Ok (secrets', clients') ->
  c ∈ cs -> exists s, parseSecret RF (ac_Secret c) (ac_SecretFile c) = Ok s /\ secrets' !! ac_ClientID c = Some s.
Proof.
  induction cs as [|c' cs IH]; intros secrets clients secrets' clients'; cbn [read_clients]; [by intros _ ?%not_elem_of_nil|].
  intros E. res_step E. res_step E. res_step E. res_step E. rewrite elem_of_cons. intros [->|Hin]; [|by eapply IH].
  apply wrap_Ok in E0. eexists. split; [exact E0|]. eapply lookup_weaken; [|eapply read_clients_mono, E]. apply lookup_insert_eq.
Qed.

(** * The server *)

Lemma sequenceOptions_Ok k seq ttl : sequenceOptions k = Ok (seq, ttl) ->
  2 <= so_Length seq <= DefaultSequenceMaxParts /\ 5 <= so_SlotSeconds seq /\ so_Window seq < ttl.
Proof.
  unfold sequenceOptions. cbv zeta. intros E. res_step E. apply orb_false_iff in Hc as [?%Z.ltb_ge ?%Z.ltb_ge].
  res_step E. apply orb_false_iff in Hc as [?%Z.ltb_ge ?%Z.ltb_ge]. res_step E. apply Z.ltb_ge in Hc.
  do 4 res_step E. res_step E. apply Z.leb_gt in Hc0. injection E as <- <-. cbn. split_and!; lia.
Qed.

Lemma knockMaxFrameSize_Ok k n : knockMaxFrameSize k = Ok n -> KnockFrameHeaderSize <= n <= 65535.
Proof. unfold knockMaxFrameSize. cbv zeta. intros E. res_step E. apply orb_false_iff in Hc as [?%Z.ltb_ge ?%Z.ltb_ge]. injection E as <-. lia. Qed.

(** What holds of the runtime values of a server. *)
Record runtime_ok (c : fileConfig) (rt : serverRuntime) : Prop := {
  ro_listen : exists host, splitHostPort (sr_Listen rt) = Ok (host, sr_Port rt);
  ro_upstream : exists host port, splitHostPort (sr_Upstream rt) = Ok (host, port);
  ro_port : 1 <= sr_Port rt <= 65535;
  ro_method : isKnockMethod (sr_KnockMethod rt) = true;
  ro_knock_port : 1 <= sr_KnockPort rt <= 65535;
  ro_knock_listen : kn_UDPListen (c_Knock c) = [] -> exists host, splitHostPort (sr_KnockListen rt) = Ok (host, sr_KnockPort rt);
  ro_clients : clients_ok (sr_Secrets rt) (sr_KnockClients rt);
  ro_some : sr_KnockClients rt <> [];
  ro_sequence : 2 <= so_Length (sr_Sequence rt) <= DefaultSequenceMaxParts /\ 5 <= so_SlotSeconds (sr_Sequence rt) /\ so_Window (sr_Sequence rt) < sr_NonceTTL rt;
  ro_frame : KnockFrameHeaderSize <= sr_KnockMaxFrameSize rt <= 65535;
  ro_once : sr_RemoveAfterAuth rt = true -> sr_MaxConnectionsPerKnock rt <= 1;
  ro_firewall : fc_Port (sr_Firewall rt) = sr_Port rt /\ fc_UDPKnockPort (sr_Firewall rt) = sr_KnockPort rt /\
                fc_DropUDPKnockPort (sr_Firewall rt) = is_passive (sr_KnockMethod rt);
}.

Lemma clients_some secrets clients : clients_ok secrets clients -> secrets <> ∅ -> clients <> [].
Proof.
  intros [_ _ Hs] Hne ->. apply Hne, map_eq. intros id. rewrite lookup_empty. destruct (secrets !! id) eqn:E; [|done].
  apply Hs in E. by apply not_elem_of_nil in E.
Qed.

Lemma serverRuntime_Ok RF c rt : fileConfig_serverRuntime RF c = Ok rt -> runtime_ok c rt.
Proof.
  unfold fileConfig_serverRuntime. cbv zeta. intros E. do 9 res_step E. res_step E. rename E1 into El. apply wrap_Ok in El.
  res_step E. rename E1 into Eu. apply wrap_Ok in Eu. res_step E. apply negb_false_iff, Z.eqb_eq in Hc7.
  res_step E. apply negb_false_iff in Hc8. res_step E. rename E1 into Er. res_step E. rename E1 into Es. res_step E. rename E1 into Ew.
  res_step E. rename E1 into Ef. res_step E. rename E1 into Ec. res_step E. apply bool_decide_eq_false in Hc9. do 2 res_step E.
  injection E as <-. cbn. rewrite Hc7. apply read_clients_Ok in Ec; [|apply clients_ok_nil].
  pose proof (splitHostPort_Ok _ _ _ El) as (Hp & _). pose proof (resolveUDPListen_Ok _ _ _ _ Er) as (Hk & ? & ? & ? & _ & _ & _ & Hj & _).
  split; cbn; try done; try (by eexists; eauto); try (by eauto using clients_some, sequenceOptions_Ok, knockMaxFrameSize_Ok).
  intros Hr. rewrite Hr in Hc11. cbn [andb] in Hc11. apply Z.ltb_ge in Hc11. exact Hc11.
Qed.

(** ** The firewall backend that is made for it *)

Section Rebind.
Context {H : Type} `{HostLaws H}.

Lemma first_error_again check l (h h1 : H) : first_error check (range_order l h) = None -> first_error check (range_order l h1) = None.
Proof.
  intros E%first_error_None. rewrite <- (range_perm l h1) in E. induction (range_order l h1) as [|[k v] r IH]; cbn; [done|].
  apply Forall_cons in E as [Ek Er]. cbn in Ek. rewrite Ek. by apply IH.
Qed.

(** The configuration of a backend, that the drop of knocks is the one asked
    for, and that it would be accepted again. *)
Definition rebindable (drop : bool) (b : Backend) : Prop :=
  match b with
  | Noop => True
  | BNftables n => fc_DropUDPKnockPort (Nft.cfg n) = drop /\ forall h : H, validateNftablesConfig (fc_Nftables (Nft.cfg n)) h = (None, h)
  | BIptables i => fc_DropUDPKnockPort (Iptables.cfg i) = drop /\ validateIptablesConfig (fc_Iptables (Iptables.cfg i)) = None
  | BIPSet i => fc_DropUDPKnockPort (IPSet.cfg i) = drop /\ forall h : H, validateIPSetIptablesConfig (IPSet.cfg i) h = (None, h)
  | BScript s => fc_DropUDPKnockPort (Script.cfg s) = drop
  end.

Lemma nft_valid_again c (h h' h1 : H) : validateNftablesConfig c h = (None, h') -> validateNftablesConfig c h1 = (None, h1).
Proof.
  unfold validateNftablesConfig, FW_read. intros [= E _]. f_equal. destruct (_ && _); [done|]. destruct (_ && _); [done|]. by apply (first_error_again _ _ h).
Qed.

Lemma ipset_valid_again c (h h' h1 : H) : validateIPSetIptablesConfig c h = (None, h') -> validateIPSetIptablesConfig c h1 = (None, h1).
Proof.
  unfold validateIPSetIptablesConfig, FW_read. intros [= E _]. f_equal. destruct (validateIptablesConfig _); [done|]. by apply (first_error_again _ _ h).
Qed.

Lemma new_named_rebindable c name b (h h' : H) : new_named c name h = (Ok b, h') -> rebindable (fc_DropUDPKnockPort c) b.
Proof.
  unfold new_named. case_bool_decide; [by intros [= <- _]|].
  destruct (validateFirewallPort (fc_Port c) name); [repeat (case_bool_decide; [done|]); done|].
  repeat case_bool_decide; unfold mbind, FW_bind, mret, FW_ret; [..|done]; intros E.
  - destruct (validateNftablesConfig _ h) as [[e|] h1] eqn:Ev; [done|].
    destruct (firewallCommandExists _ _ h1) as [[] h2]; [|done]. injection E as <- _. split; [done|]. intros h3. eapply nft_valid_again, Ev.
  - destruct (validateIPSetIptablesConfig _ h) as [[e|] h1] eqn:Ev; [done|].
    destruct (firewallCommandExists _ _ h1) as [[] h2]; [|done].
    destruct (firewallCommandExists _ _ h2) as [[] h3]; [|done]. injection E as <- _. split; [done|]. intros h4. eapply ipset_valid_again, Ev.
  - destruct (validateIptablesConfig _) eqn:Ev; [done|]. destruct (firewallCommandExists _ _ h) as [[] h2]; [|done]. by injection E as <- _.
  - destruct (Script.missing_command c); [done|]. destruct (fc_DropUDPKnockPort c) eqn:Ed; [done|]. by injection E as <- _.
Qed.

Lemma New_rebindable c b (h h' : H) : New c h = (Ok b, h') -> rebindable (fc_DropUDPKnockPort c) b.
Proof.
  unfold New. change (fc_DropUDPKnockPort c) with (fc_DropUDPKnockPort (fw_WithDefaults c)). case_bool_decide; [|apply new_named_rebindable].
  unfold mbind, FW_bind. destruct (Detect _ h) as [[name|e] h1]; [apply new_named_rebindable|done].
Qed.

(** Binding it to a port it can have succeeds. *)
Lemma rebind drop b port (h : H) : rebindable drop b -> 1 <= port <= 65535 -> exists b', WithPort (Some b) port h = (Ok b', h) /\ Name b' = Name b.
Proof.
  intros Hb Hp.
  assert (Hv : forall name, validateFirewallPort port name = None).
  { intros name. unfold validateFirewallPort. destruct (Z.ltb_spec port 1); [lia|]. by destruct (Z.ltb_spec 65535 port); [lia|]. }
  unfold WithPort. destruct b as [|n|i|i|s]; cbn [isNoopBackend]; [by eexists|..]; rewrite Hv; unfold mbind, FW_bind, mret, FW_ret.
  - destruct Hb as [_ Hb]. unfold Nft.WithConfig, mbind, FW_bind, mret, FW_ret. cbn [fc_Port with_port]. rewrite Hv, Hb. by eexists.
  - destruct Hb as [_ Hb]. unfold Iptables.WithConfig. cbn [fc_Port with_port fc_Iptables]. rewrite Hv, Hb. by eexists.
  - destruct Hb as [_ Hb]. unfold IPSet.WithConfig, mbind, FW_bind, mret, FW_ret. cbn [fc_Port with_port]. rewrite Hv.
    assert (validateIPSetIptablesConfig (with_port port (IPSet.cfg i)) h = (None, h)) as -> by apply (Hb h). by eexists.
  - unfold Script.WithConfig. cbn [fc_Port with_port]. rewrite Hv. by eexists.
Qed.

End Rebind.

(** ** The gateway starts *)

Lemma knock_method_relay m : isKnockMethod m = true ->
  m <> [] /\ NormalizeMethod m = m /\ ValidateRelayServerMethod m = None /\ (is_passive m = true -> m = str "udp-passive" \/ m = str "udp-passive-seq").
Proof.
  unfold isKnockMethod. intros Hm%bool_decide_eq_true. rewrite !elem_of_cons in Hm.
  repeat destruct Hm as [->|Hm]; [vm_compute; intuition congruence..|by apply not_elem_of_nil in Hm].
Qed.

(** The client identifiers that fit in a knock. *)
Definition id_fits (c : ClientSecret) : Prop := len (cs_ClientID c) <= 65535 /\ Byte.x00 ∉ cs_ClientID c.

Lemma clients_validate secrets clients : clients_ok secrets clients -> clients <> [] -> Forall id_fits clients -> ValidateClientSecrets clients = None.
Proof.
  intros [_ He _] Hne Hf. unfold ValidateClientSecrets. rewrite bool_decide_eq_false_2 by done. clear Hne.
  induction clients as [|c cs IH]; [done|]. apply Forall_cons in He as [[Hid Hs] He]. apply Forall_cons in Hf as [[Hl Hz] Hf].
  cbn [validate_all]. unfold ValidateClientSecret. rewrite !bool_decide_eq_false_2 by done. destruct (Z.ltb_spec 65535 (len (cs_ClientID c))); [lia|].
  cbn [orb]. unfold Frame.MinSecretSize. rewrite (proj2 (Z.ltb_ge _ _) Hs). by apply IH.
Qed.

Lemma passive_ports_ok {C} (o : ListenOptions C) : 1 <= lo_Port o <= 65535 -> 1 <= lo_KnockPort o <= 65535 -> passive_ports o = Ok (lo_KnockPort o).
Proof.
  intros Hp Hk. unfold passive_ports. destruct (Z.ltb_spec (lo_Port o) 1); [lia|]. destruct (Z.ltb_spec 65535 (lo_Port o)); [lia|]. cbn [orb].
  destruct (Z.eqb_spec (lo_KnockPort o) 0); [lia|]. destruct (Z.ltb_spec (lo_KnockPort o) 1); [lia|]. by destruct (Z.ltb_spec 65535 (lo_KnockPort o)); [lia|].
Qed.

Lemma splitHostPort_nil : is_ok (splitHostPort []) = false.
Proof. done. Qed.

(** Decide the comparisons of methods that are known. *)
Ltac known_methods :=
  repeat match goal with
  | |- context [bool_decide (?a = ?b)] =>
      let v := eval vm_compute in (bool_decide (a = b)) in
      lazymatch v with true => idtac | false => idtac end;
      replace (bool_decide (a = b)) with v by (vm_compute; reflexivity); cbv iota
  end.

Section Starts.
Context `{AEAD} {H0 : Type} `{HostLaws H0} (RF : bytes -> res bytes) (c : fileConfig) (rt : serverRuntime).
Hypothesis Hrt : runtime_ok c rt.

Lemma proxy_run_checks fw : rebindable (H := H0) (fc_DropUDPKnockPort (sr_Firewall rt)) fw -> run_checks (proxy_gateway rt fw) = Ok fw.
Proof.
  intros Hfw. destruct Hrt. destruct (knock_method_relay _ ro_method0) as (Hne & _ & Hval & Hpass). unfold run_checks, proxy_gateway. cbv zeta.
  cbn [rg_Listen rg_Upstream rg_RemoveAfterAuth rg_MaxConnectionsPerKnock rg_Firewall rg_KnockMethod default from_option id].
  rewrite (bool_decide_eq_false_2 (sr_Listen rt = [])) by (intros E; rewrite E in ro_listen0; destruct ro_listen0 as [? Hx]; discriminate Hx). cbn [guard_err]. res_simpl.
  rewrite (bool_decide_eq_false_2 (sr_Upstream rt = [])) by (intros E; rewrite E in ro_upstream0; destruct ro_upstream0 as (? & ? & Hx); discriminate Hx). cbn [guard_err]. res_simpl.
  assert (sr_RemoveAfterAuth rt && Z.ltb 1 (sr_MaxConnectionsPerKnock rt) = false) as ->.
  { destruct (sr_RemoveAfterAuth rt); [|done]. apply Z.ltb_ge. by apply ro_once0. }
  cbn [guard_err]. res_simpl. unfold Datatypes.id.
  assert (validateRelayFirewallMode (Some fw) (sr_KnockMethod rt) = None) as ->.
  { unfold validateRelayFirewallMode. case_bool_decide; [done|]. by rewrite bool_decide_eq_false_2. }
  assert (ValidateDropUDPKnockPort fw (sr_KnockMethod rt) = None) as ->; [|done].
  destruct ro_firewall0 as (_ & _ & Hd). rewrite Hd in Hfw. clear Hd.
  assert (Backend_Config fw = None \/ exists cfg, Backend_Config fw = Some cfg /\ fc_DropUDPKnockPort cfg = is_passive (sr_KnockMethod rt)) as Hcfg.
  { destruct fw; cbn in Hfw |- *; [by left|right; eexists; (split; [done|]); intuition..]. }
  unfold ValidateDropUDPKnockPort. destruct Hcfg as [->|(cfg & -> & ->)]; [done|].
  destruct (is_passive (sr_KnockMethod rt)); [|done]. cbn [negb].
  destruct (Hpass eq_refl) as [->| ->]; by vm_compute.
Qed.

Lemma proxy_listens fw arrivals e : Forall id_fits (sr_KnockClients rt) ->
  snd (listenKnock (proxy_gateway rt fw) (sr_Port rt) None None arrivals e) = loop_error e.
Proof.
  intros Hids. destruct Hrt. destruct (knock_method_relay _ ro_method0) as (Hne & Hnorm & Hval & _).
  pose proof (clients_validate _ _ ro_clients0 ro_some0 Hids) as Hcl. unfold listenKnock. cbn [rg_KnockClients rg_KnockMethod proxy_gateway].
  rewrite Hcl, Hval, Hnorm. cbv zeta. set (g := proxy_gateway rt fw). set (o := knock_options g (sr_Port rt)).
  assert (Ho : lo_Port o = sr_Port rt /\ lo_KnockPort o = sr_KnockPort rt /\ lo_Clients o = sr_KnockClients rt) by (split_and!; reflexivity).
  clearbody o. destruct Ho as (Ho1 & Ho2 & Ho3).
  assert (knock_listen_addr g <> []) as Hla.
  { unfold knock_listen_addr, DefaultString. case_bool_decide as Hk; [|done]. unfold UDPListenStringForKnockPort. cbn [rg_KnockPort g proxy_gateway rg_Listen].
    destruct ro_listen0 as [host Hl]. destruct (Z.leb_spec (sr_KnockPort rt) 0); [lia|].
    destruct (SplitHostPort (sr_Listen rt)) as [[h p]|] eqn:Es; [|unfold splitHostPort in Hl; rewrite Es in Hl; discriminate Hl].
    unfold JoinHostPort. destruct (has_byte h colon); [done|]. by destruct h. }
  assert (Hports : Z.ltb (sr_Port rt) 1 || Z.ltb 65535 (sr_Port rt) = false).
  { destruct (Z.ltb_spec (sr_Port rt) 1); [lia|]. by destruct (Z.ltb_spec 65535 (sr_Port rt)); [lia|]. }
  assert (Hpp : passive_ports o = Ok (sr_KnockPort rt)) by (rewrite <- Ho2; apply passive_ports_ok; rewrite ?Ho1, ?Ho2; done).
  assert (Hpw : passive_ports (with_window o) = Ok (sr_KnockPort rt)) by (rewrite <- Ho2; apply (passive_ports_ok (with_window o)); cbn; rewrite ?Ho1, ?Ho2; done).
  unfold isKnockMethod in ro_method0. apply bool_decide_eq_true in ro_method0. rewrite !elem_of_cons in ro_method0.
  destruct ro_method0 as [Hm|[Hm|[Hm|[Hm|[Hm|[Hm|Hm]]]]]]; [..|by apply not_elem_of_nil in Hm];
    rewrite Hm; known_methods.
  - unfold Listen. rewrite Ho3, Hcl. cbn [lo_Port with_window]. by rewrite Ho1, Hports.
  - unfold ListenUDP, NewUDPListener. rewrite bool_decide_eq_false_2 by done. by rewrite Ho3, Hcl.
  - unfold ListenUDPPassive. rewrite Hpw. cbn [lo_Clients with_window]. by rewrite Ho3, Hcl.
  - unfold ListenUDPSequence, NewUDPSequenceListener, NewUDPListener. rewrite bool_decide_eq_false_2 by done. by rewrite Ho3, Hcl.
  - unfold ListenUDPPassiveSequence. by rewrite Hpp, Ho3, Hcl.
  - unfold ListenSYNSequence. by rewrite Ho3, Hcl, Ho1, Hports.
Qed.

End Starts.

Lemma nonzero_pos v d : 0 < d -> 0 < nonzero v d.
Proof. unfold nonzero. destruct (Z.ltb_spec 0 v); lia. Qed.

(** Property C19. A configuration that [buildServer] accepts gives a gateway that
    starts: its runtime values are well formed (the listen port is the
    firewall's and the one the clients authenticate to, the clients are
    distinct with secrets of at least 16 bytes, the method is one the relay
    serves, the sequence and size limits hold, and access that is removed after
    the first connection admits one connection only); none of the relay's own
    checks refuses it, and the firewall can be bound to its port, so only the
    listening socket and the initialisation of the firewall can still fail; the
    connections then require a knock; and, when the client identifiers fit in a
    knock, the knock listener of every method starts and ends only when its
    socket or context does. *)
Theorem proxy_server_starts `{AEAD} {H0 : Type} `{HostLaws H0} (RF : bytes -> res bytes) (c : fileConfig) (g : relay_Gateway) (su : runSummary) (h h' : H0) :
  buildServer RF c h = (Ok (g, su), h') ->
  exists rt fw, fileConfig_serverRuntime RF c = Ok rt /\ runtime_ok c rt /\ g = proxy_gateway rt fw /\ run_checks g = Ok fw /\
    (forall ctx addr w r w', run_start ctx g (Ok addr) w = (r, w') ->
       exists fw', Name fw' = Name fw /\
         match r with
         | Err e => fst (InitFirewall (backend_ops fw') ctx w) = Some e
         | Ok st => rs_port st = sr_Port rt /\ rs_firewall st = fw' /\ sv_ServerPort (rs_auth st) = sr_Port rt /\ sv_RequireKnock (rs_auth st) = true /\
                    0 < rs_pending st /\ 0 < rs_workers st
         end) /\
    (Forall id_fits (sr_KnockClients rt) -> forall arrivals e, snd (listenKnock g (sr_Port rt) None None arrivals e) = loop_error e).
Proof.
  unfold buildServer. destruct (fileConfig_serverRuntime RF c) as [rt|] eqn:Ert; [|discriminate]. unfold mbind, FW_bind, mret, FW_ret.
  destruct (New (sr_Firewall rt) h) as [[fw|] h1] eqn:En; [|discriminate]. intros [= <- _ _]. apply serverRuntime_Ok in Ert. apply New_rebindable in En.
  pose proof (proxy_run_checks c rt Ert fw En) as Hck. exists rt, fw. split_and!; try done.
  - intros ctx addr w r w'. unfold run_start. rewrite Hck. cbn [run_auth rg_Auth rg_KnockMethod proxy_gateway].
    destruct (knock_method_relay _ (ro_method _ _ Ert)) as (Hne & _). rewrite bool_decide_eq_false_2 by done. cbn [negb]. rewrite orb_true_r.
    pose proof (ro_port _ _ Ert) as Hp. change (sv_ServerPort (sv_WithDefaults (require_knock (proxy_server_auth rt)))) with (sr_Port rt).
    destruct (Z.leb_spec (sr_Port rt) 0); [lia|]. unfold mbind, FW_bind, on_fw, ConfigureFirewallPort.
    destruct (rebind _ fw (sr_Port rt) (w_fw w) En Hp) as (fw' & -> & Hname).
    set (w1 := mkWorld _ _ _ _ _). assert (w1 = w) as -> by (subst w1; by destruct w).
    destruct (InitFirewall (backend_ops fw') ctx w) as [[err|] w2] eqn:Ei; unfold mret, FW_ret; intros [= <- <-]; exists fw'; (split; [done|]).
    + by rewrite Ei.
    + split_and!; try done; by apply nonzero_pos.
  - intros Hids arrivals e. by eapply proxy_listens.
Qed.

(** * The client *)

(** What the runtime values of a client are made of. *)
Lemma clientRuntime_Ok RF c rt : fileConfig_clientRuntime RF c = Ok rt ->
  exists host port udpPort nonceTTL,
    splitHostPort (cli_ServerAddr (c_Client c)) = Ok (host, port) /\ udp_port (c_Knock c) = Ok udpPort /\
    1 <= cr_ServerPort rt <= 65535 /\ cr_ServerPort rt = (if Z.ltb 0 (cli_ProtectedTCPPort (c_Client c)) then cli_ProtectedTCPPort (c_Client c) else port) /\
    cr_KnockMethod rt = normalizeKnockMethod (defaultString (kn_Method (c_Knock c)) UDPMethod) /\
    (cli_UDPServerAddr (c_Client c) = [] -> splitHostPort (cr_UDPServerAddr rt) = Ok (host, if Z.ltb 0 udpPort then udpPort else port)) /\
    cr_ClientID rt = cli_ClientID (c_Client c) /\ parseSecret RF (cli_Secret (c_Client c)) (cli_SecretFile (c_Client c)) = Ok (cr_Secret rt) /\
    sequenceOptions (c_Knock c) = Ok (cr_Sequence rt, nonceTTL) /\ knockTimeWindow (c_Knock c) = Ok (cr_KnockTimeWindow rt) /\
    knockMaxFrameSize (c_Knock c) = Ok (cr_KnockMaxFrameSize rt).
Proof.
  unfold fileConfig_clientRuntime. cbv zeta. intros E. do 7 res_step E. res_step E. rename E2 into Es. apply wrap_Ok in Es.
  res_step E. apply orb_false_iff in Hc4 as [?%Z.ltb_ge ?%Z.ltb_ge]. res_step E. rename E2 into Eu. do 2 res_step E. res_step E. apply wrap_Ok in E2.
  res_step E. res_step E. res_step E. injection E as <-. cbn [cr_ServerPort cr_KnockMethod cr_UDPServerAddr cr_ClientID cr_Secret cr_Sequence cr_KnockTimeWindow cr_KnockMaxFrameSize].
  pose proof (splitHostPort_Ok _ _ _ Es) as (Hp & Hl & Hr). unfold client_udp_addr in Eu.
  destruct (if bool_decide _ then _ else _) as [ua|] eqn:Eua; [|discriminate]. cbn [mbind res_bind] in Eu.
  destruct (udp_port (c_Knock c)) as [up|] eqn:Ep; [|discriminate]. injection Eu as <-. pose proof (udp_port_Ok _ _ Ep) as Hu.
  eexists _, _, _, _. split_and!; try done.
  - intros Hn. rewrite (bool_decide_eq_true_2 _ Hn) in Eua. injection Eua as <-. destruct (Z.ltb_spec 0 up); [|exact Es]. apply splitHostPort_Join; [done|done|lia].
Qed.

(** ** Client and server agree *)

(** Two files that belong together: the same knock section, with no address of
    its own, the same port, and the client among those of the server with a
    secret that means the same. [RFs] and [RFc] read the files of the two hosts. *)
Record files_match (RFs RFc : bytes -> res bytes) (s c : fileConfig) (entry : authClient) (port : Z) : Prop := {
  fm_knock : c_Knock c = c_Knock s;
  fm_udp_listen : kn_UDPListen (c_Knock s) = [];
  fm_udp_addr : cli_UDPServerAddr (c_Client c) = [];
  fm_entry : entry ∈ au_Clients (c_Auth s);
  fm_id : ac_ClientID entry = cli_ClientID (c_Client c);
  fm_secret : parseSecret RFs (ac_Secret entry) (ac_SecretFile entry) = parseSecret RFc (cli_Secret (c_Client c)) (cli_SecretFile (c_Client c));
  fm_listen : exists host, splitHostPort (srv_TCPListen (c_Server s)) = Ok (host, port);
  fm_server : exists host, splitHostPort (cli_ServerAddr (c_Client c)) = Ok (host, port);
  fm_protected : cli_ProtectedTCPPort (c_Client c) = 0 \/ cli_ProtectedTCPPort (c_Client c) = port;
}.

(** What the two runtimes have in common. *)
Record agreed (sr : serverRuntime) (cr : clientRuntime) : Prop := {
  ag_port : cr_ServerPort cr = sr_Port sr;
  ag_secret : sr_Secrets sr !! cr_ClientID cr = Some (cr_Secret cr);
  ag_client : mkClientSecret (cr_ClientID cr) (cr_Secret cr) ∈ sr_KnockClients sr;
  ag_method : cr_KnockMethod cr = sr_KnockMethod sr;
  ag_sequence : cr_Sequence cr = sr_Sequence sr;
  ag_window : cr_KnockTimeWindow cr = sr_KnockTimeWindow sr;
  ag_frame : cr_KnockMaxFrameSize cr = sr_KnockMaxFrameSize sr;
  ag_target : exists host host', splitHostPort (cr_UDPServerAddr cr) = Ok (host, sr_KnockPort sr) /\ splitHostPort (sr_KnockListen sr) = Ok (host', sr_KnockPort sr);
}.

(** The parts of the file the server takes its values from. *)
Lemma serverRuntime_sources RF c rt : fileConfig_serverRuntime RF c = Ok rt ->
  (exists host, splitHostPort (srv_TCPListen (c_Server c)) = Ok (host, sr_Port rt)) /\
  sr_KnockMethod rt = normalizeKnockMethod (defaultString (kn_Method (c_Knock c)) UDPMethod) /\
  resolveUDPListen (c_Knock c) (srv_TCPListen (c_Server c)) = Ok (sr_KnockListen rt, sr_KnockPort rt) /\
  sequenceOptions (c_Knock c) = Ok (sr_Sequence rt, sr_NonceTTL rt) /\ knockTimeWindow (c_Knock c) = Ok (sr_KnockTimeWindow rt) /\
  knockMaxFrameSize (c_Knock c) = Ok (sr_KnockMaxFrameSize rt) /\
  read_clients RF (au_Clients (c_Auth c)) ∅ [] = Ok (sr_Secrets rt, sr_KnockClients rt) /\
  sr_DisableSessionBinding rt = is_false (kn_RequireSessionBinding (c_Knock c)) /\
  sr_AuthTimeWindow rt = seconds (defaultInt (au_TimeWindowSeconds (c_Auth c)) 30) /\
  sr_NonceCacheTTL rt = seconds (defaultInt (au_NonceCacheSeconds (c_Auth c)) 300) /\
  sr_AllowTTL rt = seconds (defaultInt (fw_AllowSeconds (c_Firewall c)) 15).
Proof.
  unfold fileConfig_serverRuntime. cbv zeta. intros E. do 9 res_step E. res_step E. rename E1 into El. apply wrap_Ok in El.
  res_step E. rename E1 into Eu. res_step E. apply negb_false_iff, Z.eqb_eq in Hc7.
  res_step E. res_step E. rename E1 into Er. res_step E. rename E1 into Es. res_step E. rename E1 into Ew.
  res_step E. rename E1 into Ef. res_step E. rename E1 into Ec. do 3 res_step E.
  injection E as <-. cbn. rewrite Hc7. split_and!; try done. by eexists.
Qed.

Lemma files_agree RFs RFc s c entry port sr cr : files_match RFs RFc s c entry port ->
  fileConfig_serverRuntime RFs s = Ok sr -> fileConfig_clientRuntime RFc c = Ok cr -> agreed sr cr.
Proof.
  intros M Es Ec. pose proof (serverRuntime_Ok _ _ _ Es) as Hok.
  destruct (serverRuntime_sources _ _ _ Es) as ((hs & Hls) & Hm & Hr & Hseq & Hw & Hf & Hcl & _).
  destruct (clientRuntime_Ok _ _ _ Ec) as (hc & pc & up & ttl & Hsa & Hup & Hcp & Hcp' & Hcm & Hua & Hid & Hsec & Hcs & Hcw & Hcf).
  destruct M. destruct fm_listen0 as [h1 E1]. destruct fm_server0 as [h2 E2]. rewrite E1 in Hls. injection Hls as <- Hpo. rewrite E2 in Hsa. injection Hsa as <- <-.
  rewrite fm_knock0 in *. destruct (read_clients_listed _ _ entry _ _ _ _ Hcl fm_entry0) as (secret & Hps & Hlk).
  rewrite fm_secret0, Hsec in Hps. injection Hps as <-. rewrite fm_id0, <- Hid in Hlk.
  rewrite Hcs in Hseq. injection Hseq as Hseq _. rewrite Hcw in Hw. injection Hw as Hw. rewrite Hcf in Hf. injection Hf as Hf.
  destruct (resolveUDPListen_Ok _ _ _ _ Hr) as (_ & h3 & tp & up' & E3 & Hup' & Hne & Hlis & Hz). rewrite E1 in E3. injection E3 as <- <-.
  rewrite Hup in Hup'. injection Hup' as <-. pose proof (udp_port_Ok _ _ Hup) as Hur.
  destruct (Hlis (or_intror fm_udp_listen0)) as (h4 & E4).
  split; try done.
  - rewrite Hcp', <- Hpo. destruct (Z.ltb_spec 0 (cli_ProtectedTCPPort (c_Client c))); [|done]. by destruct fm_protected0; [lia|].
  - by apply (ck_secrets _ _ (ro_clients _ _ Hok)).
  - by rewrite Hcm.
  - exists h2, h4. split; [|done]. rewrite (Hua fm_udp_addr0). do 2 f_equal. destruct (Z.ltb_spec 0 up); [symmetry; apply Hne; lia|].
    symmetry. apply Hz; [lia|done].
Qed.

(** A client and a server whose files belong together agree: the
    port the client authenticates to is the one the server protects, the
    server's resolver and its knock listener have the client with the secret it
    uses, whatever notation or file each side has it in, both use the same
    knock method, sequence, time window and frame size, and the client knocks
    at the port the server listens on for knocks. *)
Theorem proxy_files_agree (RFs RFc : bytes -> res bytes) (s c : fileConfig) (entry : authClient) (port : Z) (sr : serverRuntime) (cr : clientRuntime) :
  files_match RFs RFc s c entry port -> fileConfig_serverRuntime RFs s = Ok sr -> fileConfig_clientRuntime RFc c = Ok cr ->
  sr_Port sr = port /\ agreed sr cr.
Proof.
  intros M Es Ec. split; [|by eapply files_agree]. destruct (serverRuntime_sources _ _ _ Es) as ((h & Hl) & _). destruct (fm_listen _ _ _ _ _ _ M) as [h' Hl'].
  rewrite Hl in Hl'. by injection Hl'.
Qed.

(** ** A knock of the client opens the server's door *)

Section Knock.
Context `{LA : AEADLaws} (support : bytes -> option error).

Lemma send_udp o a : send_method support UDPMethod o a = SendUDPMethod o UDPMethod (at_dial a) (at_moment a) (at_rng a).
Proof. done. Qed.

(** Whatever the attempts put on the network is a knock frame of the sender. *)
Lemma knock_sent o env n : forall i last sent err, knock_attempts support UDPMethod o env n i last = (sent, err) ->
  (forall packet, packet ∈ sent -> exists j r', BuildKnockFrame (frame_options o UDPMethod [] 0 0) (mo_now (at_moment (env j))) (at_rng (env j)) = Ok (packet, r')) /\
  (err = None -> n <> O -> sent <> []).
Proof.
  induction n as [|n IH]; intros i last sent err; cbn [knock_attempts]; [intros [= <- _]; by split; [intros ? ?%not_elem_of_nil|]|].
  rewrite send_udp. unfold SendUDPMethod.
  destruct (BuildKnockFrame _ _ _) as [[data r']|e] eqn:EB.
  - assert (Hdata : forall packet, packet ∈ [data] -> exists j r', BuildKnockFrame (frame_options o UDPMethod [] 0 0) (mo_now (at_moment (env j))) (at_rng (env j)) = Ok (packet, r')).
    { intros packet ->%list_elem_of_singleton. by exists i, r'. }
    destruct (at_dial (env i)) as [e|]; [|destruct (mo_write (at_moment (env i))) as [e|]].
    + destruct (knock_attempts _ _ _ _ n _ _) as [more err'] eqn:Ek. intros [= <- <-]. destruct (IH _ _ _ _ Ek) as [H1 H2]. split; [exact H1|].
      intros He _. destruct n; [|by apply H2]. cbn in Ek. by injection Ek as <- <-.
    + destruct (knock_attempts _ _ _ _ n _ _) as [more err'] eqn:Ek. intros [= <- <-]. destruct (IH _ _ _ _ Ek) as [H1 _]. split; [|done].
      intros packet. rewrite elem_of_cons. intros [->|Hin]; [by apply Hdata, list_elem_of_singleton|by apply H1].
    + intros [= <- _]. by split.
  - destruct (knock_attempts _ _ _ _ n _ _) as [more err'] eqn:Ek. intros [= <- <-]. destruct (IH _ _ _ _ Ek) as [H1 H2]. split; [exact H1|].
    intros He _. destruct n; [|by apply H2]. cbn in Ek. by injection Ek as <- <-.
Qed.

Lemma knock_rounds_pos s : knock_rounds s <> O.
Proof. unfold knock_rounds. destruct (Z.ltb_spec (int64 (ks_retry s + 1)) 1); lia. Qed.

(** The knock of [DialContext] with the sender of the proxy: a new session, and
    a packet that was sent. *)
Lemma dial_knock_sent cr env r cfg sender sent r' : cr_KnockMethod cr = UDPMethod ->
  dial_knock (H0 := proxy_knock_sender support) (cl_WithDefaults (proxy_client_auth cr)) (proxy_sender cr) env r = Ok (cfg, sender, sent, r') ->
  len (cl_SessionID cfg) = 16 /\ cl_ClientID cfg = cr_ClientID cr /\ sent <> [] /\
  forall packet, packet ∈ sent -> exists j r2,
    BuildKnockFrame (frame_options (ks_opts (SetSessionID (cl_SessionID cfg) (proxy_sender cr))) UDPMethod [] 0 0)
      (mo_now (at_moment (env j))) (at_rng (env j)) = Ok (packet, r2).
Proof.
  intros Hm E. unfold dial_knock in E. rewrite bool_decide_eq_true_2 in E by done.
  destruct (rand_Read 16 r) as [[sid r1]|] eqn:Er; [|discriminate]. cbn [mbind res_bind ks_SetSessionID ks_Knock proxy_knock_sender] in E.
  unfold Knock in E. cbn [ks_method SetSessionID proxy_sender] in E. rewrite Hm in E.
  destruct (knock_attempts _ _ _ _ _ _ _) as [snt [e|]] eqn:Ek; [discriminate|]. injection E as <- _ <- _.
  destruct (knock_sent _ _ _ _ _ _ _ Ek) as [H1 H2].
  unfold rand_Read in Er. case_decide; [|discriminate]. injection Er as <- _. cbn [cl_SessionID with_session]. split_and!; try done.
  - unfold len. rewrite length_take. lia.
  - apply H2; [done|]. apply knock_rounds_pos.
Qed.

End Knock.

(** One packet that reaches the UDP listener of the server. *)
Lemma udp_round_opens `{LA : AEADLaws} (lo : ListenOptions (option Memory.t)) (so : SendOptions) now r packet r2 a ip before after rc rc' :
  BuildKnockFrame (frame_options so UDPMethod [] 0 0) now r = Ok (packet, r2) ->
  is_int64 (UnixMilli now) -> lo_Clients lo = before ++ mkClientSecret (se_ClientID so) (se_Secret so) :: after -> lo_Port lo = se_ServerPort so ->
  Forall (fun k => ComputeKnockKeyHint (cs_Secret k) (take 16 packet) (lo_Port lo) <> ComputeKnockKeyHint (se_Secret so) (take 16 packet) (lo_Port lo)) before ->
  lo_AllowPacket lo = false -> lo_PacketLimiter lo = false -> lo_MaxFrameSize lo = se_MaxFrameSize so -> 0 < se_MaxFrameSize so ->
  (lo_RequireSessionID lo = true -> KnockSessionIDMinBytes <= len (se_SessionID so)) ->
  let w := sc_TimeWindow (server_defaults (knock_config lo UDPMethod false)) in
  - w <= Sub (ar_now a) (time_UnixMilli (UnixMilli now)) <= w ->
  ar_data a = packet -> ar_from a = Some ip -> check_and_mark (se_ClientID so) (take 16 packet) (ar_now a) rc = (None, rc') ->
  exists nonce, udp_round lo a rc = ([Handle (mkEvent ip (se_ClientID so) nonce UDPMethod 0 (se_SessionID so))], rc').
Proof.
  intros HB Hms Hcl Hport Hbefore Hap Hpl Hmax Hpos Hsess w Hwin Hdata Hfrom Hmark.
  destruct (BuildKnockFrame_inv _ _ _ _ _ HB eq_refl (Forall_nil_2 _) Hms) as (h0 & random0 & _ & _ & _ & _ & _ & _ & _ & Hlen).
  cbn [knock_defaults ko_MaxFrameSize frame_options] in Hlen. rewrite (proj2 (Z.leb_gt _ _) Hpos) in Hlen.
  assert (maxKnockFrameSize lo = se_MaxFrameSize so) as Hmk by (unfold maxKnockFrameSize; rewrite Hmax; by rewrite (proj2 (Z.ltb_lt _ _) Hpos)).
  destruct (knock_opens (frame_options so UDPMethod [] 0 0) now (ar_now a) r r2 packet (knock_config lo UDPMethod false) before after rc rc'
    HB eq_refl (Forall_nil_2 _) Hms Hcl Hbefore Hport (or_intror eq_refl)) as (h & random & Hn & Hopen); try done.
  { cbn [server_defaults sc_MaxFrameSize knock_config]. rewrite Hmk. by rewrite (proj2 (Z.leb_gt _ _) Hpos). }
  unfold udp_round. rewrite Hdata, Hfrom, Hmk. rewrite take_ge by (unfold len in Hlen; lia).
  unfold allowKnockPacket. rewrite Hap, Hpl. cbn [andb negb]. unfold open_checked. rewrite Hopen.
  unfold requireKnockSessionID, requireSessionID. cbn [ki_SessionID info_of kp_SessionID payload_of_opts knock_defaults ko_SessionID frame_options].
  destruct (lo_RequireSessionID lo); cbn [negb].
  - rewrite (proj2 (Z.ltb_ge _ _) (Hsess eq_refl)). by eexists.
  - by eexists.
Qed.


(** * Secrets *)

Lemma base64_std_of_raw s : base64_decode true [] (base64_EncodeToString false s) = Some s \/ base64_decode true [] (base64_EncodeToString false s) = None.
Proof.
  induction s as [s IH] using (induction_ltof1 _ (@length byte)). unfold ltof in IH.
  assert (Hb : forall b, 0 <= byte_val b < 256) by apply byte_val_bound.
  destruct s as [|a [|b [|c s]]]; [by left|..]; cbn [base64_EncodeToString app]; pose proof (Hb a); try pose proof (Hb b); try pose proof (Hb c).
  - right. rewrite !base64_step by (Z.div_mod_to_equations; lia). done.
  - right. rewrite !base64_step by (Z.div_mod_to_equations; lia). done.
  - rewrite !base64_step by (Z.div_mod_to_equations; lia). cbn [length Nat.eqb app].
    destruct (IH s) as [-> | ->]; [cbn; lia|left|by right]. cbn [fmap option_fmap option_map]. by rewrite quantum_3.
Qed.

Lemma hex_inner s : Forall (fun c => inner c = true) (hex_EncodeToString s).
Proof. induction s as [|b s IH]; cbn [hex_EncodeToString]; [constructor|]. constructor; [|constructor; [|exact IH]]; by destruct b; vm_compute. Qed.

Lemma TrimSpace_hex s : s <> [] -> TrimSpace (str "hex:" ++ hex_EncodeToString s ++ [Byte.x0a]) = str "hex:" ++ hex_EncodeToString s.
Proof.
  intros Hs. pose proof (hex_inner s) as Hi. destruct (exists_last (l := hex_EncodeToString s)) as (l & d & E); [by destruct s|]. rewrite E in *.
  apply Forall_app in Hi as [_ Hi]. apply Forall_cons in Hi as [Hd _]. rewrite <- app_assoc.
  change (str "hex:" ++ l ++ [d] ++ [Byte.x0a]) with (Byte.x68 :: (str "ex:" ++ l) ++ [d; Byte.x0a]). rewrite TrimSpace_line by done. done.
Qed.

(** The end of [parseSecret]. *)
Lemma secret_long (out : bytes) : 16 <= len out ->
  (_ ← guard_err (Z.ltb (len out) auth_MinSecretSize) (EMsg (str "secret must be at least " ++ itoa auth_MinSecretSize ++ str " bytes")); Ok out) = Ok out.
Proof. intros Hl. unfold auth_MinSecretSize. by rewrite (proj2 (Z.ltb_ge _ _) Hl). Qed.

Lemma secret_hex RF s : 16 <= len s -> parseSecret RF (str "hex:" ++ hex_EncodeToString s) [] = Ok s.
Proof.
  intros Hl. unfold parseSecret. rewrite (bool_decide_eq_true_2 ([] = [])) by done. cbn [negb andb]. rewrite andb_false_r. cbn [guard_err]. res_simpl.
  rewrite bool_decide_eq_false_2 by done. cbn [guard_err]. res_simpl.
  assert (HasPrefix (str "hex:" ++ hex_EncodeToString s) (str "base64:") = false) as -> by done.
  rewrite HasPrefix_app, TrimPrefix_app, hex_decode_encode. res_simpl. by apply secret_long.
Qed.

Lemma secret_base64 RF padded s : 16 <= len s -> parseSecret RF (str "base64:" ++ base64_EncodeToString padded s) [] = Ok s.
Proof.
  intros Hl. unfold parseSecret. rewrite (bool_decide_eq_true_2 ([] = [])) by done. cbn [negb andb]. rewrite andb_false_r. cbn [guard_err]. res_simpl.
  rewrite bool_decide_eq_false_2 by done. cbn [guard_err]. res_simpl. rewrite HasPrefix_app, TrimPrefix_app. unfold base64_DecodeString.
  destruct padded.
  - rewrite base64_decode_encode. res_simpl. by apply secret_long.
  - destruct (base64_std_of_raw s) as [-> | ->]; [|rewrite base64_decode_encode]; res_simpl; by apply secret_long.
Qed.

Lemma secret_plain RF s : 16 <= len s -> HasPrefix s (str "base64:") = false -> HasPrefix s (str "hex:") = false -> parseSecret RF s [] = Ok s.
Proof.
  intros Hl Hb Hh. unfold parseSecret. rewrite (bool_decide_eq_true_2 ([] = [])) by done. cbn [negb andb]. rewrite andb_false_r. cbn [guard_err]. res_simpl.
  rewrite bool_decide_eq_false_2 by (intros ->; by cbn in Hl). cbn [guard_err]. res_simpl. rewrite Hb, Hh. res_simpl. by apply secret_long.
Qed.

Lemma secret_file RF f text : f <> [] -> RF f = Ok text -> TrimSpace text <> [] -> parseSecret RF [] f = parseSecret RF (TrimSpace text) [].
Proof.
  intros Hf Hr Ht. unfold parseSecret. rewrite (bool_decide_eq_true_2 ([] = [])) by done. rewrite (bool_decide_eq_false_2 (f = [])) by done.
  rewrite (bool_decide_eq_false_2 (TrimSpace text = [])) by done. cbn [negb andb guard_err]. res_simpl. rewrite Hr. res_simpl.
  by rewrite (bool_decide_eq_false_2 (TrimSpace text = [])).
Qed.

(** A secret of at least 16 bytes can be written in every notation
    and is read back as it was: in hexadecimal, in base64 with and without
    padding, as plain text that starts with neither prefix, and as a line of a
    secret file; a shorter one is refused in all of them. *)
Theorem secret_notations (RF : bytes -> res bytes) (s file : bytes) :
  file <> [] -> RF file = Ok (str "hex:" ++ hex_EncodeToString s ++ [Byte.x0a]) ->
  if Z.leb 16 (len s) then
    parseSecret RF (str "hex:" ++ hex_EncodeToString s) [] = Ok s /\ parseSecret RF [] file = Ok s /\
    (forall padded, parseSecret RF (str "base64:" ++ base64_EncodeToString padded s) [] = Ok s) /\
    (HasPrefix s (str "base64:") = false -> HasPrefix s (str "hex:") = false -> parseSecret RF s [] = Ok s)
  else forall value, parseSecret RF value [] <> Ok s /\ parseSecret RF [] value <> Ok s.
Proof.
  intros Hf Hr. destruct (Z.leb_spec 16 (len s)) as [Hl|Hl].
  - assert (s <> []) by (intros ->; by cbn in Hl). split_and!; [by apply secret_hex| |intros; by apply secret_base64|by apply secret_plain].
    rewrite (secret_file _ _ _ Hf Hr); rewrite TrimSpace_hex by done; [by apply secret_hex|done].
  - intros value. split; intros E%parseSecret_Ok; lia.
Qed.

(** * Replays *)

Lemma int64_small v : is_int64 v -> int64 v = v.
Proof. unfold is_int64, int64. intros Hv. rewrite Z.mod_small by lia. lia. Qed.

Lemma seconds_id v : 0 <= v <= 9223372036 -> seconds v = v * Second.
Proof. intros Hv. apply int64_small. unfold is_int64, Second. lia. Qed.

Lemma auth_window_ok v : 0 <= v <= 4 * 10 ^ 9 ->
  let w := seconds (defaultInt v 30) in 0 < w < 2 ^ 62 /\ forall ttl, 2 * w + Second <= authReplayTTL ttl w < 2 ^ 63 \/ ttl = authReplayTTL ttl w /\ 2 * w + Second <= ttl.
Proof.
  intros Hv w. assert (1 <= defaultInt v 30 <= 4 * 10 ^ 9) as Hd by (unfold defaultInt; destruct (Z.eqb_spec v 0); lia).
  assert (w = defaultInt v 30 * Second) as Hw by (apply seconds_id; lia). unfold Second in Hw.
  split; [lia|]. intros ttl. unfold authReplayTTL, Second.
  rewrite (int64_small (2 * w)) by (unfold is_int64; lia). rewrite int64_small by (unfold is_int64; lia). destruct (Z.ltb_spec ttl (2 * w + 10 ^ 9)); lia.
Qed.

Lemma run_auth_window g : sv_TimeWindow (fst (run_auth g)) = or_default (sv_TimeWindow (rg_Auth g)) DefaultTimeWindow.
Proof. unfold run_auth. cbv zeta. by destruct (_ || _). Qed.

(** Property C6. The server of the proxy accepts no captured frame twice: with
    a time window of at most four thousand million seconds in the file, the
    replay cache that [buildServer] makes outlives the acceptance of a frame, so
    over any sequence of connections whose clock does not go back, and with less
    than a second between the check of the age and that of the nonce, no two
    handshakes of one client with the same nonce and timestamp succeed. *)
Theorem proxy_accepts_once `{LA : AEADLaws} {PS KS : Type} `{Policy PS} `{KnockSessionStore KS} (RF : bytes -> res bytes) (c : fileConfig) (rt : serverRuntime)
    (fw : Backend) (conns : list (option Z * conn * clock)) (s : AuthServer.state (option Memory.t) PS KS) (d : Z) (i j : nat) pi ri pj rj :
  let cfg := set_port (sr_Port rt) (fst (run_auth (proxy_gateway rt fw))) in
  fileConfig_serverRuntime RF c = Ok rt -> 0 <= au_TimeWindowSeconds (c_Auth c) <= 4 * 10 ^ 9 -> d < Second ->
  st_replay s = Some (snd (run_auth (proxy_gateway rt fw))) -> ticking d 0 conns -> (i < j)%nat ->
  (AuthServer.serve cfg conns s).1 !! i = Some (Ok (pi, ri)) -> (AuthServer.serve cfg conns s).1 !! j = Some (Ok (pj, rj)) ->
  ~ (pi_ClientID pj = pi_ClientID pi /\ pi_Nonce pj = pi_Nonce pi /\ pi_Timestamp pj = pi_Timestamp pi).
Proof.
  intros cfg Es Hv Hd Hs Hck Hij Hi Hj. destruct (serverRuntime_sources _ _ _ Es) as (_ & _ & _ & _ & _ & _ & _ & _ & Hw & Hn & _).
  destruct (auth_window_ok _ Hv) as [Hpos Httl]. rewrite <- Hw in Hpos, Httl. specialize (Httl (sr_NonceCacheTTL rt)).
  set (ttl := authReplayTTL (sr_NonceCacheTTL rt) (sr_AuthTimeWindow rt)) in *. unfold Second in *.
  assert (0 < ttl) as Ht by lia.
  assert (sv_TimeWindow cfg = sr_AuthTimeWindow rt) as Hcw.
  { subst cfg. cbn [sv_TimeWindow set_port]. rewrite run_auth_window. cbn. unfold or_default. by rewrite (proj2 (Z.leb_gt _ _)) by lia. }
  apply (serve_once (LW := memory_replay_laws ttl DefaultReplayCacheMaxEntries Ht) cfg d conns s [] 0 i j pi ri pj rj); try done.
  - lia.
  - rewrite Hcw. cbn. lia.
  - rewrite Hs. unfold run_auth. cbn. eexists. split; [done|]. unfold Memory.NewMemoryReplayCache. rewrite (proj2 (Z.leb_gt _ 0)) by done. by apply mem_tracks_New.
Qed.

(** The conversion of seconds can overflow where the file is not
    refused: with a time window between 4611686019 and 9223372036 seconds, twice
    the window does not fit in a duration, and the replay cache the server makes
    keeps its marks only as long as [auth.nonce_cache_seconds] says, although
    [authReplayTTL] is there to keep them for twice the window. *)
Theorem proxy_window_overflow (RF : bytes -> res bytes) (c : fileConfig) (rt : serverRuntime) :
  fileConfig_serverRuntime RF c = Ok rt -> validateNonNegativeConfig (fun l => l) c = Ok tt ->
  4611686019 <= au_TimeWindowSeconds (c_Auth c) <= 9223372036 -> au_NonceCacheSeconds (c_Auth c) <= au_TimeWindowSeconds (c_Auth c) ->
  authReplayTTL (sr_NonceCacheTTL rt) (sr_AuthTimeWindow rt) = sr_NonceCacheTTL rt /\ sr_NonceCacheTTL rt <= sr_AuthTimeWindow rt.
Proof.
  intros Es Hnn Hw Hle. destruct (serverRuntime_sources _ _ _ Es) as (_ & _ & _ & _ & _ & _ & _ & _ & -> & -> & _).
  assert (0 <= au_NonceCacheSeconds (c_Auth c)) as Hge.
  { unfold validateNonNegativeConfig in Hnn. destruct (find _ (non_negative_fields c)) as [[? ?]|] eqn:Ef; [discriminate|].
    pose proof (find_none _ _ Ef (str "auth.nonce_cache_seconds", au_NonceCacheSeconds (c_Auth c))) as Hx. cbn in Hx.
    apply Z.ltb_ge, Hx. do 14 right. by left. }
  unfold defaultInt. destruct (Z.eqb_spec (au_TimeWindowSeconds (c_Auth c)) 0); [lia|].
  set (v := au_TimeWindowSeconds (c_Auth c)) in *. set (m := if Z.eqb _ 0 then 300 else _).
  assert (0 <= m <= v) as Hm by (subst m; destruct (Z.eqb_spec (au_NonceCacheSeconds (c_Auth c)) 0); lia).
  rewrite !seconds_id by lia. unfold authReplayTTL, Second.
  assert (int64 (2 * (v * 10 ^ 9)) = 2 * (v * 10 ^ 9) - 2 ^ 64) as ->.
  { unfold int64. rewrite <- (Z.mod_unique (2 * (v * 10 ^ 9) + 2 ^ 63) (2 ^ 64) 1 (2 * (v * 10 ^ 9) + 2 ^ 63 - 2 ^ 64)); lia. }
  rewrite int64_small by (unfold is_int64; lia). destruct (Z.ltb_spec (m * 10 ^ 9) (2 * (v * 10 ^ 9) - 2 ^ 64 + 10 ^ 9)); lia.
Qed.

(** * Examples *)

Definition no_files : bytes -> res bytes := fun _ => Err (EMsg (str "no such file or directory")).

Definition one_file (path text : bytes) : bytes -> res bytes := fun p => if bool_decide (p = path) then Ok text else no_files p.

Definition ex_secret_text : bytes := str "0123456789abcdef".

Definition ex_alice : authClient := mkAuthClient (str "alice") (str "hex:" ++ hex_EncodeToString ex_secret_text) [] 0.

(** A server on port 8443 without a firewall, with [window] seconds for a frame. *)
Definition ex_server_file (window : Z) : fileConfig :=
  let d := defaultConfig in
  mkFile modeServer (c_Client d) (mkServerFile (str "0.0.0.0:8443") (str "127.0.0.1:22")) (c_Access d) (c_Knock d)
    (mkAuth window 300 [ex_alice])
    (mkFirewall (str "noop") 0 (str "drop") 15 true None (fw_Nftables (c_Firewall d)) (fw_Iptables (c_Firewall d)) (fw_IPSet (c_Firewall d)) (fw_Script (c_Firewall d)))
    (c_Transport d) (c_Limits d) (c_Timeouts d) (c_Metrics d).

Definition ex_client_file : fileConfig :=
  let d := defaultConfig in
  mkFile modeClient (mkClientFile (str "127.0.0.1:1080") (str "server.example:8443") 0 [] (str "alice") ex_secret_text []) (c_Server d) (c_Access d) (c_Knock d)
    (c_Auth d) (c_Firewall d) (c_Transport d) (c_Limits d) (c_Timeouts d) (c_Metrics d).

Lemma ok_test {A} (r : res A) (test : A -> bool) : match r with Ok a => test a | Err _ => false end = true -> exists a, r = Ok a /\ test a = true.
Proof. destruct r as [a|]; [by exists a|done]. Qed.

Lemma ex_files_match window : files_match no_files no_files (ex_server_file window) ex_client_file ex_alice 8443.
Proof.
  split; [reflexivity..|by apply list_elem_of_singleton|reflexivity|vm_compute; reflexivity|eexists; vm_compute; reflexivity|eexists; vm_compute; reflexivity|by left].
Qed.

Definition ex_attempt (now : Z) : attempt := mkAttempt None (mkMoment now None None) [] [] [] now None (map byte_of (seqZ 0 96)).

Lemma proxy_server_starts_witness : exists (g : relay_Gateway) (fw : Backend), run_checks g = Ok fw /\ rg_KnockMethod g = UDPMethod.
Proof.
  destruct (buildServer no_files (ex_server_file 30) (ex_toy (says := no_chain))) as [r h'] eqn:E.
  assert (match r with Ok (g, _) => bool_decide (rg_KnockMethod g = UDPMethod) | Err _ => false end = true) as Hr.
  { replace r with (fst (buildServer no_files (ex_server_file 30) (ex_toy (says := no_chain)))) by (by rewrite E). vm_compute. reflexivity. }
  destruct r as [[g su]|]; [|discriminate]. apply bool_decide_eq_true in Hr.
  destruct (proxy_server_starts (H := mac_AEAD) no_files (ex_server_file 30) g su _ h' E) as (rt & fw & _ & _ & _ & Hc & _). exists g, fw. split; [exact Hc|exact Hr].
Defined.

Lemma proxy_files_agree_witness : exists sr cr, sr_Port sr = 8443 /\ agreed sr cr /\ cr_ClientID cr = str "alice".
Proof.
  destruct (ok_test (fileConfig_serverRuntime no_files (ex_server_file 30)) (fun _ => true)) as (sr & Es & _); [vm_compute; reflexivity|].
  destruct (ok_test (fileConfig_clientRuntime no_files ex_client_file) (fun cr => bool_decide (cr_ClientID cr = str "alice"))) as (cr & Ec & Hid); [vm_compute; reflexivity|].
  destruct (proxy_files_agree no_files no_files _ _ _ _ sr cr (ex_files_match 30) Es Ec) as [Hp Ha]. exists sr, cr. split; [exact Hp|]. split; [exact Ha|].
  apply bool_decide_eq_true in Hid. exact Hid.
Defined.

Lemma secret_notations_witness : parseSecret (one_file (str "/etc/secret") (str "hex:" ++ hex_EncodeToString ex_secret_text ++ [Byte.x0a])) [] (str "/etc/secret") = Ok ex_secret_text.
Proof.
  pose proof (secret_notations (one_file (str "/etc/secret") (str "hex:" ++ hex_EncodeToString ex_secret_text ++ [Byte.x0a])) ex_secret_text (str "/etc/secret")
    ltac:(discriminate) eq_refl) as H. exact (proj1 (proj2 H)).
Defined.

Lemma proxy_window_overflow_witness : exists rt, sr_AuthTimeWindow rt = 4611686019 * Second /\ authReplayTTL (sr_NonceCacheTTL rt) (sr_AuthTimeWindow rt) = 300 * Second.
Proof.
  destruct (ok_test (fileConfig_serverRuntime no_files (ex_server_file 4611686019))
    (fun rt => Z.eqb (sr_AuthTimeWindow rt) (4611686019 * Second) && Z.eqb (sr_NonceCacheTTL rt) (300 * Second))) as (rt & Es & Ht); [vm_compute; reflexivity|].
  apply andb_true_iff in Ht as [Hw%Z.eqb_eq Hn%Z.eqb_eq].
  destruct (proxy_window_overflow no_files (ex_server_file 4611686019) rt Es ltac:(vm_compute; reflexivity) ltac:(cbn; lia) ltac:(cbn; lia)) as [Hr _].
  exists rt. split; [exact Hw|]. rewrite Hr. exact Hn.
Defined.

(** Two connections of the client, with frames of their own. *)
Definition ex_wire (input : bytes) : conn :=
  mkConn (Some (TCPAddr [Byte.x0a; Byte.x00; Byte.x00; Byte.x02] 8443)) (Some (TCPAddr [Byte.x0a; Byte.x00; Byte.x00; Byte.x01] 40000))
    (mk_reader input io_EOF) [] None None false.

Definition client_frame (n : Z) : bytes :=
  match fileConfig_clientRuntime no_files ex_client_file with
  | Ok cr =>
      match @ClientAuthWithInfo mac_AEAD None (Some (ex_wire [])) (proxy_client_auth cr) 0 (100 * Second) (map byte_of (seqZ n 600)) with
      | (Ok _, Some c) => cn_out c
      | _ => []
      end
  | Err _ => []
  end.

Definition ex_frame_0 : bytes := Eval vm_compute in client_frame 0.
Definition ex_frame_7 : bytes := Eval vm_compute in client_frame 7.

Definition ex_at (now : Z) : clock := mkClock now now now now now.

Definition ex_two_conns : list (option Z * conn * clock) :=
  [(None, ex_wire ex_frame_0, ex_at (100 * Second)); (None, ex_wire ex_frame_7, ex_at (101 * Second))].

Definition ex_proxy_state (rt : serverRuntime) : AuthServer.state (option Memory.t) unit unit :=
  mkState (Some (snd (run_auth (proxy_gateway rt Noop)))) None (Some tt) false false [].

Definition ex_accepted (rt : serverRuntime) : list (res (PeerInfo * reader)) :=
  (@AuthServer.serve mac_AEAD _ unit unit allow_all no_store memory_replay_cache (set_port (sr_Port rt) (fst (run_auth (proxy_gateway rt Noop))))
     ex_two_conns (ex_proxy_state rt)).1.

Lemma proxy_accepts_once_witness : exists pi pj, pi_ClientID pi = pi_ClientID pj /\ pi_Timestamp pi = pi_Timestamp pj /\ pi_Nonce pi <> pi_Nonce pj.
Proof.
  destruct (ok_test (fileConfig_serverRuntime no_files (ex_server_file 30)) (fun rt =>
    match ex_accepted rt with
    | [Ok (pi, _); Ok (pj, _)] => bool_decide (pi_ClientID pi = pi_ClientID pj) && Z.eqb (pi_Timestamp pi) (pi_Timestamp pj)
    | _ => false
    end)) as (rt & Es & Ht); [vm_compute; reflexivity|].
  destruct (ex_accepted rt) as [|[[pi ri]|] [|[[pj rj]|] [|]]] eqn:Ea; try discriminate Ht. apply andb_true_iff in Ht as [Hc%bool_decide_eq_true Ht%Z.eqb_eq].
  exists pi, pj. split; [exact Hc|]. split; [exact Ht|]. intros Hn.
  refine (proxy_accepts_once (LA := mac_AEAD_laws) no_files (ex_server_file 30) rt Noop ex_two_conns (ex_proxy_state rt) 0 0 1 pi ri pj rj Es _ _ _ _ _ _ _ _).
  - cbn. lia.
  - unfold Second. lia.
  - reflexivity.
  - vm_compute. intuition discriminate.
  - lia.
  - unfold ex_accepted in Ea. rewrite Ea. reflexivity.
  - unfold ex_accepted in Ea. rewrite Ea. reflexivity.
  - split; [symmetry; exact Hc|]. split; [symmetry; exact Hn|symmetry; exact Ht].
Defined.

#[local] Instance ClientSecret_eq_dec : EqDecision ClientSecret.
Proof. solve_decision. Defined.

(** The two runtimes of the example, and a knock of the client. *)
Definition ex_knock : res (serverRuntime * clientRuntime * (ClientConfig * knockSender * list bytes * rng)) :=
  sr ← fileConfig_serverRuntime no_files (ex_server_file 30);
  cr ← fileConfig_clientRuntime no_files ex_client_file;
  d ← dial_knock (H0 := @proxy_knock_sender mac_AEAD (fun _ => None)) (cl_WithDefaults (proxy_client_auth cr)) (proxy_sender cr)
        (fun _ => ex_attempt (100 * Second)) (map byte_of (seqZ 0 96));
  Ok (sr, cr, d).

Lemma ex_knock_inv sr cr d : ex_knock = Ok (sr, cr, d) ->
  fileConfig_serverRuntime no_files (ex_server_file 30) = Ok sr /\ fileConfig_clientRuntime no_files ex_client_file = Ok cr /\
  dial_knock (H0 := @proxy_knock_sender mac_AEAD (fun _ => None)) (cl_WithDefaults (proxy_client_auth cr)) (proxy_sender cr)
    (fun _ => ex_attempt (100 * Second)) (map byte_of (seqZ 0 96)) = Ok d.
Proof.
  unfold ex_knock. intros (sr' & Es & E)%res_bind_Ok. apply res_bind_Ok in E as (cr' & Ec & E). apply res_bind_Ok in E as (d' & Ed & E).
  injection E as E1 E2 E3. rewrite <- E1, <- E2, <- E3. split; [exact Es|]. split; [exact Ec|exact Ed].
Qed.

Lemma ex_knock_runs : exists sr cr d, ex_knock = Ok (sr, cr, d) /\ sr_KnockMethod sr = UDPMethod /\
  sr_KnockClients sr = [mkClientSecret (cr_ClientID cr) (cr_Secret cr)] /\ cr_ClientID cr = str "alice" /\ sr_KnockTimeWindow sr = 30 * Second.
Proof.
  destruct (ok_test ex_knock (fun x => let '(sr, cr, _) := x in
    bool_decide (sr_KnockMethod sr = UDPMethod) && bool_decide (sr_KnockClients sr = [mkClientSecret (cr_ClientID cr) (cr_Secret cr)])
    && bool_decide (cr_ClientID cr = str "alice") && Z.eqb (sr_KnockTimeWindow sr) (30 * Second))) as ([[sr cr] d] & E & Ht); [vm_compute; reflexivity|].
  apply andb_true_iff in Ht as [[[Hm Hcl]%andb_true_iff Hid]%andb_true_iff Hw]. apply bool_decide_eq_true in Hm, Hcl, Hid. apply Z.eqb_eq in Hw.
  exists sr, cr, d. split; [exact E|]. split; [exact Hm|]. split; [exact Hcl|]. split; [exact Hid|exact Hw].
Qed.

