(* ===== verification/Gate.v ===== *)
(** gate/gate.go and gate/firewall_only.go: the life cycle of a gate.

    [Wrap] initialises the firewall, opens the knock listener and starts two
    goroutines: one serves knocks, the other waits for the end of the context
    and cleans up. [Close] cancels the context, stops the timers and waits.
    [gate_step] is one step of one of these goroutines, of a timer or of a caller;
    a run is any interleaving. The knock handler and its timers are those of
    Gateway; one operation of the firewall is one step. *)

From Stdlib Require Import ZArith Lia String.
From Stdlib Require Strings.Byte.
From stdpp Require Import base list gmap strings.
From S2P Require Import Prelude GoStd Cache Replay Net Session KnockFrame KnockSeq KnockListen GoText Firewall Gateway RelayConfig Listener AuthServer AuthTypes.

Open Scope Z_scope.

(** * Configuration *)

Definition AuthOnly : bytes := str "auth-only".
Definition KnockAuthOnly : bytes := str "knock-auth-only".
Definition ModeFirewallAuth : bytes := str "knock-firewall-auth".
Definition ModeFirewallOnly : bytes := str "knock-firewall-only".

(** [gc_ReplayCache] is the [ReplayCache] of [gc_Auth]. The event sink is not a
    field: the events are part of the [world] of Gateway. *)
Record gate_Config := mkGateConfig {
  gc_Mode : bytes; gc_Listen : bytes; gc_Auth : ServerConfig; gc_ReplayCache : option Memory.t; gc_Listener : ListenerConfig;
  gc_Firewall : option Backend; gc_KnockMethod : bytes; gc_KnockListen : bytes; gc_KnockPort : Z; gc_KnockClients : list ClientSecret;
  gc_KnockTimeWindow : Z; gc_KnockMaxFrameSize : Z; gc_KnockSequence : SequenceOptions; gc_KnockNonceTTL : Z;
  gc_AllowTTL : Z; gc_MaxConnectionsPerKnock : Z;
}.

Definition ErrGateStarted : error := EMsg (str "gate has already started").
Definition ErrGateClosed : error := EMsg (str "gate is closed").

Record modeCaps := mkCaps { requireAuth : bool; requireKnock : bool; requireFirewall : bool; defaultNoopFirewall : bool }.

Definition gateModeCaps (mode : bytes) : option modeCaps :=
  if bool_decide (mode = AuthOnly) then Some (mkCaps true false false true)
  else if bool_decide (mode = KnockAuthOnly) then Some (mkCaps true true false true)
  else if bool_decide (mode = ModeFirewallAuth) then Some (mkCaps true true true false)
  else if bool_decide (mode = ModeFirewallOnly) then Some (mkCaps false true true false)
  else None.

Definition is_nil {A} (o : option A) : bool := match o with None => true | Some _ => false end.

Definition isNoopFirewall (fw : option Backend) : bool := match fw with None | Some Noop => true | _ => false end.

Definition gate_set (mode : bytes) (fw : option Backend) (c : gate_Config) : gate_Config :=
  mkGateConfig mode (gc_Listen c) (gc_Auth c) (gc_ReplayCache c) (gc_Listener c) fw (gc_KnockMethod c) (gc_KnockListen c) (gc_KnockPort c)
    (gc_KnockClients c) (gc_KnockTimeWindow c) (gc_KnockMaxFrameSize c) (gc_KnockSequence c) (gc_KnockNonceTTL c) (gc_AllowTTL c) (gc_MaxConnectionsPerKnock c).

Definition unready_method (method : bytes) : error :=
  EMsg (str "gate knock method " ++ fmt_q method ++ str " does not support synchronous listener readiness").

Definition validateGateConfig (cfg : gate_Config) : res gate_Config :=
  let mode := DefaultString (gc_Mode cfg) AuthOnly in
  match gateModeCaps mode with
  | None => Err (EMsg (str "unsupported gate mode " ++ fmt_q mode))
  | Some caps =>
      _ ← guard_err (requireAuth caps && is_nil (sv_Secrets (gc_Auth cfg))) auth_ErrMissingSecretResolver;
      _ ← (if requireKnock caps then
             match ValidateClientSecrets (gc_KnockClients cfg) with
             | Some err => Err err
             | None =>
                 _ ← guard_err (bool_decide (gc_KnockMethod cfg = [])) (EMsg (str "gate knock method is required"));
                 guard_err (negb (IsActiveUDPMethod (gc_KnockMethod cfg))) (unready_method (gc_KnockMethod cfg))
             end
           else Ok tt);
      _ ← guard_err (requireFirewall caps && isNoopFirewall (gc_Firewall cfg)) (EMsg (str "gate " ++ mode ++ str " requires a non-noop firewall backend"));
      Ok (gate_set mode (if defaultNoopFirewall caps && is_nil (gc_Firewall cfg) then Some Noop else gc_Firewall cfg) cfg)
  end.

(** * The state *)

(** How far [Wrap] has come: after [beginLifecycle], before [InitFirewall],
    before the knock listener is opened, before [g.cancel] is set, before the
    goroutines start, before the listener is wrapped, closing the gate after an
    error. *)
Inductive wrap_pc :=
| WrapIdle | Configuring | Initialising | Opening | Spawning | Launching | Wrapping | Undoing (err : error) | WrapFailed (err : error) | WrapDone.

(** How far the body of [Close] has come, with the [cancel] it has read. *)
Inductive shut_pc :=
| ShutIdle | Cancelling (cancel : bool) | Stopping (cancel : bool) | Draining (cancel : bool) | Waiting (cancel : bool) | Cleaning (cancel : bool) | ShutDone.

(** The goroutine that cleans up, and the one that serves. *)
Inductive stopper_pc := NoStopper | Awaiting | Cleaned | StopperDone.
Inductive server_pc := NoServer | ServingKnocks | ServerDone.

#[export] Instance stopper_pc_eq_dec : EqDecision stopper_pc.
Proof. solve_decision. Defined.
#[export] Instance server_pc_eq_dec : EqDecision server_pc.
Proof. solve_decision. Defined.

Record gate_pcs := mkPcs { p_wrap : wrap_pc; p_shut : shut_pc; p_stopper : stopper_pc; p_server : server_pc }.

(** [f_cancel] says that [g.cancel] is set, [f_cancelled] that it was called,
    [f_parent] that the context of [Wrap] has ended. *)
Record gate_flags := mkFlags {
  f_started : bool; f_closed : bool; f_cancel : bool; f_cancelled : bool; f_parent : bool; f_lnClosed : bool; f_knockClosed : bool;
}.

(** The timer of a session without a firewall lease. *)
Record session_timer := mkSessionTimer { st_due : Z; st_remote : netip_Addr; st_client : bytes; st_port : Z }.

(** [gt_gw] holds the store, the firewall, the knock handler in progress and the
    timers; [gt_sessions] are the timers of [knockSessionOnlyHandler];
    [gt_swapped] are the timers [StopAll] has taken out of the set and not
    stopped yet. *)
Record gate_state (H : Type) := mkGate {
  gt_cfg : gate_Config; gt_gw : gw_state (F := H); gt_sessions : list session_timer; gt_swapped : list timer * list session_timer;
  gt_flags : gate_flags; gt_pcs : gate_pcs;
}.
Arguments mkGate {H} _ _ _ _ _ _.
Arguments gt_cfg {H} _.
Arguments gt_gw {H} _.
Arguments gt_sessions {H} _.
Arguments gt_swapped {H} _.
Arguments gt_flags {H} _.
Arguments gt_pcs {H} _.

Section Gate.
Context {H : Type} `{Host H}.

Abbreviation gate := (gate_state H).

Definition set_wrap (x : wrap_pc) (s : gate) : gate :=
  let p := gt_pcs s in mkGate (gt_cfg s) (gt_gw s) (gt_sessions s) (gt_swapped s) (gt_flags s) (mkPcs x (p_shut p) (p_stopper p) (p_server p)).
Definition set_shut (x : shut_pc) (s : gate) : gate :=
  let p := gt_pcs s in mkGate (gt_cfg s) (gt_gw s) (gt_sessions s) (gt_swapped s) (gt_flags s) (mkPcs (p_wrap p) x (p_stopper p) (p_server p)).
Definition set_goroutines (x : stopper_pc) (y : server_pc) (s : gate) : gate :=
  let p := gt_pcs s in mkGate (gt_cfg s) (gt_gw s) (gt_sessions s) (gt_swapped s) (gt_flags s) (mkPcs (p_wrap p) (p_shut p) x y).
Definition set_gw (w : gw_state (F := H)) (s : gate) : gate := mkGate (gt_cfg s) w (gt_sessions s) (gt_swapped s) (gt_flags s) (gt_pcs s).
Definition set_flags (f : gate_flags) (s : gate) : gate := mkGate (gt_cfg s) (gt_gw s) (gt_sessions s) (gt_swapped s) f (gt_pcs s).
Definition set_sessions (l : list session_timer) (s : gate) : gate := mkGate (gt_cfg s) (gt_gw s) l (gt_swapped s) (gt_flags s) (gt_pcs s).
Definition set_swapped (l : list timer * list session_timer) (s : gate) : gate := mkGate (gt_cfg s) (gt_gw s) (gt_sessions s) l (gt_flags s) (gt_pcs s).
Definition set_backend (fw : Backend) (s : gate) : gate :=
  mkGate (gate_set (gc_Mode (gt_cfg s)) (Some fw) (gt_cfg s)) (gt_gw s) (gt_sessions s) (gt_swapped s) (gt_flags s) (gt_pcs s).

(** A computation on the store, the firewall and the events. *)
Definition in_world {A} (m : FW (world H) A) (s : gate) : A * gate :=
  let g := gt_gw s in
  let '(a, w) := m (g_world g) in (a, set_gw (Gateway.mkState w (g_handler g) (g_timers g) (g_revoking g)) s).

(** [ln.Close()], [listener.Close()] of the knock listener *)
Definition close_ln (s : gate) : gate :=
  let f := gt_flags s in set_flags (mkFlags (f_started f) (f_closed f) (f_cancel f) (f_cancelled f) (f_parent f) true (f_knockClosed f)) s.
Definition close_knock (s : gate) : gate :=
  let f := gt_flags s in set_flags (mkFlags (f_started f) (f_closed f) (f_cancel f) (f_cancelled f) (f_parent f) (f_lnClosed f) true) s.

(** The context of the knock listener has ended. *)
Definition knock_done (s : gate) : bool := f_cancelled (gt_flags s) || f_parent (gt_flags s).

Definition gate_firewall (cfg : gate_Config) : Backend := default Noop (gc_Firewall cfg).
Definition gate_ops (s : gate) : firewall_ops H := backend_ops (gate_firewall (gt_cfg s)).

Definition requiresFirewallCleanup (cfg : gate_Config) : bool :=
  bool_decide (gc_Mode cfg = ModeFirewallAuth) || bool_decide (gc_Mode cfg = ModeFirewallOnly).

(** [gate.New] *)
Definition gate_New (cfg : gate_Config) (h : H) : res gate :=
  cfg ← validateGateConfig cfg;
  Ok (mkGate cfg (Gateway.mkState (mkWorld (Some NewKnockSessionStore) [] h [] None) None [] []) [] ([], [])
        (mkFlags false false false false false false false) (mkPcs WrapIdle ShutIdle NoStopper NoServer)).

(** ** The parts of [Wrap] *)

(** [ln] is the address of the listener. *)
Context (ln : net_Addr).

Definition beginLifecycle (s : gate) : res gate :=
  let f := gt_flags s in
  if f_closed f then Err ErrGateClosed
  else if f_started f then Err ErrGateStarted
  else Ok (set_flags (mkFlags true (f_closed f) (f_cancel f) (f_cancelled f) (f_parent f) (f_lnClosed f) (f_knockClosed f)) s).

(** The protected port. *)
Definition gate_port (cfg : gate_Config) : Z := if Z.ltb 0 (sv_ServerPort (gc_Auth cfg)) then sv_ServerPort (gc_Auth cfg) else ListenerPort (Some ln).

Definition configureFirewallPort (s : gate) : res unit * gate :=
  let cfg := gt_cfg s in
  if bool_decide (gc_Mode cfg = AuthOnly) || bool_decide (gc_Mode cfg = KnockAuthOnly) then (Ok tt, s)
  else
    let '(r, s) := in_world (on_fw (ConfigureFirewallPort (gate_firewall cfg) (gate_port cfg))) s in
    match r with Err err => (Err err, s) | Ok fw => (Ok tt, set_backend fw s) end.

Definition listenerConfig (cfg : gate_Config) : ListenerConfig :=
  let lc := gc_Listener cfg in
  let auth := sv_WithDefaults (gc_Auth cfg) in
  mkListenerConfig (if Z.leb (sv_ServerPort auth) 0 then set_port (ListenerPort (Some ln)) auth else auth) (gc_ReplayCache cfg)
    (lc_MaxPendingAuth lc) (lc_MaxAuthWorkers lc) (lc_MaxPendingAuthPerSource lc).

(** The configuration with which the modes with a knock wrap the listener. *)
Definition knock_listenerConfig (cfg : gate_Config) : ListenerConfig :=
  let lc := listenerConfig cfg in
  mkListenerConfig (require_knock (lc_Auth lc)) (lc_ReplayCache lc) (lc_MaxPendingAuth lc) (lc_MaxAuthWorkers lc) (lc_MaxPendingAuthPerSource lc).

Definition gate_options (cfg : gate_Config) : ListenOptions (option Memory.t) :=
  mkListenOptions (gate_port cfg) (gc_KnockPort cfg) (gc_KnockClients cfg) (gc_KnockTimeWindow cfg) (gc_KnockMaxFrameSize cfg)
    (bool_decide (gc_Mode cfg = KnockAuthOnly) || bool_decide (gc_Mode cfg = ModeFirewallAuth))
    (Some (Some (Memory.NewMemoryReplayCache (KnockReplayTTL (gc_KnockTimeWindow cfg))))) false false false (gc_KnockSequence cfg) (gc_KnockNonceTTL cfg).

(** [bind] is what binding the socket gives. *)
Definition openKnockListener (cfg : gate_Config) (bind : option error) : option error :=
  let listen := DefaultString (gc_KnockListen cfg) (UDPListenForKnockPort ln (gc_KnockPort cfg)) in
  if bool_decide (gc_KnockMethod cfg = UDPMethod) then NewUDPListener listen (gate_options cfg) bind
  else if bool_decide (gc_KnockMethod cfg = UDPSeqMethod) then NewUDPSequenceListener listen (gate_options cfg) bind
  else Some (unready_method (gc_KnockMethod cfg)).

(** The listener is closed and [Wrap] returns an error. *)
Definition wrap_fail (err : error) (s : gate) : gate := set_wrap (WrapFailed err) (close_ln s).

(** Before the switch of [Wrap]. *)
Definition wrap_configure (s : gate) : gate :=
  match configureFirewallPort s with
  | (Err err, s) => wrap_fail err s
  | (Ok _, s) =>
      match ValidateDropUDPKnockPort (gate_firewall (gt_cfg s)) (gc_KnockMethod (gt_cfg s)) with
      | Some err => wrap_fail err s
      | None =>
          let mode := gc_Mode (gt_cfg s) in
          if bool_decide (mode = AuthOnly) then set_wrap Wrapping s
          else if bool_decide (mode = KnockAuthOnly) then set_wrap Opening s
          else if bool_decide (mode = ModeFirewallAuth) || bool_decide (mode = ModeFirewallOnly) then set_wrap Initialising s
          else wrap_fail (EMsg (str "unsupported gate mode " ++ fmt_q mode)) s
      end
  end.

(** The start of [startKnock]. *)
Definition wrap_init (ctx : Ctx) (s : gate) : gate :=
  let '(e, s) := in_world (InitFirewall (gate_ops s) ctx) s in
  match e with Some err => wrap_fail err s | None => set_wrap Opening s end.

(** [openKnockListener] in [startKnock] and [startKnockAuthOnly]; only the first
    has a firewall to clean up. *)
Definition wrap_open (bind : option error) (s : gate) : gate :=
  match openKnockListener (gt_cfg s) bind with
  | None => set_wrap Spawning s
  | Some err =>
      if requiresFirewallCleanup (gt_cfg s) then
        let '(cleanupErr, s) := in_world (cleanupErr ← CleanupFirewallDetached (gate_ops s); _ ← recordCleanupErr cleanupErr; mret cleanupErr) s in
        wrap_fail (default err (errors_Join (Some err) cleanupErr)) s
      else wrap_fail err s
  end.

Definition wrap_listener (s : gate) : gate :=
  let mode := gc_Mode (gt_cfg s) in
  if bool_decide (mode = ModeFirewallOnly) then set_wrap WrapDone s
  else if bool_decide (mode = AuthOnly) then
    match WrapListenerWithConfigE true (listenerConfig (gt_cfg s)) with
    | Ok _ => set_wrap WrapDone s
    | Err err => wrap_fail err s
    end
  else
    match WrapListenerWithConfigE true (knock_listenerConfig (gt_cfg s)) with
    | Ok _ => set_wrap WrapDone s
    | Err err => set_wrap (Undoing err) s
    end.

(** The next step of [Wrap]. *)
Definition wrap_step (ctx : Ctx) (bind : option error) (s : gate) : option gate :=
  let f := gt_flags s in
  match p_wrap (gt_pcs s) with
  | WrapIdle | WrapFailed _ | WrapDone => None
  | Configuring => Some (wrap_configure s)
  | Initialising => Some (wrap_init ctx s)
  | Opening => Some (wrap_open bind s)
  | Spawning =>
      Some (set_wrap Launching (set_flags (mkFlags (f_started f) (f_closed f) true (f_cancelled f) (f_parent f) (f_lnClosed f) (f_knockClosed f)) s))
  | Launching => Some (set_wrap Wrapping (set_goroutines Awaiting ServingKnocks s))
  | Wrapping => Some (wrap_listener s)
  | Undoing err => match p_shut (gt_pcs s) with ShutDone => Some (wrap_fail err s) | _ => None end
  end.

(** ** [Close] *)

Definition is_empty {A} (l : list A) : bool := match l with [] => true | _ :: _ => false end.

(** The wait group of the timer set is at zero: no timer is armed, being stopped
    or running. *)
Definition timers_idle (s : gate) : bool :=
  is_empty (fst (gt_swapped s)) && is_empty (snd (gt_swapped s)) && is_empty (gt_sessions s) &&
  is_empty (g_timers (gt_gw s)) && is_empty (g_revoking (gt_gw s)).

(** The wait group of the gate is at zero. *)
Definition goroutines_idle (s : gate) : bool :=
  bool_decide (p_stopper (gt_pcs s) ∈ [NoStopper; StopperDone]) && bool_decide (p_server (gt_pcs s) ∈ [NoServer; ServerDone]).

(** A call of [Close]: the first one runs the body. *)
Definition shut_start (s : gate) : gate :=
  match p_shut (gt_pcs s) with
  | ShutIdle =>
      let f := gt_flags s in
      set_shut (Cancelling (f_cancel f))
        (set_flags (mkFlags (f_started f) true (f_cancel f) (f_cancelled f) (f_parent f) (f_lnClosed f) (f_knockClosed f)) s)
  | _ => s
  end.

(** [StopAll] takes the timers out of the set. *)
Definition timers_swap (s : gate) : gate :=
  let g := gt_gw s in
  set_gw (Gateway.mkState (g_world g) (g_handler g) [] (g_revoking g)) (set_sessions [] (set_swapped (g_timers g, gt_sessions s) s)).

(** The next step of the body of [Close]. *)
Definition shut_step (ctx : Ctx) (s : gate) : option gate :=
  let f := gt_flags s in
  match p_shut (gt_pcs s) with
  | ShutIdle | ShutDone => None
  | Cancelling c =>
      Some (set_shut (Stopping c) (set_flags (mkFlags (f_started f) (f_closed f) (f_cancel f) (f_cancelled f || c) (f_parent f) (f_lnClosed f) (f_knockClosed f)) s))
  | Stopping c => Some (set_shut (Draining c) (timers_swap s))
  | Draining c => if timers_idle s then Some (set_shut (Waiting c) s) else None
  | Waiting c => if goroutines_idle s then Some (set_shut (Cleaning c) s) else None
  | Cleaning c =>
      Some (set_shut ShutDone
        (if requiresFirewallCleanup (gt_cfg s) && negb c
         then snd (in_world (e ← on_fw (fo_Cleanup (gate_ops s) ctx); recordCleanupErr e) s) else s))
  end.

(** ** The goroutines *)

(** The one that waits for the end of the context. *)
Definition stopper_step (s : gate) : option gate :=
  match p_stopper (gt_pcs s) with
  | Awaiting =>
      if knock_done s then
        Some (set_goroutines Cleaned (p_server (gt_pcs s))
          (if requiresFirewallCleanup (gt_cfg s)
           then snd (in_world (e ← CleanupFirewallDetached (gate_ops s); recordCleanupErr e) s) else s))
      else None
  | Cleaned => Some (set_goroutines StopperDone (p_server (gt_pcs s)) (close_ln (close_knock s)))
  | NoStopper | StopperDone => None
  end.

(** [Serve] returns [err]. *)
Definition serve_end (err : option error) (s : gate) : option gate :=
  match p_server (gt_pcs s), g_handler (gt_gw s) with
  | ServingKnocks, None =>
      let s := set_goroutines (p_stopper (gt_pcs s)) ServerDone s in
      Some (match err with
            | Some e => if knock_done s then s else close_ln (snd (in_world (Gateway.emit (KnockFail None [] (str "listen_error") (Some e))) s))
            | None => s
            end)
  | _, _ => None
  end.

(** What the knock handler of Gateway reads. *)
Definition gate_gateway (cfg : gate_Config) : gateway :=
  mkGateway (if bool_decide (gc_Mode cfg = ModeFirewallOnly) then KnockFirewallOnly else KnockFirewallAuth)
    (gate_port cfg) (ListenerPort (Some ln)) (gc_AllowTTL cfg) (gc_MaxConnectionsPerKnock cfg).

(** A step of [knockHandler], of one of its timers, or of a connection. *)
Definition gate_knock (x : gw_step) (s : gate) : option gate :=
  let may :=
    match x with
    | SKnock _ _ | SAdmit _ _ _ _ => bool_decide (p_server (gt_pcs s) = ServingKnocks) && requiresFirewallCleanup (gt_cfg s)
    | SFire _ _ _ | SRevoke _ | SConnect _ _ _ => true
    | SRemove _ _ => false
    end in
  if may : bool then (fun g => set_gw g s) <$> gstep (gate_ops s) (gate_gateway (gt_cfg s)) (gt_gw s) x else None.

(** A timer that [StopAll] has taken and not stopped yet fires. *)
Definition swapped_fire (k : nat) (now now' : Z) (s : gate) : option gate :=
  let g := gt_gw s in
  g' ← gstep (gate_ops s) (gate_gateway (gt_cfg s)) (Gateway.mkState (g_world g) (g_handler g) (fst (gt_swapped s)) (g_revoking g)) (SFire k now now');
  Some (set_swapped (g_timers g', snd (gt_swapped s)) (set_gw (Gateway.mkState (g_world g') (g_handler g') (g_timers g) (g_revoking g')) s)).

(** [knockSessionOnlyHandler] *)
Definition knockSessionOnlyHandler (ev : Event) (at_add at_arm : Z) (s : gate) : gate :=
  let cfg := gt_cfg s in
  match AddrFromIP (ev_SourceIP ev) with
  | None => snd (in_world (Gateway.emit (KnockFail None (ev_ClientID ev) (str "invalid_source_ip") None)) s)
  | Some remote =>
      let ttl := if Z.leb (gc_AllowTTL cfg) 0 then Minute else gc_AllowTTL cfg in
      let port := gate_port cfg in
      let s := snd (in_world (_ ← call_store (OAdd remote (ev_ClientID ev) (ev_SessionID ev) port ttl (gc_MaxConnectionsPerKnock cfg) at_add);
                              Gateway.emit (KnockOK remote (ev_ClientID ev) (ev_Method ev) (ev_Parts ev) ttl)) s) in
      set_sessions (gt_sessions s ++ [mkSessionTimer (at_arm + ttl) remote (ev_ClientID ev) port]) s
  end.

Definition session_expire (t : session_timer) (now : Z) (s : gate) : gate :=
  snd (in_world (call_store (OExpireForPort (st_remote t) (st_client t) (st_port t) now)) s).

(** * Runs *)

Inductive gate_label :=
| GWrap
| GWrapStep (ctx : Ctx) (bind : option error)
| GClose
| GCloseStep (ctx : Ctx)
| GStop (k : nat)
| GStopSession (k : nat)
| GStopper
| GServeEnd (err : option error)
| GKnock (x : gw_step)
| GSwappedFire (k : nat) (now now' : Z)
| GSession (ev : Event) (at_add at_arm : Z)
| GSessionFire (k : nat) (now : Z)
| GSwappedSession (k : nat) (now : Z)
| GParent.

Definition gate_step (s : gate) (x : gate_label) : option gate :=
  match x with
  | GWrap => Some (match beginLifecycle s with Err _ => s | Ok s => set_wrap Configuring s end)
  | GWrapStep ctx bind => wrap_step ctx bind s
  | GClose => Some (shut_start s)
  | GCloseStep ctx => shut_step ctx s
  | GStop k => _ ← fst (gt_swapped s) !! k; Some (set_swapped (delete k (fst (gt_swapped s)), snd (gt_swapped s)) s)
  | GStopSession k => _ ← snd (gt_swapped s) !! k; Some (set_swapped (fst (gt_swapped s), delete k (snd (gt_swapped s))) s)
  | GStopper => stopper_step s
  | GServeEnd err => serve_end err s
  | GKnock x => gate_knock x s
  | GSwappedFire k now now' => swapped_fire k now now' s
  | GSession ev at_add at_arm =>
      if bool_decide (p_server (gt_pcs s) = ServingKnocks) && bool_decide (gc_Mode (gt_cfg s) = KnockAuthOnly)
      then Some (knockSessionOnlyHandler ev at_add at_arm s) else None
  | GSessionFire k now =>
      t ← gt_sessions s !! k; if Z.ltb now (st_due t) then None else Some (session_expire t now (set_sessions (delete k (gt_sessions s)) s))
  | GSwappedSession k now =>
      t ← snd (gt_swapped s) !! k;
      if Z.ltb now (st_due t) then None else Some (session_expire t now (set_swapped (fst (gt_swapped s), delete k (snd (gt_swapped s))) s))
  | GParent =>
      let f := gt_flags s in Some (set_flags (mkFlags (f_started f) (f_closed f) (f_cancel f) (f_cancelled f) true (f_lnClosed f) (f_knockClosed f)) s)
  end.

Fixpoint gate_run (s : gate) (xs : list gate_label) : option gate :=
  match xs with [] => Some s | x :: xs => s ← gate_step s x; gate_run s xs end.

End Gate.

(** [managedListener.Close]: the errors of the listener and of the gate. *)
Definition managed_Close (listener gate : option error) : option error := match listener with Some e => Some e | None => gate end.

(** * firewall_only.go *)

(** [addr.As16()] *)
Definition addrHash (addr : netip_Addr) : bytes :=
  match addr with AddrZero => zeros 16 | Addr4 ip => v4_in_v6_prefix ++ ip | Addr6 ip _ => ip end.

Definition firewall_only_peer (addr : netip_Addr) : PeerInfo :=
  mkPeerInfo firewallOnlyClientID (addrHash addr) 0 [] 0 0 [] [] [] None [] Byte.x00.

(** [Accept] over the connections that arrive, with the times at which the store
    is asked: the refused ones (with the error reported, if any) and the one
    that is returned; none means that [Accept] still waits. *)
Fixpoint firewallOnly_Accept (arrivals : list (option net_Addr * Z)) (p : option SessionStore)
    : list (option net_Addr * option error) * option (option net_Addr) * option SessionStore :=
  match arrivals with
  | [] => ([], None, p)
  | (remote, now) :: arrivals =>
      match AddrFromNet remote with
      | None => let '(refused, c, p) := firewallOnly_Accept arrivals p in ((remote, None) :: refused, c, p)
      | Some addr =>
          let '(e, p) := CheckAndConsume (firewall_only_peer addr) remote now p in
          match e with
          | Some err => let '(refused, c, p) := firewallOnly_Accept arrivals p in ((remote, Some (EJoin auth_ErrKnockRequired err)) :: refused, c, p)
          | None => ([], Some remote, p)
          end
      end
  end.
