(* ===== verification/GateSpec.v ===== *)
(** What a gate promises when it is closed: no rule of it is left in the
    firewall, whatever the knocks, the timers and the context of the gate did in
    the meantime, as long as [Close] is not called while [Wrap] is at work. The
    theorems are proved against the interface [GateFirewall] of a backend; the
    iptables backend keeps it. *)

From Stdlib Require Import ZArith Lia String.
From Stdlib Require Strings.Byte.
From stdpp Require Import base list gmap strings.
From S2P Require Import Prelude GoStd Net Session KnockFrame KnockSeq KnockListen Firewall FirewallSpec Gateway RelayConfig Gate AuthTypes.

Open Scope Z_scope.

(** What a gate relies on: a cleanup without an error leaves the firewall clean,
    and a clean firewall is not changed by opening or closing a source. [gf_ok]
    is what a cleanup needs to do its work. *)
Class GateFirewall {H} `{Host H} (b : Backend) := {
  gf_ok : H -> Prop;
  gf_clean : H -> Prop;
  gf_init ctx h r h' : gf_ok h -> Init b ctx h = (r, h') -> gf_ok h';
  gf_allow ctx a port ttl h r h' : gf_ok h -> Allow b ctx a port ttl h = (r, h') -> gf_ok h' /\ (gf_clean h -> gf_clean h');
  gf_revoke ctx a port h r h' : gf_ok h -> Revoke b ctx a port h = (r, h') -> gf_ok h' /\ (gf_clean h -> gf_clean h');
  gf_cleanup ctx h r h' : gf_ok h -> Cleanup b ctx h = (r, h') -> gf_ok h' /\ (r = None -> gf_clean h');
}.

(** * The steps on the firewall *)

Section Keeps.
Context {H : Type} `{Host H} (b : Backend) `{!GateFirewall b}.

(** The firewall is clean, or [Close] will return an error. *)
Definition settled (w : world H) : Prop := w_closeErr w <> None \/ gf_clean (w_fw w).

(** A change after which a cleanup still works, a clean firewall is still clean,
    and an error of [Close] is still there. *)
Definition kept (w w' : world H) : Prop :=
  gf_ok (w_fw w') /\ (gf_clean (w_fw w) -> gf_clean (w_fw w')) /\ (w_closeErr w <> None -> w_closeErr w' <> None).

Lemma kept_settled w w' : kept w w' -> settled w -> settled w'.
Proof. intros (_ & Hc & He) [Hs|Hs]; [left|right]; auto. Qed.

Lemma kept_both w w' : kept w w' -> gf_ok (w_fw w') /\ (settled w -> settled w').
Proof. intros K. split; [apply K|by apply kept_settled]. Qed.

Lemma kept_trans w1 w2 w3 : kept w1 w2 -> kept w2 w3 -> kept w1 w3.
Proof. unfold kept. naive_solver. Qed.

Definition keeps {A} (m : FW (world H) A) : Prop := forall w a w', m w = (a, w') -> gf_ok (w_fw w) -> kept w w'.

Lemma kept_ret_gate {A} (a : A) : keeps (mret a).
Proof. by intros w a' w' [= <- <-]. Qed.

Lemma kept_bind_gate {A B} (m : FW (world H) A) (f : A -> FW (world H) B) : keeps m -> (forall a, keeps (f a)) -> keeps (m ≫= f).
Proof.
  intros Hm Hf w c w'. unfold mbind, FW_bind. destruct (m w) as [a w1] eqn:E. intros E' Hok.
  pose proof (Hm _ _ _ E Hok) as K1. eapply kept_trans; [exact K1|]. by eapply Hf, K1.
Qed.

Lemma kept_emit_gate e : keeps (Gateway.emit e).
Proof. by intros w a w' [= <- <-]. Qed.

Lemma keeps_store o : keeps (call_store o).
Proof. intros w a w'. unfold call_store. destruct (Session.step _ _). by intros [= <- <-]. Qed.

Lemma keeps_fw {A} (m : FW H A) : (forall h a h', m h = (a, h') -> gf_ok h -> gf_ok h' /\ (gf_clean h -> gf_clean h')) -> keeps (on_fw m).
Proof.
  intros Hm w a w'. unfold on_fw. destruct (m (w_fw w)) as [a' f] eqn:E. intros [= <- <-] Hok. destruct (Hm _ _ _ E Hok) as [Hok' Hc].
  by split_and!.
Qed.

Lemma keeps_record e : keeps (recordCleanupErr e).
Proof.
  intros w a w'. unfold recordCleanupErr. destruct e as [e|]; [|by intros [= <- <-]]. intros [= <- <-] Hok. split_and!; [done..|]. cbn. by destruct (w_closeErr w).
Qed.

Lemma keeps_allow ctx a port ttl : keeps (on_fw (fo_Allow (backend_ops b) ctx a port ttl)).
Proof. apply keeps_fw. intros h r h' E Hok. exact (gf_allow _ _ _ _ _ _ _ Hok E). Qed.

Lemma keeps_revoke ctx a port : keeps (on_fw (fo_Revoke (backend_ops b) ctx a port)).
Proof. apply keeps_fw. intros h r h' E Hok. exact (gf_revoke _ _ _ _ _ _ Hok E). Qed.

Create HintDb keeps discriminated.
Hint Resolve kept_ret_gate kept_emit_gate keeps_store keeps_record keeps_allow keeps_revoke : keeps.
Ltac keep := repeat first [progress auto with keeps | apply kept_bind_gate; [|intros ?] | case_match].

(** A cleanup whose error is recorded settles the gate. *)
Lemma keeps_cleanup ctx w a w' : (e ← on_fw (fo_Cleanup (backend_ops b) ctx); recordCleanupErr e) w = (a, w') -> gf_ok (w_fw w) ->
  gf_ok (w_fw w') /\ settled w'.
Proof.
  unfold mbind, FW_bind, on_fw. destruct (fo_Cleanup _ _ _) as [r h'] eqn:E. intros Er Hok.
  destruct (gf_cleanup _ _ _ _ Hok E) as [Hok' Hc]. destruct r as [e|]; cbn in Er; injection Er as <- <-; (split; [done|]).
  - left. cbn. by destruct (w_closeErr w).
  - right. by apply Hc.
Qed.

Variable (g : gateway).

Lemma kept_open_gate ctx ev : keeps (knock_open (backend_ops b) g ctx ev).
Proof. unfold knock_open, AllowFirewall. keep. Qed.

Lemma kept_admit_gate ctx remote ev t1 t2 t3 : keeps (knock_admit (backend_ops b) g ctx remote ev t1 t2 t3).
Proof. unfold knock_admit, RevokeFirewall, revokeFirewall. keep. Qed.

Lemma kept_expire_gate t now now' : keeps (timer_expire (backend_ops b) g t now now').
Proof. unfold timer_expire. keep. Qed.

Lemma keeps_timer_revoke remote : keeps (timer_revoke (backend_ops b) g remote).
Proof. unfold timer_revoke, RevokeFirewallDetached, revokeFirewall. keep. Qed.

Lemma keeps_access_revoke remote port : keeps (access_revoke (F := H) (backend_ops b) remote port).
Proof. unfold access_revoke. keep. Qed.

Lemma kept_remove_gate remote client port : keeps (remove_access (F := H) g remote client port).
Proof. unfold remove_access. keep. Qed.

(** A step of the knock handler, of a timer or of a connection. *)
Lemma gstep_keeps s x s' : gstep (backend_ops b) g s x = Some s' -> gf_ok (w_fw (g_world s)) -> kept (g_world s) (g_world s').
Proof.
  destruct x as [ctx ev|ctx t1 t2 t3|k now now'|k|peer remote now|remote client]; cbn [gstep].
  - destruct (g_handler s); [done|]. destruct (knock_open _ _ _ _ _) as [r w] eqn:E. intros [= <-]. by eapply kept_open_gate.
  - destruct (g_handler s) as [[remote ev]|]; [|done]. destruct (knock_admit _ _ _ _ _ _ _ _ _) as [r w] eqn:E. intros [= <-]. by eapply kept_admit_gate.
  - destruct (g_timers s !! k) as [t|]; [|done]. destruct (Z.ltb _ _); [done|]. destruct (timer_expire _ _ _ _ _ _) as [r w] eqn:E. intros [= <-].
    by eapply kept_expire_gate.
  - destruct (g_revoking s !! k) as [[timed remote]|]; [|done]. destruct timed.
    + destruct (timer_revoke _ _ _ _) as [r w] eqn:E. intros [= <-]. by eapply keeps_timer_revoke.
    + destruct (access_revoke _ _ _ _) as [r w] eqn:E. intros [= <-]. by eapply keeps_access_revoke.
  - destruct (call_store _ _) as [r w] eqn:E. intros [= <-]. by eapply keeps_store.
  - destruct (remove_access _ _ _ _ _) as [r w] eqn:E. intros [= <-]. by eapply kept_remove_gate.
Qed.

End Keeps.

(** * The invariant of a gate *)

(** [Wrap] has begun and not come to its end. *)
Definition mid (w : wrap_pc) : bool :=
  match w with Configuring | Initialising | Opening | Spawning | Launching | Wrapping => true | _ => false end.

Definition before_launch (w : wrap_pc) : bool :=
  match w with WrapIdle | Configuring | Initialising | Opening | Spawning | Launching => true | _ => false end.

Definition shut_cancel (p : shut_pc) : option bool :=
  match p with Cancelling c | Stopping c | Draining c | Waiting c | Cleaning c => Some c | _ => None end.

(** [Close] has called the [cancel] it has read. *)
Definition cancel_done (p : shut_pc) : bool := match p with Stopping c | Draining c | Waiting c | Cleaning c => c | _ => false end.

Definition waited (p : shut_pc) : bool := match p with Cleaning _ | ShutDone => true | _ => false end.

Section Life.
Context {H : Type} `{Host H} (ln : net_Addr) (cfg0 : gate_Config) (b : Backend) `{!GateFirewall b}.
Abbreviation gate := (gate_state H).
Implicit Types s : gate.

Hypothesis (Hmode : requiresFirewallCleanup cfg0 = true).
Hypothesis (Hbind : forall h : H, ConfigureFirewallPort (gate_firewall cfg0) (gate_port ln cfg0) h = (Ok b, h)).

Definition fresh s : Prop :=
  p_stopper (gt_pcs s) = NoStopper /\ p_server (gt_pcs s) = NoServer /\
  g_handler (gt_gw s) = None /\ g_timers (gt_gw s) = [] /\ g_revoking (gt_gw s) = [] /\ fst (gt_swapped s) = [].

Abbreviation world_of s := (g_world (gt_gw s)).

Record gate_inv s : Prop := {
  v_cfg : gt_cfg s = match p_wrap (gt_pcs s) with WrapIdle | Configuring => cfg0 | _ => gate_set (gc_Mode cfg0) (Some b) cfg0 end;
  v_start : f_started (gt_flags s) = match p_wrap (gt_pcs s) with WrapIdle => false | _ => true end;
  v_shut : f_closed (gt_flags s) = match p_shut (gt_pcs s) with ShutIdle => false | _ => true end;
  v_ok : f_started (gt_flags s) = true \/ f_closed (gt_flags s) = false -> gf_ok (w_fw (world_of s));
  v_mid : mid (p_wrap (gt_pcs s)) = true -> p_shut (gt_pcs s) = ShutIdle;
  v_fresh : before_launch (p_wrap (gt_pcs s)) = true -> fresh s;
  v_cancel : f_cancel (gt_flags s) = false -> p_stopper (gt_pcs s) = NoStopper;
  v_launched : f_cancel (gt_flags s) = true -> p_wrap (gt_pcs s) = Launching \/ p_stopper (gt_pcs s) <> NoStopper;
  v_launching : p_wrap (gt_pcs s) = Launching -> f_cancel (gt_flags s) = true;
  v_read c : shut_cancel (p_shut (gt_pcs s)) = Some c -> c = f_cancel (gt_flags s);
  v_cancelled : cancel_done (p_shut (gt_pcs s)) = true -> f_cancelled (gt_flags s) = true;
  v_clean : p_stopper (gt_pcs s) = Cleaned \/ p_stopper (gt_pcs s) = StopperDone -> settled b (world_of s);
  v_closed : p_stopper (gt_pcs s) = StopperDone -> f_lnClosed (gt_flags s) = true /\ f_knockClosed (gt_flags s) = true;
  v_waited : waited (p_shut (gt_pcs s)) = true -> goroutines_idle s = true;
  v_done : p_shut (gt_pcs s) = ShutDone -> f_started (gt_flags s) = true -> settled b (world_of s);
}.

Lemma cfg_mode s : gate_inv s -> requiresFirewallCleanup (gt_cfg s) = true.
Proof. intros I. rewrite (v_cfg _ I). by destruct (p_wrap (gt_pcs s)). Qed.

Lemma cfg_ops s : gate_inv s -> before_launch (p_wrap (gt_pcs s)) = false \/ p_wrap (gt_pcs s) = Initialising \/ p_wrap (gt_pcs s) = Opening ->
  gate_ops s = backend_ops b.
Proof. intros I Hp. unfold gate_ops. rewrite (v_cfg _ I). destruct (p_wrap (gt_pcs s)); naive_solver. Qed.

(** A step that leaves the configuration, the flags and the goroutines alone. *)
Lemma quiet s s' : gate_inv s -> gt_cfg s' = gt_cfg s -> gt_flags s' = gt_flags s -> gt_pcs s' = gt_pcs s ->
  (before_launch (p_wrap (gt_pcs s)) = true -> fresh s -> fresh s') ->
  (gf_ok (w_fw (world_of s)) -> gf_ok (w_fw (world_of s')) /\ (settled b (world_of s) -> settled b (world_of s'))) -> gate_inv s'.
Proof.
  intros [] Ec Ef Ep Hf Hk. constructor; unfold goroutines_idle in *; rewrite ?Ec, ?Ef, ?Ep; try done.
  - intros Hs. by apply Hk, v_ok0.
  - auto.
  - intros Hp. apply Hk; [|auto]. apply v_ok0. left. rewrite v_start0. destruct (p_wrap (gt_pcs s)) eqn:E; try done.
    destruct (v_fresh0 eq_refl) as [Hn _]. destruct Hp; congruence.
  - intros Hp Hs. apply Hk; auto.
Qed.

(** ** Knocks and timers *)

Lemma inv_in_world {A} s (m : FW (world H) A) : gate_inv s -> keeps b m -> gate_inv (snd (in_world m s)).
Proof.
  intros I Hm. unfold in_world. destruct (m (world_of s)) as [a w] eqn:E. cbn [snd].
  apply (quiet s); try done. intros Hok. exact (kept_both b _ _ (Hm _ _ _ E Hok)).
Qed.

Lemma inv_gstep s x g' : gate_inv s -> before_launch (p_wrap (gt_pcs s)) = false ->
  gstep (gate_ops s) (gate_gateway ln (gt_cfg s)) (gt_gw s) x = Some g' -> gate_inv (set_gw g' s).
Proof.
  intros I Hp. rewrite (cfg_ops s I (or_introl Hp)). intros E. apply (quiet s); try done; [by rewrite Hp|]. intros Hok. exact (kept_both b _ _ (gstep_keeps b _ _ _ _ E Hok)).
Qed.

Lemma inv_knock s x s' : gate_inv s -> gate_knock ln x s = Some s' -> gate_inv s'.
Proof.
  intros I. unfold gate_knock. set (may := match x with SKnock _ _ => _ | _ => _ end). destruct may eqn:Em; [|done].
  destruct (gstep _ _ _ _) as [g'|] eqn:E; [|done]. intros [= <-]. destruct (before_launch (p_wrap (gt_pcs s))) eqn:Hp; [|by eapply inv_gstep].
  destruct (v_fresh s I Hp) as (_ & Hs & Hh & Ht & Hr & _). destruct x; cbn [gstep] in E; subst may; cbn in Em.
  - by rewrite Hs in Em.
  - by rewrite Hs in Em.
  - by rewrite Ht in E.
  - by rewrite Hr in E.
  - destruct (call_store _ _) as [r w] eqn:Ec. injection E as <-. apply (quiet s); try done. intros Hok. exact (kept_both b _ _ (keeps_store b _ _ _ _ Ec Hok)).
  - done.
Qed.

Lemma inv_swapped s l : gate_inv s -> (fst (gt_swapped s) = [] -> fst l = []) -> gate_inv (set_swapped l s).
Proof. intros I Hl. apply (quiet s); try done. intros _ (? & ? & ? & ? & ? & ?). repeat split; auto. Qed.

Lemma inv_sessions s l : gate_inv s -> gate_inv (set_sessions l s).
Proof. intros I. by apply (quiet s). Qed.

Lemma inv_swapped_fire s k now now' s' : gate_inv s -> swapped_fire ln k now now' s = Some s' -> gate_inv s'.
Proof.
  intros I. unfold swapped_fire. destruct (gstep _ _ _ _) as [g'|] eqn:E; [|done]. intros [= <-].
  destruct (before_launch (p_wrap (gt_pcs s))) eqn:Hp.
  { destruct (v_fresh s I Hp) as (_ & _ & _ & _ & _ & Hw). cbn [gstep Gateway.g_timers] in E. by rewrite Hw in E. }
  rewrite (cfg_ops s I (or_introl Hp)) in E. apply (quiet s); try done; [by rewrite Hp|]. intros Hok. exact (kept_both b _ _ (gstep_keeps b _ _ _ _ E Hok)).
Qed.

Lemma inv_session s ev t1 t2 : gate_inv s -> gate_inv (knockSessionOnlyHandler ln ev t1 t2 s).
Proof.
  intros I. unfold knockSessionOnlyHandler. destruct (AddrFromIP _).
  - apply inv_sessions, inv_in_world; [done|]. apply kept_bind_gate; [apply keeps_store|intros; apply kept_emit_gate].
  - apply inv_in_world; [done|apply kept_emit_gate].
Qed.

Lemma inv_expire s t now : gate_inv s -> gate_inv (session_expire t now s).
Proof. intros I. apply inv_in_world; [done|apply keeps_store]. Qed.

(** ** [Wrap] *)

Lemma inv_close_ln s : gate_inv s -> gate_inv (close_ln s).
Proof. intros []. constructor; cbn; try done. intros Hp. split; [done|by apply v_closed0]. Qed.

(** [Wrap] goes on, without going back. *)
Lemma inv_set_wrap s x : gate_inv s -> p_wrap (gt_pcs s) <> WrapIdle -> p_wrap (gt_pcs s) <> Configuring -> p_wrap (gt_pcs s) <> Launching ->
  x <> WrapIdle -> x <> Configuring -> x <> Launching -> (mid x = true -> mid (p_wrap (gt_pcs s)) = true) -> (before_launch x = true -> before_launch (p_wrap (gt_pcs s)) = true) ->
  gate_inv (set_wrap x s).
Proof.
  intros [] H1 H2 H3 X1 X2 X3 Hm Hb. constructor; cbn; try done.
  - rewrite v_cfg0. by destruct (p_wrap (gt_pcs s)), x.
  - rewrite v_start0. by destruct (p_wrap (gt_pcs s)), x.
  - auto.
  - intros Hx. exact (v_fresh0 (Hb Hx)).
  - intros Hc. right. by destruct (v_launched0 Hc).
Qed.

(** Until the goroutines start, the gate may do anything with the firewall. *)
Lemma inv_dirty {A} s (m : FW (world H) A) : gate_inv s -> before_launch (p_wrap (gt_pcs s)) = true -> mid (p_wrap (gt_pcs s)) = true ->
  (forall w a w', m w = (a, w') -> gf_ok (w_fw w) -> gf_ok (w_fw w')) -> gate_inv (snd (in_world m s)).
Proof.
  intros [] Hb Hi Hm. apply v_mid0 in Hi. destruct (v_fresh0 Hb) as (Hn & Hf). unfold in_world. destruct (m (world_of s)) as [a w] eqn:E. cbn [snd].
  constructor; cbn; try done.
  - intros Hs. by eapply Hm, v_ok0.
  - rewrite Hn. by intros [].
  - by rewrite Hi.
Qed.

Lemma inv_wrap_fail s e : gate_inv s -> p_wrap (gt_pcs s) <> WrapIdle -> p_wrap (gt_pcs s) <> Configuring -> p_wrap (gt_pcs s) <> Launching -> gate_inv (wrap_fail e s).
Proof. intros I ? ? ?. apply inv_set_wrap; try done. by apply inv_close_ln. Qed.

Lemma in_world_pcs {A} (m : FW (world H) A) s : gt_pcs (snd (in_world m s)) = gt_pcs s.
Proof. unfold in_world. by destruct (m _). Qed.

Lemma inv_configure s : gate_inv s -> p_wrap (gt_pcs s) = Configuring -> gate_inv (wrap_configure ln s).
Proof.
  intros [] Hp. unfold wrap_configure, configureFirewallPort. rewrite Hp in *. rewrite v_cfg0.
  assert (Hm : gc_Mode cfg0 = ModeFirewallAuth \/ gc_Mode cfg0 = ModeFirewallOnly).
  { unfold requiresFirewallCleanup in Hmode. apply orb_true_iff in Hmode as [?%bool_decide_eq_true|?%bool_decide_eq_true]; auto. }
  rewrite (bool_decide_eq_false_2 (gc_Mode cfg0 = AuthOnly)) by (destruct Hm as [-> | ->]; discriminate).
  rewrite (bool_decide_eq_false_2 (gc_Mode cfg0 = KnockAuthOnly)) by (destruct Hm as [-> | ->]; discriminate). cbn [orb].
  unfold in_world, on_fw. rewrite Hbind. destruct (v_fresh0 eq_refl) as (F1 & F2 & F3 & F4 & F5 & F6).
  set (s1 := set_backend b _). assert (Hs1 : forall x, x <> WrapIdle -> x <> Configuring -> x <> Launching -> (mid x = true \/ before_launch x = false) ->
    gate_inv (set_wrap x s1) /\ gate_inv (set_wrap x (close_ln s1))).
  { intros x X1 X2 X3 X4. split; constructor; cbn; try done; try (by intros; apply v_mid0);
      try (by rewrite v_cfg0; destruct x); try (by rewrite v_start0; destruct x); try (by intros; repeat split); try (by intros Hc; destruct (v_launched0 Hc); auto);
      try (intros Hsd; apply v_closed0 in Hsd; tauto). }
  destruct (ValidateDropUDPKnockPort _ _); [by apply Hs1; auto|]. cbn [gt_cfg s1 set_backend gate_set gc_Mode set_gw]. rewrite v_cfg0.
  rewrite (bool_decide_eq_false_2 (gc_Mode cfg0 = AuthOnly)) by (destruct Hm as [-> | ->]; discriminate).
  rewrite (bool_decide_eq_false_2 (gc_Mode cfg0 = KnockAuthOnly)) by (destruct Hm as [-> | ->]; discriminate).
  unfold requiresFirewallCleanup in Hmode. rewrite Hmode. by apply Hs1; auto.
Qed.

Lemma inv_wrap s ctx bind s' : gate_inv s -> wrap_step ln ctx bind s = Some s' -> gate_inv s'.
Proof.
  intros I. unfold wrap_step. destruct (p_wrap (gt_pcs s)) eqn:Hp; try done.
  - intros [= <-]. by apply inv_configure.
  - intros [= <-]. unfold wrap_init. destruct (in_world _ s) as [e s1] eqn:E.
    assert (I1 : gate_inv s1 /\ gt_pcs s1 = gt_pcs s).
    { replace s1 with (snd (in_world (InitFirewall (gate_ops s) ctx) s)) by (by rewrite E). split; [|apply in_world_pcs]. apply inv_dirty; [done|by rewrite Hp..|].
      rewrite (cfg_ops s I) by (by right; left). intros w a w'. unfold InitFirewall, CleanupFirewallDetached, on_fw, mbind, FW_bind, mret, FW_ret.
      destruct (fo_Init _ _ _) as [r h1] eqn:Ei. intros Ew Hok. pose proof (gf_init _ _ _ _ Hok Ei) as Hok1. destruct r as [r|]; [|by injection Ew as <- <-].
      destruct (fo_Cleanup _ _ _) as [r2 h2] eqn:Ec. injection Ew as <- <-. exact (proj1 (gf_cleanup _ _ _ _ Hok1 Ec)). }
    destruct I1 as [I1 P1]. destruct e; [apply inv_wrap_fail|apply inv_set_wrap]; rewrite ?P1, ?Hp; done.
  - intros [= <-]. unfold wrap_open. destruct (openKnockListener _ _ _) as [err|]; [|apply inv_set_wrap; rewrite ?Hp; done]. rewrite (cfg_mode s I).
    destruct (in_world _ s) as [e s1] eqn:E.
    assert (I1 : gate_inv s1 /\ gt_pcs s1 = gt_pcs s).
    { match type of E with in_world ?m _ = _ => replace s1 with (snd (in_world m s)) by (by rewrite E) end. split; [|apply in_world_pcs].
      apply inv_dirty; [done|by rewrite Hp..|]. rewrite (cfg_ops s I) by (by right; right). intros w a w'.
      unfold CleanupFirewallDetached, on_fw, mbind, FW_bind, mret, FW_ret, recordCleanupErr.
      destruct (fo_Cleanup _ _ _) as [r2 h2] eqn:Ec. intros Ew Hok. pose proof (proj1 (gf_cleanup _ _ _ _ Hok Ec)). by destruct r2; injection Ew as <- <-. }
    destruct I1 as [I1 P1]. apply inv_wrap_fail; rewrite ?P1, ?Hp; done.
  - intros [= <-]. destruct I. rewrite Hp in *. destruct (v_fresh0 eq_refl) as (F1 & _). constructor; cbn; try done; try (by auto). by rewrite v_mid0.
  - intros [= <-]. destruct I. rewrite Hp in *. destruct (v_fresh0 eq_refl) as (F1 & _). constructor; cbn; try done.
    + by rewrite v_launching0.
    + by intros _; right.
    + by intros [|].
    + by rewrite v_mid0.
  - intros [= <-]. unfold wrap_listener. repeat case_bool_decide; repeat case_match; (apply inv_wrap_fail || apply inv_set_wrap); rewrite ?Hp; done.
  - destruct (p_shut (gt_pcs s)); try done. intros [= <-]. apply inv_wrap_fail; rewrite ?Hp; done.
Qed.

Lemma inv_begin s s1 : gate_inv s -> beginLifecycle s = Ok s1 -> gate_inv (set_wrap Configuring s1).
Proof.
  intros []. unfold beginLifecycle. destruct (f_closed (gt_flags s)) eqn:Hc; [done|]. destruct (f_started (gt_flags s)) eqn:Hs; [done|]. intros [= <-].
  destruct (p_wrap (gt_pcs s)) eqn:Hp; try done. destruct (p_shut (gt_pcs s)) eqn:Hq; try done.
  constructor; cbn; try done; rewrite ?Hq; try done; try (by auto). intros Hl. right. by destruct (v_launched0 Hl).
Qed.

(** ** [Close] *)

Lemma inv_shut_start s : gate_inv s -> mid (p_wrap (gt_pcs s)) = false -> gate_inv (shut_start s).
Proof.
  intros I Hm. unfold shut_start. destruct (p_shut (gt_pcs s)) eqn:Hq; try done. destruct I. constructor; cbn; try done; try (by auto).
  - intros [Hs|]; [auto|done].
  - intros Hx. congruence.
  - by intros c [= <-].
Qed.

(** A cleanup of [Close] or of the goroutine. *)
Lemma inv_cleanup ctx s : gate_inv s -> before_launch (p_wrap (gt_pcs s)) = false ->
  let s' := snd (in_world (e ← on_fw (fo_Cleanup (gate_ops s) ctx); recordCleanupErr e) s) in gate_inv s' /\ settled b (world_of s').
Proof.
  intros I Hp. cbv zeta. rewrite (cfg_ops s I (or_introl Hp)).
  match goal with |- context [in_world ?f s] => set (m := f) end. unfold in_world. destruct (m (world_of s)) as [a w] eqn:E. subst m. cbn [snd].
  assert (Hok : gf_ok (w_fw (world_of s))). { apply (v_ok s I). left. rewrite (v_start s I). by destruct (p_wrap (gt_pcs s)). }
  destruct (keeps_cleanup b _ _ _ _ E Hok) as [Hok' Hs]. split; [|done]. by apply (quiet s).
Qed.

Lemma inv_set_shut s x : gate_inv s -> p_shut (gt_pcs s) <> ShutIdle -> x <> ShutIdle -> (forall c, shut_cancel x = Some c -> c = f_cancel (gt_flags s)) ->
  (cancel_done x = true -> f_cancelled (gt_flags s) = true) -> (waited x = true -> goroutines_idle s = true) -> (x = ShutDone -> f_started (gt_flags s) = true -> settled b (world_of s)) -> gate_inv (set_shut x s).
Proof.
  intros [] Hq Hx Hr Hc Hw Hd. constructor; cbn; try done; try (by auto).
  - rewrite v_shut0. by destruct (p_shut (gt_pcs s)), x.
  - intros Hm. by apply v_mid0 in Hm.
Qed.

Lemma in_world_flags {A} (m : FW (world H) A) s : gt_flags (snd (in_world m s)) = gt_flags s.
Proof. unfold in_world. by destruct (m _). Qed.

Lemma inv_shut s ctx s' : gate_inv s -> shut_step ctx s = Some s' -> gate_inv s'.
Proof.
  intros I. unfold shut_step. pose proof (v_read s I) as Hr. pose proof (v_mid s I) as Hm. pose proof (v_waited s I) as Hw. pose proof (v_cancelled s I) as Hcd.
  destruct (p_shut (gt_pcs s)) as [|c|c|c|c|c|] eqn:Hq; try done.
  - intros [= <-]. apply inv_set_shut; cbn; rewrite ?Hq; try done; [|by intros ->; apply orb_true_r]. destruct I. constructor; cbn; try done; rewrite ?Hq; try done.
  - intros [= <-]. apply inv_set_shut; cbn; rewrite ?Hq; try done. apply (quiet s); try done. cbn. intros _ (? & ? & ? & ? & ? & ?). repeat split; auto.
  - destruct (timers_idle s); [|done]. intros [= <-]. apply inv_set_shut; cbn; rewrite ?Hq; done.
  - destruct (goroutines_idle s) eqn:Hg; [|done]. intros [= <-]. apply inv_set_shut; cbn; rewrite ?Hq; done.
  - intros [= <-]. rewrite (cfg_mode s I). cbn [andb]. specialize (Hr c eq_refl).
    assert (Hwr : p_wrap (gt_pcs s) = WrapIdle \/ before_launch (p_wrap (gt_pcs s)) = false) by (destruct (p_wrap (gt_pcs s)); try (by auto); by specialize (Hm eq_refl)).
    destruct c; cbn [negb].
    + apply inv_set_shut; rewrite ?Hq; try done. intros _ _. specialize (Hw eq_refl). apply (v_clean s I). right.
      destruct (v_launched s I (eq_sym Hr)) as [Hl|Hs]; [destruct Hwr as [Hwr|Hwr]; rewrite Hl in Hwr; done|].
      unfold goroutines_idle in Hw. apply andb_true_iff in Hw as [Hw%bool_decide_eq_true _]. set_solver.
    + destruct Hwr as [Hwr|Hwr].
      * assert (f_started (gt_flags s) = false) as Hns by (by rewrite (v_start s I), Hwr). pose proof (v_fresh s I) as Hf. rewrite Hwr in Hf. specialize (Hf eq_refl).
        assert (f_closed (gt_flags s) = true) as Hcl by (by rewrite (v_shut s I), Hq).
        destruct Hf as (Hf1 & Hf). destruct I.
        match goal with |- context [in_world ?f s] => set (m := f) end. unfold in_world. destruct (m (world_of s)) as [a w]. clear m. cbn [snd].
        constructor; cbn; rewrite ?Hwr in *; try done.
        all: try (rewrite Hns, Hcl; by intros [|]). all: try (rewrite Hf1; by intros [|]). all: try (by rewrite Hns).
      * destruct (inv_cleanup ctx s I Hwr) as [I1 S1]. apply inv_set_shut; try done; rewrite ?in_world_pcs, ?in_world_flags, ?Hq; try done.
        intros _. unfold goroutines_idle. rewrite in_world_pcs. by apply Hw.
Qed.

(** ** The goroutines *)

Lemma inv_stopper s s' : gate_inv s -> stopper_step s = Some s' -> gate_inv s'.
Proof.
  intros I. unfold stopper_step. pose proof (v_fresh s I) as Hf. pose proof (v_cancel s I) as Hc.
  assert (Hb : p_stopper (gt_pcs s) <> NoStopper -> before_launch (p_wrap (gt_pcs s)) = false).
  { intros Hn. destruct (before_launch _) eqn:Hb; [|done]. by destruct (Hf eq_refl). }
  destruct (p_stopper (gt_pcs s)) eqn:Hp; try done; specialize (Hb ltac:(done)).
  - destruct (knock_done s); [|done]. intros [= <-]. rewrite (cfg_mode s I). destruct (inv_cleanup Detached s I Hb) as [I1 S1].
    change (on_fw (fo_Cleanup (gate_ops s) Detached)) with (CleanupFirewallDetached (gate_ops s)) in *.
    match goal with |- context [in_world ?f s] => set (m := f) in * end. pose proof (in_world_pcs m s) as Ep. pose proof (in_world_flags m s) as Ef.
    destruct I1. rewrite Ep, Ef in *. constructor; cbn; rewrite ?Ep, ?Ef; try done.
    + intros Hx. change (before_launch (p_wrap (gt_pcs s)) = true) in Hx. congruence.
    + intros Hx. by apply Hc in Hx.
    + by right.
    + intros Hx. specialize (v_waited0 Hx). unfold goroutines_idle in v_waited0. rewrite Ep, Hp in v_waited0. done.
  - intros [= <-]. destruct I. rewrite Hp in *. constructor; cbn; try done.
    + intros Hx. change (before_launch (p_wrap (gt_pcs s)) = true) in Hx. congruence.
    + intros Hx. by apply Hc in Hx.
    + by right.
    + by auto.
    + intros Hx. specialize (v_waited0 Hx). unfold goroutines_idle in v_waited0. by rewrite Hp in v_waited0.
Qed.

Lemma inv_serve_end s err s' : gate_inv s -> serve_end err s = Some s' -> gate_inv s'.
Proof.
  intros I. unfold serve_end. destruct (p_server (gt_pcs s)) eqn:Hp; try done. destruct (g_handler (gt_gw s)) eqn:Hh; [done|]. intros [= <-].
  assert (I1 : gate_inv (set_goroutines (p_stopper (gt_pcs s)) ServerDone s)).
  { destruct I. constructor; cbn; try done.
    - intros Hx. destruct (v_fresh0 Hx) as (_ & Hn & _). congruence.
    - intros Hx. specialize (v_waited0 Hx). unfold goroutines_idle in v_waited0. rewrite Hp in v_waited0. by apply andb_true_iff in v_waited0 as [_ ?]. }
  destruct err as [e|]; [|done]. destruct (knock_done _); [done|]. apply inv_close_ln.
  exact (inv_in_world _ _ I1 (kept_emit_gate b (KnockFail None [] (str "listen_error") (Some e)))).
Qed.

(** ** Runs *)

(** [Close] is not called while [Wrap] is at work. *)
Definition orderly s (x : gate_label) : Prop := match x with GClose => mid (p_wrap (gt_pcs s)) = false | _ => True end.

Fixpoint orderly_run s (xs : list gate_label) : Prop :=
  match xs with [] => True | x :: xs => orderly s x /\ match gate_step ln s x with Some s => orderly_run s xs | None => True end end.

Lemma inv_step s x s' : gate_inv s -> orderly s x -> gate_step ln s x = Some s' -> gate_inv s'.
Proof.
  intros I Ho. destruct x; cbn [gate_step].
  - intros [= <-]. destruct (beginLifecycle s) eqn:E; [by eapply inv_begin|done].
  - by apply inv_wrap.
  - intros [= <-]. by apply inv_shut_start.
  - by apply inv_shut.
  - destruct (fst (gt_swapped s) !! k) eqn:E; [|done]. intros [= <-]. apply inv_swapped; [done|]. cbn. intros Hn. by rewrite Hn in E.
  - destruct (snd (gt_swapped s) !! k) eqn:E; [|done]. intros [= <-]. by apply inv_swapped.
  - by apply inv_stopper.
  - by apply inv_serve_end.
  - by apply inv_knock.
  - by apply inv_swapped_fire.
  - destruct (_ && _); [|done]. intros [= <-]. by apply inv_session.
  - destruct (gt_sessions s !! k) as [t|]; [|done]. cbn [mbind option_bind]. destruct (Z.ltb _ _); [done|]. intros [= <-]. by apply inv_expire, inv_sessions.
  - destruct (snd (gt_swapped s) !! k) as [t|]; [|done]. cbn [mbind option_bind]. destruct (Z.ltb _ _); [done|]. intros [= <-]. by apply inv_expire, inv_swapped.
  - intros [= <-]. destruct I. constructor; done.
Qed.

Lemma inv_run xs : forall s s', gate_inv s -> orderly_run s xs -> gate_run ln s xs = Some s' -> gate_inv s'.
Proof.
  induction xs as [|x xs IH]; intros s s' I Ho; cbn [gate_run]; [by intros [= <-]|]. destruct Ho as [Hx Ho].
  destruct (gate_step ln s x) as [s1|] eqn:E; [|done]. cbn. apply IH; [by eapply inv_step|done].
Qed.

(** ** The end of [Close] *)

(** Steps that the gate takes by itself: all but calls, arrivals and the end of
    the context. *)
Definition internal (x : gate_label) : bool :=
  match x with
  | GWrap | GClose | GParent | GSession _ _ _ | GKnock (SKnock _ _) | GKnock (SConnect _ _ _) | GKnock (SRemove _ _) => false
  | _ => true
  end.

Definition shut_m (p : shut_pc) : nat :=
  match p with ShutIdle => 6 | Cancelling _ => 5 | Stopping _ => 4 | Draining _ => 3 | Waiting _ => 2 | Cleaning _ => 1 | ShutDone => 0 end.
Definition stopper_m (p : stopper_pc) : nat := match p with Awaiting => 2 | Cleaned => 1 | _ => 0 end.
Definition server_m (p : server_pc) : nat := match p with ServingKnocks => 1 | _ => 0 end.
Definition wrap_m (p : wrap_pc) : nat := match p with Undoing _ => 1 | _ => 0 end.

(** A bound on the internal steps that are left. *)
Definition gate_left s : nat :=
  shut_m (p_shut (gt_pcs s)) + stopper_m (p_stopper (gt_pcs s)) + server_m (p_server (gt_pcs s)) + wrap_m (p_wrap (gt_pcs s)) +
  (if g_handler (gt_gw s) is Some _ then 3 else 0) + 2 * length (g_timers (gt_gw s)) + length (g_revoking (gt_gw s)) +
  2 * length (fst (gt_swapped s)) + length (snd (gt_swapped s)) + length (gt_sessions s).

Lemma in_world_shape {A} (m : FW (world H) A) s : exists w,
  snd (in_world m s) = set_gw (Gateway.mkState w (g_handler (gt_gw s)) (g_timers (gt_gw s)) (g_revoking (gt_gw s))) s.
Proof. unfold in_world. destruct (m _) as [a w]. by exists w. Qed.

Lemma left_in_world {A} (m : FW (world H) A) s : gate_left (snd (in_world m s)) = gate_left s.
Proof. by destruct (in_world_shape m s) as [w ->]. Qed.

Lemma length_delete_lt {A} (l : list A) k x : l !! k = Some x -> S (length (delete k l)) = length l.
Proof. intros E. pose proof (lookup_lt_Some _ _ _ E). rewrite length_delete by done. lia. Qed.

(** Timers, closings and the handler of Gateway. *)
Definition gw_left (g : gw_state (F := H)) : nat := (if g_handler g is Some _ then 3 else 0) + 2 * length (g_timers g) + length (g_revoking g).

Lemma gstep_left (fw : firewall_ops H) g (q : gw_state (F := H)) x q' : internal (GKnock x) = true -> gstep fw g q x = Some q' -> (gw_left q' < gw_left q)%nat.
Proof.
  unfold gw_left. destruct x as [ctx ev|ctx t1 t2 t3|k now now'|k|peer remote now|remote client]; intros Hx; try done; cbn [gstep].
  - destruct (g_handler q) as [[remote ev]|]; [|done]. destruct (knock_admit _ _ _ _ _ _ _ _ _) as [t w]. intros [= <-]. cbn. rewrite length_app.
    destruct t; cbn; lia.
  - destruct (g_timers q !! k) as [t|] eqn:E; [|done]. destruct (Z.ltb _ _); [done|]. destruct (timer_expire _ _ _ _ _ _) as [close w]. intros [= <-]. cbn.
    rewrite length_app. apply length_delete_lt in E. destruct close; cbn; lia.
  - destruct (g_revoking q !! k) as [[timed remote]|] eqn:E; [|done]. destruct (_ (g_world q)) as [u w]. intros [= <-]. cbn. apply length_delete_lt in E. lia.
Qed.

Lemma left_gw s g : (gw_left g < gw_left (gt_gw s))%nat -> (gate_left (set_gw g s) < gate_left s)%nat.
Proof. unfold gate_left, gw_left. cbn. lia. Qed.

(** An internal step after [Close] was called brings the end nearer. *)
Lemma step_left s x s' : gate_inv s -> p_shut (gt_pcs s) <> ShutIdle -> internal x = true -> gate_step ln s x = Some s' ->
  (gate_left s' < gate_left s)%nat /\ p_shut (gt_pcs s') <> ShutIdle.
Proof.
  intros I Hq Hx. pose proof (v_mid s I) as Hm. destruct x; cbn [gate_step]; try done.
  - unfold wrap_step. destruct (p_wrap (gt_pcs s)) eqn:Hp; try done; try (by specialize (Hm eq_refl)).
    destruct (p_shut (gt_pcs s)) eqn:Hq'; try done. intros [= <-]. unfold gate_left, wrap_fail. cbn. rewrite Hp, Hq'. cbn. split; [lia|done].
  - unfold shut_step. destruct (p_shut (gt_pcs s)) eqn:Hq'; try done.
    + intros [= <-]. unfold gate_left. cbn. rewrite Hq'. cbn. split; [lia|done].
    + intros [= <-]. unfold gate_left. cbn. rewrite Hq'. cbn. split; [lia|done].
    + destruct (timers_idle s); [|done]. intros [= <-]. unfold gate_left. cbn. rewrite Hq'. cbn. split; [lia|done].
    + destruct (goroutines_idle s); [|done]. intros [= <-]. unfold gate_left. cbn. rewrite Hq'. cbn. split; [lia|done].
    + intros [= <-]. destruct (requiresFirewallCleanup (gt_cfg s) && negb cancel); [match goal with |- context [in_world ?m s] => destruct (in_world_shape m s) as [w ->] end|];
        unfold gate_left; cbn; rewrite Hq'; cbn; (split; [lia|done]).
  - destruct (fst (gt_swapped s) !! k) eqn:E; [|done]. intros [= <-]. apply length_delete_lt in E. unfold gate_left. cbn. split; [lia|done].
  - destruct (snd (gt_swapped s) !! k) eqn:E; [|done]. intros [= <-]. apply length_delete_lt in E. unfold gate_left. cbn. split; [lia|done].
  - unfold stopper_step. destruct (p_stopper (gt_pcs s)) eqn:Hp; try done.
    + destruct (knock_done s); [|done]. intros [= <-].
      destruct (requiresFirewallCleanup (gt_cfg s)); [match goal with |- context [in_world ?m s] => destruct (in_world_shape m s) as [w ->] end|];
        unfold gate_left; cbn; rewrite Hp; cbn; (split; [lia|done]).
    + intros [= <-]. unfold gate_left. cbn. rewrite Hp. cbn. split; [lia|done].
  - unfold serve_end. destruct (p_server (gt_pcs s)) eqn:Hp; try done. destruct (g_handler (gt_gw s)); [done|]. intros [= <-].
    destruct err; [destruct (knock_done _)|]; unfold gate_left; cbn; rewrite Hp; cbn; (split; [lia|done]).
  - unfold gate_knock. destruct (match x with SKnock _ _ => _ | _ => _ end); [|done]. destruct (gstep _ _ _ _) as [g'|] eqn:E; [|done]. intros [= <-].
    split; [|done]. apply left_gw. by eapply gstep_left.
  - unfold swapped_fire. destruct (gstep _ _ _ _) as [g'|] eqn:E; [|done]. intros [= <-]. split; [|done].
    apply gstep_left in E; [|done]. unfold gate_left, gw_left in *. cbn in *. lia.
  - destruct (gt_sessions s !! k) as [t|] eqn:E; [|done]. cbn [mbind option_bind]. destruct (Z.ltb _ _); [done|]. intros [= <-].
    unfold session_expire. rewrite left_in_world, in_world_pcs. apply length_delete_lt in E. unfold gate_left. cbn. split; [lia|done].
  - destruct (snd (gt_swapped s) !! k) as [t|] eqn:E; [|done]. cbn [mbind option_bind]. destruct (Z.ltb _ _); [done|]. intros [= <-].
    unfold session_expire. rewrite left_in_world, in_world_pcs. apply length_delete_lt in E. unfold gate_left. cbn. split; [lia|done].
Qed.

(** As long as [Close] has not returned, some internal step can be taken. *)
Lemma step_enabled s : gate_inv s -> p_shut (gt_pcs s) <> ShutIdle -> p_shut (gt_pcs s) <> ShutDone ->
  exists x s', internal x = true /\ gate_step ln s x = Some s'.
Proof.
  intros I Hi Hd. pose proof (v_cancelled s I) as Hc. pose proof (v_read s I) as Hr. pose proof (v_cancel s I) as Hn. pose proof (cfg_mode s I) as Hcm.
  destruct (p_shut (gt_pcs s)) as [|c|c|c|c|c|] eqn:Hq; try done.
  - exists (GCloseStep Serving). eexists. split; [done|]. cbn [gate_step]. unfold shut_step. by rewrite Hq.
  - exists (GCloseStep Serving). eexists. split; [done|]. cbn [gate_step]. unfold shut_step. by rewrite Hq.
  - destruct (timers_idle s) eqn:Ht.
    { exists (GCloseStep Serving). eexists. split; [done|]. cbn [gate_step]. unfold shut_step. by rewrite Hq, Ht. }
    unfold timers_idle in Ht. destruct (fst (gt_swapped s)) as [|t l] eqn:E1; [|exists (GStop 0); eexists; split; [done|]; cbn [gate_step]; by rewrite E1].
    destruct (snd (gt_swapped s)) as [|t l] eqn:E2; [|exists (GStopSession 0); eexists; split; [done|]; cbn [gate_step]; by rewrite E2].
    destruct (gt_sessions s) as [|t l] eqn:E3.
    2:{ exists (GSessionFire 0 (st_due t)). eexists. split; [done|]. cbn [gate_step]. rewrite E3. cbn. by rewrite Z.ltb_irrefl. }
    destruct (g_timers (gt_gw s)) as [|t l] eqn:E4.
    2:{ exists (GKnock (SFire 0 (tm_due t) (tm_due t))). cbn [gate_step]. unfold gate_knock. cbn [gstep]. rewrite E4. cbn. rewrite Z.ltb_irrefl.
        destruct (timer_expire _ _ _ _ _ _). by eexists. }
    destruct (g_revoking (gt_gw s)) as [|[timed r] l] eqn:E5; [done|].
    exists (GKnock (SRevoke 0)). cbn [gate_step]. unfold gate_knock. cbn [gstep]. rewrite E5. cbn. destruct (_ (world_of s)). by eexists.
  - destruct (goroutines_idle s) eqn:Hg.
    { exists (GCloseStep Serving). eexists. split; [done|]. cbn [gate_step]. unfold shut_step. by rewrite Hq, Hg. }
    assert (Hkd : p_stopper (gt_pcs s) <> NoStopper -> knock_done s = true).
    { intros Hs. unfold knock_done. specialize (Hr c eq_refl). subst c. destruct (f_cancel (gt_flags s)); [by rewrite (Hc eq_refl)|by specialize (Hn eq_refl)]. }
    unfold goroutines_idle in Hg. destruct (p_stopper (gt_pcs s)) eqn:Hp.
    2:{ exists GStopper. eexists. split; [done|]. cbn [gate_step]. unfold stopper_step. by rewrite Hp, Hkd. }
    2:{ exists GStopper. eexists. split; [done|]. cbn [gate_step]. unfold stopper_step. by rewrite Hp. }
    all: destruct (p_server (gt_pcs s)) eqn:Hv; try done.
    all: destruct (g_handler (gt_gw s)) as [[remote ev]|] eqn:Hh.
    all: try (exists (GServeEnd None); eexists; split; [done|]; cbn [gate_step]; unfold serve_end; by rewrite Hv, Hh).
    all: exists (GKnock (SAdmit Serving 0 0 0)); cbn [gate_step]; unfold gate_knock; rewrite Hv, Hcm; cbn [andb gstep]; rewrite Hh.
    all: destruct (knock_admit _ _ _ _ _ _ _ _ _); by eexists.
  - exists (GCloseStep Serving). eexists. split; [done|]. cbn [gate_step]. unfold shut_step. by rewrite Hq.
Qed.

End Life.

Lemma inv_new {H} `{Host H} cfg b `{!GateFirewall b} (h : H) s0 :
  gate_New cfg h = Ok s0 -> gf_ok h -> gate_inv (gt_cfg s0) b s0.
Proof.
  unfold gate_New. destruct (validateGateConfig cfg) as [c|]; [|done]. intros [= <-] Hok. constructor; cbn; try done. all: by intros [].
Qed.

(** Property C14. A gate that is closed leaves nothing behind: over every
    interleaving of [Wrap], knocks, timers, connections, the end of the context
    and [Close] in which [Close] is not called while [Wrap] is at work, when
    [Close] has returned both goroutines have ended, the listeners of a gate that
    was started are closed, and the firewall the gate was started with is clean,
    or [Close] returned an error; and it stays so, whatever timers still run. *)
Theorem gate_close_cleans {H} `{Host H} (ln : net_Addr) (cfg : gate_Config) (b : Backend) `{!GateFirewall b} (h : H) (s0 s : gate_state H) (xs : list gate_label) :
  gate_New cfg h = Ok s0 -> requiresFirewallCleanup (gt_cfg s0) = true ->
  (forall h : H, ConfigureFirewallPort (gate_firewall (gt_cfg s0)) (gate_port ln (gt_cfg s0)) h = (Ok b, h)) -> gf_ok h ->
  orderly_run ln s0 xs -> gate_run ln s0 xs = Some s -> p_shut (gt_pcs s) = ShutDone ->
  goroutines_idle s = true /\
  (f_cancel (gt_flags s) = true -> f_lnClosed (gt_flags s) = true /\ f_knockClosed (gt_flags s) = true) /\
  (f_started (gt_flags s) = true -> w_closeErr (g_world (gt_gw s)) <> None \/ gf_clean (w_fw (g_world (gt_gw s)))).
Proof.
  intros En Hm Hb Hok Ho Er Hd. pose proof (inv_run ln _ b Hm Hb xs _ _ (inv_new cfg b h s0 En Hok) Ho Er) as I.
  pose proof (v_waited _ _ _ I) as Hw. rewrite Hd in Hw. specialize (Hw eq_refl). split; [done|]. split; [|by apply (v_done _ _ _ I)].
  intros Hc. apply (v_closed _ _ _ I). destruct (v_launched _ _ _ I Hc) as [Hl|Hl].
  - pose proof (v_mid _ _ _ I) as Hx. rewrite Hl, Hd in Hx. by specialize (Hx eq_refl).
  - unfold goroutines_idle in Hw. apply andb_true_iff in Hw as [Hw%bool_decide_eq_true _]. set_solver.
Qed.

