(* ===== verification/GateIptables.v ===== *)
(** The iptables backend keeps the contract of the gates.

    [iptables_gate] discharges the interface [GateFirewall] from the behaviour of
    the backend on tools that obey their manual: a cleanup without an error
    leaves no rule and no chain of the backend, and then neither an opening nor
    a closing puts one back. The runs at the end show the theorems about gates
    at work and what happens when [Close] meets a [Wrap] in progress. *)

From Stdlib Require Import ZArith Lia String.
From Stdlib Require Strings.Byte.
From stdpp Require Import base list gmap strings.
From S2P Require Import Prelude GoStd Net Session KnockFrame KnockSeq KnockListen Firewall FirewallSpec Gateway RelayConfig Gate GateSpec AuthTypes.

Open Scope Z_scope.

Section Contract.
Context {H : Type} `{Host H} (tables : H -> bytes -> ruleset) `{!IptablesLaws H tables}.
Context (i : Iptables.t) (v6 : bool).
Hypothesis (Hv6 : forall h, exists h', ipv6Enabled (Iptables.cfg i) Iptables.Name h = (v6, h') /\ forall name, tables h' name = tables h name).
Hypothesis (Hvalid : validateIptablesConfig (mkIptablesConfig (Iptables.chain i)) = None).
Let chain := Iptables.chain i.

(** The rules of INPUT are few enough for one cleanup, in both tools. *)
Definition tidy (h : H) : Prop := forall f, few_leftovers tables i h (tool_of f).

(** Neither the chain nor a rule that the backend puts in INPUT is there. *)
Definition swept (h : H) : Prop := forall f, f = false \/ v6 = true ->
  tables h (tool_of f) !! chain = None /\ (jump_rule i ∉ rules_of (tables h (tool_of f)) (str "INPUT")) /\
  (fc_DropUDPKnockPort (Iptables.cfg i) = true -> udp_rule i ∉ rules_of (tables h (tool_of f)) (str "INPUT")).

Lemma not_input : chain <> str "INPUT".
Proof. by apply chain_names. Qed.

(** ** Commands that keep the tables tidy *)

Definition keeps_tidy {A} (m : FW H A) : Prop := forall h a h', m h = (a, h') -> tidy h -> tidy h'.

Lemma tidy_ret {A} (a : A) : keeps_tidy (mret a).
Proof. by intros h a' h' [= <- <-]. Qed.

Lemma tidy_bind {A B} (m : FW H A) (f : A -> FW H B) : keeps_tidy m -> (forall a, keeps_tidy (f a)) -> keeps_tidy (m ≫= f).
Proof. intros Hm Hf h c h'. unfold mbind, FW_bind. destruct (m h) as [a h1] eqn:E. intros E' Ht. eapply Hf; [exact E'|]. by eapply Hm. Qed.

(** A change of one table in which no rule of INPUT becomes more frequent. *)
Lemma tidy_change h h' name : tool name -> (forall other, other <> name -> tables h' other = tables h other) ->
  (forall rule, length (filter (.= rule) (rules_of (tables h' name) (str "INPUT"))) <= Nat.max 1 (length (filter (.= rule) (rules_of (tables h name) (str "INPUT")))))%nat ->
  tidy h -> tidy h'.
Proof.
  intros Ht Ho Hc Hh f. destruct (Hh f) as [Hj Hu]. unfold few_leftovers. destruct (decide (tool_of f = name)) as [<-|Hn]; [|by rewrite Ho].
  assert (1 < maxCleanupDeletes)%nat by (apply Nat.ltb_lt; vm_compute; reflexivity).
  pose proof (Hc (jump_rule i)). pose proof (Hc (udp_rule i)). split; eapply Nat.le_lt_trans; try done; apply Nat.max_lub_lt; done.
Qed.

Lemma tidy_same h h' : (forall name, tables h' name = tables h name) -> tidy h -> tidy h'.
Proof. intros Hs Hh f. unfold few_leftovers. rewrite Hs. apply Hh. Qed.

(** A command after which the rules of INPUT are the same, or fewer. *)
Lemma tidy_run ctx name args : tool name ->
  (forall h h', runIptables ctx name args h = (None, h') ->
     forall rule, (length (filter (.= rule) (rules_of (tables h' name) (str "INPUT"))) <= length (filter (.= rule) (rules_of (tables h name) (str "INPUT"))))%nat) ->
  keeps_tidy (runIptables ctx name args).
Proof.
  intros Ht Hr h r h' E. apply (tidy_change h h' name Ht); [intros; by eapply law_other|]. intros rule. destruct r as [e|].
  - rewrite (law_fail _ _ _ _ _ _ Ht E). lia.
  - specialize (Hr _ _ E rule). lia.
Qed.

Lemma other_chain (t : ruleset) c x : c <> str "INPUT" -> rules_of (<[c := x]> t) (str "INPUT") = rules_of t (str "INPUT").
Proof. intros Hc. unfold rules_of. by rewrite lookup_insert_ne. Qed.

Lemma rules_insert (t : ruleset) c x : rules_of (<[c := x]> t) c = x.
Proof. unfold rules_of. by rewrite lookup_insert_eq. Qed.

Lemma rules_Some (t : ruleset) c x : t !! c = Some x -> rules_of t c = x.
Proof. unfold rules_of. by intros ->. Qed.

Lemma tidy_new ctx name : tool name -> keeps_tidy (runIptables ctx name [str "-N"; chain]).
Proof. intros Ht. apply tidy_run; [done|]. intros h h' E rule. destruct (law_new _ _ _ _ _ Ht E) as [_ ->]. by rewrite other_chain by apply not_input. Qed.

Lemma tidy_flush ctx name : tool name -> keeps_tidy (runIptables ctx name [str "-F"; chain]).
Proof. intros Ht. apply tidy_run; [done|]. intros h h' E rule. destruct (law_flush _ _ _ _ _ Ht E) as [_ ->]. by rewrite other_chain by apply not_input. Qed.

Lemma tidy_remove ctx name : tool name -> keeps_tidy (runIptables ctx name [str "-X"; chain]).
Proof.
  intros Ht. apply tidy_run; [done|]. intros h h' E rule. rewrite (law_remove _ _ _ _ _ Ht E). unfold rules_of. by rewrite lookup_delete_ne by apply not_input.
Qed.

Lemma tidy_append ctx name rule : tool name -> keeps_tidy (runIptables ctx name ([str "-A"; chain] ++ rule)).
Proof.
  intros Ht. apply tidy_run; [done|]. intros h h' E rule'. destruct (law_append _ _ _ _ _ _ Ht E) as (rs & _ & ->). by rewrite other_chain by apply not_input.
Qed.

Lemma tidy_delete ctx name c rule : tool name -> keeps_tidy (runIptables ctx name ([str "-D"; c] ++ rule)).
Proof.
  intros Ht. apply tidy_run; [done|]. intros h h' E rule'. destruct (law_delete _ _ _ _ _ _ Ht E) as (l1 & l2 & El & _ & ->).
  destruct (decide (c = str "INPUT")) as [->|Hc]; [|by rewrite other_chain]. rewrite rules_insert, (rules_Some _ _ _ El).
  rewrite !filter_app, !length_app, filter_cons. case_decide; cbn; lia.
Qed.

Lemma tidy_ensure ctx name c rule : tool name -> keeps_tidy (ensure_first ctx name c rule).
Proof.
  intros Ht h r h' E. destruct (ensure_spec tables _ _ _ _ _ _ _ Ht E) as [Ho Hr]. apply (tidy_change h h' name Ht Ho). intros rule'.
  destruct r as [e|]; [rewrite Hr; lia|]. destruct Hr as [[_ Es]|(Hn & rs & Er & ->)]; [rewrite Es; lia|].
  destruct (decide (c = str "INPUT")) as [->|Hc]; [|rewrite other_chain by done; lia]. rewrite rules_insert. rewrite (rules_Some _ _ _ Er) in *.
  rewrite filter_cons. case_decide as Hd; [|lia]. subst rule'. enough (filter (.= rule) rs = []) as -> by (cbn; lia).
  destruct (filter (.= rule) rs) as [|x l] eqn:Ef; [done|]. assert (x ∈ filter (.= rule) rs) as [-> Hx]%list_elem_of_filter by (rewrite Ef; by left). done.
Qed.

Lemma tidy_delete_all n d err : keeps_tidy d -> keeps_tidy (delete_all n d err).
Proof. intros Hd. induction n as [|n IH]; [apply tidy_ret|]. cbn [delete_all]. apply tidy_bind; [done|]. intros [e|]; [apply tidy_ret|done]. Qed.

Lemma tidy_ipv6 : keeps_tidy (ipv6Enabled (Iptables.cfg i) Iptables.Name).
Proof. intros h a h' E. destruct (Hv6 h) as (h1 & E1 & Hs). rewrite E1 in E. injection E as <- <-. by apply tidy_same. Qed.

Create HintDb tidy discriminated.
Hint Resolve tidy_ret tidy_new tidy_flush tidy_remove tidy_append tidy_delete tidy_ensure tidy_ipv6 : tidy.
Ltac tidying := repeat
  match goal with
  | |- keeps_tidy (mbind _ _) => apply tidy_bind; [|intros ?]
  | |- keeps_tidy (match ?x with _ => _ end) => destruct x
  | |- keeps_tidy _ => solve [auto using tool_v4, tool_v6 with tidy]
  end.

Lemma tidy_cleanup_command ctx name : tool name -> keeps_tidy (Iptables.cleanupCommand i ctx name (itoa (fc_Port (Iptables.cfg i))) (itoa (udpKnockPort (Iptables.cfg i)))).
Proof.
  intros Ht. unfold Iptables.cleanupCommand, cleanupIptablesRules, joined, tolerated. tidying.
  all: apply tidy_delete_all; exact (tidy_delete ctx name (str "INPUT") _ Ht).
Qed.

Lemma tidy_init_command ctx name : tool name -> keeps_tidy (Iptables.initCommand i ctx name (itoa (fc_Port (Iptables.cfg i))) (itoa (udpKnockPort (Iptables.cfg i)))).
Proof. intros Ht. unfold Iptables.initCommand, init_chain, append_rule, checked, or_return. tidying. Qed.

Hint Resolve tidy_cleanup_command tidy_init_command : tidy.

Lemma tidy_cleanup ctx : keeps_tidy (Iptables.Cleanup i ctx).
Proof. unfold Iptables.Cleanup, joined. rewrite Hvalid. cbv zeta. tidying. Qed.

Lemma tidy_init ctx : keeps_tidy (Iptables.Init i ctx).
Proof.
  unfold Iptables.Init, Iptables.cleanupDetached, or_return, or_cleanup, joined. rewrite Hvalid. cbv zeta. pose proof (tidy_cleanup Detached). tidying.
Qed.

(** ** Cleaning up *)

Lemma swept_same h h' : (forall f, f = false \/ v6 = true -> tables h' (tool_of f) = tables h (tool_of f)) -> swept h -> swept h'.
Proof. intros Hs Hh f Hf. rewrite Hs by done. by apply Hh. Qed.

Lemma swept_cleanup ctx h h' : tidy h -> Iptables.Cleanup i ctx h = (None, h') -> swept h'.
Proof.
  intros Hh. unfold Iptables.Cleanup. rewrite Hvalid. unfold joined, mbind, FW_bind, mret, FW_ret.
  destruct (Iptables.cleanupCommand i ctx (str "iptables") _ _ h) as [e1 h1] eqn:E1. destruct (Hv6 h1) as (h2 & E2 & Hs). rewrite E2.
  pose proof not_input as Hc. destruct (sumbool_of_bool v6) as [Ev|Ev]; rewrite Ev.
  - destruct (Iptables.cleanupCommand i ctx (str "ip6tables") _ _ h2) as [e3 h3] eqn:E3. intros [= Ej <-]. apply errors_Join_None in Ej as [-> ->].
    destruct (cleanup_ok tables i _ _ _ _ tool_v4 Hc (Hh false) E1) as (O1 & C1).
    assert (tidy h2) as Hh2 by (eapply tidy_same; [exact Hs|]; eapply tidy_cleanup_command; [apply tool_v4|exact E1|done]).
    destruct (cleanup_ok tables i _ _ _ _ tool_v6 Hc (Hh2 true) E3) as (O3 & C3).
    intros [] _; [exact C3|]. cbn [tool_of]. by rewrite O3, Hs.
  - intros [= -> <-]. destruct (cleanup_ok tables i _ _ _ _ tool_v4 Hc (Hh false) E1) as (O1 & C1). intros f [->|]; [|congruence]. cbn [tool_of]. by rewrite Hs.
Qed.

(** Without the chain, neither an opening nor a closing changes a table. *)
Lemma for_family_tables {A} addr (refuse : A) (k : bytes -> FW H A) h a h' :
  Iptables.for_family i addr refuse k h = (a, h') ->
  (forall name, tables h' name = tables h name) \/
  exists f h1, (f = false \/ v6 = true) /\ (forall name, tables h1 name = tables h name) /\ k (tool_of f) h1 = (a, h').
Proof.
  unfold Iptables.for_family. destruct (needs_ipv6 addr).
  - unfold mbind, FW_bind, mret, FW_ret. destruct (Hv6 h) as (h1 & E1 & Hs). rewrite E1. destruct (sumbool_of_bool v6) as [Ev|Ev]; rewrite Ev.
    + intros E. right. exists true, h1. auto.
    + intros [= _ <-]. by left.
  - intros E. right. exists false, h. auto.
Qed.

Lemma allow_swept ctx a port ttl h r h' : Iptables.Allow i ctx a port ttl h = (r, h') -> swept h -> swept h'.
Proof.
  unfold Iptables.Allow. destruct (validateBoundFirewallPort _ _ _); [by intros [= _ <-]|]. intros [Hs|(f & h1 & Hf & Hs & E)]%for_family_tables Hh;
    [by eapply swept_same; [intros; apply Hs|]|]. destruct (ensure_spec tables _ _ _ _ _ _ _ (tool_of_tool f) E) as [Ho Hr].
  eapply swept_same; [|exact Hh]. intros g Hg. rewrite <- Hs. destruct (decide (tool_of g = tool_of f)) as [->|Hn]; [|by apply Ho].
  destruct r as [e|]; [done|]. destruct Hr as [[_ Es]|(_ & rs & Er & _)]; [done|]. rewrite Hs in Er. destruct (Hh f Hf) as [Hc _]. fold chain in Er. congruence.
Qed.

Lemma revoke_swept ctx a port h r h' : Iptables.Revoke i ctx a port h = (r, h') -> swept h -> swept h'.
Proof.
  unfold Iptables.Revoke. destruct (validateBoundFirewallPort _ _ _); [by intros [= _ <-]|]. intros [Hs|(f & h1 & Hf & Hs & E)]%for_family_tables Hh;
    [by eapply swept_same; [intros; apply Hs|]|]. unfold tolerated, mbind, FW_bind, mret, FW_ret in E. destruct (runIptables _ _ _ h1) as [e h2] eqn:Er. injection E as _ <-.
  eapply swept_same; [|exact Hh]. intros g Hg. rewrite <- Hs. destruct (decide (tool_of g = tool_of f)) as [->|Hn]; [|by eapply law_other; [apply tool_of_tool| |]].
  destruct e as [e|]; [by eapply law_fail; [apply tool_of_tool|]|]. destruct (law_delete _ _ _ _ _ _ (tool_of_tool f) Er) as (l1 & l2 & El & _).
  rewrite Hs in El. destruct (Hh f Hf) as [Hc _]. fold chain in El. congruence.
Qed.

Lemma tidy_allow ctx a port ttl : keeps_tidy (Iptables.Allow i ctx a port ttl).
Proof.
  intros h r h'. unfold Iptables.Allow. destruct (validateBoundFirewallPort _ _ _); [by intros [= _ <-]|].
  intros [Hs|(f & h1 & Hf & Hs & E)]%for_family_tables Hh; [exact (tidy_same h h' Hs Hh)|].
  exact (tidy_ensure _ _ _ _ (tool_of_tool f) _ _ _ E (tidy_same h h1 Hs Hh)).
Qed.

Lemma tidy_revoke ctx a port : keeps_tidy (Iptables.Revoke i ctx a port).
Proof.
  intros h r h'. unfold Iptables.Revoke. destruct (validateBoundFirewallPort _ _ _); [by intros [= _ <-]|].
  intros [Hs|(f & h1 & Hf & Hs & E)]%for_family_tables Hh; [exact (tidy_same h h' Hs Hh)|].
  unfold tolerated, mbind, FW_bind, mret, FW_ret in E. destruct (runIptables _ _ _ h1) as [e h2] eqn:Er. injection E as _ <-.
  exact (tidy_delete _ _ _ _ (tool_of_tool f) _ _ _ Er (tidy_same h h1 Hs Hh)).
Qed.

#[export] Instance iptables_gate : GateFirewall (BIptables i).
Proof.
  refine {| gf_ok := tidy; gf_clean := swept |}.
  - intros ctx h r h' Hh E. exact (tidy_init ctx h r h' E Hh).
  - intros ctx a port ttl h r h' Hh E. split; [exact (tidy_allow ctx a port ttl h r h' E Hh)|exact (allow_swept ctx a port ttl h r h' E)].
  - intros ctx a port h r h' Hh E. split; [exact (tidy_revoke ctx a port h r h' E Hh)|exact (revoke_swept ctx a port h r h' E)].
  - intros ctx h r h' Hh E. split; [exact (tidy_cleanup ctx h r h' E Hh)|]. intros ->. exact (swept_cleanup ctx h h' Hh E).
Defined.

End Contract.

(** * Concrete gates *)

Definition ex_gate_auth : ServerConfig :=
  mkServerConfig 0 (Some (StaticSecrets {[str "alice" := repeat Byte.x41 32]})) 0 0 0 [] [] (Envelope.mkEnvelopeV2Config [] [] []) false false 0 0 0 0 0.

(** The firewall of the gate: both families, the knock port not dropped. *)
Definition ex_gate_fw : Iptables.t :=
  Iptables.NewIptables (mkConfig (str "iptables") 22 0 0 false false 0 (Some true) (mkNftablesConfig [] [] [] [] []) (mkIptablesConfig [])
    (mkIPSetConfig [] []) (mkScriptConfig [] [] [])).

Definition ex_gate : gate_Config :=
  mkGateConfig ModeFirewallAuth (str "0.0.0.0:22") ex_gate_auth None (Listener.mkListenerConfig ex_gate_auth None 4 1 2) (Some (BIptables ex_gate_fw))
    UDPMethod [] 0 [mkClientSecret (str "alice") (repeat Byte.x41 32)] 0 0 (mkSequenceOptions 0 0 0 0 0 0 0 false) 0 10 1.

Definition ex_ln : net_Addr := TCPAddr [Byte.x00; Byte.x00; Byte.x00; Byte.x00] 22.

Definition ex_gate_event : Event := mkEvent [Byte.x0a; Byte.x00; Byte.x00; Byte.x01] (str "alice") [] UDPMethod 1 [].

Definition ex_gate_new : res (gate_state (toy no_chain)) := gate_New ex_gate ex_toy.
Definition ex_gate_run (xs : list gate_label) : option (gate_state (toy no_chain)) := match ex_gate_new with Ok s => gate_run ex_ln s xs | Err _ => None end.

(** A run whose end passes a test. *)
Lemma ex_gate_run_ok xs (test : gate_state (toy no_chain) -> bool) :
  match ex_gate_run xs with Some s => test s | None => false end = true -> exists s, ex_gate_run xs = Some s /\ test s = true.
Proof. destruct (ex_gate_run xs) as [s|]; [|discriminate]. intros Ht. by exists s. Qed.

Definition wrap_all : list gate_label := GWrap :: repeat (GWrapStep Serving None) 6.

(** [Wrap], a knock, [Close] to its end. *)
Definition serve_and_close : list gate_label :=
  wrap_all ++ [GKnock (SKnock Serving ex_gate_event); GKnock (SAdmit Serving 0 0 1); GClose; GCloseStep Serving; GCloseStep Serving;
    GStop 0; GStopper; GStopper; GServeEnd None; GCloseStep Serving; GCloseStep Serving; GCloseStep Serving].

Definition is_done {H} (s : gate_state H) : bool := match p_shut (gt_pcs s) with ShutDone => true | _ => false end.

Lemma ex_gate_bound (h : toy no_chain) : ConfigureFirewallPort (BIptables ex_gate_fw) 22 h = (Ok (BIptables ex_gate_fw), h).
Proof. unfold ConfigureFirewallPort, WithPort. reflexivity. Qed.

#[export] Instance ex_gate_firewall : GateFirewall (H := toy no_chain) (BIptables ex_gate_fw).
Proof. apply (iptables_gate toy_tables ex_gate_fw true); [|reflexivity]. intros h. exists h. split; reflexivity. Defined.

Lemma ex_gate_ok : gf_ok (GateFirewall := ex_gate_firewall) (ex_toy : toy no_chain).
Proof. intros f. split; destruct f; apply Nat.ltb_lt; vm_compute; reflexivity. Qed.

(** The state [gate_New] makes, which is never computed as a whole. *)
Lemma ex_gate_start : exists s0, ex_gate_new = Ok s0 /\ requiresFirewallCleanup (gt_cfg s0) = true /\
  gate_firewall (gt_cfg s0) = BIptables ex_gate_fw /\ gate_port ex_ln (gt_cfg s0) = 22.
Proof.
  assert (Hc : validateGateConfig ex_gate = Ok (gate_set ModeFirewallAuth (Some (BIptables ex_gate_fw)) ex_gate)) by reflexivity.
  unfold ex_gate_new, gate_New. rewrite Hc. eexists. split; [reflexivity|split; [reflexivity|split; reflexivity]].
Qed.

(** [orderly_run], as a test. *)
Fixpoint orderly_runb {H} `{Host H} (ln : net_Addr) (s : gate_state H) (xs : list gate_label) : bool :=
  match xs with
  | [] => true
  | x :: xs => match x with GClose => negb (mid (p_wrap (gt_pcs s))) | _ => true end && match gate_step ln s x with Some s => orderly_runb ln s xs | None => true end
  end.

Lemma orderly_runb_ok {H} `{Host H} ln xs : forall s : gate_state H, orderly_runb ln s xs = true -> orderly_run ln s xs.
Proof.
  induction xs as [|x xs IH]; intros s; cbn [orderly_runb orderly_run]; [done|]. intros [Hx Hr]%andb_true_iff. split.
  - destruct x; try done. cbn. by apply negb_true_iff in Hx.
  - destruct (gate_step ln s x); [by apply IH|done].
Qed.

Definition orderly_ex (xs : list gate_label) : bool := match ex_gate_new with Ok s => orderly_runb ex_ln s xs | Err _ => false end.

Lemma gate_close_cleans_witness :
  exists s, ex_gate_run serve_and_close = Some s /\ goroutines_idle s = true /\ f_lnClosed (gt_flags s) = true /\
    swept toy_tables ex_gate_fw true (w_fw (g_world (gt_gw s))).
Proof.
  destruct (ex_gate_run_ok serve_and_close (fun s => is_done s && f_started (gt_flags s) && f_cancel (gt_flags s) && is_nil (w_closeErr (g_world (gt_gw s)))))
    as (s & E & Ht); [vm_compute; reflexivity|]. rewrite !andb_true_iff in Ht. destruct Ht as [[[Hd Hs] Hc] He].
  assert (Ho : orderly_ex serve_and_close = true) by (vm_compute; reflexivity).
  destruct ex_gate_start as (s0 & En & Hm & Hf & Hp). unfold ex_gate_run in E. unfold orderly_ex in Ho. rewrite En in E, Ho.
  destruct (gate_close_cleans ex_ln ex_gate (BIptables ex_gate_fw) (GateFirewall0 := ex_gate_firewall) ex_toy s0 s serve_and_close En Hm) as (Hg & Hl & Hx).
  - rewrite Hf, Hp. exact ex_gate_bound.
  - exact ex_gate_ok.
  - exact (orderly_runb_ok _ _ _ Ho).
  - exact E.
  - unfold is_done in Hd. destruct (p_shut (gt_pcs s)); try discriminate Hd. reflexivity.
  - exists s. split; [unfold ex_gate_run; rewrite En; exact E|]. split; [exact Hg|]. split; [exact (proj1 (Hl Hc))|].
    destruct (Hx Hs) as [Hn|Hn]; [|exact Hn]. destruct (w_closeErr (g_world (gt_gw s))); [discriminate He|by destruct Hn].
Defined.


(** [Close] is called right after [Wrap] has begun; it runs to its end, and
    [Wrap] goes on. *)
Definition close_in_wrap : list gate_label :=
  [GWrap; GWrapStep Serving None; GClose] ++ repeat (GCloseStep Serving) 5 ++ repeat (GWrapStep Serving None) 5.

(** [Close] has read [g.cancel] before [Wrap] sets it, and waits after [Wrap] has
    started the goroutines. *)
Definition close_waits : list gate_label :=
  [GWrap; GWrapStep Serving None; GClose] ++ repeat (GCloseStep Serving) 3 ++ repeat (GWrapStep Serving None) 5.

(** A knock is being handled while the timers are stopped. *)
Definition late_timer : list gate_label :=
  wrap_all ++ [GKnock (SKnock Serving ex_gate_event); GClose] ++ repeat (GCloseStep Serving) 3 ++
  [GKnock (SAdmit Serving 0 0 1); GStopper; GStopper; GServeEnd None; GCloseStep Serving; GCloseStep Serving].

