(* ===== verification/RelayRun.v ===== *)
(** relay/gateway.go [run] after its start, relay/auth.go and
    internal/timerset: the relay gateway at work and how it ends.

    One goroutine listens for knocks, one waits for the end of the context, a
    fixed pool of workers authenticates the queued connections, every
    authenticated connection is relayed on a goroutine of its own, and the
    accept loop ends with the deferred calls of [run]. [rstep] is one step of one
    of them; a run is any interleaving. What the operating system and the peers
    decide is the label of the step. *)

From Stdlib Require Import ZArith Lia String.
From Stdlib Require Strings.Byte.
From stdpp Require Import base list gmap strings.
From S2P Require Import Prelude GoStd Replay Net Session KnockFrame KnockSeq KnockListen Firewall Gateway RelayConfig Listener AuthServer AuthTypes.

Open Scope Z_scope.

(** * Connections *)

Inductive relay_event :=
| RelayError (remote : option net_Addr) (clientID stage : bytes) (err : error) (dropped pending : Z)
| RelayOK (remote : option net_Addr) (clientID : bytes) (rx tx : Z).

(** A connection is a number, in the order of arrival; a queued one comes with
    its release function. [k_active] and [k_activeClosed] are the
    [activeConnections]; [k_closed] are the connections that were closed. *)
Record conns := mkConns {
  k_remotes : list (option net_Addr); k_source : IPLimit.world; k_pending : list (nat * nat); k_pendingClosed : bool;
  k_active : gset nat; k_activeClosed : bool; k_closed : gset nat; k_dropped : Z; k_events : list relay_event;
}.

Definition set_pending (p : list (nat * nat)) (k : conns) : conns :=
  mkConns (k_remotes k) (k_source k) p (k_pendingClosed k) (k_active k) (k_activeClosed k) (k_closed k) (k_dropped k) (k_events k).
Definition close_pending (k : conns) : conns :=
  mkConns (k_remotes k) (k_source k) (k_pending k) true (k_active k) (k_activeClosed k) (k_closed k) (k_dropped k) (k_events k).
Definition conn_Close (cs : gset nat) (k : conns) : conns :=
  mkConns (k_remotes k) (k_source k) (k_pending k) (k_pendingClosed k) (k_active k) (k_activeClosed k) (cs ∪ k_closed k) (k_dropped k) (k_events k).
Definition emit_event (e : relay_event) (k : conns) : conns :=
  mkConns (k_remotes k) (k_source k) (k_pending k) (k_pendingClosed k) (k_active k) (k_activeClosed k) (k_closed k) (k_dropped k) (k_events k ++ [e]).
Definition release (r : nat) (k : conns) : conns :=
  mkConns (k_remotes k) (snd (IPLimit.step (k_source k) (IPLimit.EClose r))) (k_pending k) (k_pendingClosed k) (k_active k) (k_activeClosed k)
    (k_closed k) (k_dropped k) (k_events k).

Definition remote_of (c : nat) (k : conns) : option net_Addr := mjoin (k_remotes k !! c).

(** [activeConnections] *)
Definition active_Add (c : nat) (k : conns) : conns :=
  if k_activeClosed k then conn_Close {[c]} k
  else mkConns (k_remotes k) (k_source k) (k_pending k) (k_pendingClosed k) ({[c]} ∪ k_active k) false (k_closed k) (k_dropped k) (k_events k).
Definition active_Remove (c : nat) (k : conns) : conns :=
  mkConns (k_remotes k) (k_source k) (k_pending k) (k_pendingClosed k) (k_active k ∖ {[c]}) (k_activeClosed k) (k_closed k) (k_dropped k) (k_events k).
Definition active_CloseAll (k : conns) : conns :=
  conn_Close (k_active k) (mkConns (k_remotes k) (k_source k) (k_pending k) (k_pendingClosed k) (k_active k) true (k_closed k) (k_dropped k) (k_events k)).

(** A connection that is dropped: [dropped.Add(1)] and the event. *)
Definition drop_event (c : nat) (stage reason : bytes) (k : conns) : conns :=
  mkConns (k_remotes k) (k_source k) (k_pending k) (k_pendingClosed k) (k_active k) (k_activeClosed k) (k_closed k) (k_dropped k + 1)
    (k_events k ++ [RelayError (remote_of c k) [] stage (EMsg reason) (k_dropped k + 1) (len (k_pending k))]).

(** [perSource.Acquire] for a connection that has arrived. *)
Definition arrive (remote : option net_Addr) (k : conns) : nat * bool * conns :=
  let '(ok, src) := IPLimit.step (k_source k) (IPLimit.EAccept remote) in
  (length (k_remotes k), ok,
   mkConns (k_remotes k ++ [remote]) src (k_pending k) (k_pendingClosed k) (k_active k) (k_activeClosed k) (k_closed k) (k_dropped k) (k_events k)).

(** * Goroutines *)

Inductive raccept_pc := RAccepting | RHolding (c r : nat) | RSleeping (d : Z) | RReturned.

(** A worker is idle, authenticates, closes the firewall after an
    authentication, has a connection that is refused or ready, or has stopped. *)
Inductive rworker_pc :=
| RIdle
| RAuthenticating (c r : nat)
| RRevoking (c r : nat) (peer : PeerInfo) (addr : netip_Addr)
| RDecided (c r : nat) (peer : option PeerInfo)
| RRefused (c : nat)
| RSpawning (c : nat) (peer : PeerInfo)
| RStopped.

(** A relaying goroutine, and the one that listens for knocks: it has stored its
    error, has cancelled. *)
Inductive relay_pc := Relaying (c : nat) (peer : PeerInfo) | Closing (c : nat) | RelayDone.
Inductive knock_pc := KnockOff | KnockServing | KnockFailed | KnockCancelled | KnockDone.
Inductive watch_pc := Watching | WatchClosed | WatchDone.

(** The end of [run] with its result, and the error of the cleanup. *)
Inductive exit_pc :=
| Running
| XCancel (e : option error) | XClosePending (e : option error) | XWait (e : option error) | XCleanup (e : option error)
| XStop (e cleanup : option error) | XDrain (e cleanup : option error) | XClose (e cleanup : option error) | Returned (e cleanup : option error).

#[export] Instance rworker_stopped_dec w : Decision (w = RStopped).
Proof. destruct w; (left; done) || (right; done). Defined.
#[export] Instance relay_done_dec p : Decision (p = RelayDone).
Proof. destruct p; (left; done) || (right; done). Defined.

Record rpcs := mkRpcs {
  q_accept : raccept_pc; q_backoff : Z; q_workers : list rworker_pc; q_relays : list relay_pc; q_knock : knock_pc; q_watch : watch_pc; q_exit : exit_pc;
}.

(** [h_cancelled] says that the context of [run] was cancelled, [h_parent] that
    the caller's has ended; [h_childErr] is the [firstChildError]. *)
Record rflags := mkRflags { h_cancelled : bool; h_parent : bool; h_lnClosed : bool; h_childErr : option error }.

Record rstate (H : Type) := mkR { r_gw : gw_state (F := H); r_swapped : list timer; r_conns : conns; r_flags : rflags; r_pcs : rpcs }.
Arguments mkR {H} _ _ _ _ _.
Arguments r_gw {H} _.
Arguments r_swapped {H} _.
Arguments r_conns {H} _.
Arguments r_flags {H} _.
Arguments r_pcs {H} _.

Definition store_child (err : error) (f : rflags) : rflags :=
  mkRflags (h_cancelled f) (h_parent f) (h_lnClosed f) (match h_childErr f with Some e => Some e | None => Some err end).
Definition do_cancel (f : rflags) : rflags := mkRflags true (h_parent f) (h_lnClosed f) (h_childErr f).
Definition ln_Close (f : rflags) : rflags := mkRflags (h_cancelled f) (h_parent f) true (h_childErr f).
Definition run_done (f : rflags) : bool := h_cancelled f || h_parent f.

Section Run.
Context {H : Type} `{Host H} (g : relay_Gateway) (st : relay_start).

Abbreviation rst := (rstate H).

Definition relay_ops : firewall_ops H := backend_ops (rs_firewall st).
Definition relay_handler : gateway := handler_of g (rs_port st).

Definition set_conns (k : conns) (s : rst) : rst := mkR (r_gw s) (r_swapped s) k (r_flags s) (r_pcs s).
Definition set_rflags (f : rflags) (s : rst) : rst := mkR (r_gw s) (r_swapped s) (r_conns s) f (r_pcs s).
Definition set_rgw (w : gw_state) (s : rst) : rst := mkR w (r_swapped s) (r_conns s) (r_flags s) (r_pcs s).
Definition set_accept (a : raccept_pc) (b : Z) (s : rst) : rst :=
  let p := r_pcs s in mkR (r_gw s) (r_swapped s) (r_conns s) (r_flags s) (mkRpcs a b (q_workers p) (q_relays p) (q_knock p) (q_watch p) (q_exit p)).
Definition set_worker (i : nat) (w : rworker_pc) (s : rst) : rst :=
  let p := r_pcs s in
  mkR (r_gw s) (r_swapped s) (r_conns s) (r_flags s) (mkRpcs (q_accept p) (q_backoff p) (<[i := w]> (q_workers p)) (q_relays p) (q_knock p) (q_watch p) (q_exit p)).
Definition set_relays (l : list relay_pc) (s : rst) : rst :=
  let p := r_pcs s in mkR (r_gw s) (r_swapped s) (r_conns s) (r_flags s) (mkRpcs (q_accept p) (q_backoff p) (q_workers p) l (q_knock p) (q_watch p) (q_exit p)).
Definition set_knock (x : knock_pc) (s : rst) : rst :=
  let p := r_pcs s in mkR (r_gw s) (r_swapped s) (r_conns s) (r_flags s) (mkRpcs (q_accept p) (q_backoff p) (q_workers p) (q_relays p) x (q_watch p) (q_exit p)).
Definition set_watch (x : watch_pc) (s : rst) : rst :=
  let p := r_pcs s in mkR (r_gw s) (r_swapped s) (r_conns s) (r_flags s) (mkRpcs (q_accept p) (q_backoff p) (q_workers p) (q_relays p) (q_knock p) x (q_exit p)).
Definition set_exit (x : exit_pc) (s : rst) : rst :=
  let p := r_pcs s in mkR (r_gw s) (r_swapped s) (r_conns s) (r_flags s) (mkRpcs (q_accept p) (q_backoff p) (q_workers p) (q_relays p) (q_knock p) (q_watch p) x).

Definition on_world {A} (m : FW (world H) A) (s : rst) : A * rst :=
  let w := r_gw s in
  let '(a, w') := m (g_world w) in (a, set_rgw (Gateway.mkState w' (g_handler w) (g_timers w) (g_revoking w)) s).

Definition on_conns (f : conns -> conns) (s : rst) : rst := set_conns (f (r_conns s)) s.

(** The state in which the goroutines of [run] start, on the world that
    [run_start] has left, with the store it has chosen. *)
Definition relay_init (w : world H) : rst :=
  mkR (Gateway.mkState (mkWorld (Some (rs_store st)) (w_log w) (w_fw w) (w_events w) (w_closeErr w)) None [] []) [] (mkConns [] (IPLimit.mkWorld (IPLimit.New (rs_perSource st)) []) [] false ∅ false ∅ 0 [])
    (mkRflags false false false None)
    (mkRpcs RAccepting 0 (replicate (Z.to_nat (rs_workers st)) RIdle) [] (if bool_decide (rg_KnockMethod g = []) then KnockOff else KnockServing) Watching Running).

(** ** The accept loop *)

Inductive accept_label :=
| RAccept (remote : option net_Addr) | RAcceptErr (e : accept_error) | RWake | RSleepQuit | RQueue | RQuit | RDrop.

(** The accept loop returns. *)
Definition loop_return (e : option error) (s : rst) : rst := set_exit (XCancel e) (set_accept RReturned (q_backoff (r_pcs s)) s).

Definition relay_accept (x : accept_label) (s : rst) : option rst :=
  let f := r_flags s in
  let b := q_backoff (r_pcs s) in
  match q_accept (r_pcs s), x with
  | RAccepting, RAccept remote =>
      if h_lnClosed f then None
      else
        let '(c, ok, k) := arrive remote (r_conns s) in
        if ok : bool then Some (set_accept (RHolding c (pred (length (IPLimit.held (k_source k))))) Reset (set_conns (active_Add c k) s))
        else Some (set_accept RAccepting Reset (set_conns (drop_event c (str "source_limit") (str "auth per-source pending limit reached") (conn_Close {[c]} k)) s))
  | RAccepting, RAcceptErr e =>
      if h_lnClosed f && negb (ae_closed e) then None
      else
        match h_childErr f with
        | Some err => Some (loop_return (Some err) s)
        | None =>
            if run_done f then Some (loop_return None s)
            else if IsTemporary (Some e) then Some (set_accept (RSleeping (Next b)) (Next b) s)
            else Some (loop_return (Some (ae_error e)) s)
        end
  | RSleeping _, RWake => Some (set_accept RAccepting b s)
  | RSleeping _, RSleepQuit => if run_done f then Some (loop_return (h_childErr f) s) else None
  | RHolding c r, RQueue =>
      if Z.ltb (len (k_pending (r_conns s))) (rs_pending st)
      then Some (set_accept RAccepting b (on_conns (fun k => set_pending (k_pending k ++ [(c, r)]) k) s)) else None
  | RHolding c r, RQuit =>
      if run_done f then Some (loop_return (h_childErr f) (on_conns (fun k => conn_Close {[c]} (active_Remove c (release r k))) s)) else None
  | RHolding c r, RDrop =>
      if run_done f || Z.ltb (len (k_pending (r_conns s))) (rs_pending st) then None
      else Some (set_accept RAccepting b
                   (on_conns (fun k => drop_event c (str "pending_full") (str "auth pending queue full") (conn_Close {[c]} (active_Remove c (release r k)))) s))
  | _, _ => None
  end.

(** ** The workers *)

(** What [auth.ServerAuth] comes to: an error before the knock store is asked,
    or a peer; [late] is an error after it was asked. *)
Inductive auth_outcome := AuthFail (e : error) | AuthPeer (peer : PeerInfo) (now : Z) (late : option error).

Inductive worker_label := RTake | RExit | RAuth (a : auth_outcome) | RRevoke | RRelease | RForget | RSpawn.

(** The connection is not authenticated: it is closed and reported. *)
Definition auth_failed (i c r : nat) (e : error) (s : rst) : rst :=
  set_worker i (RDecided c r None)
    (on_conns (fun k => emit_event (RelayError (remote_of c k) [] (str "auth") e 0 0) (conn_Close {[c]} k)) s).

(** The end of an authentication. *)
Inductive auth_verdict := Refused (e : error) | Ready (peer : PeerInfo) | ReadyAfterRevoke (peer : PeerInfo) (addr : netip_Addr).

(** The store is asked for a knock; with [RemoveAfterAuth] the access is removed
    afterwards, first in the store, then in the firewall. *)
Definition auth_decide (remote : option net_Addr) (a : auth_outcome) : FW (world H) auth_verdict :=
  match a with
  | AuthFail e => mret (Refused e)
  | AuthPeer peer now late =>
      e ← (if sv_RequireKnock (rs_auth st) then
             ret ← call_store (OCheck peer remote now);
             mret (match ret with RErr (Some err) => Some (EJoin auth_ErrKnockRequired err) | _ => None end)
           else mret None);
      match e, late with
      | Some e, _ | None, Some e => mret (Refused e)
      | None, None =>
          if rg_RemoveAfterAuth g then
            addr ← remove_access relay_handler remote (pi_ClientID peer) (rs_port st);
            mret (match addr with None => Ready peer | Some addr => ReadyAfterRevoke peer addr end)
          else mret (Ready peer)
      end
  end.

Definition authenticateConn (i c r : nat) (a : auth_outcome) (s : rst) : rst :=
  let '(v, s) := on_world (auth_decide (remote_of c (r_conns s)) a) s in
  match v with
  | Refused e => auth_failed i c r e s
  | Ready peer => set_worker i (RDecided c r (Some peer)) s
  | ReadyAfterRevoke peer addr => set_worker i (RRevoking c r peer addr) s
  end.

Definition relay_worker (i : nat) (w : rworker_pc) (x : worker_label) (s : rst) : option rst :=
  match w, x with
  | RIdle, RTake =>
      match k_pending (r_conns s) with
      | (c, r) :: rest => Some (set_worker i (RAuthenticating c r) (on_conns (set_pending rest) s))
      | [] => None
      end
  | RIdle, RExit =>
      match k_pending (r_conns s) with
      | [] => if k_pendingClosed (r_conns s) then Some (set_worker i RStopped s) else None
      | _ :: _ => None
      end
  | RAuthenticating c r, RAuth a => Some (authenticateConn i c r a s)
  | RRevoking c r peer addr, RRevoke =>
      Some (set_worker i (RDecided c r (Some peer)) (snd (on_world (access_revoke relay_ops addr (access_port relay_handler (rs_port st))) s)))
  | RDecided c r peer, RRelease =>
      Some (set_worker i (match peer with None => RRefused c | Some peer => RSpawning c peer end) (on_conns (release r) s))
  | RRefused c, RForget => Some (set_worker i RIdle (on_conns (active_Remove c) s))
  | RSpawning c peer, RSpawn => Some (set_worker i RIdle (set_relays (q_relays (r_pcs s) ++ [Relaying c peer]) s))
  | _, _ => None
  end.

(** ** Relaying *)

(** [relaySession]: the upstream cannot be dialled, copying fails, or ends. *)
Inductive relay_outcome := UpstreamFailed (e : error) | CopyFailed (e : error) | Copied (rx tx : Z).

Definition relaySession (c : nat) (peer : PeerInfo) (o : relay_outcome) (k : conns) : conns :=
  let remote := remote_of c k in
  conn_Close {[c]}
    (emit_event
       (match o with
        | UpstreamFailed e => RelayError remote (pi_ClientID peer) (str "upstream") e 0 0
        | CopyFailed e => RelayError remote (pi_ClientID peer) (str "relay") e 0 0
        | Copied rx tx => RelayOK remote (pi_ClientID peer) rx tx
        end) k).

Definition relay_goroutine (j : nat) (o : relay_outcome) (s : rst) : option rst :=
  match q_relays (r_pcs s) !! j with
  | Some (Relaying c peer) => Some (set_relays (<[j := Closing c]> (q_relays (r_pcs s))) (on_conns (relaySession c peer o) s))
  | Some (Closing c) => Some (set_relays (<[j := RelayDone]> (q_relays (r_pcs s))) (on_conns (active_Remove c) s))
  | _ => None
  end.

(** ** Knocks and timers *)

(** [listenKnock] returns [err], or its goroutine goes on after that. *)
Definition relay_knock (err : option error) (s : rst) : option rst :=
  match q_knock (r_pcs s) with
  | KnockServing =>
      match g_handler (r_gw s), err with
      | Some _, _ => None
      | None, Some e =>
          if run_done (r_flags s) then Some (set_knock KnockDone s)
          else Some (set_knock KnockFailed (on_conns (emit_event (RelayError None [] (str "knock") e 0 0)) (set_rflags (store_child e (r_flags s)) s)))
      | None, None => Some (set_knock KnockDone s)
      end
  | KnockFailed => Some (set_knock KnockCancelled (set_rflags (do_cancel (r_flags s)) s))
  | KnockCancelled => Some (set_knock KnockDone (set_rflags (ln_Close (r_flags s)) s))
  | KnockOff | KnockDone => None
  end.

(** A step of the knock handler or of a timer. *)
Definition relay_gw (x : gw_step) (s : rst) : option rst :=
  let may :=
    match x with
    | SKnock _ _ | SAdmit _ _ _ _ => match q_knock (r_pcs s) with KnockServing => true | _ => false end
    | SFire _ _ _ | SRevoke _ => true
    | SConnect _ _ _ | SRemove _ _ => false
    end in
  if may : bool then (fun w => set_rgw w s) <$> gstep relay_ops relay_handler (r_gw s) x else None.

(** A timer that [StopAll] has taken out of the set: it fires, or is stopped. *)
Definition relay_swapped_fire (k : nat) (now now' : Z) (s : rst) : option rst :=
  let w := r_gw s in
  w' ← gstep relay_ops relay_handler (Gateway.mkState (g_world w) (g_handler w) (r_swapped s) (g_revoking w)) (SFire k now now');
  Some (mkR (Gateway.mkState (g_world w') (g_handler w') (g_timers w) (g_revoking w')) (g_timers w') (r_conns s) (r_flags s) (r_pcs s)).

Definition relay_stop (k : nat) (s : rst) : option rst :=
  _ ← r_swapped s !! k; Some (mkR (r_gw s) (delete k (r_swapped s)) (r_conns s) (r_flags s) (r_pcs s)).

(** ** The end *)

(** The goroutine that waits for the end of the context. *)
Definition relay_watch (s : rst) : option rst :=
  match q_watch (r_pcs s) with
  | Watching => if run_done (r_flags s) then Some (set_watch WatchClosed (set_rflags (ln_Close (r_flags s)) s)) else None
  | WatchClosed => Some (set_watch WatchDone (on_conns active_CloseAll s))
  | WatchDone => None
  end.

(** The wait group of [run], and that of the timer set. *)
Definition run_idle (s : rst) : bool :=
  let p := r_pcs s in
  match q_knock p with KnockOff | KnockDone => true | _ => false end && match q_watch p with WatchDone => true | _ => false end &&
  bool_decide (Forall (.= RStopped) (q_workers p)) && bool_decide (Forall (.= RelayDone) (q_relays p)).

Definition timers_stopped (s : rst) : bool :=
  match r_swapped s, g_timers (r_gw s), g_revoking (r_gw s) with [], [], [] => true | _, _, _ => false end.

(** The deferred calls, in the order they run. *)
Definition relay_exit (s : rst) : option rst :=
  match q_exit (r_pcs s) with
  | Running | Returned _ _ => None
  | XCancel e => Some (set_exit (XClosePending e) (set_rflags (do_cancel (r_flags s)) s))
  | XClosePending e => Some (set_exit (XWait e) (on_conns close_pending s))
  | XWait e => if run_idle s then Some (set_exit (XCleanup e) s) else None
  | XCleanup e => let '(err, s) := on_world (CleanupFirewallDetached relay_ops) s in Some (set_exit (XStop e err) s)
  | XStop e c =>
      let w := r_gw s in
      Some (set_exit (XDrain e c) (mkR (Gateway.mkState (g_world w) (g_handler w) [] (g_revoking w)) (g_timers w) (r_conns s) (r_flags s) (r_pcs s)))
  | XDrain e c => if timers_stopped s then Some (set_exit (XClose e c) s) else None
  | XClose e c => Some (set_exit (Returned e c) (set_rflags (ln_Close (r_flags s)) s))
  end.

(** * Runs *)

Inductive rlabel :=
| RLoop (x : accept_label)
| RWorker (i : nat) (x : worker_label)
| RRelay (j : nat) (o : relay_outcome)
| RKnock (err : option error)
| RGw (x : gw_step)
| RSwappedFire (k : nat) (now now' : Z)
| RStop (k : nat)
| RWatch
| RExitStep
| RParent.

Definition rstep (s : rst) (x : rlabel) : option rst :=
  match x with
  | RLoop x => relay_accept x s
  | RWorker i x => w ← q_workers (r_pcs s) !! i; relay_worker i w x s
  | RRelay j o => relay_goroutine j o s
  | RKnock err => relay_knock err s
  | RGw x => relay_gw x s
  | RSwappedFire k now now' => relay_swapped_fire k now now' s
  | RStop k => relay_stop k s
  | RWatch => relay_watch s
  | RExitStep => relay_exit s
  | RParent => let f := r_flags s in Some (set_rflags (mkRflags (h_cancelled f) true (h_lnClosed f) (h_childErr f)) s)
  end.

Fixpoint rrun (s : rst) (xs : list rlabel) : option rst :=
  match xs with [] => Some s | x :: xs => s ← rstep s x; rrun s xs end.

End Run.
