(* ===== verification/RelayRunSpec.v ===== *)
(** What the relay gateway promises when [run] returns: every connection it
    accepted is closed, every slot of a source is free again, no goroutine and no
    timer is left, and the firewall is clean; and that it does return once its
    context has ended. The firewall is seen through the interface [GateFirewall]. *)

From Stdlib Require Import ZArith Lia String.
From Stdlib Require Strings.Byte.
From stdpp Require Import base list gmap strings.
From S2P Require Import Prelude GoStd Net Session KnockFrame KnockSeq KnockListen Firewall Gateway RelayConfig Listener GateSpec RelayRun AuthTypes.

Open Scope Z_scope.

(** * Who holds a connection, and who its slot *)

Definition worker_conns (w : rworker_pc) : list nat :=
  match w with
  | RAuthenticating c _ | RRevoking c _ _ _ | RDecided c _ (Some _) | RSpawning c _ => [c]
  | _ => []
  end.
Definition worker_slots (w : rworker_pc) : list nat :=
  match w with RAuthenticating _ r | RRevoking _ r _ _ | RDecided _ r _ => [r] | _ => [] end.
Definition relay_conns (p : relay_pc) : list nat := match p with Relaying c _ => [c] | _ => [] end.
Definition accept_conns (a : raccept_pc) : list nat := match a with RHolding c _ => [c] | _ => [] end.
Definition accept_slots (a : raccept_pc) : list nat := match a with RHolding _ r => [r] | _ => [] end.

Section Held.
Context {H : Type}.
Implicit Types s : rstate H.

Definition holds s (c : nat) : Prop :=
  c ∈ accept_conns (q_accept (r_pcs s)) \/ c ∈ (k_pending (r_conns s)).*1 \/
  (exists i w, q_workers (r_pcs s) !! i = Some w /\ c ∈ worker_conns w) \/ (exists j p, q_relays (r_pcs s) !! j = Some p /\ c ∈ relay_conns p).

Definition has_slot s (r : nat) : Prop :=
  r ∈ accept_slots (q_accept (r_pcs s)) \/ r ∈ (k_pending (r_conns s)).*2 \/ (exists i w, q_workers (r_pcs s) !! i = Some w /\ r ∈ worker_slots w).

(** Every connection is closed or in somebody's hands, every open slot too. *)
Definition conns_ok s : Prop := forall c, (c < length (k_remotes (r_conns s)))%nat -> c ∈ k_closed (r_conns s) \/ holds s c.
Definition slots_ok s : Prop := forall r key, IPLimit.held (k_source (r_conns s)) !! r = Some (IPLimit.Lease key false) -> has_slot s r.

(** A step that neither lets go of anything nor takes anything. *)
Lemma conns_mono s s' : conns_ok s -> length (k_remotes (r_conns s')) = length (k_remotes (r_conns s)) -> k_closed (r_conns s) ⊆ k_closed (r_conns s') ->
  (forall c, holds s c -> c ∈ k_closed (r_conns s') \/ holds s' c) -> conns_ok s'.
Proof. intros Hc Hl Hs Hh c Hlt. rewrite Hl in Hlt. destruct (Hc c Hlt) as [Hi|Hi]; [left; by apply Hs|by apply Hh]. Qed.

Lemma slots_mono s s' : slots_ok s ->
  (forall r key, IPLimit.held (k_source (r_conns s')) !! r = Some (IPLimit.Lease key false) -> IPLimit.held (k_source (r_conns s)) !! r = Some (IPLimit.Lease key false)) ->
  (forall r key, IPLimit.held (k_source (r_conns s')) !! r = Some (IPLimit.Lease key false) -> has_slot s r -> has_slot s' r) -> slots_ok s'.
Proof. intros Hs Hk Hh r key Hr. eapply Hh; [done|]. by eapply Hs, Hk. Qed.

End Held.

(** A release function that was called is not open any more. *)
Lemma released_not_open w r key : IPLimit.lim w <> None \/ (forall i k, IPLimit.held w !! i <> Some (IPLimit.Lease k false)) ->
  IPLimit.held (snd (IPLimit.step w (IPLimit.EClose r))) !! r <> Some (IPLimit.Lease key false).
Proof.
  destruct w as [l hs]. cbn. intros Hw. destruct (hs !! r) as [x|] eqn:E; [|cbn; congruence].
  destruct x as [|k d]; cbn; rewrite ?list_lookup_insert_eq by (by eapply lookup_lt_Some); [congruence|].
  destruct d; cbn.
  - rewrite list_lookup_insert_eq by (by eapply lookup_lt_Some). congruence.
  - destruct l as [l|]; cbn; rewrite list_lookup_insert_eq by (by eapply lookup_lt_Some); [congruence|]. destruct Hw as [Hw|Hw]; [done|by apply Hw in E].
Qed.

Lemma released_other w r r' key : IPLimit.held (snd (IPLimit.step w (IPLimit.EClose r))) !! r' = Some (IPLimit.Lease key false) ->
  IPLimit.held w !! r' = Some (IPLimit.Lease key false).
Proof.
  destruct w as [l hs]. cbn. destruct (hs !! r) as [x|] eqn:E; [|done]. destruct (decide (r = r')) as [<-|Hne].
  - destruct x as [|k d], l; cbn; try destruct d; cbn; rewrite list_lookup_insert_eq by (by eapply lookup_lt_Some); congruence.
  - destruct x as [|k d], l; cbn; try destruct d; cbn; by rewrite list_lookup_insert_ne.
Qed.

(** * Connections and slots *)

Definition src_ok (w : IPLimit.world) : Prop := IPLimit.lim w <> None \/ forall i k, IPLimit.held w !! i <> Some (IPLimit.Lease k false).

Lemma src_ok_step w e : src_ok w -> src_ok (snd (IPLimit.step w e)).
Proof.
  intros [Hl|Hn]; destruct w as [l hs]; destruct e as [addr|i]; cbn in *.
  - left. unfold IPLimit.Acquire. destruct l as [l|]; [|done]. destruct (Key addr); [destruct (Z.leb _ _)|]; done.
  - left. destruct (hs !! i) as [[|k d]|]; cbn; try done. destruct d, l; done.
  - unfold IPLimit.Acquire. destruct l as [l|].
    + left. destruct (Key addr); [destruct (Z.leb _ _)|]; done.
    + right. intros i k. cbn. rewrite lookup_app. destruct (hs !! i) eqn:E; [rewrite <- E; apply Hn|]. by destruct (i - length hs)%nat.
  - right. intros j k Hj. eapply (Hn j k). exact (released_other (IPLimit.mkWorld l hs) i j k Hj).
Qed.

Lemma acquired_same w addr r key : r <> length (IPLimit.held w) -> IPLimit.held (snd (IPLimit.step w (IPLimit.EAccept addr))) !! r = Some (IPLimit.Lease key false) ->
  IPLimit.held w !! r = Some (IPLimit.Lease key false).
Proof.
  destruct w as [l hs]. cbn. destruct (IPLimit.Acquire addr l) as [[x|] l']; cbn; [|done]. intros Hr. rewrite lookup_app.
  destruct (hs !! r) eqn:E; [done|]. apply lookup_ge_None in E. by destruct (r - length hs)%nat eqn:Er; [lia|].
Qed.

Lemma acquired_last w addr src : IPLimit.step w (IPLimit.EAccept addr) = (true, src) -> pred (length (IPLimit.held src)) = length (IPLimit.held w).
Proof. destruct w as [l hs]. cbn. destruct (IPLimit.Acquire addr l) as [[x|] l']; cbn; [|done]. intros [= <-]. cbn. rewrite length_app. cbn. lia. Qed.

Lemma refused_held w addr src : IPLimit.step w (IPLimit.EAccept addr) = (false, src) -> IPLimit.held src = IPLimit.held w.
Proof. destruct w as [l hs]. cbn. destruct (IPLimit.Acquire addr l) as [[x|] l']; cbn; [done|]. by intros [= <-]. Qed.

#[local] Arguments IPLimit.step : simpl never.

Section Life.
Context {H : Type} `{Host H} (g : relay_Gateway) (st : relay_start).
Abbreviation rst := (rstate H).
Implicit Types s : rst.

Record conns_inv s : Prop := {
  ci_conns : conns_ok s;
  ci_slots : slots_ok s;
  ci_src : src_ok (k_source (r_conns s));
}.

Lemma conns_same s s' : conns_inv s -> r_conns s' = r_conns s -> q_accept (r_pcs s') = q_accept (r_pcs s) -> q_workers (r_pcs s') = q_workers (r_pcs s) ->
  q_relays (r_pcs s') = q_relays (r_pcs s) -> conns_inv s'.
Proof.
  intros [C S K] E1 E2 E3 E4. split.
  - intros c. rewrite E1. unfold holds. rewrite E1, E2, E3, E4. apply C.
  - intros r key. rewrite E1. unfold has_slot. rewrite E1, E2, E3. apply S.
  - by rewrite E1.
Qed.

Lemma workers_insert (ws : list rworker_pc) i w w' : ws !! i = Some w ->
  forall j x, ws !! j = Some x -> (j = i /\ x = w) \/ <[i := w']> ws !! j = Some x.
Proof.
  intros Hi j x Hj. destruct (decide (j = i)) as [->|Hne]; [left; split; [done|congruence]|right]. by rewrite list_lookup_insert_ne.
Qed.

(** A worker moves on: what it held is closed, still in its hands, or passed on. *)
Lemma worker_moves s s' i w w' : conns_inv s -> q_workers (r_pcs s) !! i = Some w -> q_workers (r_pcs s') = <[i := w']> (q_workers (r_pcs s)) ->
  q_accept (r_pcs s') = q_accept (r_pcs s) -> k_remotes (r_conns s') = k_remotes (r_conns s) -> k_closed (r_conns s) ⊆ k_closed (r_conns s') ->
  (forall j p, q_relays (r_pcs s) !! j = Some p -> q_relays (r_pcs s') !! j = Some p) ->
  (forall c, c ∈ worker_conns w -> c ∈ k_closed (r_conns s') \/ c ∈ worker_conns w' \/ exists j p, q_relays (r_pcs s') !! j = Some p /\ c ∈ relay_conns p) ->
  (forall x, x ∈ k_pending (r_conns s) -> x ∈ k_pending (r_conns s') \/ fst x ∈ worker_conns w' /\ snd x ∈ worker_slots w') ->
  (forall r key, IPLimit.held (k_source (r_conns s')) !! r = Some (IPLimit.Lease key false) ->
     IPLimit.held (k_source (r_conns s)) !! r = Some (IPLimit.Lease key false) /\ (r ∈ worker_slots w -> r ∈ worker_slots w')) ->
  src_ok (k_source (r_conns s')) -> conns_inv s'.
Proof.
  intros [C S K] Hi Ew Ea Er Hcl Hr Hw Hp Hs Hk. pose proof (lookup_lt_Some _ _ _ Hi) as Hlt.
  assert (Hi' : q_workers (r_pcs s') !! i = Some w') by (rewrite Ew; by rewrite list_lookup_insert_eq).
  split; [| |done].
  - eapply conns_mono; [done|by rewrite Er|done|]. intros c [Hc|[Hc|[(j & x & Hj & Hc)|(j & p & Hj & Hc)]]].
    + right. left. by rewrite Ea.
    + apply list_elem_of_fmap in Hc as (x & -> & Hx). destruct (Hp x Hx) as [Hx'|[Hx' _]].
      * right. right. left. apply list_elem_of_fmap. eauto.
      * right. right. right. left. eauto.
    + destruct (workers_insert _ _ _ w' Hi j x Hj) as [[-> ->]|Hj'].
      * destruct (Hw c Hc) as [|[|]]; [by left|right; right; right; left; eauto|right; right; right; by right].
      * right. right. right. left. exists j, x. by rewrite Ew.
    + right. right. right. right. eauto.
  - eapply slots_mono; [done|intros r key Hr'; by apply Hs|]. intros r key Hr' [Hc|[Hc|(j & x & Hj & Hc)]].
    + left. by rewrite Ea.
    + apply list_elem_of_fmap in Hc as (x & -> & Hx). destruct (Hp x Hx) as [Hx'|[_ Hx']].
      * right. left. apply list_elem_of_fmap. eauto.
      * right. right. eauto.
    + destruct (workers_insert _ _ _ w' Hi j x Hj) as [[-> ->]|Hj'].
      * right. right. exists i, w'. split; [done|]. by eapply Hs.
      * right. right. exists j, x. by rewrite Ew.
Qed.

Lemma on_world_same {A} (m : FW (world H) A) s : r_conns (snd (on_world m s)) = r_conns s /\ r_pcs (snd (on_world m s)) = r_pcs s /\ r_flags (snd (on_world m s)) = r_flags s /\
  r_swapped (snd (on_world m s)) = r_swapped s /\ g_handler (r_gw (snd (on_world m s))) = g_handler (r_gw s) /\ g_timers (r_gw (snd (on_world m s))) = g_timers (r_gw s) /\
  g_revoking (r_gw (snd (on_world m s))) = g_revoking (r_gw s).
Proof. unfold on_world. destruct (m _). by split_and!. Qed.

Lemma conns_auth i c r a s : conns_inv s -> q_workers (r_pcs s) !! i = Some (RAuthenticating c r) -> conns_inv (authenticateConn g st i c r a s).
Proof.
  intros I Hi. unfold authenticateConn. set (m := auth_decide _ _ _ _). pose proof (on_world_same m s) as (E1 & E2 & _).
  destruct (on_world m s) as [v s1]. cbn [snd] in E1, E2. destruct v as [e|peer|peer addr].
  - eapply worker_moves; [exact I|exact Hi|..]; cbn; rewrite ?E1, ?E2; try done; try set_solver. apply I.
  - eapply worker_moves; [exact I|exact Hi|..]; cbn; rewrite ?E1, ?E2; try done; try set_solver. apply I.
  - eapply worker_moves; [exact I|exact Hi|..]; cbn; rewrite ?E1, ?E2; try done; try set_solver. apply I.
Qed.

Lemma conns_worker i w x s s' : conns_inv s -> q_workers (r_pcs s) !! i = Some w -> relay_worker g st i w x s = Some s' -> conns_inv s'.
Proof.
  intros I Hi. pose proof (ci_src s I) as Hk. unfold relay_worker. destruct w as [|c r|c r peer addr|c r peer|c|c peer|], x; try done.
  - destruct (k_pending (r_conns s)) as [|[c r] rest] eqn:Ep; [done|]. intros [= <-]. eapply worker_moves; [exact I|exact Hi|..]; cbn; try done; try set_solver.
    intros y. rewrite Ep. intros [->|Hy]%elem_of_cons; [right; set_solver|by left].
  - destruct (k_pending (r_conns s)) eqn:Ep; [|done]. destruct (k_pendingClosed _); [|done]. intros [= <-].
    eapply worker_moves; [exact I|exact Hi|..]; cbn; try done; try set_solver.
  - intros [= <-]. by apply conns_auth.
  - intros [= <-]. set (m := access_revoke _ _ _). pose proof (on_world_same m s) as (E1 & E2 & _).
    eapply worker_moves; [exact I|exact Hi|..]; cbn; rewrite ?E1, ?E2; try done; try set_solver.
  - intros [= <-]. eapply worker_moves; [exact I|exact Hi|..]; cbn; try done; try (by auto).
    + intros c' Hc. right. left. by destruct peer.
    + intros r' key Hr. pose proof (released_other _ _ _ _ Hr) as Hr'. split; [done|]. intros ->%list_elem_of_singleton. exfalso.
      by apply (released_not_open (k_source (r_conns s)) r key Hk).
    + by apply src_ok_step.
  - intros [= <-]. eapply worker_moves; [exact I|exact Hi|..]; cbn; try done; try set_solver.
  - intros [= <-]. eapply worker_moves; [exact I|exact Hi|..]; cbn; try done; try set_solver.
    + intros j p Hj. rewrite lookup_app_l; [done|by eapply lookup_lt_Some].
    + intros c' ->%list_elem_of_singleton. right. right. exists (length (q_relays (r_pcs s))), (Relaying c peer).
      rewrite lookup_app_r by lia. rewrite Nat.sub_diag. split; [done|]. cbn. set_solver.
Qed.

(** The accept loop and the relaying goroutines. *)
Lemma conns_step s s' : conns_inv s -> k_remotes (r_conns s') = k_remotes (r_conns s) -> k_closed (r_conns s) ⊆ k_closed (r_conns s') ->
  q_workers (r_pcs s') = q_workers (r_pcs s) ->
  (forall c, c ∈ accept_conns (q_accept (r_pcs s)) -> c ∈ k_closed (r_conns s') \/ c ∈ accept_conns (q_accept (r_pcs s')) \/ c ∈ (k_pending (r_conns s')).*1) ->
  (forall x, x ∈ k_pending (r_conns s) -> x ∈ k_pending (r_conns s')) ->
  (forall j p c, q_relays (r_pcs s) !! j = Some p -> c ∈ relay_conns p -> c ∈ k_closed (r_conns s') \/ exists j p, q_relays (r_pcs s') !! j = Some p /\ c ∈ relay_conns p) ->
  (forall r key, IPLimit.held (k_source (r_conns s')) !! r = Some (IPLimit.Lease key false) -> IPLimit.held (k_source (r_conns s)) !! r = Some (IPLimit.Lease key false) /\
     (r ∈ accept_slots (q_accept (r_pcs s)) -> r ∈ accept_slots (q_accept (r_pcs s')) \/ r ∈ (k_pending (r_conns s')).*2)) ->
  src_ok (k_source (r_conns s')) -> conns_inv s'.
Proof.
  intros [C S K] Er Hcl Ew Ha Hp Hrel Hs Hk. split; [| |done].
  - eapply conns_mono; [done|by rewrite Er|done|]. intros c [Hc|[Hc|[(j & x & Hj & Hc)|(j & p & Hj & Hc)]]].
    + destruct (Ha c Hc) as [|[|]]; [by left|right; by left|right; right; by left].
    + apply list_elem_of_fmap in Hc as (x & -> & Hx). right. right. left. apply list_elem_of_fmap. eauto.
    + right. right. right. left. exists j, x. by rewrite Ew.
    + destruct (Hrel j p c Hj Hc) as [|]; [by left|right; right; right; by right].
  - eapply slots_mono; [done|intros r key Hr; by apply Hs|]. intros r key Hr [Hc|[Hc|(j & x & Hj & Hc)]].
    + destruct (Hs r key Hr) as [_ Hx]. destruct (Hx Hc); [by left|right; by left].
    + apply list_elem_of_fmap in Hc as (x & -> & Hx). right. left. apply list_elem_of_fmap. eauto.
    + right. right. exists j, x. by rewrite Ew.
Qed.

Lemma conns_accept x s s' : conns_inv s -> relay_accept st x s = Some s' -> conns_inv s'.
Proof.
  intros I. pose proof (ci_src s I) as Hk. unfold relay_accept. destruct (q_accept (r_pcs s)) as [|c r|d|] eqn:Ea, x; try done.
  - destruct (h_lnClosed _); [done|]. unfold arrive. destruct (IPLimit.step _ _) as [ok src] eqn:Es.
    assert (Hsrc : src = snd (IPLimit.step (k_source (r_conns s)) (IPLimit.EAccept remote))) by (by rewrite Es). destruct I as [C S K].
    destruct ok; intros [= <-].
    + pose proof (acquired_last _ _ _ Es) as Hlast. split.
      * intros c. unfold active_Add. destruct (k_activeClosed (r_conns s)); cbn; rewrite length_app; cbn; intros Hc;
          (destruct (decide (c = length (k_remotes (r_conns s)))) as [->|Hne]; [right; left; cbn; set_solver|]);
          (destruct (C c ltac:(lia)) as [Hi|[Hi|Hi]]; [left; set_solver|rewrite Ea in Hi; cbn in Hi; set_solver|right; right; exact Hi]).
      * intros r key. unfold active_Add. assert (Hg : IPLimit.held src !! r = Some (IPLimit.Lease key false) ->
          r = pred (length (IPLimit.held src)) \/ r ∈ (k_pending (r_conns s)).*2 \/ exists i w, q_workers (r_pcs s) !! i = Some w /\ r ∈ worker_slots w).
        { intros Hr. destruct (decide (r = length (IPLimit.held (k_source (r_conns s))))) as [->|Hne]; [by left|]. right.
          rewrite Hsrc in Hr. apply acquired_same in Hr; [|done]. destruct (S _ _ Hr) as [Hx|Hx]; [rewrite Ea in Hx; cbn in Hx; set_solver|exact Hx]. }
        destruct (k_activeClosed (r_conns s)); cbn; intros Hr; (destruct (Hg Hr) as [->|Hx]; [left; cbn; set_solver|right; exact Hx]).
      * unfold active_Add. rewrite Hsrc. destruct (k_activeClosed (r_conns s)); cbn; by apply src_ok_step.
    + pose proof (refused_held _ _ _ Es) as Hsame. split.
      * intros c. cbn. rewrite length_app. cbn. intros Hc. destruct (decide (c = length (k_remotes (r_conns s)))) as [->|Hne]; [left; set_solver|].
        destruct (C c ltac:(lia)) as [Hi|[Hi|Hi]]; [left; set_solver|rewrite Ea in Hi; cbn in Hi; set_solver|right; right; exact Hi].
      * intros r key. cbn. rewrite Hsame. intros Hr. destruct (S _ _ Hr) as [Hx|Hx]; [rewrite Ea in Hx; cbn in Hx; set_solver|right; exact Hx].
      * cbn. rewrite Hsrc. by apply src_ok_step.
  - destruct (_ && _); [done|]. destruct (h_childErr _); [intros [= <-]|destruct (run_done _); [intros [= <-]|destruct (IsTemporary _); intros [= <-]]];
      (eapply conns_step; [exact I|..]; cbn; rewrite ?Ea; try done; try (by intros; right; eauto); try set_solver).
  - destruct (Z.ltb _ _); [|done]. intros [= <-]. eapply conns_step; [exact I|..]; cbn; rewrite ?Ea; try done; try (by intros; right; eauto); try set_solver.
    + intros c' ->%list_elem_of_singleton. right. right. rewrite fmap_app. set_solver.
    + intros r' key Hr. split; [done|]. intros ->%list_elem_of_singleton. right. rewrite fmap_app. set_solver.
  - destruct (run_done _); [|done]. intros [= <-]. eapply conns_step; [exact I|..]; cbn; rewrite ?Ea; try done; try (by intros; right; eauto); try set_solver.
    + intros r' key Hr. pose proof (released_other _ _ _ _ Hr). split; [done|]. intros ->%list_elem_of_singleton. exfalso. by apply (released_not_open (k_source (r_conns s)) r key Hk).
    + by apply src_ok_step.
  - destruct (_ || _); [done|]. intros [= <-]. eapply conns_step; [exact I|..]; cbn; rewrite ?Ea; try done; try (by intros; right; eauto); try set_solver.
    + intros r' key Hr. pose proof (released_other _ _ _ _ Hr). split; [done|]. intros ->%list_elem_of_singleton. exfalso. by apply (released_not_open (k_source (r_conns s)) r key Hk).
    + by apply src_ok_step.
  - intros [= <-]. eapply conns_step; [exact I|..]; cbn; rewrite ?Ea; try done; try (by intros; right; eauto); try set_solver.
  - destruct (run_done _); [|done]. intros [= <-]. eapply conns_step; [exact I|..]; cbn; rewrite ?Ea; try done; try (by intros; right; eauto); try set_solver.
Qed.

Lemma conns_relay j o s s' : conns_inv s -> relay_goroutine j o s = Some s' -> conns_inv s'.
Proof.
  intros I. pose proof (ci_src s I) as Hk. unfold relay_goroutine. destruct (q_relays (r_pcs s) !! j) as [[c peer|c|]|] eqn:Ej; try done; intros [= <-].
  - eapply conns_step; [exact I|..]; cbn; try done; try (by intros; auto); try set_solver. intros j' p c' Hj Hc. destruct (decide (j' = j)) as [->|Hne].
    + assert (p = Relaying c peer) as -> by congruence. left. cbn in Hc. set_solver.
    + right. exists j', p. by rewrite list_lookup_insert_ne.
  - eapply conns_step; [exact I|..]; cbn; try done; try (by intros; auto); try set_solver. intros j' p c' Hj Hc. destruct (decide (j' = j)) as [->|Hne].
    + assert (p = Closing c) as -> by congruence. cbn in Hc. set_solver.
    + right. exists j', p. by rewrite list_lookup_insert_ne.
Qed.

(** * The order of the end *)

Definition past_cancel (x : exit_pc) : bool := match x with Running | XCancel _ => false | _ => true end.
Definition past_close (x : exit_pc) : bool := match x with Running | XCancel _ | XClosePending _ => false | _ => true end.
Definition past_wait (x : exit_pc) : bool := match x with XCleanup _ | XStop _ _ | XDrain _ _ | XClose _ _ | Returned _ _ => true | _ => false end.
Definition drained (x : exit_pc) : bool := match x with XClose _ _ | Returned _ _ => true | _ => false end.
Definition is_running (x : exit_pc) : bool := match x with Running => true | _ => false end.
Definition is_returned (x : exit_pc) : bool := match x with Returned _ _ => true | _ => false end.
Definition loop_over (a : raccept_pc) : bool := match a with RReturned => true | _ => false end.

Record ctrl_inv s : Prop := {
  b_acc : loop_over (q_accept (r_pcs s)) = negb (is_running (q_exit (r_pcs s)));
  b_closed : k_pendingClosed (r_conns s) = past_close (q_exit (r_pcs s));
  b_stop : RStopped ∈ q_workers (r_pcs s) -> k_pending (r_conns s) = [] /\ k_pendingClosed (r_conns s) = true;
  b_wait : past_wait (q_exit (r_pcs s)) = true -> run_idle s = true;
  b_hand : g_handler (r_gw s) <> None -> q_knock (r_pcs s) = KnockServing;
  b_drain : drained (q_exit (r_pcs s)) = true -> timers_stopped s = true;
  b_cancel : past_cancel (q_exit (r_pcs s)) = true -> h_cancelled (r_flags s) = true;
  b_ln : is_returned (q_exit (r_pcs s)) = true -> h_lnClosed (r_flags s) = true;
}.

Lemma idle_worker s i w : run_idle s = true -> q_workers (r_pcs s) !! i = Some w -> w = RStopped.
Proof.
  unfold run_idle. rewrite !andb_true_iff, !bool_decide_eq_true. intros [[_ Hw] _] Hi. by eapply Forall_lookup in Hw; [|exact Hi].
Qed.

Lemma idle_relay s j p : run_idle s = true -> q_relays (r_pcs s) !! j = Some p -> p = RelayDone.
Proof. unfold run_idle. rewrite !andb_true_iff, !bool_decide_eq_true. intros [_ Hr] Hj. by eapply Forall_lookup in Hr; [|exact Hj]. Qed.

Lemma idle_watch s : run_idle s = true -> q_watch (r_pcs s) = WatchDone /\ (q_knock (r_pcs s) = KnockOff \/ q_knock (r_pcs s) = KnockDone).
Proof. unfold run_idle. rewrite !andb_true_iff. intros [[[Hk Hw] _] _]. split; [by destruct (q_watch _)|destruct (q_knock _); auto; done]. Qed.

(** A step of the accept loop: [run] has not begun to end. *)
Lemma ctrl_accept x s s' : ctrl_inv s -> relay_accept st x s = Some s' -> ctrl_inv s'.
Proof.
  intros [] E. assert (Hr : q_exit (r_pcs s) = Running).
  { destruct (q_exit (r_pcs s)) eqn:Hx; try done; unfold relay_accept in E; cbn in b_acc0; destruct (q_accept (r_pcs s)), x; done. }
  rewrite Hr in *. cbn in *. revert E. unfold relay_accept.
  assert (Hns : RStopped ∉ q_workers (r_pcs s)) by (intros Hs; destruct (b_stop0 Hs); congruence).
  assert (Hgen : forall a b k, loop_over a = false -> k_pendingClosed k = false -> ctrl_inv (set_accept a b (set_conns k s))).
  { intros a b k Ha Hk. constructor; cbn; rewrite ?Hr; try done. }
  assert (Hret : forall e k, k_pendingClosed k = false -> ctrl_inv (loop_return e (set_conns k s))) by (intros e k Hk; constructor; cbn; done).
  assert (Hs : set_conns (r_conns s) s = s) by (by destruct s).
  destruct (q_accept (r_pcs s)) as [|c r|d|] eqn:Ea, x; try done.
  - destruct (h_lnClosed _); [done|]. unfold arrive. destruct (IPLimit.step _ _) as [ok src]. destruct ok; intros [= <-]; apply Hgen; try done.
    unfold active_Add. by destruct (k_activeClosed (r_conns s)).
  - destruct (_ && _); [done|]. specialize (Hret) as Hret'. destruct (h_childErr _); [|destruct (run_done _); [|destruct (IsTemporary _)]]; intros [= <-]; rewrite <- Hs; auto.
  - destruct (Z.ltb _ _); [|done]. intros [= <-]. by apply Hgen.
  - destruct (run_done _); [|done]. intros [= <-]. by apply Hret.
  - destruct (_ || _); [done|]. intros [= <-]. by apply Hgen.
  - intros [= <-]. rewrite <- Hs. by apply Hgen.
  - destruct (run_done _); [|done]. intros [= <-]. rewrite <- Hs. by apply Hret.
Qed.

Lemma stopped_insert (ws : list rworker_pc) i w : RStopped ∈ <[i := w]> ws -> w = RStopped \/ RStopped ∈ ws.
Proof.
  intros [j Hj]%list_elem_of_lookup. destruct (decide (i = j)) as [->|Hne].
  - destruct (decide (j < length ws)%nat); [rewrite list_lookup_insert_eq in Hj by done; left; congruence|rewrite list_insert_ge in Hj by lia; right; by eapply list_elem_of_lookup_2].
  - rewrite list_lookup_insert_ne in Hj by done. right. by eapply list_elem_of_lookup_2.
Qed.

(** A worker moves on, the rest of the control stays. *)
Lemma ctrl_worker_gen s s' i w w' : ctrl_inv s -> q_workers (r_pcs s) !! i = Some w -> w <> RStopped -> q_workers (r_pcs s') = <[i := w']> (q_workers (r_pcs s)) ->
  q_accept (r_pcs s') = q_accept (r_pcs s) -> q_exit (r_pcs s') = q_exit (r_pcs s) -> q_knock (r_pcs s') = q_knock (r_pcs s) ->
  k_pendingClosed (r_conns s') = k_pendingClosed (r_conns s) -> r_flags s' = r_flags s -> g_handler (r_gw s') = g_handler (r_gw s) ->
  (w' = RStopped -> k_pending (r_conns s) = [] /\ k_pendingClosed (r_conns s) = true) ->
  (k_pending (r_conns s) = [] -> k_pending (r_conns s') = []) -> ctrl_inv s'.
Proof.
  intros [] Hi Hw Ew Ea Ex Ek Ec Ef Eh Hst Hp. assert (Hnw : past_wait (q_exit (r_pcs s)) = false).
  { destruct (past_wait _) eqn:E; [|done]. by specialize (idle_worker s i w (b_wait0 eq_refl) Hi). }
  constructor; rewrite ?Ea, ?Ex, ?Ek, ?Ec, ?Ef, ?Eh, ?Hnw; try done.
  - rewrite Ew. intros [->|Hs]%stopped_insert; [specialize (Hst eq_refl)|destruct (b_stop0 Hs) as [H1 H2]; split; auto]. destruct Hst. split; auto.
  - intros Hd. destruct (q_exit (r_pcs s)); done.
Qed.

Lemma ctrl_worker i w x s s' : ctrl_inv s -> q_workers (r_pcs s) !! i = Some w -> relay_worker g st i w x s = Some s' -> ctrl_inv s'.
Proof.
  intros I Hi. unfold relay_worker. destruct w as [|c r|c r peer addr|c r peer|c|c peer|], x; try done.
  - destruct (k_pending (r_conns s)) as [|[c r] rest] eqn:Ep; [done|]. intros [= <-]. eapply ctrl_worker_gen; [exact I|exact Hi|..]; cbn; try done. by rewrite Ep.
  - destruct (k_pending (r_conns s)) eqn:Ep; [|done]. destruct (k_pendingClosed _) eqn:Ec; [|done]. intros [= <-].
    eapply ctrl_worker_gen; [exact I|exact Hi|..]; cbn; done.
  - intros [= <-]. unfold authenticateConn. set (m := auth_decide _ _ _ _). pose proof (on_world_same m s) as (E1 & E2 & E3 & _ & E4 & _).
    destruct (on_world m s) as [v s1]. cbn [snd] in *. destruct v; (eapply ctrl_worker_gen; [exact I|exact Hi|..]; cbn; rewrite ?E1, ?E2, ?E3, ?E4; try done).
  - intros [= <-]. set (m := access_revoke _ _ _). pose proof (on_world_same m s) as (E1 & E2 & E3 & _ & E4 & _).
    eapply ctrl_worker_gen; [exact I|exact Hi|..]; cbn; rewrite ?E1, ?E2, ?E3, ?E4; done.
  - intros [= <-]. eapply ctrl_worker_gen; [exact I|exact Hi|..]; cbn; try done. by destruct peer.
  - intros [= <-]. eapply ctrl_worker_gen; [exact I|exact Hi|..]; cbn; done.
  - intros [= <-]. eapply ctrl_worker_gen; [exact I|exact Hi|..]; cbn; done.
Qed.

(** The other goroutines have nothing to do any more once [run] has waited. *)
Lemma ctrl_late s s' : ctrl_inv s -> past_wait (q_exit (r_pcs s)) = false -> q_accept (r_pcs s') = q_accept (r_pcs s) -> q_exit (r_pcs s') = q_exit (r_pcs s) ->
  q_workers (r_pcs s') = q_workers (r_pcs s) -> k_pending (r_conns s') = k_pending (r_conns s) -> k_pendingClosed (r_conns s') = k_pendingClosed (r_conns s) ->
  (g_handler (r_gw s') <> None -> q_knock (r_pcs s') = KnockServing) -> (h_cancelled (r_flags s) = true -> h_cancelled (r_flags s') = true) ->
  (h_lnClosed (r_flags s) = true -> h_lnClosed (r_flags s') = true) -> ctrl_inv s'.
Proof.
  intros [] Hw Ea Ex Ew Ep Ec Hh Hc Hl. constructor; rewrite ?Ea, ?Ex, ?Ew, ?Ep, ?Ec, ?Hw; auto; try done.
  intros Hd. destruct (q_exit (r_pcs s)); done.
Qed.

Lemma ctrl_relay j o s s' : ctrl_inv s -> relay_goroutine j o s = Some s' -> ctrl_inv s'.
Proof.
  intros I. unfold relay_goroutine. destruct (q_relays (r_pcs s) !! j) as [p|] eqn:Ej; [|done].
  assert (Hw : p <> RelayDone -> past_wait (q_exit (r_pcs s)) = false).
  { intros Hp. destruct (past_wait _) eqn:E; [|done]. by specialize (idle_relay s j p (b_wait s I E) Ej). }
  destruct p as [c peer|c|]; try done; intros [= <-]; (apply (ctrl_late s); try done; [by apply Hw|apply (b_hand s I)]).
Qed.

Lemma ctrl_knock err s s' : ctrl_inv s -> relay_knock err s = Some s' -> ctrl_inv s'.
Proof.
  intros I. unfold relay_knock. assert (Hw : q_knock (r_pcs s) <> KnockOff -> q_knock (r_pcs s) <> KnockDone -> past_wait (q_exit (r_pcs s)) = false).
  { intros H1 H2. destruct (past_wait _) eqn:E; [|done]. destruct (idle_watch s (b_wait s I E)) as [_ [|]]; done. }
  pose proof (b_hand s I) as Hh. destruct (q_knock (r_pcs s)) eqn:Ek; try done.
  - destruct (g_handler (r_gw s)) eqn:Eg; [done|]. destruct err as [e|]; [destruct (run_done _)|]; intros [= <-]; (apply (ctrl_late s); cbn; try done; try (by apply Hw); by rewrite Eg).
  - intros [= <-]. apply (ctrl_late s); cbn; try done; [by apply Hw|]. intros Hx. by specialize (Hh Hx).
  - intros [= <-]. apply (ctrl_late s); cbn; try done; [by apply Hw|]. intros Hx. by specialize (Hh Hx).
Qed.

(** Steps of the handler and the timers. *)
Lemma gstep_handler fw h q x q' : gstep (F := H) fw h q x = Some q' -> match x with SKnock _ _ | SAdmit _ _ _ _ => True | _ => g_handler q' = g_handler q end.
Proof.
  destruct x as [ctx ev|ctx t1 t2 t3|k now now'|k|peer remote now|remote client]; try done; cbn [gstep].
  - destruct (g_timers q !! k); [|done]. destruct (Z.ltb _ _); [done|]. destruct (timer_expire _ _ _ _ _ _). by intros [= <-].
  - destruct (g_revoking q !! k) as [[timed r]|]; [|done]. destruct (_ (g_world q)). by intros [= <-].
  - destruct (call_store _ _). by intros [= <-].
  - destruct (remove_access _ _ _ _ _). by intros [= <-].
Qed.

Lemma ctrl_timer s s' : ctrl_inv s -> drained (q_exit (r_pcs s)) = false -> r_pcs s' = r_pcs s -> r_conns s' = r_conns s -> r_flags s' = r_flags s ->
  g_handler (r_gw s') = g_handler (r_gw s) -> ctrl_inv s'.
Proof. intros [] Hd E1 E2 E3 E4. unfold run_idle in *. constructor; unfold run_idle; rewrite ?E1, ?E2, ?E3, ?E4, ?Hd; done. Qed.

Lemma ctrl_gw x s s' : ctrl_inv s -> relay_gw g st x s = Some s' -> ctrl_inv s'.
Proof.
  intros I. unfold relay_gw. set (may := match x with SKnock _ _ => _ | _ => _ end). destruct may eqn:Em; [|done].
  destruct (gstep _ _ _ _) as [q|] eqn:E; [|done]. intros [= <-]. pose proof (gstep_handler _ _ _ _ _ E) as Hh.
  destruct (drained (q_exit (r_pcs s))) eqn:Hd.
  - exfalso. pose proof (b_drain s I Hd) as Ht. unfold timers_stopped in Ht.
    assert (Hw : past_wait (q_exit (r_pcs s)) = true) by (destruct (q_exit (r_pcs s)); done). destruct (idle_watch s (b_wait s I Hw)) as [_ Hk].
    destruct (r_swapped s), (g_timers (r_gw s)) eqn:Et, (g_revoking (r_gw s)) eqn:Er; try done.
    subst may. destruct x; cbn in Em; try done; cbn [gstep] in E; rewrite ?Et, ?Er in E; try done; destruct Hk as [Hk|Hk]; by rewrite Hk in Em.
  - destruct x; try done; try (by apply (ctrl_timer s)).
    + assert (Hk : q_knock (r_pcs s) = KnockServing) by (subst may; cbn in Em; by destruct (q_knock (r_pcs s))).
      apply (ctrl_late s); try done. destruct (past_wait _) eqn:Hw; [|done]. destruct (idle_watch s (b_wait s I Hw)) as [_ [|]]; congruence.
    + assert (Hk : q_knock (r_pcs s) = KnockServing) by (subst may; cbn in Em; by destruct (q_knock (r_pcs s))).
      apply (ctrl_late s); try done. destruct (past_wait _) eqn:Hw; [|done]. destruct (idle_watch s (b_wait s I Hw)) as [_ [|]]; congruence.
Qed.

Lemma drained_swapped s k t : ctrl_inv s -> r_swapped s !! k = Some t -> drained (q_exit (r_pcs s)) = false.
Proof.
  intros I Hk. destruct (drained _) eqn:Hd; [|done]. pose proof (b_drain s I Hd) as Ht. unfold timers_stopped in Ht. destruct (r_swapped s); [done|done].
Qed.

Lemma ctrl_swapped k now now' s s' : ctrl_inv s -> relay_swapped_fire g st k now now' s = Some s' -> ctrl_inv s'.
Proof.
  intros I. unfold relay_swapped_fire. destruct (gstep _ _ _ _) as [q|] eqn:E; [|done]. intros [= <-]. pose proof (gstep_handler _ _ _ _ _ E) as Hh. cbn in Hh.
  apply (ctrl_timer s); try done. cbn [gstep Gateway.g_timers] in E. destruct (r_swapped s !! k) eqn:Ek; [by eapply drained_swapped|done].
Qed.

Lemma ctrl_watch s s' : ctrl_inv s -> relay_watch s = Some s' -> ctrl_inv s'.
Proof.
  intros I. unfold relay_watch. assert (Hw : q_watch (r_pcs s) <> WatchDone -> past_wait (q_exit (r_pcs s)) = false).
  { intros Hx. destruct (past_wait _) eqn:E; [|done]. by destruct (idle_watch s (b_wait s I E)). }
  destruct (q_watch (r_pcs s)); try done.
  - destruct (run_done _); [|done]. intros [= <-]. apply (ctrl_late s); try done; [by apply Hw|apply (b_hand s I)].
  - intros [= <-]. apply (ctrl_late s); try done; [by apply Hw|apply (b_hand s I)].
Qed.

Lemma ctrl_exit s s' : ctrl_inv s -> relay_exit st s = Some s' -> ctrl_inv s'.
Proof.
  intros I. unfold relay_exit. destruct (q_exit (r_pcs s)) as [|e|e|e|e|e c|e c|e c|] eqn:Ex; try done.
  - intros [= <-]. destruct I. rewrite Ex in *. constructor; cbn; try done.
  - intros [= <-]. destruct I. rewrite Ex in *. constructor; cbn; try done. intros Hs. by destruct (b_stop0 Hs).
  - destruct (run_idle s) eqn:Hi; [|done]. intros [= <-]. destruct I. rewrite Ex in *. by constructor.
  - set (m := CleanupFirewallDetached _). pose proof (on_world_same m s) as (E1 & E2 & E3 & E4 & E5 & E6 & E7). destruct (on_world m s) as [err s1]. intros [= <-].
    cbn [snd] in *. destruct I. rewrite Ex in *. unfold run_idle in *. constructor; cbn; unfold run_idle; cbn; rewrite ?E1, ?E2, ?E3, ?E5; try done.
  - intros [= <-]. destruct I. rewrite Ex in *. by constructor.
  - destruct (timers_stopped s) eqn:Ht; [|done]. intros [= <-]. destruct I. rewrite Ex in *. by constructor.
  - intros [= <-]. destruct I. rewrite Ex in *. by constructor.
Qed.

Lemma ctrl_step s x s' : ctrl_inv s -> rstep g st s x = Some s' -> ctrl_inv s'.
Proof.
  intros I. destruct x as [x|i x|j o|err|x|k now now'|k| | |]; cbn [rstep].
  - by apply ctrl_accept.
  - destruct (q_workers (r_pcs s) !! i) as [w|] eqn:Hi; [|done]. by apply ctrl_worker.
  - by apply ctrl_relay.
  - by apply ctrl_knock.
  - by apply ctrl_gw.
  - by apply ctrl_swapped.
  - unfold relay_stop. destruct (r_swapped s !! k) eqn:Ek; [|done]. intros [= <-]. apply (ctrl_timer s); try done. by eapply drained_swapped.
  - by apply ctrl_watch.
  - by apply ctrl_exit.
  - intros [= <-]. destruct I. by constructor.
Qed.

Lemma conns_rstep s x s' : conns_inv s -> rstep g st s x = Some s' -> conns_inv s'.
Proof.
  intros I. assert (Hsame : forall s', r_conns s' = r_conns s -> q_accept (r_pcs s') = q_accept (r_pcs s) -> q_workers (r_pcs s') = q_workers (r_pcs s) ->
    q_relays (r_pcs s') = q_relays (r_pcs s) -> conns_inv s') by (intros; by eapply conns_same).
  destruct x as [x|i x|j o|err|x|k now now'|k| | |]; cbn [rstep].
  - by apply conns_accept.
  - destruct (q_workers (r_pcs s) !! i) as [w|] eqn:Hi; [|done]. by apply conns_worker.
  - by apply conns_relay.
  - unfold relay_knock. destruct (q_knock (r_pcs s)); try done; [|intros [= <-]; by apply Hsame..]. destruct (g_handler _); [done|].
    destruct err as [e|]; [destruct (run_done _)|]; intros [= <-]; try (by apply Hsame).
    eapply conns_step; [exact I|..]; cbn; try done; try (by intros; auto); try set_solver; apply I.
  - unfold relay_gw. destruct (match x with SKnock _ _ => _ | _ => _ end); [|done]. destruct (gstep _ _ _ _); [|done]. intros [= <-]. by apply Hsame.
  - unfold relay_swapped_fire. destruct (gstep _ _ _ _); [|done]. intros [= <-]. by apply Hsame.
  - unfold relay_stop. destruct (r_swapped s !! k); [|done]. intros [= <-]. by apply Hsame.
  - unfold relay_watch. destruct (q_watch (r_pcs s)); try done; [destruct (run_done _); [|done]|]; intros [= <-]; [by apply Hsame|].
    eapply conns_step; [exact I|..]; cbn; try done; try (by intros; auto); try set_solver; apply I.
  - unfold relay_exit. destruct (q_exit (r_pcs s)) as [|e|e|e|e|e c|e c|e c|]; try done.
    + intros [= <-]. by apply Hsame.
    + intros [= <-]. eapply conns_step; [exact I|..]; cbn; try done; try (by intros; auto); try set_solver; apply I.
    + destruct (run_idle s); [|done]. intros [= <-]. by apply Hsame.
    + set (m := CleanupFirewallDetached _). pose proof (on_world_same m s) as (E1 & E2 & _). destruct (on_world m s) as [err s1]. intros [= <-].
      cbn [snd] in *. apply Hsame; cbn; by rewrite ?E1, ?E2.
    + intros [= <-]. by apply Hsame.
    + destruct (timers_stopped s); [|done]. intros [= <-]. by apply Hsame.
    + intros [= <-]. by apply Hsame.
  - intros [= <-]. by apply Hsame.
Qed.

End Life.

(** * The firewall *)

Definition cleanup_of (x : exit_pc) : option (option error) :=
  match x with XStop _ c | XDrain _ c | XClose _ c | Returned _ c => Some c | _ => None end.

Section Firewall.
Context {H : Type} `{Host H} (g : relay_Gateway) (st : relay_start) `{!GateFirewall (rs_firewall st)}.
Implicit Types s : rstate H.

Definition fw_inv s : Prop := gf_ok (w_fw (g_world (r_gw s))) /\
  forall c, cleanup_of (q_exit (r_pcs s)) = Some c -> c <> None \/ gf_clean (w_fw (g_world (r_gw s))).

Lemma fw_kept s s' : fw_inv s -> cleanup_of (q_exit (r_pcs s')) = cleanup_of (q_exit (r_pcs s)) ->
  (gf_ok (w_fw (g_world (r_gw s))) -> kept (rs_firewall st) (g_world (r_gw s)) (g_world (r_gw s'))) -> fw_inv s'.
Proof.
  intros [Hok Hc] Ex Hk. destruct (Hk Hok) as (Hok' & Hcl & _). split; [done|]. rewrite Ex. intros c E. destruct (Hc c E); auto.
Qed.

Lemma fw_same s s' : fw_inv s -> cleanup_of (q_exit (r_pcs s')) = cleanup_of (q_exit (r_pcs s)) -> r_gw s' = r_gw s -> fw_inv s'.
Proof. intros I Ex Eg. eapply fw_kept; [done|done|]. intros Hok. rewrite Eg. by split_and!. Qed.

Lemma fw_world {A} (m : FW (world H) A) s s' : fw_inv s -> keeps (rs_firewall st) m -> cleanup_of (q_exit (r_pcs s')) = cleanup_of (q_exit (r_pcs s)) ->
  r_gw s' = r_gw (snd (on_world m s)) -> fw_inv s'.
Proof.
  intros I Hm Ex Eg. eapply fw_kept; [exact I|done|]. intros Hok. rewrite Eg. unfold on_world. destruct (m (g_world (r_gw s))) as [a w] eqn:E. exact (Hm _ _ _ E Hok).
Qed.

Lemma keeps_decide remote a : keeps (rs_firewall st) (auth_decide (H := H) g st remote a).
Proof.
  unfold auth_decide. destruct a as [e|peer now late]; [apply kept_ret_gate|]. apply kept_bind_gate.
  - destruct (sv_RequireKnock _); [|apply kept_ret_gate]. apply kept_bind_gate; [apply keeps_store|intros; apply kept_ret_gate].
  - intros [e|]; [apply kept_ret_gate|]. destruct late; [apply kept_ret_gate|]. destruct (rg_RemoveAfterAuth g); [|apply kept_ret_gate].
    apply kept_bind_gate; [apply kept_remove_gate|intros; apply kept_ret_gate].
Qed.

Lemma fw_step s x s' : fw_inv s -> rstep g st s x = Some s' -> fw_inv s'.
Proof.
  intros I. destruct x as [x|i x|j o|err|x|k now now'|k| | |]; cbn [rstep].
  - unfold relay_accept, loop_return, arrive. intros E. assert (r_gw s' = r_gw s /\ cleanup_of (q_exit (r_pcs s')) = cleanup_of (q_exit (r_pcs s)) \/
      r_gw s' = r_gw s /\ cleanup_of (q_exit (r_pcs s')) = None) as [[E1 E2]|[E1 E2]].
    { destruct (q_accept (r_pcs s)), x; try done; repeat case_match; simplify_eq/=; auto. }
    + by eapply fw_same.
    + destruct I as [Hok _]. split; [by rewrite E1|]. rewrite E2. done.
  - destruct (q_workers (r_pcs s) !! i) as [w|]; [|done]. cbn [mbind option_bind]. unfold relay_worker. destruct w as [|c r|c r peer addr|c r peer|c|c peer|], x; try done.
    + destruct (k_pending _) as [|[c r] rest]; [done|]. intros [= <-]. by eapply fw_same.
    + destruct (k_pending _); [|done]. destruct (k_pendingClosed _); [|done]. intros [= <-]. by eapply fw_same.
    + intros [= <-]. unfold authenticateConn. pose proof (keeps_decide (remote_of c (r_conns s)) a) as Hk. set (m := auth_decide _ _ _ _) in *.
      pose proof (on_world_same m s) as (_ & E2 & _). pose proof (fw_world m s) as Hf. destruct (on_world m s) as [v s1]. cbn [snd] in *.
      destruct v; apply Hf; try done; cbn; by rewrite ?E2.
    + intros [= <-]. set (m := access_revoke _ _ _). pose proof (on_world_same m s) as (_ & E2 & _).
      eapply (fw_world m s); [done|apply keeps_access_revoke|cbn; by rewrite E2|done].
    + intros [= <-]. by eapply fw_same.
    + intros [= <-]. by eapply fw_same.
    + intros [= <-]. by eapply fw_same.
  - unfold relay_goroutine. destruct (q_relays (r_pcs s) !! j) as [[c peer|c|]|]; try done; intros [= <-]; by eapply fw_same.
  - unfold relay_knock. destruct (q_knock (r_pcs s)); try done; [|intros [= <-]; by eapply fw_same..]. destruct (g_handler _); [done|].
    destruct err as [e|]; [destruct (run_done _)|]; intros [= <-]; by eapply fw_same.
  - unfold relay_gw. destruct (match x with SKnock _ _ => _ | _ => _ end); [|done]. destruct (gstep _ _ _ _) as [q|] eqn:E; [|done]. intros [= <-].
    eapply fw_kept; [exact I|done|]. intros Hok. exact (gstep_keeps _ _ _ _ _ E Hok).
  - unfold relay_swapped_fire. destruct (gstep _ _ _ _) as [q|] eqn:E; [|done]. intros [= <-].
    eapply fw_kept; [exact I|done|]. intros Hok. exact (gstep_keeps _ _ _ _ _ E Hok).
  - unfold relay_stop. destruct (r_swapped s !! k); [|done]. intros [= <-]. by eapply fw_same.
  - unfold relay_watch. destruct (q_watch (r_pcs s)); try done; [destruct (run_done _); [|done]|]; intros [= <-]; by eapply fw_same.
  - unfold relay_exit. destruct (q_exit (r_pcs s)) as [|e|e|e|e|e c|e c|e c|] eqn:Ex; try done.
    + intros [= <-]. eapply fw_same; [exact I|by rewrite Ex|done].
    + intros [= <-]. eapply fw_same; [exact I|by rewrite Ex|done].
    + destruct (run_idle s); [|done]. intros [= <-]. eapply fw_same; [exact I|by rewrite Ex|done].
    + unfold CleanupFirewallDetached, on_world, on_fw. destruct (fo_Cleanup _ _ _) as [err h'] eqn:E. intros [= <-]. destruct I as [Hok _].
      destruct (gf_cleanup _ _ _ _ Hok E) as [Hok' Hc]. split; [done|]. cbn. intros c [= <-]. destruct err; [by left|right; by apply Hc].
    + intros [= <-]. destruct I as [Hok Hc]. split; [done|]. rewrite Ex in Hc. exact Hc.
    + destruct (timers_stopped s); [|done]. intros [= <-]. eapply fw_same; [exact I|by rewrite Ex|done].
    + intros [= <-]. eapply fw_same; [exact I|by rewrite Ex|done].
  - intros [= <-]. by eapply fw_same.
Qed.

Record relay_inv s : Prop := { ri_conns : conns_inv s; ri_ctrl : ctrl_inv s; ri_fw : fw_inv s; ri_workers : q_workers (r_pcs s) <> [] }.

Lemma rstep_workers s x s' : rstep g st s x = Some s' -> length (q_workers (r_pcs s')) = length (q_workers (r_pcs s)).
Proof.
  destruct x as [x|i x|j o|err|x|k now now'|k| | |]; cbn [rstep].
  - unfold relay_accept, loop_return, arrive. destruct (q_accept (r_pcs s)), x; try done; repeat case_match; intros; simplify_eq/=; done.
  - destruct (q_workers (r_pcs s) !! i) as [w|]; [|done]. cbn [mbind option_bind]. unfold relay_worker.
    destruct w as [|c r|c r peer addr|c r peer|c|c peer|], x; try done; repeat case_match; try done; intros [= <-]; cbn; rewrite ?length_insert; try done.
    + unfold authenticateConn. set (m := auth_decide _ _ _ _). pose proof (on_world_same m s) as (_ & E2 & _). destruct (on_world m s) as [v s1]. cbn [snd] in *.
      destruct v; cbn; by rewrite ?length_insert, ?E2.
    + set (m := access_revoke _ _ _). pose proof (on_world_same m s) as (_ & E2 & _). by rewrite E2.
  - unfold relay_goroutine. repeat case_match; try done; by intros [= <-].
  - unfold relay_knock. repeat case_match; try done; by intros [= <-].
  - unfold relay_gw. destruct (match x with SKnock _ _ => _ | _ => _ end); [|done]. destruct (gstep _ _ _ _) as [q|] eqn:E; [|done]. by intros [= <-].
  - unfold relay_swapped_fire. destruct (gstep _ _ _ _) as [q|] eqn:E; [|done]. by intros [= <-].
  - unfold relay_stop. destruct (r_swapped s !! k); [|done]. by intros [= <-].
  - unfold relay_watch. repeat case_match; try done; by intros [= <-].
  - unfold relay_exit. destruct (q_exit (r_pcs s)); try done; try (by intros [= <-]).
    + destruct (run_idle s); [|done]. by intros [= <-].
    + set (m := CleanupFirewallDetached _). pose proof (on_world_same m s) as (_ & E2 & _). destruct (on_world m s) as [err s1]. intros [= <-]. cbn in *. by rewrite E2.
    + destruct (timers_stopped s); [|done]. by intros [= <-].
  - by intros [= <-].
Qed.

Lemma relay_inv_step s x s' : relay_inv s -> rstep g st s x = Some s' -> relay_inv s'.
Proof.
  intros [C B F W] E. split; [by eapply conns_rstep|by eapply ctrl_step|by eapply fw_step|]. intros Hn. apply W. apply length_zero_iff_nil.
  rewrite <- (rstep_workers _ _ _ E), Hn. done.
Qed.

Lemma relay_inv_run xs : forall s s', relay_inv s -> rrun g st s xs = Some s' -> relay_inv s'.
Proof.
  induction xs as [|x xs IH]; intros s s' I; cbn [rrun]; [by intros [= <-]|]. destruct (rstep g st s x) as [s1|] eqn:E; [|done]. cbn. apply IH. by eapply relay_inv_step.
Qed.

Lemma relay_inv_init w : gf_ok (w_fw w) -> 0 < rs_workers st -> relay_inv (relay_init g st w).
Proof.
  intros Hok Hw. destruct (Z.to_nat (rs_workers st)) as [|n] eqn:En; [lia|]. split.
  - split; [intros c; cbn; lia|intros r key; cbn; done|]. cbn. unfold src_ok. cbn. right. done.
  - constructor; cbn; try done. rewrite En. intros [i Hi]%list_elem_of_lookup. apply lookup_replicate in Hi as [? _]. done.
  - split; [done|]. cbn. done.
  - cbn. by rewrite En.
Qed.

End Firewall.

(** * The theorems *)

Lemma run_start_workers {H} `{Host H} ctx g listen (w w' : world H) st : run_start ctx g listen w = (Ok st, w') -> 0 < rs_workers st.
Proof.
  unfold run_start. destruct (run_checks g); [|done]. destruct (run_auth g) as [authCfg cache]. destruct listen as [addr|]; [|done].
  unfold mbind, FW_bind. destruct (on_fw _ w) as [[fw|] w1]; [|done]. destruct (InitFirewall _ _ w1) as [[e|] w2]; unfold mret, FW_ret; [done|]. intros [= <- <-]. cbn.
  unfold maxAuthWorkers, nonzero. destruct (Z.ltb_spec 0 (rg_MaxAuthWorkers g)); lia.
Qed.

Lemma no_open_slots w : (forall r key, IPLimit.held w !! r <> Some (IPLimit.Lease key false)) -> forall k, IPLimit.open_conns k w = 0.
Proof.
  intros Hn k. unfold IPLimit.open_conns. assert (Hf : forall l : list IPLimit.release, (forall x, x ∈ l -> IPLimit.is_open k x = false) -> List.filter (IPLimit.is_open k) l = []).
  { induction l as [|x l IH]; intros Hl; [done|]. cbn. rewrite (Hl x) by (by left). apply IH. intros y Hy. apply Hl. by right. }
  rewrite Hf; [done|]. intros x [r Hr]%list_elem_of_lookup. destruct x as [|key []]; try done. by apply Hn in Hr.
Qed.

(** Property C10. A relay gateway that has returned leaves nothing behind: over
    every interleaving of its accept loop, workers, relayed sessions, knocks and
    timers, when [run] has returned every connection it accepted is closed, every
    slot of a source is free, every goroutine has ended, no knock is being
    handled, no timer is armed or running, the listener is closed, and the
    firewall is clean unless the cleanup itself reported an error. *)
Theorem relay_run_cleans {H} `{Host H} (ctx : Ctx) (g : relay_Gateway) (listen : res net_Addr) (st : relay_start) `{!GateFirewall (rs_firewall st)}
    (w0 w : world H) (xs : list rlabel) (s : rstate H) (e c : option error) :
  run_start ctx g listen w0 = (Ok st, w) -> gf_ok (w_fw w) ->
  rrun g st (relay_init g st w) xs = Some s -> q_exit (r_pcs s) = Returned e c ->
  (forall i, (i < length (k_remotes (r_conns s)))%nat -> i ∈ k_closed (r_conns s)) /\
  (forall k, IPLimit.open_conns k (k_source (r_conns s)) = 0) /\
  run_idle s = true /\ g_handler (r_gw s) = None /\ timers_stopped s = true /\ h_lnClosed (r_flags s) = true /\
  (c <> None \/ gf_clean (w_fw (g_world (r_gw s)))).
Proof.
  intros Es Hok Er Hx. destruct (relay_inv_run g st xs _ _ (relay_inv_init g st w Hok (run_start_workers _ _ _ _ _ _ Es)) Er) as [[C S _] B [_ F] W].
  pose proof (b_wait s B) as Hw. pose proof (b_drain s B) as Hd. pose proof (b_ln s B) as Hl. pose proof (b_acc s B) as Ha.
  rewrite Hx in Hw, Hd, Hl, F, Ha. specialize (Hw eq_refl). specialize (Hd eq_refl). specialize (Hl eq_refl). cbn in Ha.
  assert (Hp : k_pending (r_conns s) = []).
  { destruct (q_workers (r_pcs s)) as [|x l] eqn:Eq; [done|]. assert (Hx0 : q_workers (r_pcs s) !! 0%nat = Some x) by (by rewrite Eq).
    pose proof (idle_worker s 0 x Hw Hx0) as ->. destruct (b_stop s B) as [Hp _]; [rewrite Eq; by left|done]. }
  assert (Hn : forall i x, q_workers (r_pcs s) !! i = Some x -> x = RStopped) by (intros; by eapply idle_worker).
  split_and!; try done.
  - intros i Hi. destruct (C i Hi) as [|[Hc|[Hc|[(j & x & Hj & Hc)|(j & p & Hj & Hc)]]]]; [done|..]; exfalso.
    + destruct (q_accept (r_pcs s)); try done; cbn in Hc; set_solver.
    + rewrite Hp in Hc. set_solver.
    + rewrite (Hn _ _ Hj) in Hc. set_solver.
    + rewrite (idle_relay s j p Hw Hj) in Hc. set_solver.
  - apply no_open_slots. intros r key Hr. destruct (S r key Hr) as [Hc|[Hc|(j & x & Hj & Hc)]].
    + destruct (q_accept (r_pcs s)); try done; cbn in Hc; set_solver.
    + rewrite Hp in Hc. set_solver.
    + rewrite (Hn _ _ Hj) in Hc. set_solver.
  - destruct (g_handler (r_gw s)) eqn:Eh; [|done]. destruct (idle_watch s Hw) as [_ Hk]. pose proof (b_hand s B) as Hb. rewrite Eh in Hb. specialize (Hb ltac:(done)).
    destruct Hk; congruence.
  - by apply F.
Qed.

(** * [run] ends *)

#[local] Arguments sum_of : simpl never.

(** Steps that the gateway takes by itself: all but the arrival of a connection
    or a knock, and the end of the caller's context. *)
Definition own_step (x : rlabel) : bool :=
  match x with RLoop (RAccept _) | RGw (SKnock _ _) | RParent => false | _ => true end.

Definition accept_w (a : raccept_pc) : Z := match a with RAccepting => 1 | RHolding _ _ => 10 | RSleeping _ => 2 | RReturned => 0 end.
Definition worker_w (w : rworker_pc) : Z :=
  match w with
  | RIdle => 1 | RAuthenticating _ _ => 8 | RRevoking _ _ _ _ => 7 | RDecided _ _ _ => 6 | RSpawning _ _ => 5 | RRefused _ => 2 | RStopped => 0
  end.
Definition relay_w (p : relay_pc) : Z := match p with Relaying _ _ => 2 | Closing _ => 1 | RelayDone => 0 end.
Definition knock_w (k : knock_pc) : Z := match k with KnockServing => 3 | KnockFailed => 2 | KnockCancelled => 1 | _ => 0 end.
Definition watch_w (p : watch_pc) : Z := match p with Watching => 2 | WatchClosed => 1 | WatchDone => 0 end.
Definition exit_w (x : exit_pc) : Z :=
  match x with
  | Running => 8 | XCancel _ => 7 | XClosePending _ => 6 | XWait _ => 5 | XCleanup _ => 4 | XStop _ _ => 3 | XDrain _ _ => 2 | XClose _ _ => 1 | Returned _ _ => 0
  end.

(** A bound on the steps of its own that [run] has left once its context has
    ended. *)
Definition relay_left {H} (s : rstate H) : Z :=
  let p := r_pcs s in
  accept_w (q_accept p) + 8 * len (k_pending (r_conns s)) + sum_of worker_w (q_workers p) + sum_of relay_w (q_relays p) +
  knock_w (q_knock p) + watch_w (q_watch p) + exit_w (q_exit p) + Z.of_nat (gw_left (r_gw s)) + 2 * len (r_swapped s).

Lemma relay_left_nonneg {H} (s : rstate H) : 0 <= relay_left s.
Proof.
  unfold relay_left. pose proof (sum_of_nonneg worker_w (q_workers (r_pcs s)) ltac:(by intros [])). pose proof (sum_of_nonneg relay_w (q_relays (r_pcs s)) ltac:(by intros [])).
  pose proof (len_nonneg (k_pending (r_conns s))). pose proof (len_nonneg (r_swapped s)).
  assert (0 <= accept_w (q_accept (r_pcs s))) by (by destruct (q_accept _)). assert (0 <= knock_w (q_knock (r_pcs s))) by (by destruct (q_knock _)).
  assert (0 <= watch_w (q_watch (r_pcs s))) by (by destruct (q_watch _)). assert (0 <= exit_w (q_exit (r_pcs s))) by (by destruct (q_exit _)). lia.
Qed.

Section Ends.
Context {H : Type} `{Host H} (g : relay_Gateway) (st : relay_start).
Implicit Types s : rstate H.

Lemma worker_lowers s i w w' : q_workers (r_pcs s) !! i = Some w -> sum_of worker_w (<[i := w']> (q_workers (r_pcs s))) = sum_of worker_w (q_workers (r_pcs s)) - worker_w w + worker_w w'.
Proof. intros Hi. rewrite (sum_of_insert _ _ _ _ _ Hi). lia. Qed.

Lemma gw_left_on_world {A} (m : FW (world H) A) s : gw_left (r_gw (snd (on_world m s))) = gw_left (r_gw s).
Proof. unfold on_world. by destruct (m _). Qed.

Lemma left_worker i w x s s' : q_workers (r_pcs s) !! i = Some w -> relay_worker g st i w x s = Some s' -> relay_left s' < relay_left s /\ r_flags s' = r_flags s.
Proof.
  intros Hi. pose proof (fun w' => worker_lowers s i w w' Hi) as Hw. unfold relay_worker. destruct w as [|c r|c r peer addr|c r peer|c|c peer|], x; try done.
  - destruct (k_pending (r_conns s)) as [|[c r] rest] eqn:Ep; [done|]. intros [= <-]. unfold relay_left. cbn. rewrite Hw, Ep, len_cons. cbn. split; [lia|done].
  - destruct (k_pending (r_conns s)) eqn:Ep; [|done]. destruct (k_pendingClosed _); [|done]. intros [= <-]. unfold relay_left. cbn. rewrite Hw. cbn. split; [lia|done].
  - intros [= <-]. unfold authenticateConn. set (m := auth_decide _ _ _ _). pose proof (on_world_same m s) as (E1 & E2 & E3 & E4 & _). pose proof (gw_left_on_world m s) as E5.
    destruct (on_world m s) as [v s1]. cbn [snd] in *. destruct v; unfold relay_left; cbn; rewrite ?E1, ?E2, ?E3, ?E4, ?E5, Hw; cbn; (split; [lia|done]).
  - intros [= <-]. set (m := access_revoke _ _ _). pose proof (on_world_same m s) as (E1 & E2 & E3 & E4 & _). pose proof (gw_left_on_world m s) as E5.
    unfold relay_left. cbn. rewrite E1, E2, E3, E4, E5, Hw. cbn. split; [lia|done].
  - intros [= <-]. unfold relay_left. cbn. rewrite Hw. destruct peer; cbn; (split; [lia|done]).
  - intros [= <-]. unfold relay_left. cbn. rewrite Hw. cbn. split; [lia|done].
  - intros [= <-]. unfold relay_left. cbn. rewrite Hw, sum_of_app, sum_of_one. cbn. split; [lia|done].
Qed.

(** A step of its own brings the end nearer. *)
Lemma rstep_left s x s' : ctrl_inv s -> run_done (r_flags s) = true -> own_step x = true -> rstep g st s x = Some s' ->
  relay_left s' < relay_left s /\ run_done (r_flags s') = true.
Proof.
  intros I Hd Hx. destruct x as [x|i x|j o|err|x|k now now'|k| | |]; cbn [rstep]; try done.
  - pose proof (b_acc s I) as Ha. unfold relay_accept, loop_return. rewrite Hd. destruct (q_accept (r_pcs s)) as [|c r|d|] eqn:Ea, x; try done; cbn in Ha;
      (assert (Hr : q_exit (r_pcs s) = Running) by (by destruct (q_exit (r_pcs s)))).
    + destruct (_ && _); [done|]. destruct (h_childErr _); intros [= <-]; unfold relay_left; cbn; rewrite Ea, Hr; cbn; (split; [lia|done]).
    + destruct (Z.ltb _ _); [|done]. intros [= <-]. unfold relay_left. cbn. rewrite Ea, len_app. cbn. split; [change (len [(c, r)]) with 1; lia|done].
    + intros [= <-]. unfold relay_left. cbn. rewrite Ea, Hr. cbn. split; [lia|done].
    + intros [= <-]. unfold relay_left. cbn. rewrite Ea. cbn. split; [lia|done].
    + intros [= <-]. unfold relay_left. cbn. rewrite Ea, Hr. cbn. split; [lia|done].
  - destruct (q_workers (r_pcs s) !! i) as [w|] eqn:Hi; [|done]. intros E. destruct (left_worker i w x s s' Hi E) as [Hl ->]. done.
  - unfold relay_goroutine. destruct (q_relays (r_pcs s) !! j) as [[c peer|c|]|] eqn:Ej; try done; intros [= <-]; unfold relay_left; cbn;
      rewrite (sum_of_insert _ _ _ _ _ Ej); cbn; (split; [lia|done]).
  - unfold relay_knock. destruct (q_knock (r_pcs s)) eqn:Ek; try done.
    + destruct (g_handler _); [done|]. rewrite Hd. destruct err; intros [= <-]; unfold relay_left; cbn; rewrite Ek; cbn; (split; [lia|done]).
    + intros [= <-]. unfold relay_left. cbn. rewrite Ek. cbn. split; [lia|done].
    + intros [= <-]. unfold relay_left. cbn. rewrite Ek. cbn. split; [lia|done].
  - unfold relay_gw. set (may := match x with SKnock _ _ => _ | _ => _ end). destruct may eqn:Em; [|done]. destruct (gstep _ _ _ _) as [q|] eqn:E; [|done]. intros [= <-].
    apply gstep_left in E; [|by destruct x]. unfold relay_left. cbn. split; [lia|done].
  - unfold relay_swapped_fire. destruct (gstep _ _ _ _) as [q|] eqn:E; [|done]. intros [= <-]. apply gstep_left in E; [|done].
    unfold relay_left, gw_left, len in *. cbn in *. split; [lia|done].
  - unfold relay_stop. destruct (r_swapped s !! k) eqn:Ek; [|done]. intros [= <-]. apply length_delete_lt in Ek. unfold relay_left, len. cbn. split; [lia|done].
  - unfold relay_watch. destruct (q_watch (r_pcs s)) eqn:Ew; try done; [rewrite Hd|]; intros [= <-]; unfold relay_left; cbn; rewrite Ew; cbn; (split; [lia|done]).
  - unfold relay_exit. destruct (q_exit (r_pcs s)) as [|e|e|e|e|e c|e c|e c|] eqn:Ex; try done.
    + intros [= <-]. unfold relay_left. cbn. rewrite Ex. cbn. split; [lia|done].
    + intros [= <-]. unfold relay_left. cbn. rewrite Ex. cbn. split; [lia|done].
    + destruct (run_idle s); [|done]. intros [= <-]. unfold relay_left. cbn. rewrite Ex. cbn. split; [lia|done].
    + set (m := CleanupFirewallDetached _). pose proof (on_world_same m s) as (E1 & E2 & E3 & E4 & _). pose proof (gw_left_on_world m s) as E5.
      destruct (on_world m s) as [err s1]. intros [= <-]. cbn [snd] in *. unfold relay_left. cbn. rewrite E1, E2, E3, E4, E5, Ex. cbn. split; [lia|done].
    + intros [= <-]. unfold relay_left, gw_left, len. cbn. rewrite Ex. cbn. split; [lia|done].
    + destruct (timers_stopped s); [|done]. intros [= <-]. unfold relay_left. cbn. rewrite Ex. cbn. split; [lia|done].
    + intros [= <-]. unfold relay_left. cbn. rewrite Ex. cbn. split; [lia|done].
Qed.

Lemma rrun_app xs ys s s1 s2 : rrun g st s (xs ++ ys) = Some s2 -> rrun g st s xs = Some s1 -> rrun g st s1 ys = Some s2.
Proof.
  revert s. induction xs as [|x xs IH]; intros s; cbn [rrun app]; [by intros E [= <-]|]. destruct (rstep g st s x) as [s'|]; [|done]. apply IH.
Qed.

Lemma not_all {A} (x : A) (l : list A) `{!forall y, Decision (y = x)} : ~ Forall (.= x) l -> exists i y, l !! i = Some y /\ y <> x.
Proof.
  induction l as [|a l IH]; intros Hn; [by destruct Hn|]. destruct (decide (a = x)) as [->|Ha]; [|by exists 0%nat, a].
  destruct IH as (i & y & Hi & Hy); [intros Hl; apply Hn; by constructor|]. by exists (S i), y.
Qed.

Lemma rworker_enabled s i w : q_workers (r_pcs s) !! i = Some w -> w <> RStopped -> k_pendingClosed (r_conns s) = true ->
  exists x s', own_step x = true /\ rstep g st s x = Some s'.
Proof.
  intros Hi Hw Hc. assert (Hgo : forall x s', relay_worker g st i w x s = Some s' -> exists x s', own_step x = true /\ rstep g st s x = Some s').
  { intros x s' E. exists (RWorker i x), s'. split; [done|]. cbn [rstep]. by rewrite Hi. }
  destruct w as [|c r|c r peer addr|c r peer|c|c peer|]; try done.
  - destruct (k_pending (r_conns s)) as [|[c r] rest] eqn:Ep; [eapply (Hgo RExit)|eapply (Hgo RTake)]; cbn [relay_worker]; by rewrite Ep, ?Hc.
  - by eapply (Hgo (RAuth (AuthFail net_ErrClosed))).
  - by eapply (Hgo RRevoke).
  - by eapply (Hgo RRelease).
  - by eapply (Hgo RForget).
  - by eapply (Hgo RSpawn).
Qed.

Lemma relay_enabled s j p : q_relays (r_pcs s) !! j = Some p -> p <> RelayDone -> exists x s', own_step x = true /\ rstep g st s x = Some s'.
Proof.
  intros Hj Hp. exists (RRelay j (Copied 0 0)). cbn [rstep]. unfold relay_goroutine. rewrite Hj. destruct p; try done; by eexists.
Qed.

(** As long as [run] has not returned, some step can be taken. *)
Lemma rstep_enabled s : ctrl_inv s -> run_done (r_flags s) = true -> is_returned (q_exit (r_pcs s)) = false ->
  exists x s', own_step x = true /\ rstep g st s x = Some s'.
Proof.
  intros I Hd Hr. pose proof (b_acc s I) as Ha. pose proof (b_closed s I) as Hc.
  destruct (q_exit (r_pcs s)) as [|e|e|e|e|e c|e c|e c|] eqn:Ex; try done.
  - cbn in Ha. destruct (q_accept (r_pcs s)) as [|c r|d|] eqn:Ea; try done.
    + exists (RLoop (RAcceptErr (mkAcceptError true false None net_ErrClosed))). cbn [rstep]. unfold relay_accept. rewrite Ea, Hd. cbn. rewrite andb_false_r.
      destruct (h_childErr _); by eexists.
    + exists (RLoop RQuit). cbn [rstep]. unfold relay_accept. rewrite Ea, Hd. by eexists.
    + exists (RLoop RSleepQuit). cbn [rstep]. unfold relay_accept. rewrite Ea, Hd. by eexists.
  - exists RExitStep. cbn [rstep]. unfold relay_exit. rewrite Ex. by eexists.
  - exists RExitStep. cbn [rstep]. unfold relay_exit. rewrite Ex. by eexists.
  - destruct (run_idle s) eqn:Hi; [exists RExitStep; cbn [rstep]; unfold relay_exit; rewrite Ex, Hi; by eexists|].
    unfold run_idle in Hi. destruct (q_knock (r_pcs s)) eqn:Ek.
    2:{ destruct (g_handler (r_gw s)) as [[remote ev]|] eqn:Eh.
        - exists (RGw (SAdmit Serving 0 0 0)). cbn [rstep]. unfold relay_gw. rewrite Ek. cbn [gstep]. rewrite Eh. destruct (knock_admit _ _ _ _ _ _ _ _ _). by eexists.
        - exists (RKnock None). cbn [rstep]. unfold relay_knock. rewrite Ek, Eh. by eexists. }
    2:{ exists (RKnock None). cbn [rstep]. unfold relay_knock. rewrite Ek. by eexists. }
    2:{ exists (RKnock None). cbn [rstep]. unfold relay_knock. rewrite Ek. by eexists. }
    all: destruct (q_watch (r_pcs s)) eqn:Ew; [exists RWatch; cbn [rstep]; unfold relay_watch; rewrite Ew, Hd; by eexists|exists RWatch; cbn [rstep]; unfold relay_watch; rewrite Ew; by eexists|].
    all: destruct (decide (Forall (.= RStopped) (q_workers (r_pcs s)))) as [Hf|Hf];
      [rewrite (bool_decide_eq_true_2 _ Hf) in Hi; cbn in Hi; apply bool_decide_eq_false in Hi; destruct (not_all RelayDone _ Hi) as (j & p & Hj & Hp); by eapply relay_enabled
      |destruct (not_all RStopped _ Hf) as (i & w & Hj & Hw); eapply rworker_enabled; [exact Hj|exact Hw|exact Hc]].
  - exists RExitStep. cbn [rstep]. unfold relay_exit. rewrite Ex. destruct (on_world _ s). by eexists.
  - exists RExitStep. cbn [rstep]. unfold relay_exit. rewrite Ex. by eexists.
  - destruct (timers_stopped s) eqn:Ht; [exists RExitStep; cbn [rstep]; unfold relay_exit; rewrite Ex, Ht; by eexists|].
    unfold timers_stopped in Ht. destruct (r_swapped s) as [|t l] eqn:Es.
    2:{ exists (RStop 0). cbn [rstep]. unfold relay_stop. rewrite Es. by eexists. }
    destruct (g_timers (r_gw s)) as [|t l] eqn:Et.
    2:{ exists (RGw (SFire 0 (tm_due t) (tm_due t))). cbn [rstep]. unfold relay_gw. cbn [gstep]. rewrite Et. cbn. rewrite Z.ltb_irrefl. destruct (timer_expire _ _ _ _ _ _). by eexists. }
    destruct (g_revoking (r_gw s)) as [|[timed r] l] eqn:Er; [done|].
    exists (RGw (SRevoke 0)). cbn [rstep]. unfold relay_gw. cbn [gstep]. rewrite Er. cbn. destruct (_ (g_world _)). by eexists.
  - exists RExitStep. cbn [rstep]. unfold relay_exit. rewrite Ex. by eexists.
Qed.

End Ends.

