(* ===== verification/RelayRunIptables.v ===== *)
(** A relay gateway on the iptables backend, through a whole life: the theorems
    about its end applied to a run. *)

From Stdlib Require Import ZArith Lia String.
From Stdlib Require Strings.Byte.
From stdpp Require Import base list gmap strings.
From S2P Require Import Prelude GoStd Net Session KnockFrame KnockSeq KnockListen Firewall FirewallSpec Gateway RelayConfig Listener Gate GateSpec GateIptables RelayRun RelayRunSpec AuthTypes.

Open Scope Z_scope.

Definition ex_relay : relay_Gateway :=
  mkRelay (str "0.0.0.0:22") (str "127.0.0.1:2222") ex_gate_auth None None (Some (BIptables ex_gate_fw)) UDPMethod [] 0
    [mkClientSecret (str "alice") (repeat Byte.x41 32)] 0 0 (mkSequenceOptions 0 0 0 0 0 0 0 false) 0 10 0 0 false 1 false 4 2 0.

Definition ex_relay_world : world (toy no_chain) := mkWorld None [] ex_toy [] None.

Definition ex_relay_peer : PeerInfo := 
  mkPeerInfo (str "alice") [] 0 [] 0 22 UDPMethod [] [] (Some (TCPAddr [Byte.x0a; Byte.x00; Byte.x00; Byte.x01] 40000)) [] Byte.x00.

(** A connection arrives, a client knocks, the connection is authenticated and
    relayed; the caller ends the context, and [run] goes to its end. *)
Definition relay_life : list rlabel :=
  [RLoop (RAccept (Some (TCPAddr [Byte.x0a; Byte.x00; Byte.x00; Byte.x01] 40000))); RLoop RQueue;
   RGw (SKnock Serving ex_gate_event); RGw (SAdmit Serving 0 0 1);
   RWorker 0 RTake; RWorker 0 (RAuth (AuthPeer ex_relay_peer 2 None)); RWorker 0 RRelease; RWorker 0 RSpawn;
   RParent; RWatch; RWatch; RLoop (RAcceptErr (mkAcceptError true false None net_ErrClosed)); RExitStep; RExitStep;
   RWorker 0 RExit; RWorker 1 RExit; RRelay 0 (Copied 3 4); RRelay 0 (Copied 3 4); RKnock None;
   RExitStep; RExitStep; RExitStep; RStop 0; RExitStep; RExitStep].

Definition ex_relay_run (xs : list rlabel) : option (rstate (toy no_chain)) :=
  match run_start Serving ex_relay (Ok ex_ln) ex_relay_world with
  | (Ok st, w) => rrun ex_relay st (relay_init ex_relay st w) xs
  | (Err _, _) => None
  end.

Lemma ex_relay_run_ok xs (test : rstate (toy no_chain) -> bool) :
  match ex_relay_run xs with Some s => test s | None => false end = true -> exists s, ex_relay_run xs = Some s /\ test s = true.
Proof. destruct (ex_relay_run xs) as [s|]; [|discriminate]. intros Ht. by exists s. Qed.

Definition returned_clean {H} (s : rstate H) : bool := match q_exit (r_pcs s) with Returned None None => true | _ => false end.

Definition relay_life_events {H} (s : rstate H) : bool :=
  match k_events (r_conns s) with [RelayOK (Some _) _ 3 4] => true | _ => false end.

Example relay_life_ok : match ex_relay_run relay_life with Some s => returned_clean s && relay_life_events s | None => false end = true.
Proof. vm_compute. reflexivity. Qed.

(** The start of [run], which is never computed as a whole. *)
Lemma ex_relay_start : exists auth cache store port pending perSource workers w,
  run_start Serving ex_relay (Ok ex_ln) ex_relay_world = (Ok (mkRelayStart auth cache store port (BIptables ex_gate_fw) pending perSource workers), w) /\
  gf_ok (GateFirewall := ex_gate_firewall) (w_fw w).
Proof.
  unfold run_start. assert (Hc : run_checks ex_relay = Ok (BIptables ex_gate_fw)) by reflexivity. rewrite Hc. destruct (run_auth ex_relay) as [auth cache] eqn:Ea.
  assert (Hp : sv_ServerPort auth = 0) by (unfold run_auth in Ea; injection Ea as <- _; reflexivity).
  cbv zeta. rewrite Hp. change (Z.leb 0 0) with true. cbv iota. change (ListenerPort (Some ex_ln)) with 22.
  unfold InitFirewall, mbind, FW_bind, on_fw. cbn [ex_relay_world w_fw]. rewrite ex_gate_bound. cbn [w_fw].
  assert (Hs : is_nil (fst (fo_Init (backend_ops (BIptables ex_gate_fw)) Serving (ex_toy : toy no_chain))) = true) by (vm_compute; reflexivity).
  destruct (fo_Init (backend_ops (BIptables ex_gate_fw)) Serving (ex_toy : toy no_chain)) as [[e|] h] eqn:Eh; [discriminate Hs|]. unfold mret, FW_ret. do 8 eexists. split; [reflexivity|].
  exact (gf_init (GateFirewall := ex_gate_firewall) Serving ex_toy None h ex_gate_ok Eh).
Qed.

Lemma relay_run_cleans_witness :
  exists s, ex_relay_run relay_life = Some s /\ length (k_remotes (r_conns s)) = 1%nat /\ (0%nat ∈ k_closed (r_conns s)) /\ run_idle s = true /\
    timers_stopped s = true /\ swept toy_tables ex_gate_fw true (w_fw (g_world (r_gw s))).
Proof.
  destruct (ex_relay_run_ok relay_life (fun s => returned_clean s && Nat.eqb (length (k_remotes (r_conns s))) 1)) as (s & E & [Hr Hk]%andb_true_iff); [vm_compute; reflexivity|].
  exists s. split; [exact E|]. apply Nat.eqb_eq in Hk. split; [exact Hk|].
  unfold returned_clean in Hr. destruct (q_exit (r_pcs s)) as [| | | | | | | |[e|] [c|]] eqn:Ex; try discriminate Hr.
  destruct ex_relay_start as (auth & cache & store & port & pe & ps & ws & w & Es & Hw). unfold ex_relay_run in E. rewrite Es in E.
  destruct (relay_run_cleans Serving ex_relay (Ok ex_ln) (mkRelayStart auth cache store port (BIptables ex_gate_fw) pe ps ws) (GateFirewall0 := ex_gate_firewall)
              ex_relay_world w relay_life s None None Es Hw E Ex) as (Hc & _ & Hi & _ & Ht & _ & Hf).
  split; [apply Hc; rewrite Hk; constructor|]. split; [exact Hi|]. split; [exact Ht|]. destruct Hf as [Hn|Hf]; [by destruct Hn|exact Hf].
Defined.

