(* ===== verification/Pipe.v ===== *)
(** relay/pipe.go and auth/buffered_conn.go: the bytes of a relayed session.

    [BidirectionalContext] copies both ways between two connections, each way on
    a goroutine of its own, while a third closes both when the context ends.
    [pstep] is one step of one of them; what the network answers to a read or a
    write is the label of the step. *)

From Stdlib Require Import ZArith Lia String.
From Stdlib Require Strings.Byte.
From stdpp Require Import base list strings.
From S2P Require Import Prelude GoStd.

Open Scope Z_scope.

(** * Connections *)

(** [pc_buffered] and [pc_bufErr] are the bytes and the error that the
    [bufio.Reader] of a [bufferedConn] still has, [pc_net] the bytes that reads
    have taken from the network since, [pc_read] those that [Read] has returned
    and [pc_written] those that [Write] has accepted. [pc_closeWrite] and
    [pc_closeRead] say whether the type of the connection has these methods. *)
Record pconn := mkPconn {
  pc_closeWrite : bool; pc_closeRead : bool; pc_buffered : bytes; pc_bufErr : option error; pc_net : bytes; pc_read : bytes; pc_written : bytes;
  pc_deadline : option Z; pc_closed : bool; pc_wrClosed : bool; pc_rdClosed : bool;
}.

(** The connection that [ServerAuth] returns: [authenticatedConn] embeds
    [bufferedConn], which embeds the interface [net.Conn]. It has the methods of
    the interface, and these do not include [CloseWrite] and [CloseRead]. *)
Definition authenticatedConn (buffered : bytes) (bufErr : option error) : pconn :=
  mkPconn false false buffered bufErr [] [] [] None false false false.

(** A [*net.TCPConn], as the dialer returns it. *)
Definition tcpConn : pconn := mkPconn true true [] None [] [] [] None false false false.

Definition pc_Close (c : pconn) : pconn :=
  mkPconn (pc_closeWrite c) (pc_closeRead c) (pc_buffered c) (pc_bufErr c) (pc_net c) (pc_read c) (pc_written c) (pc_deadline c) true (pc_wrClosed c) (pc_rdClosed c).
Definition closeWrite (c : pconn) : pconn :=
  if pc_closeWrite c then mkPconn true (pc_closeRead c) (pc_buffered c) (pc_bufErr c) (pc_net c) (pc_read c) (pc_written c) (pc_deadline c) (pc_closed c) true (pc_rdClosed c)
  else pc_Close c.
Definition closeRead (c : pconn) : pconn :=
  if pc_closeRead c then mkPconn (pc_closeWrite c) true (pc_buffered c) (pc_bufErr c) (pc_net c) (pc_read c) (pc_written c) (pc_deadline c) (pc_closed c) (pc_wrClosed c) true
  else pc_Close c.
Definition SetReadDeadline (t : Z) (c : pconn) : pconn :=
  mkPconn (pc_closeWrite c) (pc_closeRead c) (pc_buffered c) (pc_bufErr c) (pc_net c) (pc_read c) (pc_written c) (Some t) (pc_closed c) (pc_wrClosed c) (pc_rdClosed c).

(** The buffer of [io.Copy]. *)
Definition copy_size : nat := Z.to_nat 32768.

(** [Read] gives what the reader still has, otherwise what the network gives:
    [data] and [err], at most a buffer, and on a closed connection nothing but
    an error that says so. *)
Definition conn_Read (data : bytes) (err : option error) (c : pconn) : option (bytes * option error * pconn) :=
  let set buffered bufErr net d := mkPconn (pc_closeWrite c) (pc_closeRead c) buffered bufErr (pc_net c ++ net) (pc_read c ++ d) (pc_written c)
    (pc_deadline c) (pc_closed c) (pc_wrClosed c) (pc_rdClosed c) in
  match pc_buffered c, pc_bufErr c with
  | _ :: _, e => let d := take copy_size (pc_buffered c) in Some (d, None, set (drop copy_size (pc_buffered c)) e [] d)
  | [], Some e => Some ([], Some e, set [] None [] [])
  | [], None =>
      let allowed :=
        if pc_closed c then bool_decide (data = []) && match err with Some e => errors_Is e net_ErrClosed | None => false end
        else Nat.leb (length data) copy_size in
      if allowed : bool then Some (data, err, set [] None data data) else None
  end.

(** [Write] accepts the first [n] bytes, with an error if these are not all (the
    contract of [io.Writer]); it accepts none on a closed connection. *)
Definition conn_Write (p : bytes) (n : nat) (err : option error) (c : pconn) : option pconn :=
  let allowed :=
    if pc_closed c then Nat.eqb n 0 && match err with Some e => errors_Is e net_ErrClosed | None => false end
    else Nat.leb n (length p) && match err with Some _ => true | None => Nat.eqb n (length p) end in
  if allowed : bool then
    Some (mkPconn (pc_closeWrite c) (pc_closeRead c) (pc_buffered c) (pc_bufErr c) (pc_net c) (pc_read c) (pc_written c ++ take n p)
      (pc_deadline c) (pc_closed c) (pc_wrClosed c) (pc_rdClosed c))
  else None.

(** [deadlineReader] and [countingWriter] *)
Definition deadlineReader_Read (timeout now : Z) (data : bytes) (err : option error) (c : pconn) : option (bytes * option error * pconn) :=
  conn_Read data err (if Z.ltb 0 timeout then SetReadDeadline (now + timeout) c else c).
Definition countingWriter_Write (p : bytes) (n : nat) (err : option error) (c : pconn) (counter : Z) : option (pconn * Z) :=
  c ← conn_Write p n err c; Some (c, counter + Z.of_nat n).

(** * One direction *)

(** [copyHalf]: not started, before a read, with bytes to write and the error of
    the read, and the two calls at its end with the error it returns. *)
Inductive half_pc := HStart | HReading | HWriting (data : bytes) (er : option error) | HCloseWrite (err : option error) | HCloseRead (err : option error) | HDone (err : option error).

(** How the loop of [io.Copy] goes on after the error of a read. *)
Definition after_read (er : option error) : half_pc :=
  match er with
  | None => HReading
  | Some e => HCloseWrite (if bool_decide (e = io_EOF) then None else Some e)
  end.

(** What the network answers, and the clock. *)
Inductive half_label := LStart (now : Z) | LRead (now : Z) (data : bytes) (err : option error) | LWrite (n : nat) (err : option error) | LClose.

Definition copyHalf (idleTimeout : Z) (x : half_label) (pc : half_pc) (dst src : pconn) (counter : Z) : option (half_pc * pconn * pconn * Z) :=
  match pc, x with
  | HStart, LStart now => Some (HReading, dst, (if Z.ltb 0 idleTimeout then SetReadDeadline (now + idleTimeout) src else src), counter)
  | HReading, LRead now data err =>
      match deadlineReader_Read idleTimeout now data err src with
      | None => None
      | Some (d, er, src) => Some (match d with [] => after_read er | _ :: _ => HWriting d er end, dst, src, counter)
      end
  | HWriting d er, LWrite n ew =>
      match countingWriter_Write d n ew dst counter with
      | None => None
      | Some (dst, counter) => Some (match ew with Some e => HCloseWrite (Some e) | None => after_read er end, dst, src, counter)
      end
  | HCloseWrite err, LClose => Some (HCloseRead err, closeWrite dst, src, counter)
  | HCloseRead err, LClose => Some (HDone err, dst, closeRead src, counter)
  | _, _ => None
  end.

(** * Both directions *)

Definition benign (err : option error) : bool := match err with None => true | Some e => errors_Is e io_EOF || errors_Is e net_ErrClosed end.

Definition relayCopyError (errs : list (option error)) : option error :=
  foldr (fun err acc => if benign err then acc else errors_Join err acc) None errs.

(** The goroutine that waits for the context: closing [a], then [b]. *)
Inductive pwatch_pc := PWatching | PWatchClosing | PWatchDone.

(** [p_results] is the channel: [true] is the direction to [a]. *)
Record pipe := mkPipe {
  p_a : pconn; p_b : pconn; p_rx : Z; p_tx : Z; p_toA : half_pc; p_toB : half_pc; p_results : list (bool * option error);
  p_ctxDone : bool; p_watch : pwatch_pc; p_ret : option (Z * Z * option error);
}.

(** [withCtx] says that the context is not [nil]. *)
Definition pipe_start (withCtx : bool) (a b : pconn) : pipe := mkPipe a b 0 0 HStart HStart [] false (if withCtx then PWatching else PWatchDone) None.

Inductive plabel := PToA (x : half_label) | PToB (x : half_label) | PWatch | PWatchStop | PReturn | PCtxDone.

(** A direction that has ended sends its error. *)
Definition sent (to_a : bool) (pc : half_pc) (l : list (bool * option error)) : list (bool * option error) :=
  match pc with HDone err => l ++ [(to_a, err)] | _ => l end.

Definition pstep (idleTimeout : Z) (s : pipe) (x : plabel) : option pipe :=
  match x with
  | PToA x =>
      match copyHalf idleTimeout x (p_toA s) (p_a s) (p_b s) (p_rx s) with
      | None => None
      | Some (pc, a, b, n) => Some (mkPipe a b n (p_tx s) pc (p_toB s) (sent true pc (p_results s)) (p_ctxDone s) (p_watch s) (p_ret s))
      end
  | PToB x =>
      match copyHalf idleTimeout x (p_toB s) (p_b s) (p_a s) (p_tx s) with
      | None => None
      | Some (pc, b, a, n) => Some (mkPipe a b (p_rx s) n (p_toA s) pc (sent false pc (p_results s)) (p_ctxDone s) (p_watch s) (p_ret s))
      end
  | PWatch =>
      match p_watch s with
      | PWatching =>
          if p_ctxDone s then Some (mkPipe (pc_Close (p_a s)) (p_b s) (p_rx s) (p_tx s) (p_toA s) (p_toB s) (p_results s) true PWatchClosing (p_ret s))
          else None
      | PWatchClosing => Some (mkPipe (p_a s) (pc_Close (p_b s)) (p_rx s) (p_tx s) (p_toA s) (p_toB s) (p_results s) (p_ctxDone s) PWatchDone (p_ret s))
      | PWatchDone => None
      end
  | PWatchStop =>
      match p_watch s, p_ret s with
      | PWatching, Some _ => Some (mkPipe (p_a s) (p_b s) (p_rx s) (p_tx s) (p_toA s) (p_toB s) (p_results s) (p_ctxDone s) PWatchDone (p_ret s))
      | _, _ => None
      end
  | PReturn =>
      match p_results s, p_ret s with
      | [(_, errA); (_, errB)], None =>
          Some (mkPipe (p_a s) (p_b s) (p_rx s) (p_tx s) (p_toA s) (p_toB s) (p_results s) (p_ctxDone s) (p_watch s)
                  (Some (p_rx s, p_tx s, relayCopyError [errA; errB])))
      | _, _ => None
      end
  | PCtxDone => Some (mkPipe (p_a s) (p_b s) (p_rx s) (p_tx s) (p_toA s) (p_toB s) (p_results s) true (p_watch s) (p_ret s))
  end.

Fixpoint prun (idleTimeout : Z) (s : pipe) (xs : list plabel) : option pipe :=
  match xs with [] => Some s | x :: xs => match pstep idleTimeout s x with None => None | Some s => prun idleTimeout s xs end end.

Definition BidirectionalContext (idleTimeout : Z) (withCtx : bool) (a b : pconn) (xs : list plabel) : option pipe := prun idleTimeout (pipe_start withCtx a b) xs.
