(* ===== verification/PipeSpec.v ===== *)
(** What a relayed session promises: the bytes that reach one side are, in order,
    those the other side has sent, the counters are exact, and the session ends
    after its context has; and what becomes of a client that closes only its
    sending side. *)

From Stdlib Require Import ZArith Lia String.
From Stdlib Require Strings.Byte.
From stdpp Require Import base list strings.
From S2P Require Import Prelude GoStd Pipe.

Open Scope Z_scope.

#[local] Opaque copy_size.

(** The bytes that the peer of a connection has sent, as far as they were
    received: those left over from the authentication first. *)
Definition fresh (c : pconn) : Prop := pc_net c = [] /\ pc_read c = [] /\ pc_written c = [] /\ pc_closed c = false.

(** What one direction knows of its connections. *)
Definition half_ok (pc : half_pc) (dst src : pconn) (counter : Z) : Prop :=
  counter = len (pc_written dst) /\
  match pc with
  | HStart | HReading => pc_written dst = pc_read src
  | HWriting d er => pc_written dst ++ d = pc_read src /\ (er <> None -> pc_buffered src = [])
  | HCloseWrite None | HCloseRead None | HDone None => pc_written dst = pc_read src /\ pc_buffered src = []
  | HCloseWrite (Some _) | HCloseRead (Some _) | HDone (Some _) => pc_written dst `prefix_of` pc_read src
  end.

(** Nothing is lost between the reader and the network. *)
Definition stream_ok (buffered : bytes) (c : pconn) : Prop := pc_read c ++ pc_buffered c = buffered ++ pc_net c.

Lemma half_prefix pc dst src n : half_ok pc dst src n -> pc_written dst `prefix_of` pc_read src.
Proof.
  intros [_ Hp]. destruct pc as [| |d er|[]|[]|[]]; try exact Hp; try (by rewrite Hp); [destruct Hp as [<- _]; by exists d|..]; destruct Hp as [-> _]; done.
Qed.

(** The fields that a direction reads. *)
Definition same_written (c c' : pconn) : Prop := pc_written c' = pc_written c.
Definition same_read (c c' : pconn) : Prop := pc_read c' = pc_read c /\ pc_buffered c' = pc_buffered c /\ pc_net c' = pc_net c.

Lemma half_other pc dst src n dst' src' : same_written dst dst' -> same_read src src' -> half_ok pc dst src n -> half_ok pc dst' src' n.
Proof. intros Ew (Er & Eb & _) [Hc Hp]. unfold half_ok, same_written in *. by rewrite Ew, Er, Eb. Qed.

Lemma Close_same c : same_written c (pc_Close c) /\ same_read c (pc_Close c).
Proof. by destruct c. Qed.

Lemma closeWrite_same c : same_written c (closeWrite c) /\ same_read c (closeWrite c).
Proof. destruct c as [[]]; done. Qed.

Lemma closeRead_same c : same_written c (closeRead c) /\ same_read c (closeRead c).
Proof. destruct c as [? []]; done. Qed.

Lemma deadline_same (b : bool) t c : same_written c (if b then SetReadDeadline t c else c) /\ same_read c (if b then SetReadDeadline t c else c).
Proof. by destruct b, c. Qed.

(** A read hands on the next bytes; with an error the reader has no more. *)
Lemma conn_Read_spec data err c d er c' buf : stream_ok buf c -> conn_Read data err c = Some (d, er, c') ->
  pc_read c' = pc_read c ++ d /\ stream_ok buf c' /\ same_written c c' /\ (er <> None -> pc_buffered c' = []).
Proof.
  unfold stream_ok, conn_Read, same_written. intros Hs. destruct (pc_buffered c) as [|x l] eqn:Eb.
  - destruct (pc_bufErr c) as [e|].
    + intros [= <- <- <-]. cbn. rewrite !app_nil_r in *. done.
    + destruct (if pc_closed c then _ else _); [|done]. intros [= <- <- <-]. cbn. rewrite !app_nil_r in *. split_and!; try done. rewrite Hs. by rewrite (assoc_L (++)).
  - intros E. injection E as <- <- <-. cbn [pc_read pc_buffered pc_net pc_written]. rewrite app_nil_r, <- (assoc_L (++)), take_drop. split_and!; try done.
Qed.

Lemma conn_Write_spec p n err c c' : conn_Write p n err c = Some c' ->
  pc_written c' = pc_written c ++ take n p /\ same_read c c' /\ (n <= length p)%nat /\ (err = None -> n = length p).
Proof.
  unfold conn_Write, same_read. destruct (pc_closed c).
  - destruct (Nat.eqb_spec n 0) as [->|]; [|done]. destruct err; [|done]. destruct (errors_Is _ _); [|done]. intros [= <-]. cbn. split_and!; (lia || done).
  - destruct (Nat.leb_spec n (length p)); [|done]. destruct err; cbn.
    + intros [= <-]. cbn. split_and!; (lia || done).
    + destruct (Nat.eqb_spec n (length p)); [|done]. intros [= <-]. cbn. split_and!; (lia || done).
Qed.

Lemma after_read_ok er dst src n : half_ok HReading dst src n -> (er <> None -> pc_buffered src = []) -> half_ok (after_read er) dst src n.
Proof.
  intros [Hc Hp] Hb. unfold after_read. destruct er as [e|]; [|done]. split; [done|]. destruct (bool_decide _).
  - split; [done|by apply Hb].
  - by rewrite Hp.
Qed.

(** A step of one direction keeps what it knows, and does not disturb the other. *)
Lemma copyHalf_ok idle x pc dst src n pc' dst' src' n' buf :
  half_ok pc dst src n -> stream_ok buf src -> copyHalf idle x pc dst src n = Some (pc', dst', src', n') ->
  half_ok pc' dst' src' n' /\ stream_ok buf src' /\ same_read dst dst' /\ same_written src src'.
Proof.
  intros Hh Hs. unfold copyHalf, deadlineReader_Read, countingWriter_Write. destruct pc as [| |d er|err|err|err], x as [now|now data e|k ew|]; try done.
  - intros [= <- <- <- <-]. destruct (deadline_same (0 <? idle) (now + idle) src) as [Ew Er]. split_and!; try done.
    + by eapply half_other; [reflexivity|exact Er|].
    + unfold stream_ok in *. destruct Er as (-> & -> & ->). done.
  - set (src0 := if 0 <? idle then _ else src). destruct (deadline_same (0 <? idle) (now + idle) src) as [Ew0 Er0]. fold src0 in Ew0, Er0.
    destruct (conn_Read data e src0) as [[[d er] src1]|] eqn:E; [|done]. intros [= <- <- <- <-].
    apply (conn_Read_spec _ _ _ _ _ _ buf) in E as (E1 & E2 & E3 & E4); [|unfold stream_ok in *; destruct Er0 as (-> & -> & ->); done].
    destruct Er0 as (Er0 & _ & _). rewrite Er0 in E1. destruct Hh as [Hc Hp]. split_and!; try done; [|unfold same_written in *; congruence].
    destruct d as [|y d]; [|split; [done|]; split; [by rewrite Hp, E1|done]].
    apply after_read_ok; [|done]. split; [done|]. by rewrite Hp, E1, app_nil_r.
  - destruct (conn_Write d k ew dst) as [dst1|] eqn:E; [|done]. intros [= <- <- <- <-]. apply conn_Write_spec in E as (E1 & E2 & E3 & E4).
    destruct Hh as [Hc [Hp Hb]]. split_and!; try done.
    assert (Hn : n + Z.of_nat k = len (pc_written dst1)) by (rewrite Hc, E1, len_app; unfold len; rewrite length_take; lia).
    destruct ew as [e|].
    + split; [done|]. rewrite E1, <- Hp. apply prefix_app, prefix_take.
    + rewrite E4 in E1 by done. rewrite take_ge in E1 by lia. apply after_read_ok; [|done]. split; [done|]. by rewrite E1.
  - intros [= <- <- <- <-]. destruct (closeWrite_same dst) as [Ew Er]. split_and!; try done. by apply (half_other (HCloseRead err) dst src).
  - intros [= <- <- <- <-]. destruct (closeRead_same src) as [Ew Er]. split_and!; try done.
    + by apply (half_other (HDone err) dst src).
    + unfold stream_ok in *. destruct Er as (-> & -> & ->). done.
Qed.

(** * The whole session *)

Record pipe_inv (a b : pconn) (s : pipe) : Prop := {
  pi_toA : half_ok (p_toA s) (p_a s) (p_b s) (p_rx s);
  pi_toB : half_ok (p_toB s) (p_b s) (p_a s) (p_tx s);
  pi_a : stream_ok (pc_buffered a) (p_a s);
  pi_b : stream_ok (pc_buffered b) (p_b s);
  pi_results : p_results s ≡ₚ sent true (p_toA s) (sent false (p_toB s) []);
  pi_ret : forall rx tx err, p_ret s = Some (rx, tx, err) -> rx = p_rx s /\ tx = p_tx s /\
    exists ea eb, p_toA s = HDone ea /\ p_toB s = HDone eb /\ (err = None <-> benign ea = true /\ benign eb = true);
}.

#[local] Instance sent_proper to_a pc : Proper ((≡ₚ) ==> (≡ₚ)) (sent to_a pc).
Proof. intros l l' Hl. destruct pc; cbn; try done. by rewrite Hl. Qed.

Lemma done_stuck idle x err dst src n : copyHalf idle x (HDone err) dst src n = None.
Proof. by destruct x. Qed.

Lemma stream_same buf c c' : same_read c c' -> stream_ok buf c -> stream_ok buf c'.
Proof. unfold stream_ok. by intros (-> & -> & ->). Qed.

Lemma relayCopyError_None e1 e2 : relayCopyError [e1; e2] = None <-> benign e1 = true /\ benign e2 = true.
Proof. unfold relayCopyError. cbn. destruct (benign e1) eqn:B1, (benign e2) eqn:B2; destruct e1, e2; cbn; naive_solver. Qed.

#[local] Arguments relayCopyError : simpl never.

Lemma pipe_inv_step idle a b s x s' : pipe_inv a b s -> pstep idle s x = Some s' -> pipe_inv a b s'.
Proof.
  intros [HA HB Ha Hb Hr Ht]. destruct x as [x|x| | | |]; cbn [pstep].
  - destruct (copyHalf _ _ _ _ _ _) as [[[[pc a'] b'] n]|] eqn:E; [|done]. intros [= <-].
    destruct (copyHalf_ok _ _ _ _ _ _ _ _ _ _ _ HA Hb E) as (H1 & H2 & H3 & H4). constructor; cbn; try done.
    + by eapply half_other.
    + by eapply stream_same.
    + destruct (p_toA s) as [| |d er|err|err|err] eqn:EA; try (by rewrite done_stuck in E); cbn in Hr; rewrite Hr; by destruct pc.
    + intros rx tx err Er. destruct (Ht _ _ _ Er) as (_ & _ & ea & eb & EA & _). rewrite EA, done_stuck in E. done.
  - destruct (copyHalf _ _ _ _ _ _) as [[[[pc b'] a'] n]|] eqn:E; [|done]. intros [= <-].
    destruct (copyHalf_ok _ _ _ _ _ _ _ _ _ _ _ HB Ha E) as (H1 & H2 & H3 & H4). constructor; cbn; try done.
    + by eapply half_other.
    + by eapply stream_same.
    + destruct (p_toB s) as [| |d er|err|err|err] eqn:EB; try (by rewrite done_stuck in E); cbn in Hr; rewrite Hr; destruct pc, (p_toA s); cbn; try done; constructor.
    + intros rx tx err Er. destruct (Ht _ _ _ Er) as (_ & _ & ea & eb & _ & EB & _). rewrite EB, done_stuck in E. done.
  - destruct (p_watch s); [destruct (p_ctxDone s)| |]; try done; intros [= <-]; constructor; cbn; try done.
    all: try (by eapply half_other; [apply Close_same|done|]); try (by eapply half_other; [done|apply Close_same|]); by eapply stream_same; [apply Close_same|].
  - destruct (p_watch s), (p_ret s) eqn:Er; try done; intros [= <-]; constructor; cbn; try done.
  - destruct (p_results s) as [|[x1 errA] [|[x2 errB] []]] eqn:El; try done. destruct (p_ret s); [done|]. intros [= <-]. constructor; cbn; try done.
    + intros rx tx err [= <- <- <-]. split_and!; try done.
      assert (Hl : length (sent true (p_toA s) (sent false (p_toB s) [])) = 2%nat) by (by rewrite <- Hr).
      destruct (p_toA s) as [| | | | |ea] eqn:EA, (p_toB s) as [| | | | |eb] eqn:EB; cbn in Hl; try lia; cbn in Hr. exists ea, eb. do 2 (split; [done|]). rewrite relayCopyError_None.
      apply Permutation_length_2 in Hr as [[[= -> ->] [= -> ->]]|[[= -> ->] [= -> ->]]]; tauto.
  - intros [= <-]. by constructor.
Qed.

Lemma pipe_inv_run idle a b xs : forall s s', pipe_inv a b s -> prun idle s xs = Some s' -> pipe_inv a b s'.
Proof.
  induction xs as [|x xs IH]; intros s s' I; cbn [prun]; [by intros [= <-]|]. destruct (pstep idle s x) as [s1|] eqn:E; [|done].
  apply IH. by eapply pipe_inv_step.
Qed.

Lemma pipe_inv_start withCtx a b : fresh a -> fresh b -> pipe_inv a b (pipe_start withCtx a b).
Proof. intros (Na & Ra & Wa & _) (Nb & Rb & Wb & _). constructor; cbn; unfold half_ok, stream_ok; rewrite ?Na, ?Ra, ?Wa, ?Nb, ?Rb, ?Wb, ?app_nil_r; done. Qed.


(** * The end *)

Definition half_left (pc : half_pc) (src : pconn) : nat :=
  match pc with
  | HStart => 5 + 2 * length (pc_buffered src) | HReading => 3 + 2 * length (pc_buffered src) | HWriting _ _ => 4 + 2 * length (pc_buffered src)
  | HCloseWrite _ => 2 | HCloseRead _ => 1 | HDone _ => 0
  end.

(** A bound on the steps that are left once both connections are closed. *)
Definition pipe_left (s : pipe) : nat :=
  half_left (p_toA s) (p_b s) + half_left (p_toB s) (p_a s) + match p_watch s with PWatching => 2 | PWatchClosing => 1 | PWatchDone => 0 end +
  match p_ret s with None => 1 | Some _ => 0 end.

(** What a step does to the closing of a connection and to the leftover bytes. *)
Definition keeps_closed (c c' : pconn) : Prop := pc_closed c = true -> pc_closed c' = true.

Lemma conn_Read_closed data err c d er c' : pc_closed c = true -> conn_Read data err c = Some (d, er, c') ->
  pc_closed c' = true /\ ((length (pc_buffered c') < length (pc_buffered c))%nat \/ pc_buffered c' = pc_buffered c /\ d = [] /\ er <> None).
Proof.
  intros Hc. unfold conn_Read. destruct (pc_buffered c) as [|x l] eqn:Eb.
  - rewrite Hc. destruct (pc_bufErr c) as [e|]; [by intros [= <- <- <-]; auto|].
    case_bool_decide as Hd; [subst data|done]. destruct err as [e|]; [|done]. destruct (errors_Is e net_ErrClosed); [|done]. intros [= <- <- <-]. auto.
  - intros E. injection E as _ _ <-. split; [done|]. left. cbn [pc_buffered]. rewrite length_drop. cbn [length].
    assert (Hs : (0 < copy_size)%nat) by (apply Nat.ltb_lt; vm_compute; reflexivity). lia.
Qed.

Lemma after_read_left er src : er <> None -> half_left (after_read er) src = 2%nat.
Proof. by destruct er. Qed.

Lemma closes_closed c : keeps_closed c (closeWrite c) /\ keeps_closed c (closeRead c).
Proof. unfold keeps_closed. destruct c as [[] []]; done. Qed.

Lemma copyHalf_left idle x pc dst src n pc' dst' src' n' :
  pc_closed dst = true -> pc_closed src = true -> copyHalf idle x pc dst src n = Some (pc', dst', src', n') ->
  (half_left pc' src' < half_left pc src)%nat /\ pc_buffered dst' = pc_buffered dst /\ pc_closed dst' = true /\ pc_closed src' = true.
Proof.
  intros Hd Hs. unfold copyHalf, deadlineReader_Read, countingWriter_Write. destruct (closes_closed dst) as [Cd _], (closes_closed src) as [_ Cs].
  destruct pc as [| |d er|err|err|err], x as [now|now data e|k ew|]; try done.
  - intros [= <- <- <- <-]. cbn. destruct (0 <? idle); cbn; split_and!; (done || lia).
  - set (src0 := if 0 <? idle then _ else src). assert (Hs0 : pc_closed src0 = true /\ pc_buffered src0 = pc_buffered src) by (unfold src0; by destruct (0 <? idle)).
    destruct Hs0 as [Hs0 Hb0]. destruct (conn_Read data e src0) as [[[d er] src1]|] eqn:E; [|done]. intros [= <- <- <- <-].
    destruct (conn_Read_closed _ _ _ _ _ _ Hs0 E) as [Hc [Hl|(Hb & -> & He)]]; split_and!; try done.
    + rewrite Hb0 in Hl. destruct d as [|y d]; [|cbn; lia]. unfold after_read. destruct er; cbn; lia.
    + rewrite after_read_left by done. cbn. lia.
  - unfold conn_Write. rewrite Hd. destruct (Nat.eqb k 0); [|done]. destruct ew as [e|]; [|done]. destruct (errors_Is e net_ErrClosed); [|done]. intros [= <- <- <- <-].
    cbn. split_and!; (done || lia).
  - intros [= <- <- <- <-]. destruct (closeWrite_same dst) as [_ (_ & Eb & _)]. cbn. split_and!; try done; [lia|by apply Cd].
  - intros [= <- <- <- <-]. cbn. split_and!; try done; [lia|by apply Cs].
Qed.

Definition both_closed (s : pipe) : Prop := pc_closed (p_a s) = true /\ pc_closed (p_b s) = true.

Lemma pstep_left idle s x s' : both_closed s -> x <> PCtxDone -> pstep idle s x = Some s' -> (pipe_left s' < pipe_left s)%nat /\ both_closed s'.
Proof.
  unfold both_closed, pipe_left. intros [Ca Cb] Hx. destruct x as [x|x| | | |]; cbn [pstep]; try done.
  - destruct (copyHalf _ _ _ _ _ _) as [[[[pc a'] b'] n]|] eqn:E; [|done]. intros [= <-]. apply copyHalf_left in E as (Hl & Hb & Hc & Hd); [|done..].
    cbn. split; [|done]. unfold half_left at 2. rewrite Hb. fold (half_left (p_toB s) (p_a s)). lia.
  - destruct (copyHalf _ _ _ _ _ _) as [[[[pc b'] a'] n]|] eqn:E; [|done]. intros [= <-]. apply copyHalf_left in E as (Hl & Hb & Hc & Hd); [|done..].
    cbn. split; [|done]. unfold half_left at 1. rewrite Hb. fold (half_left (p_toA s) (p_b s)). lia.
  - destruct (p_watch s); [destruct (p_ctxDone s)| |]; try done; intros [= <-]; cbn; (split; [unfold half_left; cbn; lia|done]).
  - destruct (p_watch s), (p_ret s); try done; intros [= <-]; cbn; (split; [lia|done]).
  - destruct (p_results s) as [|[? ?] [|[? ?] []]]; try done. destruct (p_ret s); [done|]. intros [= <-]. cbn. split; [lia|done].
Qed.

Lemma half_enabled idle pc dst src n : pc_closed dst = true -> pc_closed src = true -> (forall err, pc <> HDone err) ->
  exists x r, copyHalf idle x pc dst src n = Some r.
Proof.
  intros Hd Hs Hp. destruct pc as [| |d er|err|err|err]; [..|by destruct (Hp err)].
  - exists (LStart 0). by eexists.
  - exists (LRead 0 [] (Some net_ErrClosed)). cbn [copyHalf]. unfold deadlineReader_Read, conn_Read. destruct (0 <? idle); cbn; rewrite Hs; destruct (pc_buffered src), (pc_bufErr src); by eexists.
  - exists (LWrite 0 (Some net_ErrClosed)). cbn [copyHalf]. unfold countingWriter_Write, conn_Write. rewrite Hd. by eexists.
  - exists LClose. by eexists.
  - exists LClose. by eexists.
Qed.

Lemma half_done_dec pc : (exists err, pc = HDone err) \/ forall err, pc <> HDone err.
Proof. destruct pc; [right|right|right|right|right|left; by eexists]; done. Qed.

Lemma pstep_enabled idle a b s : pipe_inv a b s -> both_closed s -> p_ret s = None -> exists x s', x <> PCtxDone /\ pstep idle s x = Some s'.
Proof.
  intros I [Ca Cb] Hr. destruct (half_done_dec (p_toA s)) as [[ea EA]|HA].
  2:{ destruct (half_enabled idle (p_toA s) (p_a s) (p_b s) (p_rx s) Ca Cb HA) as (x & [[[pc a'] b'] n] & E). exists (PToA x). cbn [pstep]. rewrite E. by eexists. }
  destruct (half_done_dec (p_toB s)) as [[eb EB]|HB].
  2:{ destruct (half_enabled idle (p_toB s) (p_b s) (p_a s) (p_tx s) Cb Ca HB) as (x & [[[pc b'] a'] n] & E). exists (PToB x). cbn [pstep]. rewrite E. by eexists. }
  exists PReturn. cbn [pstep]. pose proof (pi_results _ _ _ I) as Hl. rewrite EA, EB in Hl. cbn in Hl. apply Permutation_length in Hl.
  destruct (p_results s) as [|[? ?] [|[? ?] []]]; try done. rewrite Hr. by eexists.
Qed.

(** A relayed session ends with its context: when the context is done
    the goroutine that waits for it can close both connections, and from any state
    in which both are closed the session takes at most [pipe_left] more steps, and
    as long as it has not returned there is one that it can take. *)
Theorem pipe_ends (idle : Z) (withCtx : bool) (a b : pconn) (xs ys : list plabel) (s s' : pipe) :
  fresh a -> fresh b -> BidirectionalContext idle withCtx a b xs = Some s ->
  (p_ctxDone s = true -> p_watch s = PWatching -> exists s2, prun idle s [PWatch; PWatch] = Some s2 /\ both_closed s2) /\
  (both_closed s -> Forall (fun y => y <> PCtxDone) ys -> prun idle s ys = Some s' ->
     (length ys <= pipe_left s)%nat /\ (p_ret s' = None -> exists y s'', y <> PCtxDone /\ pstep idle s' y = Some s'')).
Proof.
  intros Fa Fb E. pose proof (pipe_inv_run _ _ _ _ _ _ (pipe_inv_start withCtx a b Fa Fb) E) as I. clear E. split.
  - intros Hd Hw. cbn [prun pstep]. rewrite Hw, Hd. cbn. by eexists.
  - intros Hc Hys. revert s I Hc. induction Hys as [|y ys Hy Hys IH]; intros s I Hc; cbn [prun].
    + intros [= <-]. split; [apply Nat.le_0_l|]. by apply (pstep_enabled idle a b).
    + destruct (pstep idle s y) as [s1|] eqn:E; [|done]. intros Er. destruct (pstep_left _ _ _ _ Hc Hy E) as [Hl Hc1].
      destruct (IH s1 (pipe_inv_step _ _ _ _ _ _ I E) Hc1 Er) as [Hl2 Hp]. split; [cbn [length]; lia|done].
Qed.

(** * Closing one side *)

(** A connection that was closed stays closed, and then nothing is written to it. *)
Lemma copyHalf_closed idle x pc dst src n pc' dst' src' n' : copyHalf idle x pc dst src n = Some (pc', dst', src', n') ->
  keeps_closed dst dst' /\ keeps_closed src src' /\ same_written src src' /\ (pc_closed dst = true -> pc_written dst' = pc_written dst).
Proof.
  unfold copyHalf, deadlineReader_Read, countingWriter_Write, keeps_closed. destruct (closes_closed dst) as [Cd _], (closes_closed src) as [_ Cs].
  destruct pc as [| |d er|err|err|err], x as [now|now data e|k ew|]; try done.
  - intros [= <- <- <- <-]. by destruct (0 <? idle).
  - set (src0 := if 0 <? idle then _ else src). assert (Hs0 : pc_closed src0 = pc_closed src /\ pc_written src0 = pc_written src) by (unfold src0; by destruct (0 <? idle)).
    destruct Hs0 as [Hc0 Hw0]. destruct (conn_Read data e src0) as [[[d er] src1]|] eqn:E; [|done]. intros [= <- <- <- <-].
    assert (Hr : pc_closed src1 = pc_closed src0 /\ pc_written src1 = pc_written src0).
    { clear -E. unfold conn_Read in E. destruct (pc_buffered src0) eqn:Eb; [destruct (pc_bufErr src0)|]; [by injection E as _ _ <-| |by injection E as _ _ <-].
      destruct (if pc_closed src0 then _ else _) eqn:Ea; [|done]. by injection E as _ _ <-. }
    destruct Hr as [Hr1 Hr2]. unfold same_written. rewrite Hr2, Hw0, Hr1, Hc0. done.
  - destruct (conn_Write d k ew dst) as [dst1|] eqn:E; [|done]. intros [= <- <- <- <-]. unfold conn_Write in E. split_and!; try done.
    + intros Hc. rewrite Hc in E. destruct (Nat.eqb k 0 && _); [|done]. by injection E as <-.
    + intros Hc. rewrite Hc in E. destruct (Nat.eqb_spec k 0) as [->|]; [|done]. destruct (_ && _); [|done]. injection E as <-. cbn. by rewrite app_nil_r.
  - intros [= <- <- <- <-]. split_and!; try done. intros _. by apply closeWrite_same.
  - intros [= <- <- <- <-]. split_and!; try done. by apply closeRead_same.
Qed.

Lemma client_closed_step idle s x s' : pc_closed (p_a s) = true -> pstep idle s x = Some s' -> pc_closed (p_a s') = true /\ pc_written (p_a s') = pc_written (p_a s).
Proof.
  intros Hc. destruct x as [x|x| | | |]; cbn [pstep].
  - destruct (copyHalf _ _ _ _ _ _) as [[[[pc a'] b'] n]|] eqn:E; [|done]. intros [= <-]. apply copyHalf_closed in E as (H1 & _ & _ & H4). cbn. split; [by apply H1|by apply H4].
  - destruct (copyHalf _ _ _ _ _ _) as [[[[pc b'] a'] n]|] eqn:E; [|done]. intros [= <-]. apply copyHalf_closed in E as (_ & H2 & H3 & _). cbn. split; [by apply H2|done].
  - destruct (p_watch s); [destruct (p_ctxDone s)| |]; try done; by intros [= <-].
  - destruct (p_watch s), (p_ret s); try done; by intros [= <-].
  - destruct (p_results s) as [|[? ?] [|[? ?] []]]; try done. destruct (p_ret s); [done|]. by intros [= <-].
  - by intros [= <-].
Qed.

Lemma client_closed_run idle ys : forall s s', pc_closed (p_a s) = true -> prun idle s ys = Some s' -> pc_written (p_a s') = pc_written (p_a s).
Proof.
  induction ys as [|y ys IH]; intros s s' Hc; cbn [prun]; [by intros [= <-]|]. destruct (pstep idle s y) as [s1|] eqn:E; [|done].
  destruct (client_closed_step _ _ _ _ Hc E) as [Hc1 Hw]. intros Er. by rewrite (IH _ _ Hc1 Er).
Qed.

(** A connection without [CloseRead] is closed when the direction that reads it
    ends. *)
Definition read_closed (s : pipe) : Prop :=
  pc_closeRead (p_a s) = false /\ (forall err, p_toB s = HDone err -> pc_closed (p_a s) = true).

Lemma copyHalf_methods idle x pc dst src n pc' dst' src' n' : copyHalf idle x pc dst src n = Some (pc', dst', src', n') ->
  pc_closeRead dst' = pc_closeRead dst /\ pc_closeRead src' = pc_closeRead src.
Proof.
  unfold copyHalf, deadlineReader_Read, countingWriter_Write, closeWrite, closeRead. destruct pc as [| |d er|err|err|err], x as [now|now data e|k ew|]; try done.
  - intros [= <- <- <- <-]. by destruct (0 <? idle).
  - set (src0 := if 0 <? idle then _ else src). assert (Hs0 : pc_closeRead src0 = pc_closeRead src) by (unfold src0; by destruct (0 <? idle)). unfold conn_Read.
    destruct (pc_buffered src0) eqn:Eb; [destruct (pc_bufErr src0)|]; [by intros [= <- <- <- <-]| |intros E; by injection E as _ <- <- _].
    destruct (if pc_closed src0 then _ else _); [|done]. by intros [= <- <- <- <-].
  - unfold conn_Write. destruct (if pc_closed dst then _ else _); [|done]. by intros [= <- <- <- <-].
  - intros [= <- <- <- <-]. destruct (pc_closeWrite dst); done.
  - intros [= <- <- <- <-]. destruct (pc_closeRead src) eqn:E; done.
Qed.

Lemma read_closed_step idle s x s' : read_closed s -> pstep idle s x = Some s' -> read_closed s'.
Proof.
  unfold read_closed. intros [Hm Hd]. destruct x as [x|x| | | |]; cbn [pstep].
  - destruct (copyHalf _ _ _ _ _ _) as [[[[pc a'] b'] n]|] eqn:E; [|done]. intros [= <-]. cbn. destruct (copyHalf_methods _ _ _ _ _ _ _ _ _ _ E) as [-> _].
    apply copyHalf_closed in E as (H1 & _). split; [done|]. intros err He. by apply H1, (Hd err).
  - destruct (copyHalf _ _ _ _ _ _) as [[[[pc b'] a'] n]|] eqn:E; [|done]. intros [= <-]. cbn. destruct (copyHalf_methods _ _ _ _ _ _ _ _ _ _ E) as [_ ->]. split; [done|]. intros err ->.
    revert E. unfold copyHalf, deadlineReader_Read, countingWriter_Write, after_read. destruct (p_toB s) as [| |d er|e|e|e], x as [now|now data er'|k ew|]; try done.
    + destruct (conn_Read _ _ _) as [[[[|y d] [er|]] src1]|]; done.
    + destruct (conn_Write _ _ _ _); [|done]. destruct ew, er; done.
    + intros [= _ _ <- _]. unfold closeRead. by rewrite Hm.
  - destruct (p_watch s); [destruct (p_ctxDone s)| |]; try done; intros [= <-]; cbn; auto.
  - destruct (p_watch s), (p_ret s); try done; by intros [= <-].
  - destruct (p_results s) as [|[? ?] [|[? ?] []]]; try done. destruct (p_ret s); [done|]. by intros [= <-].
  - by intros [= <-].
Qed.

Lemma read_closed_run idle xs : forall s s', read_closed s -> prun idle s xs = Some s' -> read_closed s'.
Proof.
  induction xs as [|x xs IH]; intros s s' I; cbn [prun]; [by intros [= <-]|]. destruct (pstep idle s x) as [s1|] eqn:E; [|done].
  apply IH. by eapply read_closed_step.
Qed.

(** Property C37. A client that closes its sending side gets nothing more: the
    connection that the authentication returns has no [CloseRead], so the
    direction that reads the client closes the whole connection when it ends, and
    whatever the upstream sends from then on, no byte of it reaches the client. *)
Theorem pipe_half_close (idle : Z) (withCtx : bool) (buffered : bytes) (bufErr : option error) (b : pconn) (xs ys : list plabel) (s s' : pipe) (err : option error) :
  BidirectionalContext idle withCtx (authenticatedConn buffered bufErr) b xs = Some s -> p_toB s = HDone err -> prun idle s ys = Some s' ->
  pc_written (p_a s') = pc_written (p_a s).
Proof.
  intros E Hd Er. assert (I : read_closed (pipe_start withCtx (authenticatedConn buffered bufErr) b)) by (by split).
  destruct (read_closed_run _ _ _ _ I E) as [_ Hc]. exact (client_closed_run _ _ _ _ (Hc _ Hd) Er).
Qed.

(** * Sessions *)

(** The client has sent a request and its end; the request was received with the
    authentication. *)
Definition ex_request : list plabel :=
  [PToA (LStart 0); PToB (LStart 0); PToB (LRead 0 [] None); PToB (LWrite 3 None); PToB (LRead 1 [] (Some io_EOF)); PToB LClose; PToB LClose].

(** The upstream answers, and the answer is refused, or accepted. *)
Definition ex_refused : list plabel :=
  [PToA (LRead 2 (str "response") None); PToA (LWrite 0 (Some (EWrap (str "write: ") net_ErrClosed))); PToA LClose; PToA LClose; PReturn].
Definition ex_accepted : list plabel :=
  [PToA (LRead 2 (str "response") (Some io_EOF)); PToA (LWrite 8 None); PToA LClose; PToA LClose; PReturn].


(** The answer of the upstream is lost, and the session reports no error. *)
Lemma pipe_half_close_witness :
  exists s s', BidirectionalContext 30 true (authenticatedConn (str "GET") None) tcpConn ex_request = Some s /\ prun 30 s ex_refused = Some s' /\
    pc_written (p_a s') = pc_written (p_a s) /\ pc_net (p_b s') = str "response" /\ pc_written (p_a s') = [] /\ p_ret s' = Some (0, 3, None).
Proof.
  do 2 eexists. split; [vm_compute; reflexivity|]. split; [vm_compute; reflexivity|].
  split; [eapply (pipe_half_close 30 true (str "GET") None tcpConn ex_request ex_refused); [vm_compute; reflexivity..]|].
  split; [reflexivity|split; reflexivity].
Defined.

(** The context ends in the middle of a session. *)
Definition ex_cancelled : list plabel := [PToA (LStart 0); PToB (LStart 0); PCtxDone; PWatch; PWatch].
Definition ex_closed_end : list plabel :=
  [PToB (LRead 0 [] None); PToB (LWrite 0 (Some net_ErrClosed)); PToB LClose; PToB LClose; PToA (LRead 2 [] (Some net_ErrClosed)); PToA LClose; PToA LClose; PReturn].

Lemma pipe_ends_witness :
  exists s s', BidirectionalContext 30 true (authenticatedConn (str "GET") None) tcpConn ex_cancelled = Some s /\ prun 30 s ex_closed_end = Some s' /\
    (length ex_closed_end <= pipe_left s)%nat.
Proof.
  do 2 eexists. split; [vm_compute; reflexivity|]. split; [vm_compute; reflexivity|].
  eapply (pipe_ends 30 true (authenticatedConn (str "GET") None) tcpConn ex_cancelled ex_closed_end);
    [repeat split|repeat split|vm_compute; reflexivity|split; reflexivity|repeat constructor; discriminate|vm_compute; reflexivity].
Defined.
