(* ===== verification/Metrics.v ===== *)
(** observability/events.go and observability/prometheus/sink.go: from the events
    of the servers to Prometheus metrics.

    The metrics library is not part of the sources. [Sink] methods are modelled as
    the calls they make on it: a metric, the values of its labels and a number.
    [accepts] is its documented contract for such a call, and [counter_value] and
    [gauge_value] what the metrics then hold. Numbers are exact here, where the
    library keeps [float64]. *)

From Stdlib Require Import ZArith Lia String.
From Stdlib Require Import Floats.SpecFloat.
From Stdlib Require Strings.Byte.
From stdpp Require Import base list gmap strings.
From S2P Require Import Prelude GoStd Net GoText GoParse Gateway Listener RelayRun AuthServer AuthTypes.

Open Scope Z_scope.

(** * Configuration *)

Definition defaultNamespace : bytes := str "libknock".

Record prom_Config := mkPromConfig { pm_Namespace : bytes; pm_IncludeClientLabel : bool; pm_RelayDurationBuckets : list spec_float }.

(** [b <= 0] and [b <= buckets[i-1]] on [float64]. *)
Fixpoint check_buckets (previous : option spec_float) (buckets : list spec_float) : option error :=
  match buckets with
  | [] => None
  | b :: rest =>
      if SFleb b (S754_zero false) then Some (EMsg (str "relay duration buckets must be positive"))
      else if match previous with Some p => SFleb b p | None => false end then Some (EMsg (str "relay duration buckets must be strictly increasing"))
      else check_buckets (Some b) rest
  end.

Definition prom_ValidateConfig (cfg : prom_Config) : option error := check_buckets None (pm_RelayDurationBuckets cfg).

(** The fields of [Sink] that are metrics. *)
Inductive metric :=
| authAccept | authOK | authFail | authReplay | authReplayFull | replayCacheLen | replayCacheCap | authRateLimited
| knockOK | knockFail | firewallAllow | firewallError
| relayOK | relayError | relayRX | relayTX | relayDuration | relayPendingFull | relayDropped | relayPending.

#[export] Instance metric_eq_dec : EqDecision metric.
Proof. solve_decision. Defined.

Inductive metric_kind := KCounter | KGauge | KHistogram.

(** Subsystem, name, kind and labels of a metric; [client] says whether there is
    a label for the client. *)
Definition metric_opts (client : bool) (m : metric) : bytes * bytes * metric_kind * list bytes :=
  let clientLabels := if client then [str "client_id"] else [] in
  match m with
  | authAccept => (str "auth", str "accept_total", KCounter, [])
  | authOK => (str "auth", str "success_total", KCounter, str "method" :: clientLabels)
  | authFail => (str "auth", str "failure_total", KCounter, [str "reason"])
  | authReplay => (str "auth", str "replay_total", KCounter, [])
  | authReplayFull => (str "auth", str "replay_cache_full_total", KCounter, [])
  | replayCacheLen => (str "auth", str "replay_cache_len", KGauge, [])
  | replayCacheCap => (str "auth", str "replay_cache_capacity", KGauge, [])
  | authRateLimited => (str "auth", str "rate_limited_total", KCounter, [])
  | knockOK => (str "knock", str "success_total", KCounter, str "method" :: clientLabels)
  | knockFail => (str "knock", str "failure_total", KCounter, str "reason" :: clientLabels)
  | firewallAllow => (str "firewall", str "allow_total", KCounter, [])
  | firewallError => (str "firewall", str "error_total", KCounter, [])
  | relayOK => (str "relay", str "success_total", KCounter, clientLabels)
  | relayError => (str "relay", str "error_total", KCounter, str "stage" :: clientLabels)
  | relayRX => (str "relay", str "rx_bytes_total", KCounter, clientLabels)
  | relayTX => (str "relay", str "tx_bytes_total", KCounter, clientLabels)
  | relayDuration => (str "relay", str "duration_seconds", KHistogram, clientLabels)
  | relayPendingFull => (str "relay", str "pending_full_total", KCounter, [])
  | relayDropped => (str "relay", str "dropped_total", KCounter, [])
  | relayPending => (str "relay", str "pending_current", KGauge, [])
  end.

Definition collectors : list metric :=
  [authAccept; authOK; authFail; authReplay; authReplayFull; replayCacheLen; replayCacheCap; authRateLimited; knockOK; knockFail;
   firewallAllow; firewallError; relayOK; relayError; relayRX; relayTX; relayDuration; relayPendingFull; relayDropped; relayPending].

(** The name under which a metric is registered. *)
Definition fq_name (namespace : bytes) (m : metric) : bytes :=
  let '(subsystem, name, _, _) := metric_opts false m in namespace ++ str "_" ++ subsystem ++ str "_" ++ name.

Record Sink := mkSink { sk_namespace : bytes; sk_includeClient : bool; sk_buckets : list spec_float }.

(** [reg] is the [Registerer] with the names it knows already, [None] if there is
    none: it refuses a name it knows. *)
Fixpoint register (namespace : bytes) (known : list bytes) (ms : list metric) : option error :=
  match ms with
  | [] => None
  | m :: ms =>
      if bool_decide (fq_name namespace m ∈ known) then Some (EMsg (str "duplicate metrics collector registration attempted"))
      else register namespace (fq_name namespace m :: known) ms
  end.

Definition prom_New (DefBuckets : list spec_float) (cfg : prom_Config) (reg : option (list bytes)) : res Sink :=
  let namespace := match TrimSpace (pm_Namespace cfg) with [] => defaultNamespace | n => n end in
  let buckets := match pm_RelayDurationBuckets cfg with [] => DefBuckets | b => b end in
  match prom_ValidateConfig (mkPromConfig [] false buckets) with
  | Some err => Err err
  | None =>
      match (known ← reg; register namespace known collectors) with
      | Some err => Err err
      | None => Ok (mkSink namespace (pm_IncludeClientLabel cfg) buckets)
      end
  end.

(** * Labels *)

(** The errors that have a label of their own, in the order they are tried. *)
Definition reason_table : list (error * bytes) :=
  [(auth_ErrInvalidFrame, str "invalid_frame"); (auth_ErrFrameTooLarge, str "frame_too_large"); (auth_ErrUnknownClient, str "unknown_client");
   (auth_ErrAuthFailed, str "auth_failed"); (auth_ErrReplayDetected, str "replay"); (auth_ErrTimeSkew, str "time_skew");
   (auth_ErrKnockRequired, str "knock_required"); (auth_ErrUnsupportedVersion, str "unsupported_version");
   (auth_ErrInvalidClientID, str "invalid_client_id"); (auth_ErrInvalidSecret, str "invalid_secret");
   (auth_ErrMissingSecretResolver, str "missing_secret_resolver"); (auth_ErrMissingReplayCache, str "missing_replay_cache");
   (auth_ErrRateLimited, str "rate_limited"); (auth_ErrServerProofRequired, str "server_proof_required");
   (auth_ErrServerProofFailed, str "server_proof_failed"); (auth_ErrUnsupportedFlags, str "unsupported_flags");
   (auth_ErrSecretResolverFailed, str "secret_resolver_failed"); (auth_ErrTooManyCandidates, str "too_many_candidates");
   (auth_ErrHintModeNoneTooBroad, str "hint_mode_none_too_broad"); (ErrAuthBackpressure, str "auth_backpressure"); (ErrAuthSourceLimit, str "auth_source_limit")].

Definition reasonLabel (err : option error) : bytes :=
  match err with
  | None => str "unknown"
  | Some e => match find (fun p => errors_Is e (fst p)) reason_table with Some p => snd p | None => str "error" end
  end.

Definition known_methods : list bytes :=
  [str "tcp-auth"; str "tcp-syn"; str "tcp-syn-seq"; str "udp"; str "udp-seq"; str "udp-passive"; str "udp-passive-seq"].

Definition methodLabel (method : bytes) : bytes := if bool_decide (TrimSpace method ∈ known_methods) then TrimSpace method else str "unknown".

Definition labelOrUnknown (v : bytes) : bytes := match TrimSpace v with [] => str "unknown" | v => v end.

Definition nonnegative (v : Z) : Z := if Z.ltb v 0 then 0 else v.

(** * The calls of the metrics library *)

Inductive metric_call := Add (m : metric) (labels : list bytes) (v : Z) | Set_ (m : metric) (v : Z) | Observe (m : metric) (labels : list bytes) (v : Z).

Definition Inc (m : metric) (labels : list bytes) : metric_call := Add m labels 1.

Section Sink.
Context (s : Sink).

Definition sink_clientLabels (clientID : bytes) : list bytes := if sk_includeClient s then [labelOrUnknown clientID] else [].
Definition authOKLabels (method clientID : bytes) : list bytes := methodLabel method :: sink_clientLabels clientID.
Definition knockOKLabels (method clientID : bytes) : list bytes := methodLabel method :: sink_clientLabels clientID.
Definition knockFailLabels (reason clientID : bytes) : list bytes := labelOrUnknown reason :: sink_clientLabels clientID.
Definition relayErrorLabels (stage clientID : bytes) : list bytes := labelOrUnknown stage :: sink_clientLabels clientID.

(** [WithLabelValues] panics unless there is a value for every label, and [Add]
    if the number is negative; each kind of metric has its own calls. *)
Definition accepts (c : metric_call) : bool :=
  match c with
  | Add m labels v =>
      let '(_, _, k, names) := metric_opts (sk_includeClient s) m in
      match k with KCounter => true | _ => false end && Nat.eqb (length labels) (length names) && Z.leb 0 v
  | Set_ m v => let '(_, _, k, names) := metric_opts (sk_includeClient s) m in match k, names with KGauge, [] => true | _, _ => false end
  | Observe m labels v =>
      let '(_, _, k, names) := metric_opts (sk_includeClient s) m in match k with KHistogram => true | _ => false end && Nat.eqb (length labels) (length names)
  end.

(** * The events *)

(** The events of an authentication; [length] and [capacity] are what the replay
    cache reports with [OnReplayCacheFull]. The callback [OnAuthenticated] of the
    server is not one of the sink's. *)
Definition sink_auth (length capacity : Z) (ev : AuthEvent) : list metric_call :=
  match ev with
  | OnAccept _ => [Inc authAccept []]
  | OnAuthOK peer => [Inc authOK (authOKLabels (pi_Method peer) (pi_ClientID peer))]
  | OnAuthFail _ reason => [Inc authFail [reasonLabel (Some reason)]]
  | OnReplay _ _ => [Inc authReplay []]
  | OnReplayCacheFull _ _ => [Inc authReplayFull []; Set_ replayCacheLen (nonnegative length); Set_ replayCacheCap (nonnegative capacity)]
  | OnRateLimited _ => [Inc authRateLimited []]
  | OnAuthenticated _ => []
  end.

(** [Sink.OnAuthDrop] with a [NetxAuthDropEvent] *)
Definition sink_OnAuthDrop (reason : option error) (pending : Z) : list metric_call :=
  [Inc authFail [reasonLabel reason]] ++
  (if match reason with Some e => errors_Is e ErrAuthBackpressure | None => false end then [Inc relayPendingFull []] else []) ++
  [Inc relayDropped []] ++ (if Z.leb 0 pending then [Set_ relayPending pending] else []).

(** The events of the knock handlers. *)
Definition sink_gateway (ev : gw_event) : list metric_call :=
  match ev with
  | KnockOK _ clientID method _ _ => [Inc knockOK (knockOKLabels method clientID)]
  | KnockFail _ clientID reason _ => [Inc knockFail (knockFailLabels reason clientID)]
  | FirewallAllow _ _ _ => [Inc firewallAllow []]
  | FirewallError _ _ _ => [Inc firewallError []]
  end.

(** The events of relayed sessions; [duration] is how long the session took. *)
Definition sink_relay (duration : Z) (ev : relay_event) : list metric_call :=
  match ev with
  | RelayOK _ clientID rx tx =>
      let labels := sink_clientLabels clientID in
      [Inc relayOK labels; Add relayRX labels (nonnegative rx); Add relayTX labels (nonnegative tx); Observe relayDuration labels duration]
  | RelayError _ clientID stage _ dropped pending =>
      [Inc relayError (relayErrorLabels stage clientID)] ++
      (if bool_decide (stage = str "pending_full") then [Inc relayPendingFull []] else []) ++
      (if Z.ltb 0 dropped then [Add relayDropped [] dropped] else []) ++
      (if Z.leb 0 pending then [Set_ relayPending pending] else [])
  end.

End Sink.

(** * What the metrics hold *)

Definition counter_of (m : metric) (c : metric_call) : Z := match c with Add m' _ v => if bool_decide (m' = m) then v else 0 | _ => 0 end.

(** A counter, summed over its labels, and a gauge after the calls. *)
Definition counter_value (m : metric) (cs : list metric_call) : Z := sum_of (counter_of m) cs.
Definition gauge_value (m : metric) (cs : list metric_call) : option Z :=
  foldl (fun v c => match c with Set_ m' x => if bool_decide (m' = m) then Some x else v | _ => v end) None cs.
