(* ===== verification/MetricsSpec.v ===== *)
(** What the Prometheus sink promises: no event makes the metrics library panic,
    the labels are few and, unless asked for, do not name a client; and what the
    counter of dropped connections holds. *)

From Stdlib Require Import ZArith Lia String.
From Stdlib Require Import Floats.SpecFloat.
From Stdlib Require Strings.Byte.
From stdpp Require Import base list gmap strings.
From S2P Require Import Prelude GoStd Net Session KnockFrame KnockSeq KnockListen Firewall FirewallSpec Gateway RelayConfig Listener Gate GateSpec GateIptables RelayRun RelayRunSpec RelayRunIptables Metrics AuthServer AuthTypes.

Open Scope Z_scope.

(** ** Labels *)

Definition reason_labels : list bytes := (snd <$> reason_table) ++ [str "unknown"; str "error"].

Lemma reasonLabel_known err : reasonLabel err ∈ reason_labels.
Proof.
  unfold reasonLabel, reason_labels. destruct err as [e|]; [|apply elem_of_app; right; by left].
  destruct (find _ reason_table) as [p|] eqn:E; [|apply elem_of_app; right; right; by left].
  apply elem_of_app. left. apply list_elem_of_fmap. exists p. split; [done|]. apply find_some in E as [Hp _]. by apply list_elem_of_In.
Qed.

Lemma methodLabel_known method : methodLabel method ∈ str "unknown" :: known_methods.
Proof. unfold methodLabel. case_bool_decide; [by right|by left]. Qed.

Lemma fq_name_app namespace m : fq_name namespace m = namespace ++ fq_name [] m.
Proof. unfold fq_name. by destruct (metric_opts false m) as [[[? ?] ?] ?]. Qed.

Lemma fq_names_distinct namespace : NoDup (fq_name namespace <$> collectors).
Proof.
  rewrite (list_fmap_ext _ (fun m => namespace ++ fq_name [] m)) by (intros; apply fq_name_app).
  rewrite (list_fmap_compose (fq_name []) (app namespace)). apply NoDup_fmap_2; [intros x y; apply app_inv_head|].
  apply (bool_decide_unpack _). vm_compute. reflexivity.
Qed.

Lemma register_fresh namespace ms : forall known, NoDup (fq_name namespace <$> ms) -> (forall m, m ∈ ms -> fq_name namespace m ∉ known) -> register namespace known ms = None.
Proof.
  induction ms as [|m ms IH]; intros known Hd Hk; [done|]. cbn. apply NoDup_cons in Hd as [Hm Hd]. rewrite bool_decide_eq_false_2 by (apply Hk; by left).
  apply IH; [done|]. intros m' Hm'. apply not_elem_of_cons. split; [|apply Hk; by right]. intros E. apply Hm, list_elem_of_fmap. by exists m'.
Qed.

Lemma client_labels_length s id : length (sink_clientLabels s id) = if sk_includeClient s then 1%nat else 0%nat.
Proof. unfold sink_clientLabels. by destruct (sk_includeClient s). Qed.

(** ** Events *)

Lemma nonnegative_ok v : (0 <=? nonnegative v) = true.
Proof. unfold nonnegative. destruct (Z.ltb_spec v 0); lia. Qed.

Ltac accepting := unfold Inc, accepts, authOKLabels, knockOKLabels, knockFailLabels, relayErrorLabels, metric_opts; cbn [length forallb app fst snd];
  rewrite ?client_labels_length, ?nonnegative_ok; repeat match goal with |- context [sk_includeClient ?s] => destruct (sk_includeClient s) end; reflexivity.

Lemma accepts_auth s n c ev : forallb (accepts s) (sink_auth s n c ev) = true.
Proof. destruct ev; cbn [sink_auth]; accepting. Qed.

Lemma accepts_drop s reason pending : forallb (accepts s) (sink_OnAuthDrop reason pending) = true.
Proof. unfold sink_OnAuthDrop. destruct (match reason with Some _ => _ | None => _ end), (0 <=? pending); accepting. Qed.

Lemma accepts_gateway s ev : forallb (accepts s) (sink_gateway s ev) = true.
Proof. destruct ev; cbn [sink_gateway]; accepting. Qed.

Lemma accepts_relay s d ev : forallb (accepts s) (sink_relay s d ev) = true.
Proof.
  destruct ev as [remote id stage err dropped pending|remote id rx tx]; cbn [sink_relay]; [|accepting].
  destruct (bool_decide _), (Z.ltb_spec 0 dropped) as [Hd|Hd], (0 <=? pending); unfold Inc, accepts; cbn [forallb app];
    try (replace (0 <=? dropped) with true by lia); accepting.
Qed.


(** * The counter of dropped connections *)

(** The counts with which dropped connections are reported. *)
Definition drop_count (ev : relay_event) : option Z := match ev with RelayError _ _ _ _ d _ => if Z.ltb 0 d then Some d else None | RelayOK _ _ _ _ => None end.

(** They are 1, 2, 3 and so on. *)
Definition drops_ok (k : conns) : Prop := 0 <= k_dropped k /\ omap drop_count (k_events k) = seqZ 1 (k_dropped k).

Lemma drops_same k k' : k_dropped k' = k_dropped k -> k_events k' = k_events k -> drops_ok k -> drops_ok k'.
Proof. unfold drops_ok. by intros -> ->. Qed.

Lemma drops_other ev k k' : k_events k' = k_events k ++ [ev] -> k_dropped k' = k_dropped k -> drop_count ev = None -> drops_ok k -> drops_ok k'.
Proof. unfold drops_ok. intros -> -> Hn [Hk He]. split; [done|]. rewrite omap_app, He. cbn. by rewrite Hn, app_nil_r. Qed.

Lemma drops_drop c stage reason k : drops_ok k -> drops_ok (drop_event c stage reason k).
Proof.
  unfold drops_ok. intros [Hk He]. cbn. split; [lia|]. rewrite omap_app, He. cbn. destruct (Z.ltb_spec 0 (k_dropped k + 1)); [|lia].
  rewrite seqZ_app by lia. f_equal. change (seqZ (1 + k_dropped k) 1) with [1 + k_dropped k]. by rewrite Z.add_comm.
Qed.

Section Drops.
Context {H : Type} `{Host H} (g : relay_Gateway) (st : relay_start).

Lemma drops_add c k : drops_ok k -> drops_ok (active_Add c k).
Proof. unfold active_Add. destruct (k_activeClosed k); by apply drops_same. Qed.

Lemma drops_arrive remote k c ok k' : arrive remote k = (c, ok, k') -> drops_ok k -> drops_ok k'.
Proof. unfold arrive. destruct (IPLimit.step _ _) as [ok' src]. intros [= <- <- <-]. by apply drops_same. Qed.

Lemma drops_accept x (s s' : rstate H) : drops_ok (r_conns s) -> relay_accept st x s = Some s' -> drops_ok (r_conns s').
Proof.
  intros Hd. unfold relay_accept, loop_return. destruct (q_accept (r_pcs s)) as [|c r|d|], x as [remote|e| | | | |]; try done.
  - destruct (h_lnClosed _); [done|]. destruct (arrive remote (r_conns s)) as [[c ok] k] eqn:E. pose proof (drops_arrive _ _ _ _ _ E Hd) as Hk.
    destruct ok; intros [= <-]; cbn; [by apply drops_add|]. apply drops_drop. by eapply drops_same; [..|exact Hk].
  - destruct (_ && _); [done|]. destruct (h_childErr _); [by intros [= <-]|]. destruct (run_done _); [by intros [= <-]|]. destruct (IsTemporary _); by intros [= <-].
  - destruct (Z.ltb _ _); [|done]. intros [= <-]. by eapply drops_same; [..|exact Hd].
  - destruct (run_done _); [|done]. intros [= <-]. by eapply drops_same; [..|exact Hd].
  - destruct (_ || _); [done|]. intros [= <-]. cbn. apply drops_drop. by eapply drops_same; [..|exact Hd].
  - by intros [= <-].
  - destruct (run_done _); [|done]. by intros [= <-].
Qed.

Lemma drops_worker i w x (s s' : rstate H) : drops_ok (r_conns s) -> relay_worker g st i w x s = Some s' -> drops_ok (r_conns s').
Proof.
  intros Hd. unfold relay_worker. destruct w as [|c r|c r peer addr|c r peer|c|c peer|], x as [| |a| | | |]; try done.
  - destruct (k_pending (r_conns s)) as [|[c r] rest]; [done|]. intros [= <-]. by eapply drops_same; [..|exact Hd].
  - destruct (k_pending (r_conns s)); [|done]. destruct (k_pendingClosed _); [|done]. by intros [= <-].
  - intros [= <-]. unfold authenticateConn. set (m := auth_decide _ _ _ _). pose proof (on_world_same m s) as (E & _). destruct (on_world m s) as [v s1]. cbn [snd] in E.
    rewrite <- E in Hd. destruct v; [|done..]. unfold auth_failed. cbn. eapply drops_other; [reflexivity|reflexivity|reflexivity|exact Hd].
  - intros [= <-]. set (m := access_revoke _ _ _). pose proof (on_world_same m s) as (E & _). cbn. by rewrite E.
  - intros [= <-]. by eapply drops_same; [..|exact Hd].
  - intros [= <-]. by eapply drops_same; [..|exact Hd].
  - by intros [= <-].
Qed.

Lemma drops_step x (s s' : rstate H) : drops_ok (r_conns s) -> rstep g st s x = Some s' -> drops_ok (r_conns s').
Proof.
  intros Hd. destruct x as [x|i x|j o|err|x|k now now'|k| | |]; cbn [rstep].
  - by apply drops_accept.
  - destruct (q_workers (r_pcs s) !! i) as [w|]; [|done]. by apply drops_worker.
  - unfold relay_goroutine. destruct (q_relays (r_pcs s) !! j) as [[c peer|c|]|]; try done; intros [= <-]; [|by eapply drops_same; [..|exact Hd]].
    cbn. unfold relaySession. destruct o; (eapply drops_other; [reflexivity|reflexivity|reflexivity|exact Hd]).
  - unfold relay_knock. destruct (q_knock (r_pcs s)); try done; [|by intros [= <-]..].
    destruct (g_handler _); [done|]. destruct err as [e|]; [|by intros [= <-]]. destruct (run_done _); intros [= <-]; [done|]. eapply drops_other; [reflexivity|reflexivity|reflexivity|exact Hd].
  - unfold relay_gw. destruct (match x with SKnock _ _ => _ | _ => _ end); [|done]. destruct (gstep _ _ _ _); [|done]. by intros [= <-].
  - unfold relay_swapped_fire. destruct (gstep _ _ _ _); [|done]. by intros [= <-].
  - unfold relay_stop. destruct (r_swapped s !! k); [|done]. by intros [= <-].
  - unfold relay_watch. destruct (q_watch _); [destruct (run_done _)| |]; try done; intros [= <-]; [done|]. by eapply drops_same; [..|exact Hd].
  - unfold relay_exit. destruct (q_exit (r_pcs s)) as [|e|e|e|e|e c|e c|e c|]; try done; try (by intros [= <-]).
    + destruct (run_idle s); [|done]. by intros [= <-].
    + set (m := CleanupFirewallDetached _). pose proof (on_world_same m s) as (E & _). destruct (on_world m s) as [err s1]. cbn [snd] in E. intros [= <-]. cbn. by rewrite E.
    + destruct (timers_stopped s); [|done]. by intros [= <-].
  - by intros [= <-].
Qed.

Lemma drops_run xs : forall s s' : rstate H, drops_ok (r_conns s) -> rrun g st s xs = Some s' -> drops_ok (r_conns s').
Proof.
  induction xs as [|x xs IH]; intros s s' Hd; cbn [rrun]; [by intros [= <-]|]. destruct (rstep g st s x) as [s1|] eqn:E; [|done].
  apply IH. by eapply drops_step.
Qed.

End Drops.

(** The metric is the sum of the counts that were reported. *)
Lemma dropped_counter s duration ev : counter_value relayDropped (sink_relay s duration ev) = default 0 (drop_count ev).
Proof.
  destruct ev as [remote id stage err dropped pending|remote id rx tx]; cbn [sink_relay drop_count]; [|reflexivity].
  unfold counter_value. destruct (bool_decide _), (Z.ltb 0 dropped), (0 <=? pending); unfold Inc; rewrite ?sum_of_app, ?sum_of_cons, ?sum_of_nil;
    unfold counter_of; repeat case_bool_decide; try congruence; cbn; lia.
Qed.

Lemma dropped_total s duration (evs : list relay_event) : counter_value relayDropped (mjoin (sink_relay s duration <$> evs)) = sum_of Datatypes.id (omap drop_count evs).
Proof.
  induction evs as [|ev evs IH]; [done|]. rewrite fmap_cons.
  change (mjoin (sink_relay s duration ev :: (sink_relay s duration <$> evs))) with (sink_relay s duration ev ++ mjoin (sink_relay s duration <$> evs)).
  unfold counter_value in *. rewrite sum_of_app, IH.
  pose proof (dropped_counter s duration ev) as Hc. unfold counter_value in Hc. rewrite Hc.
  change (omap drop_count (ev :: evs)) with (match drop_count ev with Some y => y :: omap drop_count evs | None => omap drop_count evs end).
  destruct (drop_count ev); [by rewrite sum_of_cons|done].
Qed.

Lemma sum_seqZ n : 0 <= n -> 2 * sum_of Datatypes.id (seqZ 1 n) = n * (n + 1).
Proof.
  intros Hn. revert Hn. apply (natlike_ind (fun n => 2 * sum_of Datatypes.id (seqZ 1 n) = n * (n + 1))); [done|]. intros k Hk IH.
  unfold Z.succ. rewrite seqZ_app, sum_of_app by lia. change (seqZ (1 + k) 1) with [1 + k]. rewrite sum_of_cons, sum_of_nil. unfold Datatypes.id at 2. nia.
Qed.

(** Property C38. The metric of dropped connections is not their number: the relay
    reports each with the number dropped so far, and the sink adds that up, so
    after [n] dropped connections of any run the counter stands at [n(n+1)/2]. *)
Theorem dropped_metric {H} `{Host H} (g : relay_Gateway) (st : relay_start) (w : world H) (xs : list rlabel) (s : rstate H) (sink : Sink) (duration : Z) :
  rrun g st (relay_init g st w) xs = Some s ->
  let dropped := k_dropped (r_conns s) in
  len (omap drop_count (k_events (r_conns s))) = dropped /\
  2 * counter_value relayDropped (mjoin (sink_relay sink duration <$> k_events (r_conns s))) = dropped * (dropped + 1).
Proof.
  intros E. destruct (drops_run g st xs (relay_init g st w) s) as [Hn Hd]; [done|exact E|]. rewrite dropped_total, Hd. split; [|by apply sum_seqZ].
  unfold len. rewrite length_seqZ. lia.
Qed.

(** A relay gateway that admits one pending connection of a source: three
    connections of the source arrive. *)
Definition ex_crowded : relay_Gateway :=
  mkRelay (str "0.0.0.0:22") (str "127.0.0.1:2222") ex_gate_auth None None (Some (BIptables ex_gate_fw)) UDPMethod [] 0
    [mkClientSecret (str "alice") (repeat Byte.x41 32)] 0 0 (mkSequenceOptions 0 0 0 0 0 0 0 false) 0 10 0 0 false 1 false 4 2 1.

Definition ex_crowded_start : relay_start := mkRelayStart ex_gate_auth (Replay.Memory.NewMemoryReplayCache 60) NewKnockSessionStore 22 (BIptables ex_gate_fw) 4 1 2.

Definition ex_crowd : list rlabel :=
  let arrival := RLoop (RAccept (Some (TCPAddr [Byte.x0a; Byte.x00; Byte.x00; Byte.x01] 40000))) in [arrival; RLoop RQueue; arrival; arrival].

Definition crowded_count {H} (s : rstate H) : bool := Z.eqb (k_dropped (r_conns s)) 2.

Lemma dropped_metric_witness :
  exists s, rrun ex_crowded ex_crowded_start (relay_init ex_crowded ex_crowded_start ex_relay_world) ex_crowd = Some s /\ k_dropped (r_conns s) = 2 /\
    counter_value relayDropped (mjoin (sink_relay (mkSink [] false []) 0 <$> k_events (r_conns s))) = 3.
Proof.
  assert (Ht : match rrun ex_crowded ex_crowded_start (relay_init ex_crowded ex_crowded_start ex_relay_world) ex_crowd with Some s => crowded_count s | None => false end = true)
    by (vm_compute; reflexivity).
  destruct (rrun _ _ _ _) as [s|] eqn:E in Ht; [|discriminate Ht]. apply Z.eqb_eq in Ht. exists s. split; [exact E|]. split; [exact Ht|].
  pose proof (proj2 (dropped_metric ex_crowded ex_crowded_start ex_relay_world ex_crowd s (mkSink [] false []) 0 E)) as Hm. rewrite Ht in Hm. lia.
Defined.
