(* ===== verification/RawSend.v ===== *)
(** The SYN senders on raw sockets, knock/synseq_linux.go and
    knock/syn_darwin.go, with everything that can fail on the way: the
    resolution of the server, the outbound address, the socket, its option, the
    random numbers, the writes and the pauses between them. The packets they hand
    to the socket are those of [Send] and [SendSYNSequence] in KnockListen.

    Also the privileges of the process as both platforms and firewall/interface.go
    read them. *)

From Stdlib Require Import ZArith Lia String.
From Stdlib Require Strings.Byte.
From stdpp Require Import base list strings.
From S2P Require Import Prelude GoStd Net GoText GoParse KnockFrame KnockSeq Packet KnockSyn KnockListen.

Open Scope Z_scope.

Inductive platform := Linux | Darwin.

(** What the system answers: the address of the server ([] when there is none),
    the outbound address, the socket and the option that the packets come with
    their IP header. *)
Record raw_env := mkRawEnv { re_resolve : res bytes; re_outbound : res bytes; re_socket : option sock_error; re_hdrincl : option error }.

(** Why a raw socket could not be opened, on either platform. *)
Definition darwinRawSocketError (feature : bytes) (e : sock_error) : error :=
  match e with
  | EPERM | EACCES => EMsg (feature ++ str " on macOS requires root/raw socket permission; run as root or switch knock.method to udp/udp-seq")
  | Errno e => e
  end.

Definition raw_error (p : platform) (feature : bytes) (e : sock_error) : error :=
  match p with Linux => raw_socket_error (feature ++ str " requires CAP_NET_RAW or root") e | Darwin => darwinRawSocketError feature e end.

(** The socket is open. macOS has no option for IPv6. *)
Definition raw_open (p : platform) (feature : bytes) (env : raw_env) (remote : bytes) : option error :=
  match re_socket env with
  | Some e => Some (raw_error p feature e)
  | None => match p, bool_decide (To4 remote = []) with Darwin, true => None | _, _ => re_hdrincl env end
  end.

(** The start of all four senders: the addresses of both sides. *)
Definition raw_start (p : platform) (feature : bytes) (o : SendOptions) (env : raw_env) : res (bytes * bytes) :=
  match ValidateSendOptions o with
  | Some e => Err e
  | None =>
      remote ← re_resolve env;
      if bool_decide (remote = []) then Err (EMsg (str "server address " ++ quoted (se_ServerAddr o) ++ str " did not resolve to an IP address"))
      else
        local ← re_outbound env;
        match raw_open p feature env remote with Some e => Err e | None => Ok (local, remote) end
  end.

(** [sendIPv4], [sendIPv6], [darwinSendIPv4], [darwinSendIPv6]: the packets given
    to the socket, and the error. *)
Definition raw_Send (p : platform) (o : SendOptions) (env : raw_env) (m : moment) (r : rng) : list bytes * option error :=
  match raw_start p (str "tcp-syn knock") o env with
  | Err e => ([], Some e)
  | Ok (local, remote) =>
      let window := if Z.leb (se_TimeWindow o) 0 then 30 * Second else se_TimeWindow o in
      let fields := ComputeSYNFields (se_Secret o) (se_ClientID o) (se_ServerPort o) (SlotFor (mo_now m) window) in
      match ('(srcPort, r) ← randomEphemeralPort r; syn_frame local remote srcPort (se_ServerPort o) fields r) with
      | Err e => ([], Some e)
      | Ok (packet, _) => ([packet], mo_write m)
      end
  end.

(** The loop over the parts, each with its moment. *)
Fixpoint raw_parts (local remote : bytes) (parts : list SYNSeqPart) (moments : list moment) (r : rng) : list bytes * option error :=
  match parts, moments with
  | part :: parts, m :: moments =>
      match ('(srcPort, r) ← randomEphemeralPort r; syn_frame local remote srcPort (sp_Port part) (sp_Fields part) r) with
      | Err e => ([], Some e)
      | Ok (packet, r) =>
          match mo_write m with
          | Some e => ([packet], Some e)
          | None =>
              match (if parts is [] then None else mo_pause m) with
              | Some e => ([packet], Some e)
              | None => let '(sent, err) := raw_parts local remote parts moments r in (packet :: sent, err)
              end
          end
      end
  | _, _ => ([], None)
  end.

(** [sendSYNSequenceIPv4], [sendSYNSequenceIPv6] and those of macOS; [now] is when
    the parts are computed, and [moments] has an entry for each of them. *)
Definition raw_SendSYNSequence (p : platform) (o : SendOptions) (env : raw_env) (now : Z) (moments : list moment) (r : rng) : list bytes * option error :=
  match raw_start p (str "tcp-syn-seq knock") o env with
  | Err e => ([], Some e)
  | Ok (local, remote) =>
      let seq := normalizedSequenceOptions (se_Sequence o) in
      raw_parts local remote
        (ComputeSYNSeqParts (se_Secret o) (se_ClientID o) (se_ServerPort o) (Z.quot (Unix now) (so_SlotSeconds seq)) (so_Length seq)) moments r
  end.

(** Those of macOS. *)
Definition darwin_Send : SendOptions -> raw_env -> moment -> rng -> list bytes * option error := raw_Send Darwin.
Definition darwin_SendSYNSequence : SendOptions -> raw_env -> Z -> list moment -> rng -> list bytes * option error := raw_SendSYNSequence Darwin.

(** ** What the senders write *)

(** Writes and pauses succeed. *)
Definition smooth (m : moment) : Prop := mo_write m = None /\ mo_pause m = None.

Lemma raw_start_Ok p feature o env local remote : raw_start p feature o env = Ok (local, remote) ->
  ValidateSendOptions o = None /\ re_resolve env = Ok remote /\ remote <> [] /\ re_outbound env = Ok local.
Proof.
  unfold raw_start. destruct (ValidateSendOptions o); [done|]. intros (rem & E1 & E)%res_bind_Ok. case_bool_decide as Hn; [done|].
  apply res_bind_Ok in E as (loc & E2 & E). destruct (raw_open _ _ _ _); [done|]. by injection E as -> ->.
Qed.

Lemma raw_parts_spec local remote parts : forall moments r sent err packets, length parts = length moments ->
  raw_parts local remote parts moments r = (sent, err) ->
  (syn_frames local remote parts r = Ok packets -> sent `prefix_of` packets) /\ (err = None -> syn_frames local remote parts r = Ok sent) /\
  (Forall smooth moments -> syn_frames local remote parts r = Ok packets -> err = None).
Proof.
  induction parts as [|part parts IH]; intros [|m moments] r sent err packets Hl; try done; cbn [raw_parts syn_frames].
  - intros [= <- <-]. split_and!; [|done|done]. intros _. apply prefix_nil.
  - destruct (randomEphemeralPort r) as [[srcPort r1]|e] eqn:Ep; cbn [mbind]; unfold mbind, res_bind; [|by intros [= <- <-]].
    destruct (syn_frame local remote srcPort (sp_Port part) (sp_Fields part) r1) as [[packet r2]|e] eqn:Ef; [|by intros [= <- <-]].
    assert (Hp : forall rest, (match syn_frames local remote parts r2 with Ok a => Ok (packet :: a) | Err err => Err err end) = Ok rest ->
      exists tl, syn_frames local remote parts r2 = Ok tl /\ rest = packet :: tl) by (intros rest; destruct (syn_frames _ _ _ _); [intros [= <-]; eauto|done]).
    destruct (mo_write m) as [e|] eqn:Ew.
    { intros [= <- <-]. split_and!; [|done|intros [[Hw _] _]%Forall_cons; congruence]. intros (tl & _ & ->)%Hp. apply prefix_cons, prefix_nil. }
    destruct (if parts is [] then None else mo_pause m) as [e|] eqn:Ews.
    { intros [= <- <-]. split_and!; [|done|]. { intros (tl & _ & ->)%Hp. apply prefix_cons, prefix_nil. }
      intros [[_ Hs] _]%Forall_cons. destruct parts; congruence. }
    destruct (raw_parts local remote parts moments r2) as [sent' err'] eqn:E. intros [= <- <-]. injection Hl as Hl. split_and!.
    + intros (tl & Et & ->)%Hp. destruct (IH _ _ _ _ tl Hl E) as (H1 & _). by apply prefix_cons, H1.
    + intros He. destruct (IH _ _ _ _ [] Hl E) as (_ & H2 & _). by rewrite (H2 He).
    + intros [_ Hs]%Forall_cons (tl & Et & _)%Hp. destruct (IH _ _ _ _ tl Hl E) as (_ & _ & H3). by apply H3.
Qed.

(** The raw-socket senders of Linux and macOS send the packets of
    [Send] and [SendSYNSequence], nothing else: once the addresses are known and
    the socket is open, a single knock is exactly the packet of [Send], and of a
    sequence a prefix of the packets is written, in order, all of them if and only
    if no error is returned; without a socket nothing is written. *)
Theorem raw_send_exact (p : platform) (o : SendOptions) (env : raw_env) (local remote : bytes) :
  re_resolve env = Ok remote -> re_outbound env = Ok local -> re_hdrincl env = None ->
  (re_socket env = None -> forall m r,
     raw_Send p o env m r = match Send o local remote (mo_now m) r with Ok packet => ([packet], mo_write m) | Err e => ([], Some e) end) /\
  (re_socket env = None -> forall now moments r sent err,
     length moments = length (ComputeSYNSeqParts (se_Secret o) (se_ClientID o) (se_ServerPort o)
       (Z.quot (Unix now) (so_SlotSeconds (normalizedSequenceOptions (se_Sequence o)))) (so_Length (normalizedSequenceOptions (se_Sequence o)))) ->
     raw_SendSYNSequence p o env now moments r = (sent, err) ->
     (err = None -> SendSYNSequence o local remote now r = Ok sent) /\
     (forall packets, SendSYNSequence o local remote now r = Ok packets -> sent `prefix_of` packets /\ (Forall smooth moments -> err = None))) /\
  (re_socket env <> None -> forall m now moments r, fst (raw_Send p o env m r) = [] /\ fst (raw_SendSYNSequence p o env now moments r) = []).
Proof.
  intros Er El Eh. split_and!.
  - intros Es m r. unfold raw_Send, raw_start, Send, raw_open. rewrite Er, El, Es, Eh. cbn [mbind]. unfold mbind, res_bind.
    destruct (ValidateSendOptions o); [done|]. destruct (bool_decide (remote = [])); [done|]. destruct p, (bool_decide (To4 remote = []));
      destruct (randomEphemeralPort r) as [[srcPort r1]|e]; try done; by destruct (syn_frame _ _ _ _ _ _) as [[packet r2]|e].
  - intros Es now moments r sent err Hl. unfold raw_SendSYNSequence, raw_start, SendSYNSequence, raw_open. rewrite Er, El, Es, Eh. cbn [mbind]. unfold mbind, res_bind.
    destruct (ValidateSendOptions o); [by intros [= <- <-]|]. destruct (bool_decide (remote = [])); [by intros [= <- <-]|].
    assert (Hgo : forall b : bool, match p, b with Darwin, true => @None error | _, _ => None end = None) by (intros b; by destruct p, b). rewrite Hgo.
    intros E. split.
    + intros He. destruct (raw_parts_spec _ _ _ _ _ _ _ [] (eq_sym Hl) E) as (_ & H2 & _). by apply H2.
    + intros packets Hp. destruct (raw_parts_spec _ _ _ _ _ _ _ packets (eq_sym Hl) E) as (H1 & _ & H3). split; [by apply H1|]. intros Hs. by apply H3.
  - intros Es m now moments r. unfold raw_Send, raw_SendSYNSequence, raw_start, raw_open. destruct (re_socket env); [|done]. rewrite Er, El. cbn [mbind]. unfold mbind, res_bind.
    destruct (ValidateSendOptions o); [done|]. by destruct (bool_decide _).
Qed.

Definition ex_raw_env : raw_env := mkRawEnv (Ok Packet.ex_ip) (Ok Packet.ex_ip) None None.

Lemma raw_send_exact_witness :
  fst (raw_Send Darwin (ex_send 2) ex_raw_env (mkMoment (59 * Second) None None) (zeros 4)) = [ex_syn_packet] /\
  fst (raw_Send Linux (ex_send 2) (mkRawEnv (Ok Packet.ex_ip) (Ok Packet.ex_ip) (Some EPERM) None) (mkMoment (59 * Second) None None) (zeros 4)) = [].
Proof.
  split.
  - rewrite (proj1 (raw_send_exact Darwin (ex_send 2) ex_raw_env Packet.ex_ip Packet.ex_ip eq_refl eq_refl eq_refl) eq_refl).
    cbn [mo_now]. rewrite ex_syn_sent. reflexivity.
  - refine (proj1 (proj2 (proj2 (raw_send_exact Linux (ex_send 2) (mkRawEnv (Ok Packet.ex_ip) (Ok Packet.ex_ip) (Some EPERM) None) Packet.ex_ip Packet.ex_ip
      eq_refl eq_refl eq_refl)) _ _ 0 [] _)). discriminate.
Defined.

(** * Privileges *)

(** [strings.Fields] *)
Fixpoint fields_from (fuel : nat) (s cur : bytes) : list bytes :=
  let flush rest := match cur with [] => rest | _ => cur :: rest end in
  match fuel, s with
  | S fuel, b :: rest =>
      match find (HasPrefix s) space_runes with
      | Some r => flush (fields_from fuel (drop (length r) s) [])
      | None => fields_from fuel rest (cur ++ [b])
      end
  | _, _ => flush []
  end.
Definition Fields (s : bytes) : list bytes := fields_from (S (length s)) s [].

(** [strings.Split] at a byte. *)
Fixpoint split_at (sep : byte) (s cur : bytes) : list bytes :=
  match s with
  | [] => [cur]
  | b :: s => if Byte.eqb b sep then cur :: split_at sep s [] else split_at sep s (cur ++ [b])
  end.
Definition Split (sep : byte) (s : bytes) : list bytes := split_at sep s [].

(** [strconv.ParseUint(s, 16, 64)] *)
Fixpoint hex_number (acc : Z) (s : bytes) : option Z :=
  match s with
  | [] => Some acc
  | b :: s =>
      match hex_val b with
      | None => None
      | Some d => if Z.ltb (2 ^ 64 - 1) (acc * 16 + d) then None else hex_number (acc * 16 + d) s
      end
  end.
Definition ParseUint16_64 (s : bytes) : option Z := match s with [] => None | _ => hex_number 0 s end.

(** The line of the effective capabilities in /proc/self/status. *)
Definition cap_line (status : bytes) : option bytes := find (fun line => HasPrefix line (str "CapEff:")) (Split Byte.x0a status).

(** The number on it. *)
Definition cap_value (line : bytes) : option Z := match Fields line with [_; v] => ParseUint16_64 v | _ => None end.

(** knock/synseq_linux.go; [status] is the file, [None] if it cannot be read. *)
Definition hasEffectiveCaps (status : option bytes) (required : list Z) : bool :=
  match (status ← status; cap_line status) with
  | None => false
  | Some line => match cap_value line with None => false | Some v => forallb (fun capNo => Z.testbit v capNo) required end
  end.

Definition CheckServerPrivileges (root : bool) (status : option bytes) : option error :=
  if root then None
  else if hasEffectiveCaps status [12; 13] then None
  else Some (EMsg (str "server requires CAP_NET_ADMIN and CAP_NET_RAW, or must be run as root")).

(** firewall/interface.go: without a line it is whether the process is root. *)
Definition hasEffectiveCapability (root : bool) (status : option bytes) (bit : Z) : bool :=
  match (status ← status; cap_line status) with
  | None => root
  | Some line => match cap_value line with None => false | Some v => Z.testbit v bit end
  end.

(** The two agree as long as the file has the line. *)
Lemma capabilities_agree root status bit : (status ≫= cap_line) <> None -> hasEffectiveCaps status [bit] = hasEffectiveCapability root status bit.
Proof.
  unfold hasEffectiveCaps, hasEffectiveCapability. destruct (status ≫= cap_line) as [line|]; [|done]. intros _.
  destruct (cap_value line); [|done]. cbn. by rewrite andb_true_r.
Qed.

Definition ex_status (caps : bytes) : bytes := str "Name:" ++ [Byte.x09] ++ str "knock" ++ [Byte.x0a] ++ str "CapEff:" ++ [Byte.x09] ++ caps ++ [Byte.x0a].

(** CAP_NET_ADMIN and CAP_NET_RAW, and the second alone. *)
Example caps_read :
  hasEffectiveCaps (Some (ex_status (str "0000000000003000"))) [12; 13] = true /\ hasEffectiveCaps (Some (ex_status (str "0000000000002000"))) [12; 13] = false /\
  CheckServerPrivileges false (Some (ex_status (str "0000000000003000"))) = None.
Proof. vm_compute. auto. Qed.
