(* ===== verification/Bpf.v ===== *)
(** knock/syn_darwin.go and knock/udp_passive_darwin.go: the listeners of macOS,
    which read frames from a BPF device.

    A read of the device gives a buffer with any number of records, each a header,
    a frame and padding; [bpf_walk] is the loop that takes them apart. The rounds
    of the listeners are those of KnockListen. *)

From Stdlib Require Import ZArith Lia String.
From Stdlib Require Strings.Byte.
From stdpp Require Import base list strings.
From S2P Require Import Prelude GoStd Cryptox Replay Net GoText KnockFrame KnockSeq Packet KnockSyn KnockListen RawSend.

Open Scope Z_scope.

(** * The device *)

Definition bpfReadBufferLen : Z := 65535.

(** [unix.SizeofBpfHdr]; the length of the frame is at 8, that of the header at 16,
    little-endian. *)
Definition SizeofBpfHdr : Z := 20.
Definition le_uint (s : bytes) (a n : Z) : option Z := (fun b => be_get (reverse b)) <$> go_slice s a (a + n).

(** The size of a [uintptr] is 8. *)
Definition word_align (w n : Z) : Z := (n + w - 1) - (n + w - 1) mod w.
Definition bpfWordAlign (n : Z) : Z := word_align 8 n.

(** The loop over the records of a read, from offset [off] on. [None] is an index
    out of range. *)
Fixpoint bpf_walk (fuel : nat) (buf : bytes) (off : Z) : option (list bytes) :=
  match fuel with
  | O => Some []
  | S fuel =>
      if Z.leb (off + SizeofBpfHdr) (len buf) then
        Caplen ← le_uint buf (off + 8) 4;
        Hdrlen ← le_uint buf (off + 16) 2;
        let start := off + Hdrlen in
        let stop := start + Caplen in
        if Z.ltb start off || Z.ltb stop start || Z.ltb (len buf) stop then Some []
        else
          frame ← go_slice buf start stop;
          let next := bpfWordAlign (Hdrlen + Caplen) in
          if Z.leb next 0 then Some [frame]
          else frames ← bpf_walk fuel buf (off + next); Some (frame :: frames)
      else Some []
  end.

(** The frames of a read; each round advances by at least 8. *)
Definition bpf_frames (buf : bytes) : option (list bytes) := bpf_walk (S (length buf)) buf 0.

(** [openBPFDevice]: what opening each of the 255 devices gives. *)
Definition bpf_permission : error := EMsg (str "macOS passive knock listener requires root or read/write permission on /dev/bpf*").

Fixpoint open_devices (answers : list (option sock_error)) (last : option sock_error) (i : Z) : res Z :=
  match answers with
  | None :: _ => Ok i
  | Some e :: answers => open_devices answers (Some e) (i + 1)
  | [] =>
      Err (match last with
           | Some EPERM | Some EACCES => bpf_permission
           | Some (Errno e) => e
           | None => EMsg (str "no such file or directory")
           end)
  end.

Definition openBPFDevice (answers : list (option sock_error)) : res Z := open_devices (take 255 answers) None 0.

Definition readableBPFDeviceExists (answers : list (option sock_error)) : bool := is_ok (openBPFDevice answers).

Definition darwin_CheckServerPrivileges (root : bool) (answers : list (option sock_error)) : option error :=
  if root || readableBPFDeviceExists answers then None
  else Some (EMsg (str "macOS passive knock server requires root or read/write permission on /dev/bpf*; grant BPF permission or run as root")).

(** An interface, with what attaching the device to it gives. *)
Record bpf_iface := mkIface { if_name : bytes; if_up : bool; if_loopback : bool; if_attach : option error }.

(** One of the two loops of [attachBPFToBestInterface]: the interface, or the last
    error. *)
Fixpoint attach_loop (usable : bpf_iface -> bool) (ifaces : list bpf_iface) (last : option error) : bytes + option error :=
  match ifaces with
  | [] => inr last
  | i :: ifaces =>
      if usable i then match if_attach i with None => inl (if_name i) | Some e => attach_loop usable ifaces (Some e) end
      else attach_loop usable ifaces last
  end.

Definition attachBPFToBestInterface (ifaces : res (list bpf_iface)) : res bytes :=
  ifaces ← ifaces;
  match attach_loop (fun i => if_up i && negb (if_loopback i)) ifaces None with
  | inl name => Ok name
  | inr last =>
      match attach_loop if_up ifaces last with
      | inl name => Ok name
      | inr (Some e) => Err (EWrap (str "could not attach BPF device to an interface: ") e)
      | inr None => Err (EMsg (str "could not attach BPF device: no usable network interface"))
      end
  end.

(** What the system answers when the device is set up. *)
Record bpf_env := mkBpfEnv {
  be_devices : list (option sock_error); be_version : option error; be_buflen : option error; be_ifaces : res (list bpf_iface); be_immediate : option error;
}.

Definition bpf_setup (env : bpf_env) : option error :=
  match openBPFDevice (be_devices env) with
  | Err e => Some e
  | Ok _ =>
      match be_version env, be_buflen env, attachBPFToBestInterface (be_ifaces env), be_immediate env with
      | Some e, _, _, _ | None, Some e, _, _ | None, None, Err e, _ | None, None, Ok _, Some e => Some e
      | None, None, Ok _, None => None
      end
  end.

(** * The listeners *)

Definition with_data (data : bytes) (a : arrival) : arrival :=
  mkArrival data (ar_from a) (ar_allow a) (ar_limit a) (ar_now a) (ar_add a) (ar_order a) (ar_ord a) (ar_ord' a).

(** The frames of all reads, the [k]-th with the clock and the answers of the
    callbacks that [stamp] gives for it. *)
Definition bpf_arrivals (reads : list bytes) (stamp : nat -> arrival) : list arrival :=
  imap (fun k frame => with_data frame (stamp k)) (mjoin ((fun buf => default [] (bpf_frames buf)) <$> reads)).

(** [darwinListenBPF] *)
Definition darwinListenBPF {S} (env : bpf_env) (round : arrival -> S -> list output * S) (s : S) (reads : list bytes) (stamp : nat -> arrival) (e : ending)
    : list output * error :=
  match bpf_setup env with
  | Some err => ([], err)
  | None => ((serve round (bpf_arrivals reads stamp) s).1, loop_error e)
  end.

Section Listeners.
Context `{AEAD} {C : Type} `{ReplayCache C}.
Context (env : bpf_env) (o : ListenOptions C) (reads : list bytes) (stamp : nat -> arrival) (e : ending).

Definition darwin_Listen : list output * error :=
  match ValidateClientSecrets (lo_Clients o) with
  | Some err => ([], err)
  | None =>
      let o := with_window o in
      if Z.ltb (lo_Port o) 1 || Z.ltb 65535 (lo_Port o) then ([], EMsg (str "invalid knock listen port " ++ itoa (lo_Port o)))
      else darwinListenBPF env (syn_round o) (listen_cache o) reads stamp e
  end.

Definition darwin_ListenSYNSequence : list output * error :=
  match ValidateClientSecrets (lo_Clients o) with
  | Some err => ([], err)
  | None =>
      if Z.ltb (lo_Port o) 1 || Z.ltb 65535 (lo_Port o) then ([], EMsg (str "invalid protected port " ++ itoa (lo_Port o)))
      else darwinListenBPF env (synseq_round o) (newSYNSequenceTracker (normalizedSequenceOptions (lo_Sequence o)) (lo_ReplayCache o)) reads stamp e
  end.

Definition darwin_ListenUDPPassive : list output * error :=
  let o := with_window o in
  match passive_ports o with
  | Err err => ([], err)
  | Ok knockPort =>
      match ValidateClientSecrets (lo_Clients o) with
      | Some err => ([], err)
      | None => darwinListenBPF env (passive_round o knockPort) (listen_cache o) reads stamp e
      end
  end.

Definition darwin_ListenUDPPassiveSequence : list output * error :=
  match passive_ports o with
  | Err err => ([], err)
  | Ok knockPort =>
      match ValidateClientSecrets (lo_Clients o) with
      | Some err => ([], err)
      | None => darwinListenBPF env (passive_seq_round o knockPort) (listen_cache o, newSequenceTracker (lo_Sequence o) (lo_NonceTTL o)) reads stamp e
      end
  end.

End Listeners.

(** clientcheck_darwin.go *)
Definition darwin_CheckClientSupport (root : bool) (method : bytes) : option error :=
  if negb (bool_decide (method = TCPSYNMethod)) && negb (bool_decide (method = TCP_SYNSeqMethod)) then None
  else if root then None
  else Some (EMsg (str "tcp-syn/tcp-syn-seq knock on macOS requires root/raw socket permission; run as root or switch knock.method to udp/udp-seq")).

(** * Records *)

(** A record as the device lays it out: a header of [h] bytes and the frame. *)
Definition bpf_header (h : Z) (frame : bytes) : bytes :=
  zeros 8 ++ reverse (be_put 4 (len frame)) ++ reverse (be_put 4 (len frame)) ++ reverse (be_put 2 h) ++ zeros (Z.to_nat (h - 18)).
Definition bpf_padding (w h : Z) (frame : bytes) : bytes := zeros (Z.to_nat (word_align w (h + len frame) - (h + len frame))).

(** A buffer in which each record starts at a multiple of [w] after the one before. *)
Fixpoint bpf_layout (w h : Z) (frames : list bytes) : bytes :=
  match frames with
  | [] => []
  | [frame] => bpf_header h frame ++ frame
  | frame :: rest => bpf_header h frame ++ frame ++ bpf_padding w h frame ++ bpf_layout w h rest
  end.

(** A frame fits into a record. *)
Definition frame_ok (frame : bytes) : Prop := 2 <= len frame < 2 ^ 32.

Lemma go_slice_mid (pre mid post : bytes) a b : a = len pre -> b = len pre + len mid -> go_slice (pre ++ mid ++ post) a b = Some mid.
Proof.
  intros -> ->. unfold go_slice. rewrite !len_app. pose proof (len_nonneg pre). pose proof (len_nonneg mid). pose proof (len_nonneg post).
  destruct (Z.leb_spec 0 (len pre)); [|lia]. destruct (Z.leb_spec (len pre) (len pre + len mid)); [|lia].
  destruct (Z.leb_spec (len pre + len mid) (len pre + (len mid + len post))); [|lia]. cbn. f_equal. unfold slice, len.
  replace (Z.to_nat (Z.of_nat (length pre) + Z.of_nat (length mid)) - Z.to_nat (Z.of_nat (length pre)))%nat with (length mid) by lia.
  rewrite Nat2Z.id, drop_app_length, take_app_length. done.
Qed.

Lemma le_uint_mid (pre post : bytes) n v a : a = len pre -> 0 <= v < 256 ^ Z.of_nat n -> le_uint (pre ++ reverse (be_put n v) ++ post) a (Z.of_nat n) = Some v.
Proof.
  intros Ha Hv. unfold le_uint. rewrite (go_slice_mid pre (reverse (be_put n v)) post) by (unfold len in *; rewrite ?length_reverse, ?length_be_put; lia).
  cbn. rewrite reverse_involutive, be_get_put. f_equal. by apply Z.mod_small.
Qed.

Lemma len_header h frame : 18 <= h -> len (bpf_header h frame) = h.
Proof. intros Hh. unfold bpf_header, len, zeros. rewrite !length_app, !length_reverse, !length_be_put, !length_replicate. lia. Qed.

Lemma header_fields (pre post : bytes) h frame off : off = len pre -> 18 <= h < 65536 -> frame_ok frame ->
  le_uint (pre ++ bpf_header h frame ++ post) (off + 8) 4 = Some (len frame) /\ le_uint (pre ++ bpf_header h frame ++ post) (off + 16) 2 = Some h.
Proof.
  intros -> Hh Hf. unfold frame_ok in Hf. unfold bpf_header. split.
  - rewrite <- !(assoc_L (++)), (assoc_L (++) pre (zeros 8)). apply (le_uint_mid (pre ++ zeros 8) _ 4); [rewrite len_app; reflexivity|change (256 ^ Z.of_nat 4) with (2 ^ 32); lia].
  - rewrite <- !(assoc_L (++)), (assoc_L (++) pre (zeros 8)), (assoc_L (++) (pre ++ _)), (assoc_L (++) ((pre ++ _) ++ _)).
    apply (le_uint_mid (((pre ++ zeros 8) ++ _) ++ _) _ 2); [|change (256 ^ Z.of_nat 2) with 65536; lia].
    unfold len, zeros. rewrite !length_app, !length_reverse, !length_be_put, length_replicate. lia.
Qed.

Lemma word_align_ge w n : 0 < w -> n <= word_align w n.
Proof. intros Hw. unfold word_align. pose proof (Z.mod_pos_bound (n + w - 1) w Hw). lia. Qed.

Lemma bpf_layout_cons w h frame rest :
  bpf_layout w h (frame :: rest) = bpf_header h frame ++ frame ++ match rest with [] => [] | _ => bpf_padding w h frame ++ bpf_layout w h rest end.
Proof. destruct rest; [by rewrite app_nil_r|done]. Qed.

(** One round on a record. *)
Lemma bpf_walk_record fuel pre h frame post : 18 <= h < 65536 -> frame_ok frame ->
  bpf_walk (S fuel) (pre ++ bpf_header h frame ++ frame ++ post) (len pre) =
  (frames ← bpf_walk fuel (pre ++ bpf_header h frame ++ frame ++ post) (len pre + bpfWordAlign (h + len frame)); Some (frame :: frames)).
Proof.
  intros Hh Hf. destruct (header_fields pre (frame ++ post) h frame (len pre) eq_refl Hh Hf) as [E1 E2]. cbn [bpf_walk]. set (buf := pre ++ _) in *.
  assert (Hl : len buf = len pre + h + len frame + len post) by (unfold buf; rewrite !len_app, len_header by lia; lia).
  pose proof (len_nonneg post). unfold frame_ok in Hf. unfold SizeofBpfHdr. destruct (Z.leb_spec (len pre + 20) (len buf)); [|lia].
  rewrite E1, E2. cbn [mbind option_bind]. destruct (Z.ltb_spec (len pre + h) (len pre)); [lia|]. destruct (Z.ltb_spec (len pre + h + len frame) (len pre + h)); [lia|].
  destruct (Z.ltb_spec (len buf) (len pre + h + len frame)); [lia|]. cbn [orb].
  assert (Es : go_slice buf (len pre + h) (len pre + h + len frame) = Some frame).
  { unfold buf. rewrite (assoc_L (++)). apply go_slice_mid; rewrite len_app, len_header by lia; lia. }
  rewrite Es. cbn [mbind option_bind]. pose proof (word_align_ge 8 (h + len frame) ltac:(lia)). fold (bpfWordAlign (h + len frame)) in *.
  destruct (Z.leb_spec (bpfWordAlign (h + len frame)) 0); [lia|]. done.
Qed.

Lemma bpf_walk_end fuel buf off : len buf < off + SizeofBpfHdr -> bpf_walk fuel buf off = Some [].
Proof. intros Hl. destruct fuel; [done|]. cbn [bpf_walk]. destruct (Z.leb_spec (off + SizeofBpfHdr) (len buf)); [lia|done]. Qed.

Lemma bpf_walk_layout h frames : forall fuel pre, 18 <= h < 65536 -> Forall frame_ok frames -> (length frames < fuel)%nat ->
  bpf_walk fuel (pre ++ bpf_layout 8 h frames) (len pre) = Some frames.
Proof.
  induction frames as [|frame rest IH]; intros fuel pre Hh Hf Hn.
  { apply bpf_walk_end. cbn. rewrite app_nil_r. unfold SizeofBpfHdr. lia. }
  apply Forall_cons in Hf as [Hf Hr]. destruct fuel as [|fuel]; [lia|]. cbn [length] in Hn. rewrite bpf_layout_cons, bpf_walk_record by done.
  pose proof (word_align_ge 8 (h + len frame) ltac:(lia)) as Ha. destruct rest as [|f rest].
  - rewrite bpf_walk_end; [done|]. rewrite app_nil_r, !len_app, len_header by lia. unfold SizeofBpfHdr, bpfWordAlign. lia.
  - assert (Ep : pre ++ bpf_header h frame ++ frame ++ bpf_padding 8 h frame ++ bpf_layout 8 h (f :: rest) =
                 (pre ++ bpf_header h frame ++ frame ++ bpf_padding 8 h frame) ++ bpf_layout 8 h (f :: rest)) by (by rewrite <- !(assoc_L (++))).
    rewrite Ep. set (pre' := pre ++ _ ++ _ ++ _). assert (Hl : len pre + bpfWordAlign (h + len frame) = len pre').
    { unfold pre', bpf_padding, bpfWordAlign. rewrite !len_app, len_header by lia. unfold len at 5, zeros. rewrite length_replicate. lia. }
    rewrite Hl, (IH fuel pre' Hh Hr) by lia. done.
Qed.

(** ** The loop ends and stays within the buffer *)

Lemma le_uint_Some buf a n : 0 <= a -> 0 <= n -> a + n <= len buf -> exists v, le_uint buf a n = Some v /\ 0 <= v.
Proof.
  intros Ha Hn Hl. unfold le_uint, go_slice. destruct (Z.leb_spec 0 a); [|lia]. destruct (Z.leb_spec a (a + n)); [|lia]. destruct (Z.leb_spec (a + n) (len buf)); [|lia].
  cbn. eexists. split; [reflexivity|]. apply be_get_bound.
Qed.

Lemma go_slice_Some buf a b : 0 <= a -> a <= b -> b <= len buf -> exists f, go_slice buf a b = Some f /\ exists pre post, buf = pre ++ f ++ post.
Proof.
  intros Ha Hab Hb. unfold go_slice. destruct (Z.leb_spec 0 a); [|lia]. destruct (Z.leb_spec a b); [|lia]. destruct (Z.leb_spec b (len buf)); [|lia].
  cbn. eexists. split; [reflexivity|]. exists (take (Z.to_nat a) buf), (drop (Z.to_nat b - Z.to_nat a) (drop (Z.to_nat a) buf)). unfold slice. by rewrite take_drop, take_drop.
Qed.

Lemma bpf_walk_total buf fuel : forall off, 0 <= off ->
  exists frames, bpf_walk fuel buf off = Some frames /\ Forall (fun f => exists pre post, buf = pre ++ f ++ post) frames /\
    (len buf - off < Z.of_nat fuel -> forall more, (fuel <= more)%nat -> bpf_walk more buf off = Some frames).
Proof.
  induction fuel as [|fuel IH]; intros off Ho.
  { exists []. split_and!; [done|done|]. intros Hl more _. apply bpf_walk_end. unfold SizeofBpfHdr. lia. }
  cbn [bpf_walk]. destruct (Z.leb_spec (off + SizeofBpfHdr) (len buf)) as [Hl|Hl].
  2:{ exists []. split_and!; [done|done|]. intros _ more _. by apply bpf_walk_end. }
  pose proof Hl as Hl0. unfold SizeofBpfHdr in Hl. destruct (le_uint_Some buf (off + 8) 4) as (cap & Ec & Hc); [lia..|]. destruct (le_uint_Some buf (off + 16) 2) as (hdr & Eh & Hh); [lia..|].
  rewrite Ec, Eh. cbn [mbind option_bind].
  assert (Hm : forall more, (S fuel <= more)%nat -> exists more', more = S more' /\ (fuel <= more')%nat) by (intros [|m]; [lia|]; intros; exists m; lia).
  destruct (_ || _) eqn:Eb.
  { exists []. split_and!; [done|done|]. intros _ more (m & -> & _)%Hm. cbn [bpf_walk]. destruct (Z.leb_spec (off + SizeofBpfHdr) (len buf)); [|lia].
    rewrite Ec, Eh. cbn [mbind option_bind]. by rewrite Eb. }
  apply orb_false_iff in Eb as Eb2. destruct Eb2 as [_ Eb2]. apply Z.ltb_ge in Eb2.
  destruct (go_slice_Some buf (off + hdr) (off + hdr + cap)) as (f & Ef & Hf); [lia..|]. rewrite Ef. cbn [mbind option_bind].
  destruct (Z.leb_spec (bpfWordAlign (hdr + cap)) 0) as [Hw|Hw].
  { exists [f]. split_and!; [done|by constructor|]. intros _ more (m & -> & _)%Hm. cbn [bpf_walk]. destruct (Z.leb_spec (off + SizeofBpfHdr) (len buf)); [|lia].
    rewrite Ec, Eh. cbn [mbind option_bind]. rewrite Eb, Ef. cbn [mbind option_bind]. destruct (Z.leb_spec (bpfWordAlign (hdr + cap)) 0); [done|lia]. }
  destruct (IH (off + bpfWordAlign (hdr + cap))) as (frames & E & Hfs & Hmore); [lia|]. rewrite E. cbn [mbind option_bind].
  exists (f :: frames). split_and!; [done|by constructor|]. intros Hn more (m & -> & Hle)%Hm. cbn [bpf_walk]. destruct (Z.leb_spec (off + SizeofBpfHdr) (len buf)); [|lia].
  rewrite Ec, Eh. cbn [mbind option_bind]. rewrite Eb, Ef. cbn [mbind option_bind]. destruct (Z.leb_spec (bpfWordAlign (hdr + cap)) 0); [lia|].
  rewrite Hmore; [done|lia|done].
Qed.

(** Property C32. The loop over a BPF buffer never reads out of range and ends,
    whatever the buffer holds: the fuel is enough, and each frame is a part of the
    buffer. Of a buffer whose records start at multiples of 8 it gives exactly the
    frames. But the devices of macOS align records to 4: then a buffer with two SYN
    knocks of 66 bytes gives only the first, and the listener that would have
    accepted both in separate reads calls its handler once. *)
Theorem bpf_frames_exact :
  (forall buf, exists frames, bpf_frames buf = Some frames /\ Forall (fun f => exists pre post, buf = pre ++ f ++ post) frames /\
     forall more, (S (length buf) <= more)%nat -> bpf_walk more buf 0 = Some frames) /\
  (forall h frames, 18 <= h < 65536 -> Forall frame_ok frames -> bpf_frames (bpf_layout 8 h frames) = Some frames) /\
  (let two := [syn_frame_for 1; syn_frame_for 2] in
   let listen reads := fst (darwin_Listen (mkBpfEnv [None] None None (Ok [mkIface (str "en0") true false None]) None) (ex_syn_listener (30 * Second)) reads
     (fun _ => arrives [] (59 * Second)) (mkEnding None io_EOF)) in
   ~ (exists frames, bpf_frames (bpf_layout 4 18 two) = Some frames /\ syn_frame_for 2 ∈ frames) /\
   length (listen [bpf_layout 4 18 two]) = 1%nat /\ length (listen ((fun f => bpf_layout 4 18 [f]) <$> two)) = 2%nat).
Proof.
  split_and!.
  - intros buf. destruct (bpf_walk_total buf (S (length buf)) 0) as (frames & E & Hf & Hm); [lia|]. exists frames. split_and!; [done|done|]. apply Hm. unfold len. lia.
  - intros h frames Hh Hf. apply (bpf_walk_layout h frames _ []); [done|done|].
    assert (Hl : forall l, Forall frame_ok l -> (length l <= length (bpf_layout 8 h l))%nat); [|specialize (Hl _ Hf); lia].
    induction l as [|f l IH]; [done|]. intros [Hf1 Hl]%Forall_cons. rewrite bpf_layout_cons, !length_app.
    pose proof (len_header h f ltac:(lia)) as Hlh. unfold len in Hlh. specialize (IH Hl). destruct l; cbn [length] in *; [lia|]. rewrite length_app. lia.
  - cbv zeta. split_and!; [|vm_compute; reflexivity..]. intros (frames & E & Hf).
    assert (Ht : match bpf_frames (bpf_layout 4 18 [syn_frame_for 1; syn_frame_for 2]) with Some l => bool_decide (syn_frame_for 2 ∈ l) | None => false end = false)
      by (vm_compute; reflexivity). rewrite E in Ht. apply bool_decide_eq_false in Ht. exact (Ht Hf).
Qed.
