(* ===== verification/WindowsSend.v ===== *)
(** The SYN senders of Windows: knock/syn_windows.go, windows_route.go,
    windows_net.go, windows_adapter.go, packet_windows.go and
    windivert_windows.go.

    A knock is sent through WinDivert, or else as an Ethernet frame through Npcap:
    then the sender has to find the interface, the next hop in the routing tables
    (from the API and from the text that two programs print), its MAC address and
    the name of the adapter. What the system answers are arguments; IP addresses
    are bytes and [[]] is [nil]. The texts of errors leave out the reasons of the
    attempts before and the advice how to install a library. *)

From Stdlib Require Import ZArith Lia String.
From Stdlib Require Strings.Byte.
From stdpp Require Import base list gmap strings.
From S2P Require Import Prelude GoStd Net GoText GoParse KnockFrame KnockSeq Packet KnockSyn KnockListen RawSend.

Open Scope Z_scope.

(** * Addresses and masks *)

(** [net.ParseIP(s).To4()] *)
Definition ParseIP4 (s : bytes) : bytes :=
  match ParseAddr s with
  | Some (Addr4 ip) => ip
  | Some (Addr6 ip []) => To4 ip
  | _ => []
  end.

(** [ip.Mask(mask)] for an address and a mask of 4 bytes. *)
Definition ip_Mask (ip mask : bytes) : bytes := zip_with (fun a b => byte_of (Z.land (byte_val a) (byte_val b))) ip mask.

Definition IPv4zero : bytes := zeros 4.

(** [net.CIDRMask(n, 32)] *)
Definition CIDRMask (n : Z) : bytes := be_put 4 (2 ^ 32 - 2 ^ (32 - n)).

(** The leading ones of [mask.Size()], if the mask is canonical and has 4 bytes. *)
Definition mask_Size (mask : bytes) : option Z := find (fun n => bool_decide (mask = CIDRMask n)) (seqZ 0 33).

(** [net.ParseCIDR] of an IPv4 prefix. *)
Definition ParseCIDR4 (s : bytes) : option (bytes * Z) :=
  match Split Byte.x2f s with
  | addr :: rest =>
      let bits := drop (S (length addr)) s in
      match rest, ParseAddr addr with
      | _ :: _, Some (Addr4 ip) =>
          if bool_decide (bits = []) then None
          else match digits_val 0 bits with Some n => if Z.leb n 32 then Some (ip, n) else None | None => None end
      | _, _ => None
      end
  | [] => None
  end.

(** * The routing tables *)

Record windowsRoute := mkRoute {
  wr_destination : bytes; wr_mask : bytes; wr_gateway : bytes; wr_ifIndex : Z; wr_prefixLen : Z; wr_source : bytes;
}.

Definition route_contains (r : windowsRoute) (ip : bytes) : bool :=
  let ip4 := To4 ip in
  if bool_decide (ip4 = []) || bool_decide (wr_destination r = []) || bool_decide (wr_mask r = []) then false
  else bool_decide (wr_destination r = ip_Mask ip4 (wr_mask r)).

(** A row of [GetIpForwardTable2]: the addresses ([[]] if of another family), the
    length of the prefix and the interface. *)
Record forward_row := mkRow { fr_prefix : bytes; fr_nextHop : bytes; fr_prefixLength : Z; fr_interface : Z }.

Definition iphelper_route (row : forward_row) : option windowsRoute :=
  if bool_decide (fr_prefix row = []) || bool_decide (fr_nextHop row = []) || Z.ltb (fr_prefixLength row) 0 || Z.ltb 32 (fr_prefixLength row) then None
  else
    let mask := CIDRMask (fr_prefixLength row) in
    Some (mkRoute (ip_Mask (fr_prefix row) mask) mask (fr_nextHop row) (fr_interface row) (fr_prefixLength row) (str "iphelper")).

Definition windowsIPv4RoutesFromIPHelper (table : res (list forward_row)) : res (list windowsRoute) :=
  match table with Err e => Err e | Ok rows => Ok (omap iphelper_route rows) end.

(** [bufio.Scanner]: the lines, and whether one was too long. *)
Definition drop_cr (line : bytes) : bytes := match reverse line with Byte.x0d :: r => reverse r | _ => line end.

Fixpoint scan_tokens (lines : list bytes) : list bytes * bool :=
  match lines with
  | [] | [[]] => ([], false)
  | line :: lines => if Nat.ltb (Z.to_nat 65535) (length line) then ([], true) else let '(rest, long) := scan_tokens lines in (drop_cr line :: rest, long)
  end.
Definition scan_lines (data : bytes) : list bytes * bool := scan_tokens (Split Byte.x0a data).

Definition ErrTooLong : error := EMsg (str "bufio.Scanner: token too long").

(** UTF-16 with a byte-order mark: the characters below 256. *)
Fixpoint low_bytes (s : bytes) : bytes :=
  match s with
  | lo :: hi :: s => if bool_decide (hi = Byte.x00) then lo :: low_bytes s else low_bytes s
  | _ => []
  end.
Definition stripUTF16LEBOM (b : bytes) : bytes := match b with Byte.xff :: Byte.xfe :: b => low_bytes b | _ => b end.

(** The loop of [parseCSVLine]; [inQuotes] and the field so far. *)
Fixpoint csv_fields (s : bytes) (inQuotes : bool) (field : bytes) : list bytes :=
  match s with
  | [] => [field]
  | c :: s =>
      if bool_decide (c = Byte.x22) then
        match s with
        | Byte.x22 :: s' => if inQuotes then csv_fields s' inQuotes (field ++ [Byte.x22]) else csv_fields s (negb inQuotes) field
        | _ => csv_fields s (negb inQuotes) field
        end
      else if bool_decide (c = Byte.x2c) then if inQuotes then csv_fields s inQuotes (field ++ [c]) else field :: csv_fields s inQuotes []
      else csv_fields s inQuotes (field ++ [c])
  end.

Definition parseCSVLine (line : bytes) : list bytes := csv_fields (TrimSpace line) false [].

Definition parseCIDRv4 (v : bytes) : option (bytes * bytes * Z) :=
  '(ip, bits) ← ParseCIDR4 v; Some (ip_Mask ip (CIDRMask bits), CIDRMask bits, bits).

(** A line of the table that PowerShell prints. *)
Definition powershell_route (line : bytes) : option windowsRoute :=
  match parseCSVLine line with
  | f0 :: f1 :: f2 :: _ =>
      ifIndex ← Atoi (TrimSpace f0);
      '(dst, mask, bits) ← parseCIDRv4 (TrimSpace f1);
      let gw := ParseIP4 (TrimSpace f2) in
      Some (mkRoute dst mask (if bool_decide (gw = []) then IPv4zero else gw) ifIndex bits (str "powershell"))
  | _ => None
  end.

Definition parsePowerShellRoutes (out : bytes) : res (list windowsRoute) :=
  let '(lines, long) := scan_lines (stripUTF16LEBOM out) in
  match lines with
  | [] => Err (EMsg (str "empty PowerShell output"))
  | _ :: lines => if long : bool then Err ErrTooLong else Ok (omap powershell_route lines)
  end.

Definition windowsIPv4RoutesFromPowerShell (out : res bytes) : res (list windowsRoute) := out ← out; parsePowerShellRoutes out.

(** A row of the table that [route print] prints. *)
Definition route_row (line : bytes) : option windowsRoute :=
  match Fields line with
  | f0 :: f1 :: f2 :: _ :: f4 :: _ =>
      let dst := ParseIP4 f0 in
      let mask := ParseIP4 f1 in
      let gw := ParseIP4 f2 in
      if bool_decide (dst = []) || bool_decide (mask = []) || bool_decide (gw = []) then None
      else
        ifIndex ← Atoi f4;
        bits ← mask_Size mask;
        Some (mkRoute (ip_Mask dst mask) mask gw ifIndex bits (str "route-print"))
  | _ => None
  end.

Definition persistent_routes : bytes := map byte_of [0xe6; 0xb0; 0xb8; 0xe4; 0xb9; 0x85; 0xe8; 0xb7; 0xaf; 0xe7; 0x94; 0xb1].

Fixpoint route_rows (lines : list bytes) (inRoutes : bool) : list windowsRoute :=
  match lines with
  | [] => []
  | text :: lines =>
      let line := TrimSpace text in
      if bool_decide (line = []) then route_rows lines inRoutes
      else if Contains line (str "Network Destination") && Contains line (str "Netmask") then route_rows lines true
      else if negb inRoutes then route_rows lines inRoutes
      else if HasPrefix line (str "====") || Contains line (str "Persistent Routes") || Contains line persistent_routes then []
      else match route_row line with Some r => r :: route_rows lines inRoutes | None => route_rows lines inRoutes end
  end.

(** Whether the loop stops at the end of the table, before a line that is too long. *)
Fixpoint table_ends (lines : list bytes) (inRoutes : bool) : bool :=
  match lines with
  | [] => false
  | text :: lines =>
      let line := TrimSpace text in
      if bool_decide (line = []) then table_ends lines inRoutes
      else if Contains line (str "Network Destination") && Contains line (str "Netmask") then table_ends lines true
      else if negb inRoutes then table_ends lines inRoutes
      else HasPrefix line (str "====") || Contains line (str "Persistent Routes") || Contains line persistent_routes || table_ends lines inRoutes
  end.

Definition parseRoutePrint (out : bytes) : res (list windowsRoute) :=
  let '(lines, long) := scan_lines out in
  if long && negb (table_ends lines false) then Err ErrTooLong else Ok (route_rows lines false).

Definition windowsIPv4RoutesFromRoutePrint (out : res bytes) : res (list windowsRoute) := out ← out; parseRoutePrint out.

(** [windowsIPv4Routes] over the three sources, each with its name. *)
Definition source_routes (routes : res (list windowsRoute)) : list windowsRoute := match routes with Ok l => l | Err _ => [] end.

Definition windowsIPv4Routes (iphelper powershell routeprint : res (list windowsRoute)) : res (list windowsRoute) :=
  match source_routes iphelper ++ source_routes powershell ++ source_routes routeprint with
  | [] => Err (EMsg (str "no IPv4 routes found"))
  | all => Ok all
  end.

(** * The next hop *)

(** An interface with its addresses and their masks; [None] if they cannot be
    listed. *)
Record interface := mkInterface {
  ni_Index : Z; ni_Name : bytes; ni_Up : bool; ni_Loopback : bool; ni_HardwareAddr : bytes; ni_Addrs : option (list (bytes * bytes));
}.

Definition windowsRouteInterface (localIP : bytes) (ifaces : res (list interface)) : res interface :=
  ifaces ← ifaces;
  match find (fun i => ni_Up i && negb (ni_Loopback i) && Nat.eqb (length (ni_HardwareAddr i)) 6 &&
                       existsb (fun a => bool_decide (To4 (fst a) = To4 localIP)) (default [] (ni_Addrs i))) ifaces with
  | Some i => Ok i
  | None => Err (EMsg (str "could not find outbound interface for local IPv4 " ++ ip_text localIP))
  end.

(** [ipNet.Contains] *)
Definition net_Contains (ip mask remote : bytes) : bool :=
  let mask := if Nat.eqb (length mask) 16 then drop 12 mask else mask in
  bool_decide (ip_Mask (To4 ip) mask = ip_Mask remote mask).

Definition sameIPv4Subnet (remoteIP : bytes) (iface : interface) (localIP : bytes) : bool :=
  match find (fun a => bool_decide (To4 (fst a) = To4 localIP)) (default [] (ni_Addrs iface)) with
  | Some (ip, mask) => net_Contains ip mask (To4 remoteIP)
  | None => false
  end.

(** The loop over the routes: the best prefix so far and its gateway. *)
Definition better_route (remoteIP : bytes) (ifIndex : Z) (best : Z * bytes) (r : windowsRoute) : Z * bytes :=
  if negb (Z.eqb (wr_ifIndex r) ifIndex) || negb (route_contains r (To4 remoteIP)) then best
  else if Z.ltb (fst best) (wr_prefixLen r) then (wr_prefixLen r, wr_gateway r) else best.

Definition windowsGatewayIPv4 (remoteIP : bytes) (iface : interface) (localIP : bytes) (routes : res (list windowsRoute)) : res bytes :=
  if sameIPv4Subnet remoteIP iface localIP then Ok (To4 remoteIP)
  else
    rows ← routes;
    let '(bestPrefix, best) := foldl (better_route remoteIP (ni_Index iface)) (-1, []) rows in
    if Z.ltb bestPrefix 0 || bool_decide (best = []) then
      Err (EMsg (str "could not determine IPv4 gateway for " ++ ip_text remoteIP ++ str " on interface " ++ ni_Name iface ++ str " after loading " ++
                 itoa (len rows) ++ str " routes"))
    else if bool_decide (best = IPv4zero) then Ok (To4 remoteIP) else Ok (To4 best).

(** [net.ParseMAC] of text in which every [-] has become [:]: pairs of digits, or
    groups of four with dots. *)
Fixpoint mac_pairs (s : bytes) : option bytes :=
  match s with
  | a :: b :: rest =>
      hi ← hex_val a; lo ← hex_val b;
      match rest with
      | [] => Some [byte_of (hi * 16 + lo)]
      | sep :: rest => if bool_decide (sep = Byte.x3a) then (fun t => byte_of (hi * 16 + lo) :: t) <$> mac_pairs rest else None
      end
  | _ => None
  end.

Fixpoint mac_quads (s : bytes) : option bytes :=
  match s with
  | a :: b :: c :: d :: rest =>
      va ← hex_val a; vb ← hex_val b; vc ← hex_val c; vd ← hex_val d;
      match rest with
      | [] => Some [byte_of (va * 16 + vb); byte_of (vc * 16 + vd)]
      | sep :: rest => if bool_decide (sep = Byte.x2e) then (fun t => byte_of (va * 16 + vb) :: byte_of (vc * 16 + vd) :: t) <$> mac_quads rest else None
      end
  | _ => None
  end.

Definition ParseMAC (s : bytes) : option bytes := match mac_pairs s with Some m => Some m | None => mac_quads s end.

Definition colons (s : bytes) : bytes := map (fun b => if bool_decide (b = Byte.x2d) then Byte.x3a else b) s.

(** A line of [arp -a] for the address. *)
Definition arp_line (targetIP line : bytes) : option bytes :=
  match Fields line with
  | f0 :: f1 :: _ =>
      if negb (bool_decide (f0 = ip_text targetIP)) then None
      else match ParseMAC (colons f1) with Some mac => if Nat.eqb (length mac) 6 then Some mac else None | None => None end
  | _ => None
  end.

Definition windowsARPTableLookup (targetIP : bytes) (out : res bytes) : option bytes :=
  match out with Err _ => None | Ok out => head (omap (arp_line targetIP) (fst (scan_lines out))) end.

(** [before] and [after] are what arp prints before and after the ping. *)
Definition windowsResolveMAC (iface : interface) (targetIP : bytes) (before after : res bytes) : res bytes :=
  if bool_decide (To4 targetIP = []) then Err (EMsg (str "invalid IPv4 next hop"))
  else
    match windowsARPTableLookup targetIP before, windowsARPTableLookup targetIP after with
    | Some mac, _ | None, Some mac => Ok mac
    | None, None =>
        Err (EMsg (str "could not resolve MAC address for next hop " ++ ip_text targetIP ++ str " on " ++ ni_Name iface ++ str "; verify gateway reachability"))
    end.

Definition buildEthernetIPv4Frame (srcMAC dstMAC ipPacket : bytes) : bytes :=
  let frame := zeros (14 + length ipPacket) in
  copy_at 14 (14 + length ipPacket) ipPacket (put_at 12 14 0x0800 (copy_at 6 12 srcMAC (copy_at 0 6 dstMAC frame))).

(** * The adapters *)

Definition backslash : byte := Byte.x5c.
Definition npf_prefix : bytes := [backslash] ++ str "Device" ++ [backslash] ++ str "NPF_".
Definition upper_prefix : bytes := [backslash] ++ str "DEVICE" ++ [backslash] ++ str "NPF_".
(** With two backslashes each, as the source has it. *)
Definition doubled_prefix : bytes := [backslash; backslash] ++ str "DEVICE" ++ [backslash; backslash] ++ str "NPF_".

Definition npcapDeviceName (adapterName : bytes) : bytes :=
  let name := TrimSpace adapterName in
  if HasPrefix (ToUpper name) upper_prefix || HasPrefix (ToUpper name) doubled_prefix then name else npf_prefix ++ name.

Record windowsAdapterAddress := mkAdapter { wa_ifIndex : Z; wa_adapterName : bytes; wa_hardwareAddr : bytes }.

(** [windowsAdapterAddresses] over the answers to its attempts: the rows, a buffer
    that is too small, or another error. *)
Inductive adapters_answer := Adapters (rows : list windowsAdapterAddress) | BufferOverflow | AdaptersError (e : error).

Fixpoint adapter_attempts (attempts : nat) (answers : list adapters_answer) : res (list windowsAdapterAddress) :=
  match attempts, answers with
  | S attempts, Adapters rows :: _ => Ok (List.filter (fun a => negb (bool_decide (wa_adapterName a = []))) rows)
  | S attempts, BufferOverflow :: answers => adapter_attempts attempts answers
  | S attempts, AdaptersError e :: _ => Err (EWrap (str "GetAdaptersAddresses failed: ") e)
  | _, _ => Err (EMsg (str "GetAdaptersAddresses failed after buffer resize"))
  end.
Definition windowsAdapterAddresses (answers : list adapters_answer) : res (list windowsAdapterAddress) := adapter_attempts 3 answers.

(** The loop: the adapter with the index of the interface, else the last one with
    its hardware address. *)
Fixpoint match_adapter (iface : interface) (addrs : list windowsAdapterAddress) (macMatch : bytes) : option bytes :=
  match addrs with
  | [] => if bool_decide (macMatch = []) then None else Some (npcapDeviceName macMatch)
  | a :: addrs =>
      if Z.eqb (wa_ifIndex a) (ni_Index iface) && negb (bool_decide (wa_adapterName a = [])) then Some (npcapDeviceName (wa_adapterName a))
      else match_adapter iface addrs
             (if negb (bool_decide (ni_HardwareAddr iface = [])) && negb (bool_decide (wa_hardwareAddr a = [])) &&
                 bool_decide (ni_HardwareAddr iface = wa_hardwareAddr a) then wa_adapterName a else macMatch)
  end.

Definition windowsNpcapAdapterNameForInterface (iface : interface) (answers : list adapters_answer) : res bytes :=
  addrs ← windowsAdapterAddresses answers;
  match match_adapter iface addrs [] with
  | Some name => Ok name
  | None => Err (EMsg (str "no IP Helper adapter address matched interface " ++ fmt_q (ni_Name iface) ++ str " index " ++ itoa (ni_Index iface)))
  end.

(** Append a name that is not empty and not there yet. *)
Definition add_name (out : list bytes) (s : bytes) : list bytes :=
  let s := TrimSpace s in if bool_decide (s = []) || bool_decide (s ∈ out) then out else out ++ [s].

(** [buf] is what Npcap lists, [None] if it cannot. *)
Definition windowsNpcapAdapterNames (buf : option bytes) : list bytes :=
  foldl (fun out p => if Contains (ToUpper (TrimSpace p)) (str "NPF") then add_name out p else out) [] (match buf with None => [] | Some buf => Split Byte.x00 buf end).

Definition windowsAdapterNameCandidates (iface : interface) (answers : list adapters_answer) (buf : option bytes) : res (list bytes) :=
  let name := ni_Name iface in
  let out := match windowsNpcapAdapterNameForInterface iface answers with Ok exact => add_name [] exact | Err _ => [] end in
  let out := if HasPrefix (ToUpper name) doubled_prefix then add_name out name else add_name (add_name out (npf_prefix ++ name)) name in
  let out := foldl (fun out n => if Contains (ToLower n) (ToLower name) then add_name out n else out) out (windowsNpcapAdapterNames buf) in
  match out with
  | [] => Err (EMsg (str "could not map Windows interface " ++ fmt_q name ++ str " (index " ++ itoa (ni_Index iface) ++
                str ") to an Npcap adapter; verify Npcap is installed and bound to this NIC"))
  | _ => Ok out
  end.

(** * Sending *)

(** What WinDivert answers for a packet: loading it, opening it, sending, and the
    number of bytes sent. *)
Record divert := mkDivert { dv_load : option error; dv_open : option error; dv_send : option error; dv_sent : Z }.

Definition windowsSendIPPacketWinDivert (packet : bytes) (d : divert) : option error :=
  if bool_decide (packet = []) then Some (EMsg (str "empty IPv4 packet"))
  else
    match dv_load d, dv_open d, dv_send d with
    | Some e, _, _ => Some (EWrap (str "WinDivert.dll not found: ") e)
    | None, Some e, _ => Some (EWrap (str "WinDivertOpen failed: ") e)
    | None, None, Some e => Some (EWrap (str "WinDivertSend failed: ") e)
    | None, None, None =>
        if Z.eqb (dv_sent d) (len packet) then None
        else Some (EMsg (str "WinDivertSend sent " ++ itoa (dv_sent d) ++ str " bytes, want " ++ itoa (len packet)))
    end.

(** Npcap: loading it, and what sending through an adapter gives. *)
Record npcap := mkNpcap { np_load : option error; np_send : bytes -> option error }.

Fixpoint try_adapters (names : list bytes) (send : bytes -> option error) (last : option error) : option error :=
  match names with
  | [] => Some (match last with Some e => EWrap (str "tried adapters: ") e | None => EMsg (str "no Npcap adapter candidate found") end)
  | name :: names =>
      if bool_decide (name = []) then try_adapters names send last
      else match send name with None => None | Some e => try_adapters names send (Some e) end
  end.

Definition windowsSendFrame (adapterNames : list bytes) (frame : bytes) (n : npcap) : option error :=
  if bool_decide (frame = []) then Some (EMsg (str "empty Ethernet frame"))
  else match np_load n with Some e => Some (EWrap (str "Npcap Packet.dll not found: ") e) | None => try_adapters adapterNames (np_send n) None end.

Record win_env := mkWinEnv {
  we_resolve : res bytes; we_outbound : res bytes; we_ifaces : res (list interface); we_routes : res (list windowsRoute);
  we_arp : res bytes * res bytes; we_adapters : list adapters_answer; we_names : option bytes;
}.

(** The start of both senders. *)
Definition win_start (unsupported : bytes) (o : SendOptions) (env : win_env) : res (bytes * bytes) :=
  match ValidateSendOptions o with
  | Some e => Err e
  | None =>
      remote ← we_resolve env;
      if bool_decide (remote = []) then Err (EMsg (str "server address " ++ quoted (se_ServerAddr o) ++ str " did not resolve to an IP address"))
      else if bool_decide (To4 remote = []) then Err (EMsg unsupported)
      else local ← we_outbound env; Ok (local, remote)
  end.

(** The hardware addresses of interface and next hop, and the adapters to try. *)
Definition npcap_path (env : win_env) (local remote : bytes) : res (bytes * bytes * list bytes) :=
  iface ← windowsRouteInterface local (we_ifaces env);
  gatewayIP ← windowsGatewayIPv4 (To4 remote) iface local (we_routes env);
  dstMAC ← windowsResolveMAC iface gatewayIP (fst (we_arp env)) (snd (we_arp env));
  adapterNames ← windowsAdapterNameCandidates iface (we_adapters env) (we_names env);
  Ok (ni_HardwareAddr iface, dstMAC, adapterNames).

(** What reaches the network: a packet through WinDivert, a frame through Npcap. *)
Inductive wire := ViaDivert (packet : bytes) | ViaNpcap (frame : bytes).

Definition win_Send (o : SendOptions) (env : win_env) (now : Z) (d : divert) (n : npcap) (r : rng) : list wire * option error :=
  match win_start (str "windows tcp-syn knock via Npcap currently supports IPv4 only; use udp/udp-passive for IPv6") o env with
  | Err e => ([], Some e)
  | Ok (local, remote) =>
      let window := if Z.leb (se_TimeWindow o) 0 then 30 * Second else se_TimeWindow o in
      let fields := ComputeSYNFields (se_Secret o) (se_ClientID o) (se_ServerPort o) (SlotFor now window) in
      match ('(srcPort, r) ← randomEphemeralPort r; buildSYNPacket local (To4 remote) srcPort (se_ServerPort o) fields r) with
      | Err e => ([], Some e)
      | Ok (ipPacket, _) =>
          match windowsSendIPPacketWinDivert ipPacket d with
          | None => ([ViaDivert ipPacket], None)
          | Some _ =>
              match npcap_path env local remote with
              | Err e => ([], Some e)
              | Ok (srcMAC, dstMAC, adapterNames) =>
                  let frame := buildEthernetIPv4Frame srcMAC dstMAC ipPacket in
                  match windowsSendFrame adapterNames frame n with Some e => ([], Some e) | None => ([ViaNpcap frame], None) end
              end
          end
      end
  end.

(** The loop of [windowsSendSYNSequenceWinDivert], and that of [SendSYNSequence]
    for Npcap; [send] puts a packet on the wire or fails, with a
    moment for each part. *)
Fixpoint win_parts {E} (send : bytes -> E -> option error) (put : bytes -> wire) (local remote : bytes) (parts : list SYNSeqPart)
    (moments : list (E * option error)) (r : rng) : list wire * option error * rng :=
  match parts, moments with
  | part :: parts, (x, pause) :: moments =>
      match ('(srcPort, r) ← randomEphemeralPort r; buildSYNPacket local (To4 remote) srcPort (sp_Port part) (sp_Fields part) r) with
      | Err e => ([], Some e, r)
      | Ok (packet, r) =>
          match send packet x with
          | Some e => ([], Some e, r)
          | None =>
              match (if parts is [] then None else pause) with
              | Some e => ([put packet], Some e, r)
              | None => let '(sent, err, r) := win_parts send put local remote parts moments r in (put packet :: sent, err, r)
              end
          end
      end
  | _, _ => ([], None, r)
  end.

Definition win_SendSYNSequence (o : SendOptions) (env : win_env) (now : Z) (diverts : list (divert * option error)) (npcaps : list (npcap * option error)) (r : rng)
    : list wire * option error :=
  match win_start (str "windows tcp-syn-seq knock currently supports IPv4 only; use udp/udp-seq for IPv6") o env with
  | Err e => ([], Some e)
  | Ok (local, remote) =>
      let seq := normalizedSequenceOptions (se_Sequence o) in
      let parts := ComputeSYNSeqParts (se_Secret o) (se_ClientID o) (se_ServerPort o) (Z.quot (Unix now) (so_SlotSeconds seq)) (so_Length seq) in
      let '(sent, err, r) := win_parts windowsSendIPPacketWinDivert ViaDivert local remote parts diverts r in
      match err with
      | None => (sent, None)
      | Some _ =>
          match npcap_path env local remote with
          | Err e => (sent, Some e)
          | Ok (srcMAC, dstMAC, adapterNames) =>
              let frame := buildEthernetIPv4Frame srcMAC dstMAC in
              let '(more, err, _) := win_parts (fun p n => windowsSendFrame adapterNames (frame p) n) (fun p => ViaNpcap (frame p)) local remote parts npcaps r in
              (sent ++ more, err)
          end
      end
  end.

(** clientcheck_windows.go; the arguments are what loading the two libraries gives. *)
Definition win_CheckClientSupport (windivert packet : option error) (method : bytes) : option error :=
  if negb (bool_decide (method = TCPSYNMethod)) && negb (bool_decide (method = TCP_SYNSeqMethod)) then None
  else match windivert, packet with None, _ | _, None => None | Some _, Some e => Some (EWrap (str "tcp-syn/tcp-syn-seq knock on Windows requires WinDivert.dll or Npcap Packet.dll") e) end.
