(* ===== verification/WindowsSpec.v ===== *)
(** What the senders of Windows promise: the packets are those of [Send], the next
    hop is the gateway of the longest matching prefix, and a line of a table in
    CSV is read back to its fields. *)

From Stdlib Require Import ZArith Lia String.
From Stdlib Require Strings.Byte.
From stdpp Require Import base list gmap strings.
From S2P Require Import Prelude GoStd Codec Net GoText GoParse KnockFrame KnockSeq Packet KnockSyn KnockListen RawSend WindowsSend.

Open Scope Z_scope.

(** ** CSV *)

(** A field as PowerShell writes it: in quotes, a quote inside doubled. *)
Fixpoint csv_escape (f : bytes) : bytes :=
  match f with [] => [] | c :: f => (if bool_decide (c = Byte.x22) then [Byte.x22; Byte.x22] else [c]) ++ csv_escape f end.
Definition csv_quote (f : bytes) : bytes := [Byte.x22] ++ csv_escape f ++ [Byte.x22].
Fixpoint csv_line (fs : list bytes) : bytes :=
  match fs with [] => [] | [f] => csv_quote f | f :: fs => csv_quote f ++ [Byte.x2c] ++ csv_line fs end.

(** After a quoted field comes a comma or the end. *)
Lemma csv_escaped f : forall field rest, match rest with Byte.x22 :: _ => False | _ => True end ->
  csv_fields (csv_escape f ++ [Byte.x22] ++ rest) true field = csv_fields rest false (field ++ f).
Proof.
  induction f as [|c f IH]; intros field rest Hr.
  - cbn. rewrite app_nil_r. destruct rest as [|d rest]; [done|]. destruct d; done.
  - cbn [csv_escape]. rewrite <- (assoc_L (++)). case_bool_decide as Hc.
    + subst c. cbn [app csv_fields]. rewrite bool_decide_eq_true_2 by done. change (csv_escape f ++ Byte.x22 :: rest) with (csv_escape f ++ [Byte.x22] ++ rest).
      rewrite IH by done. by rewrite <- (assoc_L (++)).
    + cbn [app csv_fields]. rewrite bool_decide_eq_false_2 by done. change (csv_escape f ++ Byte.x22 :: rest) with (csv_escape f ++ [Byte.x22] ++ rest).
      case_bool_decide; rewrite IH by done; by rewrite <- (assoc_L (++)).
Qed.

Lemma csv_quoted f rest : match rest with Byte.x22 :: _ => False | _ => True end -> csv_fields (csv_quote f ++ rest) false [] = csv_fields rest false f.
Proof.
  intros Hr. unfold csv_quote. rewrite <- !(assoc_L (++)). pose proof (csv_escaped f [] rest Hr) as E. cbn [app] in E. rewrite <- E. clear E.
  destruct (csv_escape f ++ Byte.x22 :: rest) as [|c s] eqn:Es; cbn [app csv_fields]; rewrite Es; [done|]. destruct c; done.
Qed.

Lemma csv_line_fields fs : fs <> [] -> csv_fields (csv_line fs) false [] = fs.
Proof.
  induction fs as [|f [|g fs] IH]; intros Hn; [done|..].
  - cbn [csv_line]. rewrite <- (app_nil_r (csv_quote f)). by rewrite csv_quoted.
  - change (csv_line (f :: g :: fs)) with (csv_quote f ++ [Byte.x2c] ++ csv_line (g :: fs)). rewrite csv_quoted by done.
    change (csv_fields ([Byte.x2c] ++ csv_line (g :: fs)) false f) with (f :: csv_fields (csv_line (g :: fs)) false []). by rewrite IH.
Qed.

Lemma csv_line_ends fs : fs <> [] -> exists s, csv_line fs = Byte.x22 :: s ++ [Byte.x22].
Proof.
  induction fs as [|f [|g fs] IH]; intros Hn; [done|..].
  - exists (csv_escape f). done.
  - destruct IH as [s Es]; [done|]. exists (csv_escape f ++ [Byte.x22; Byte.x2c; Byte.x22] ++ s).
    change (csv_line (f :: g :: fs)) with (csv_quote f ++ [Byte.x2c] ++ csv_line (g :: fs)). rewrite Es. unfold csv_quote. cbn. by rewrite <- !(assoc_L (++)).
Qed.

(** A line of a CSV table with all fields quoted is read back. *)
Lemma csv_roundtrip fs : fs <> [] -> parseCSVLine (csv_line fs) = fs.
Proof.
  intros Hn. unfold parseCSVLine. destruct (csv_line_ends fs Hn) as [s Es]. rewrite <- (csv_line_fields fs Hn) at 2. f_equal. rewrite Es. by apply TrimSpace_id.
Qed.

(** ** Routes *)

(** A route has a gateway and a length of its prefix. *)
Definition route_ok (r : windowsRoute) : Prop := 0 <= wr_prefixLen r <= 32 /\ wr_gateway r <> [].

Lemma Forall_omap {A B} (f : A -> option B) (P : B -> Prop) (l : list A) : (forall x y, f x = Some y -> P y) -> Forall P (omap f l).
Proof. intros Hf. apply Forall_forall. intros y (x & _ & E)%list_elem_of_omap. by eapply Hf. Qed.

Lemma iphelper_ok row r : iphelper_route row = Some r -> route_ok r.
Proof.
  unfold iphelper_route, route_ok. destruct (bool_decide (fr_prefix row = [])); [done|]. case_bool_decide as Hg; [done|].
  destruct (Z.ltb_spec (fr_prefixLength row) 0); [done|]. destruct (Z.ltb_spec 32 (fr_prefixLength row)); [done|]. intros [= <-]. cbn. split; [lia|done].
Qed.

Lemma ParseCIDR4_bits s ip n : ParseCIDR4 s = Some (ip, n) -> 0 <= n <= 32.
Proof.
  unfold ParseCIDR4. destruct (Split Byte.x2f s) as [|addr rest]; [done|]. set (bits := drop _ s). destruct rest; [done|]. destruct (ParseAddr addr) as [[]|]; try done.
  case_bool_decide; [done|]. destruct (digits_val 0 bits) as [v|] eqn:Ed; [|done]. destruct (Z.leb_spec v 32); [|done]. intros [= _ <-].
  enough (forall ds acc v, 0 <= acc -> digits_val acc ds = Some v -> 0 <= v) as Hp by (by apply Hp in Ed; lia).
  clear. induction ds as [|b ds IH]; intros acc v Ha; cbn; [by intros [= <-]|]. destruct (digit_val b) as [d|] eqn:E; [|done]. apply IH.
  unfold digit_val in E. destruct (_ && _) eqn:Eb in E; [|done]. injection E as <-. pose proof (byte_val_bound b). lia.
Qed.

Lemma powershell_ok line r : powershell_route line = Some r -> route_ok r.
Proof.
  unfold powershell_route, route_ok. destruct (parseCSVLine line) as [|f0 [|f1 [|f2 fs]]]; try done. destruct (Atoi _) as [i|]; [|done]. cbn [mbind option_bind].
  unfold parseCIDRv4. destruct (ParseCIDR4 _) as [[ip n]|] eqn:E; [|done]. cbn [mbind option_bind]. intros [= <-]. cbn. split; [by eapply ParseCIDR4_bits|].
  case_bool_decide; done.
Qed.

Lemma route_row_ok line r : route_row line = Some r -> route_ok r.
Proof.
  unfold route_row, route_ok. destruct (Fields line) as [|f0 [|f1 [|f2 [|f3 [|f4 fs]]]]]; try done. destruct (bool_decide (ParseIP4 f0 = [])); [done|].
  destruct (bool_decide (ParseIP4 f1 = [])); [done|]. case_bool_decide as Hg; [done|]. cbn [orb]. destruct (Atoi f4) as [i|]; [|done]. cbn [mbind option_bind].
  destruct (mask_Size _) as [n|] eqn:E; [|done]. cbn [mbind option_bind]. intros [= <-]. cbn. split; [|done].
  unfold mask_Size in E. apply find_some in E as [Hn _]. apply list_elem_of_In, elem_of_seqZ in Hn. lia.
Qed.

Lemma route_rows_ok lines : forall b, Forall route_ok (route_rows lines b).
Proof.
  induction lines as [|l lines IH]; intros b; cbn [route_rows]; [done|]. repeat (case_match; [by auto|]). case_match; [constructor; [by eapply route_row_ok|]|]; auto.
Qed.

Lemma source_ok (routes : res (list windowsRoute)) : (forall l, routes = Ok l -> Forall route_ok l) -> Forall route_ok (source_routes routes).
Proof. destruct routes; cbn; [by intros Hr; apply Hr|by constructor]. Qed.

(** All routes that the three sources give. *)
Lemma windowsIPv4Routes_ok table powershell routeprint rows :
  windowsIPv4Routes (windowsIPv4RoutesFromIPHelper table) (windowsIPv4RoutesFromPowerShell powershell) (windowsIPv4RoutesFromRoutePrint routeprint) = Ok rows ->
  Forall route_ok rows.
Proof.
  unfold windowsIPv4Routes. set (all := _ ++ _). assert (Ha : Forall route_ok all).
  { unfold all. rewrite !Forall_app. split_and!; apply source_ok; intros l.
    - unfold windowsIPv4RoutesFromIPHelper. destruct table; [|done]. intros [= <-]. apply Forall_omap, iphelper_ok.
    - unfold windowsIPv4RoutesFromPowerShell, parsePowerShellRoutes. destruct powershell as [out|]; res_simpl; [|done]. destruct (scan_lines _) as [[|x lines] long]; [done|].
      destruct long; [done|]. intros [= <-]. apply Forall_omap, powershell_ok.
    - unfold windowsIPv4RoutesFromRoutePrint, parseRoutePrint. destruct routeprint as [out|]; res_simpl; [|done]. destruct (scan_lines _) as [lines long]. destruct (_ && _); [done|].
      intros [= <-]. apply route_rows_ok. }
  destruct all as [|r all]; [done|]. by intros [= <-].
Qed.

(** ** The next hop *)

(** A route through the interface that contains the address. *)
Definition candidate (remoteIP : bytes) (ifIndex : Z) (r : windowsRoute) : Prop := wr_ifIndex r = ifIndex /\ route_contains r (To4 remoteIP) = true.

Lemma better_route_spec remoteIP i rows : forall best, Forall route_ok rows ->
  let '(p, g) := foldl (better_route remoteIP i) best rows in
  (forall r, r ∈ rows -> candidate remoteIP i r -> wr_prefixLen r <= p) /\ fst best <= p /\
  ((p, g) = best \/ exists r, r ∈ rows /\ candidate remoteIP i r /\ wr_prefixLen r = p /\ wr_gateway r = g).
Proof.
  induction rows as [|r rows IH]; intros best Hr; cbn [foldl].
  { destruct best as [p g]. split_and!; [by intros r Hr0%elem_of_nil|done|by left]. }
  apply Forall_cons in Hr as [Hok Hr]. specialize (IH (better_route remoteIP i best r) Hr). destruct (foldl _ _ rows) as [p g]. destruct IH as (H1 & H2 & H3).
  unfold better_route in H2, H3. destruct (Z.eqb_spec (wr_ifIndex r) i) as [Hi|Hi]; [destruct (route_contains r (To4 remoteIP)) eqn:Hc|]; cbn [negb orb] in H2, H3.
  2,3: (split_and!; [|done|destruct H3 as [H3|(r' & ? & ? & ? & ?)]; [by left|right; exists r'; split_and!; try done; by right]];
        intros r' [->|Hr']%elem_of_cons [? ?]; [congruence|by apply H1]).
  destruct (Z.ltb_spec (fst best) (wr_prefixLen r)) as [Hlt|Hge]; cbn [fst] in H2.
  - split_and!; [|lia|].
    + intros r' [->|Hr']%elem_of_cons Hc'; [done|by apply H1].
    + right. destruct H3 as [[= -> ->]|(r' & ? & ? & ? & ?)]; [exists r; split_and!; try done; by left|exists r'; split_and!; try done; by right].
  - split_and!; [|done|].
    + intros r' [->|Hr']%elem_of_cons Hc'; [lia|by apply H1].
    + destruct H3 as [H3|(r' & ? & ? & ? & ?)]; [by left|right; exists r'; split_and!; try done; by right].
Qed.


Definition ex_iface : interface := mkInterface 7 (str "eth") true false (zeros 6) (Some [(Packet.ex_ip, CIDRMask 32)]).
Definition ex_server : bytes := map byte_of [10; 1; 2; 3].
Definition ex_gateway : bytes := map byte_of [192; 168; 1; 1].
Definition ex_forward : list forward_row := [mkRow (zeros 4) (map byte_of [192; 168; 1; 9]) 0 7; mkRow (map byte_of [10; 0; 0; 0]) ex_gateway 8 7; mkRow ex_server Packet.ex_ip 32 3].
Definition ex_rows : list windowsRoute := omap iphelper_route ex_forward.


(** A row of [route print] ends with the metric of the route, which is read as the
    index of its interface: the same table is then of no use or of the wrong one. *)
Example route_print_metric :
  (fun r => (wr_gateway r, wr_ifIndex r)) <$> route_row (str "0.0.0.0 0.0.0.0 192.168.1.1 192.168.1.7 25") = Some (ex_gateway, 25).
Proof. vm_compute. reflexivity. Qed.

(** ** Sending *)

(** Writing at the end of what is written so far. *)
Lemma copy_next pre src rest n : length src = n ->
  copy_at (length pre) (length pre + n) src (pre ++ zeros (n + rest)) = (pre ++ src) ++ zeros rest.
Proof.
  intros Hl. unfold copy_at, zeros. rewrite replicate_add, take_app_length, slice_at, go_copy_exact by (by rewrite length_replicate).
  rewrite (assoc_L (++) pre (replicate n _)), drop_app_length' by (by rewrite length_app, length_replicate). by rewrite (assoc_L (++)).
Qed.

(** The frame is the packet after an Ethernet header. *)
Lemma ethernet_frame srcMAC dstMAC packet : length srcMAC = 6%nat -> length dstMAC = 6%nat ->
  buildEthernetIPv4Frame srcMAC dstMAC packet = ethernet dstMAC srcMAC 0x0800 ++ packet.
Proof.
  intros Hs Hd. unfold buildEthernetIPv4Frame, ethernet, put_at. cbv zeta. pose proof (copy_next [] dstMAC (8 + length packet) 6 Hd) as E1.
  change (copy_at 0 6 dstMAC (zeros (14 + length packet)) = dstMAC ++ zeros (6 + (2 + length packet))) in E1. rewrite E1.
  pose proof (copy_next dstMAC srcMAC (2 + length packet) 6 Hs) as E2. rewrite Hd in E2. change (6 + 6)%nat with 12%nat in E2. rewrite E2.
  pose proof (copy_next (dstMAC ++ srcMAC) (be_put 2 0x0800) (length packet) 2 (length_be_put _ _)) as E3. rewrite length_app, Hd, Hs in E3.
  change (copy_at 12 14 (be_put (14 - 12) 0x0800) ((dstMAC ++ srcMAC) ++ zeros (2 + length packet)) = ((dstMAC ++ srcMAC) ++ be_put 2 0x0800) ++ zeros (length packet)) in E3. rewrite E3.
  pose proof (copy_tail ((dstMAC ++ srcMAC) ++ be_put 2 0x0800) packet) as E4. rewrite !length_app, Hd, Hs, length_be_put in E4.
  change (6 + 6 + 2)%nat with 14%nat in E4. rewrite E4. by rewrite <- !(assoc_L (++)).
Qed.

(** The MAC addresses that are used have six bytes. *)
Lemma npcap_path_macs env local remote srcMAC dstMAC names : npcap_path env local remote = Ok (srcMAC, dstMAC, names) -> length srcMAC = 6%nat /\ length dstMAC = 6%nat.
Proof.
  unfold npcap_path. intros (iface & Ei & (gw & Eg & (mac & Em & (ns & En & E)%res_bind_Ok)%res_bind_Ok)%res_bind_Ok)%res_bind_Ok. injection E as <- <- <-. split.
  - unfold windowsRouteInterface in Ei. destruct (we_ifaces env) as [l|]; [|done]. cbn in Ei. destruct (find _ l) as [i|] eqn:Ef; [|done]. injection Ei as <-.
    apply find_some in Ef as [_ Ef]. rewrite !andb_true_iff in Ef. by apply Nat.eqb_eq, Ef.
  - unfold windowsResolveMAC in Em. destruct (bool_decide _); [done|].
    assert (Ha : forall ip out m, windowsARPTableLookup ip out = Some m -> length m = 6%nat).
    { intros ip [out|] m; cbn [windowsARPTableLookup]; [|done]. intros Hh%head_Some_elem_of. apply list_elem_of_omap in Hh as (l & _ & E). unfold arp_line in E.
      destruct (Fields l) as [|f0 [|f1 fs]]; try done. destruct (negb _); [done|]. destruct (ParseMAC _) as [m'|]; [|done].
      destruct (Nat.eqb_spec (length m') 6); [|done]. by injection E as <-. }
    destruct (windowsARPTableLookup gw (fst (we_arp env))) eqn:E1; [injection Em as <-; by eapply Ha|].
    destruct (windowsARPTableLookup gw (snd (we_arp env))) eqn:E2; [injection Em as <-; by eapply Ha|done].
Qed.


(** WinDivert is not installed; the server is on the link, with its MAC address. *)
Definition ex_mac : bytes := map byte_of [0; 0x11; 0x22; 0x33; 0x44; 0x55].
Definition ex_win_env : win_env :=
  mkWinEnv (Ok Packet.ex_ip) (Ok Packet.ex_ip) (Ok [ex_iface]) (Err (EMsg [])) (Ok (str "  " ++ ip_text Packet.ex_ip ++ str " 00-11-22-33-44-55 dynamic"), Err (EMsg [])) [] None.
Definition ex_divert : divert := mkDivert (Some (EMsg [])) None None 0.
Definition ex_npcap : npcap := mkNpcap None (fun _ => None).

Example ex_win_sent :
  win_Send (ex_send 2) ex_win_env (59 * Second) ex_divert ex_npcap (zeros 4) = ([ViaNpcap (ethernet ex_mac (zeros 6) 0x0800 ++ ex_syn_packet)], None).
Proof. vm_compute. reflexivity. Qed.

