(* ===== verification/ProxyMain.v ===== *)
(** cmd/knock-proxy/main.go, and of runtime.go and doctor.go what prints and what
    serves the connections of a client.

    A command is a function of its arguments and the host: what it prints and how
    it goes on, which is an exit code or serving until an error. Flags are those of
    Go's package flag. *)

From Stdlib Require Import ZArith Lia String.
From Stdlib Require Strings.Byte.
From stdpp Require Import base list gmap strings.
From S2P Require Import Prelude GoStd Net KnockListen GoText Firewall Gateway RelayConfig RelayRun ProxyConfig ProxyRun Dialer Pipe AuthTypes.

Open Scope Z_scope.

(** * Printing *)

Inductive stream := Stdout | Stderr.
Record printed := mkPrinted { po_to : stream; po_what : list piece }.

Definition newline : bytes := [Byte.x0a].
Definition say (to : stream) (text : bytes) : printed := mkPrinted to [PText (text ++ newline)].

Definition usage_text : bytes := str "usage: knock-proxy <command> [options]

commands:
  server  --config server.yaml
  client  --config client.yaml
  dry-run --config config.yaml [--mode server|client]
  doctor  --config server.yaml
  version".
Definition usage (to : stream) : printed := say to usage_text.

Definition version : bytes := str "libknock-compat".

Definition fail (err : error) : list printed * Z := ([mkPrinted Stderr [PText (str "error: "); PError (Some err); PText newline]], 1).
Definition failCode (err : option error) : list printed * Z := match err with None => ([], 0) | Some err => fail err end.

Definition printSummary (s : runSummary) : printed :=
  let field name v := if bool_decide (v = []) then [] else str name ++ v in
  say Stdout
    (str "mode=" ++ su_Mode s ++ str " listen=" ++ su_Listen s ++ field " upstream=" (su_Upstream s) ++ field " server=" (su_ServerAddr s) ++
     field " knock=" (su_KnockMethod s) ++
     (if bool_decide (su_Firewall s = []) then []
      else str " firewall=" ++ su_Firewall s ++ str " firewall_installs_rules=" ++ fmt_t (su_FirewallInstalls s) ++ str " port_hidden=" ++ fmt_t (su_PortHidden s) ++
           (if Z.ltb 0 (su_AllowSeconds s) then str " allow_seconds=" ++ itoa (su_AllowSeconds s) else []) ++ field " ipv6=" (su_IPv6 s) ++
           (if bool_decide (su_Firewall s = str "noop") then str " warning=noop-does-not-install-firewall-rules" else [])) ++
     (if Z.ltb 0 (su_Clients s) then str " clients=" ++ itoa (su_Clients s) else [])).

Definition no_info (info : list piece) : bool := forallb (fun p => match p with PText [] => true | _ => false end) info.

Definition doctor_line (check : doctorCheck) : printed :=
  let status := if dc_OK check then str "OK" else str "FAIL" in
  let head := str "[" ++ status ++ str "] " ++ dc_Name check in
  if no_info (dc_Info check) then say Stdout head else mkPrinted Stdout (PText (head ++ str ": ") :: dc_Info check ++ [PText newline]).
Definition printDoctorChecks (checks : list doctorCheck) : list printed := map doctor_line checks.

(** [textEvents]. The zero address prints as below, and so does a nil interface. *)
Definition addr_s (a : option netip_Addr) : bytes := match a with Some a => Addr_String a | None => str "invalid IP" end.
Definition remote_s (a : option net_Addr) : bytes := match a with Some a => NetAddr_String a | None => str "%!s(<nil>)" end.

Definition gateway_text (ev : gw_event) : printed :=
  mkPrinted Stderr
    (match ev with
     | KnockOK remote client method _ _ => [PText (str "knock ok remote=" ++ Addr_String remote ++ str " client=" ++ client ++ str " method=" ++ method)]
     | KnockFail remote client reason err => [PText (str "knock failed remote=" ++ addr_s remote ++ str " client=" ++ client ++ str " reason=" ++ reason ++ str " err="); PError err]
     | FirewallAllow remote port ttl => [PText (str "firewall allow remote=" ++ Addr_String remote ++ str " port=" ++ itoa port ++ str " ttl="); PDuration ttl]
     | FirewallError remote port err => [PText (str "firewall error remote=" ++ addr_s remote ++ str " port=" ++ itoa port ++ str " err="); PError (Some err)]
     end ++ [PText newline]).

Definition relay_text (duration : Z) (ev : relay_event) : printed :=
  mkPrinted Stderr
    (match ev with
     | RelayOK remote client rx tx =>
         [PText (str "relay ok remote=" ++ remote_s remote ++ str " client=" ++ client ++ str " rx=" ++ itoa rx ++ str " tx=" ++ itoa tx ++ str " duration="); PDuration duration]
     | RelayError remote client stage err _ _ =>
         [PText (str "relay error remote=" ++ remote_s remote ++ str " client=" ++ client ++ str " stage=" ++ stage ++ str " err="); PError (Some err)]
     end ++ [PText newline]).

(** * Flags *)

Inductive flag_kind := StringFlag | BoolFlag.

(** A name and, after the first [=], a value. *)
Fixpoint cut_value (s : bytes) : bytes * option bytes :=
  match s with
  | [] => ([], None)
  | b :: s => if bool_decide (b = Byte.x3d) then ([], Some s) else let '(name, v) := cut_value s in (b :: name, v)
  end.

Definition ParseBool (s : bytes) : option bool :=
  if bool_decide (s ∈ [str "1"; str "t"; str "T"; str "true"; str "TRUE"; str "True"]) then Some true
  else if bool_decide (s ∈ [str "0"; str "f"; str "F"; str "false"; str "FALSE"; str "False"]) then Some false
  else None.

(** The name of the flag that an argument is: [None] if the flags end there. *)
Inductive argument := NoFlag | Terminator | BadFlag | FlagArg (name : bytes) (value : option bytes).
Definition classify (s : bytes) : argument :=
  match s with
  | Byte.x2d :: rest =>
      match rest with
      | [] => NoFlag
      | [Byte.x2d] => Terminator
      | _ =>
          let name := match rest with Byte.x2d :: name => name | _ => rest end in
          match name with
          | Byte.x2d :: _ | Byte.x3d :: _ => BadFlag
          | _ => let '(name, value) := cut_value name in FlagArg name value
          end
      end
  | _ => NoFlag
  end.

(** [fs.Parse]: the flags that are set, in order; [None] is an error, of which the
    package has told the user. *)
Fixpoint flag_Parse (flags : list (bytes * flag_kind)) (args : list bytes) : option (list (bytes * bytes)) :=
  match args with
  | [] => Some []
  | s :: args =>
      match classify s with
      | NoFlag | Terminator => Some []
      | BadFlag => None
      | FlagArg name value =>
          match snd <$> find (fun f => bool_decide (fst f = name)) flags, value, args with
          | Some BoolFlag, Some v, _ => _ ← ParseBool v; cons (name, v) <$> flag_Parse flags args
          | Some BoolFlag, None, _ => cons (name, str "true") <$> flag_Parse flags args
          | Some StringFlag, Some v, _ => cons (name, v) <$> flag_Parse flags args
          | Some StringFlag, None, v :: args => cons (name, v) <$> flag_Parse flags args
          | Some StringFlag, None, [] => None
          | None, _, _ => None
          end
      end
  end.

Definition flag_value (name default : bytes) (vs : list (bytes * bytes)) : bytes :=
  match find (fun v => bool_decide (fst v = name)) (reverse vs) with Some (_, v) => v | None => default end.

(** * Commands *)

(** How a command goes on: with an exit code, or serving. *)
Inductive action :=
| Exit (code : Z)
| RunGateway (g : relay_Gateway)
| RunClient (rt : clientRuntime) (dialer : ClientConfig * knockSender).

(** The exit code, once serving has ended. *)
Definition conclude (a : action) (err : option error) : list printed * Z := match a with Exit code => ([], code) | _ => failCode err end.

Definition exit_fail (err : error) : list printed * action := let '(out, code) := fail err in (out, Exit code).

Section Commands.
Context {H : Type} `{Host H} `{Yaml} (ReadFile : bytes -> res bytes) (order : list (bytes * Z) -> list (bytes * Z)).

Definition config_flag : bytes * flag_kind := (str "config", StringFlag).

(** Parsing the flags and loading the file, which every command starts with. *)
Definition with_config (flags : list (bytes * flag_kind)) (args : list bytes) (k : list (bytes * bytes) -> fileConfig -> FW H (list printed * action))
    : FW H (list printed * action) :=
  match flag_Parse flags args with
  | None => mret ([], Exit 2)
  | Some vs => match loadConfig ReadFile order (flag_value (str "config") [] vs) with Err err => mret (exit_fail err) | Ok cfg => k vs cfg end
  end.

Definition runServerCmd (args : list bytes) : FW H (list printed * action) :=
  with_config [config_flag] args (fun _ cfg =>
    b ← buildServer ReadFile cfg;
    mret (match b with Err err => exit_fail err | Ok (gateway, summary) => ([printSummary summary], RunGateway gateway) end)).

Definition runClientCmd (args : list bytes) : FW H (list printed * action) :=
  with_config [config_flag] args (fun _ cfg =>
    mret (match buildClient ReadFile cfg with Err err => exit_fail err | Ok (rt, dialer, summary) => ([printSummary summary], RunClient rt dialer) end)).

Definition dry_ok : printed := say Stdout (str "dry-run: ok").

Definition runDryRunCmd (args : list bytes) : FW H (list printed * action) :=
  with_config [config_flag; (str "mode", StringFlag)] args (fun vs cfg =>
    let m := flag_value (str "mode") [] vs in
    let m := if bool_decide (m = []) then c_Mode cfg else m in
    if bool_decide (ToLower m = modeServer) then
      b ← buildServer ReadFile cfg;
      mret (match b with Err err => exit_fail err | Ok (_, summary) => ([printSummary summary; dry_ok], Exit 0) end)
    else if bool_decide (ToLower m = modeClient) then
      mret (match fileConfig_clientRuntime ReadFile cfg with
            | Err err => exit_fail err
            | Ok rt => ([printSummary (mkSummary modeClient (cr_Listen rt) [] (cr_ServerAddr rt) (cr_KnockMethod rt) [] false false 0 [] 1); dry_ok], Exit 0)
            end)
    else mret (exit_fail (EMsg (str "dry-run requires --mode server|client when config mode is empty")))).

(** [upstream] is what dialling the upstream would give. *)
Definition runDoctorCmd (p : privileges) (upstream : option error) (args : list bytes) : FW H (list printed * action) :=
  with_config [config_flag; (str "check-upstream", BoolFlag)] args (fun vs cfg =>
    let checkUpstream := bool_decide (ParseBool (flag_value (str "check-upstream") (str "false") vs) = Some true) in
    '(checks, err) ← doctorServer ReadFile Serving cfg p (if checkUpstream then Some upstream else None);
    mret (printDoctorChecks checks ++ (if existsb (fun c => negb (dc_OK c) && dc_Blocking c) checks then [] else fst (failCode err)), Exit (doctorExitCode checks err))).

Definition run (p : privileges) (upstream : option error) (args : list bytes) : FW H (list printed * action) :=
  match args with
  | [] => mret ([usage Stderr], Exit 2)
  | cmd :: args =>
      if bool_decide (cmd = str "server") then runServerCmd args
      else if bool_decide (cmd = str "client") then runClientCmd args
      else if bool_decide (cmd = str "dry-run") then runDryRunCmd args
      else if bool_decide (cmd = str "doctor") then runDoctorCmd p upstream args
      else if bool_decide (cmd = str "version") then mret ([say Stdout version], Exit 0)
      else if bool_decide (cmd ∈ [str "-h"; str "--help"; str "help"]) then mret ([usage Stdout], Exit 0)
      else mret ([say Stderr (str "unknown command " ++ fmt_q cmd); usage Stderr], Exit 2)
  end.

End Commands.

(** * Serving a client *)

(** A connection of [runClient] in [handleClientConn]: dialling, refused, relayed,
    with its two deferred calls to come, one of them to come, and at the end. Both
    connections of a relay are those of the system. The goroutine of the relay that
    waits for its context has nothing to do: that context never ends. *)
Inductive session :=
| SDialing (local : pconn)
| SRefused (local : pconn)
| SRelaying (p : pipe)
| SReturned (p : pipe)
| SClosingLocal (local remote : pconn)
| SEnded (local : pconn) (remote : option pconn).

(** What [DialContext] gives, a step of the relay, a return or deferred call. *)
Inductive session_label := SDial (err : option error) | SPipe (x : plabel) | SDefer.

Definition handleClientConn (idleTimeout : Z) (x : session_label) (s : session) : option (session * list printed) :=
  match s, x with
  | SDialing local, SDial (Some err) => Some (SRefused local, [mkPrinted Stderr [PText (str "client dial failed: "); PError (Some err); PText newline]])
  | SDialing local, SDial None => Some (SRelaying (pipe_start true local tcpConn), [])
  | SRefused local, SDefer => Some (SEnded (pc_Close local) None, [])
  | SRelaying p, SPipe x =>
      match x with
      | PCtxDone => None
      | _ => p ← pstep idleTimeout p x; Some (SRelaying p, [])
      end
  | SRelaying p, SDefer => match p_ret p with Some _ => Some (SReturned p, []) | None => None end
  | SReturned p, SDefer => Some (SClosingLocal (p_a p) (pc_Close (p_b p)), [])
  | SClosingLocal local remote, SDefer => Some (SEnded (pc_Close local) (Some remote), [])
  | _, _ => None
  end.

(** [runClient]: whether its listener is open and its context done, whether the
    goroutine that waits for the context has closed the listener, what it has
    returned, the connections, and what was printed. *)
Record client := mkClient {
  cn_open : bool; cn_ctxDone : bool; cn_watched : bool; cn_ret : option (option error); cn_sessions : list session; cn_said : list printed;
}.

(** [net.Listen] fails or not. *)
Definition client_start (listen : option error) : client :=
  match listen with
  | Some err => mkClient false false true (Some (Some err)) [] []
  | None => mkClient true false false None [] []
  end.

Inductive client_label := CAccept (err : option error) | CCtxDone | CWatch | CSession (i : nat) (x : session_label).

Definition runClient (idleTimeout : Z) (s : client) (x : client_label) : option client :=
  match x with
  | CAccept None =>
      if cn_open s && bool_decide (cn_ret s = None) then
        Some (mkClient (cn_open s) (cn_ctxDone s) (cn_watched s) (cn_ret s) (cn_sessions s ++ [SDialing tcpConn]) (cn_said s))
      else None
  | CAccept (Some err) =>
      if bool_decide (cn_ret s = None) then
        Some (mkClient false (cn_ctxDone s) (cn_watched s) (Some (if cn_ctxDone s then None else Some err)) (cn_sessions s) (cn_said s))
      else None
  | CCtxDone => Some (mkClient (cn_open s) true (cn_watched s) (cn_ret s) (cn_sessions s) (cn_said s))
  | CWatch =>
      if cn_ctxDone s && negb (cn_watched s) then Some (mkClient false true true (cn_ret s) (cn_sessions s) (cn_said s)) else None
  | CSession i x =>
      c ← cn_sessions s !! i;
      '(c, out) ← handleClientConn idleTimeout x c;
      Some (mkClient (cn_open s) (cn_ctxDone s) (cn_watched s) (cn_ret s) (<[i := c]> (cn_sessions s)) (cn_said s ++ out))
  end.

Fixpoint client_run (idleTimeout : Z) (s : client) (xs : list client_label) : option client :=
  match xs with [] => Some s | x :: xs => s ← runClient idleTimeout s x; client_run idleTimeout s xs end.
