(* ===== verification/ProxyMainSpec.v ===== *)
(** What cmd/knock-proxy promises as a program: a dry run says what the command
    would do, and the client leaves no connection open that it has finished with. *)

From Stdlib Require Import ZArith Lia String.
From Stdlib Require Strings.Byte.
From stdpp Require Import base list gmap strings.
From S2P Require Import Prelude GoStd Net KnockListen GoText Firewall Gateway RelayConfig RelayRun ProxyConfig ProxyRun Dialer Pipe AuthTypes ProxyMain.

Open Scope Z_scope.

(** ** The commands *)

(** What a dry run makes of the end of a command: serving becomes a success. *)
Definition predicted (r : list printed * action) : list printed * action :=
  match r with
  | (out, Exit code) => (out, Exit code)
  | (out, _) => (out ++ [dry_ok], Exit 0)
  end.

Section Commands.
Context {H : Type} `{Host H} `{Yaml} (RF : bytes -> res bytes) (order : list (bytes * Z) -> list (bytes * Z)).

Abbreviation runs := (run RF order).

(** The mode that a dry run takes: that of its flag, or else that of the file. *)
Definition dry_mode (mode : bytes) (cfg : fileConfig) : bytes := ToLower (if bool_decide (mode = []) then c_Mode cfg else mode).

Lemma dry_server args vs h : let path := flag_value (str "config") [] vs in
  flag_Parse [config_flag; (str "mode", StringFlag)] args = Some vs ->
  (forall cfg, loadConfig RF order path = Ok cfg -> dry_mode (flag_value (str "mode") [] vs) cfg = modeServer) ->
  runDryRunCmd RF order args h = (predicted (fst (runServerCmd RF order [str "--config"; path] h)), snd (runServerCmd RF order [str "--config"; path] h)).
Proof.
  intros path Hp Hm. unfold runDryRunCmd, runServerCmd, with_config. rewrite Hp.
  change (flag_Parse [config_flag] [str "--config"; path]) with (Some [(str "config", path)]). cbv beta iota.
  change (flag_value (str "config") [] [(str "config", path)]) with path. fold path. destruct (loadConfig RF order path) as [cfg|e] eqn:El; [|done].
  specialize (Hm cfg eq_refl). unfold dry_mode in Hm. rewrite (bool_decide_eq_true_2 _ Hm).
  unfold mbind, FW_bind, mret, FW_ret. by destruct (buildServer RF cfg h) as [[[g su]|e] h'].
Qed.

Lemma dry_client args vs h : let path := flag_value (str "config") [] vs in
  flag_Parse [config_flag; (str "mode", StringFlag)] args = Some vs ->
  (forall cfg, loadConfig RF order path = Ok cfg -> dry_mode (flag_value (str "mode") [] vs) cfg = modeClient) ->
  runDryRunCmd RF order args h = (predicted (fst (runClientCmd RF order [str "--config"; path] h)), snd (runClientCmd RF order [str "--config"; path] h)).
Proof.
  intros path Hp Hm. unfold runDryRunCmd, runClientCmd, with_config. rewrite Hp.
  change (flag_Parse [config_flag] [str "--config"; path]) with (Some [(str "config", path)]). cbv beta iota.
  change (flag_value (str "config") [] [(str "config", path)]) with path. fold path. destruct (loadConfig RF order path) as [cfg|e] eqn:El; [|done].
  specialize (Hm cfg eq_refl). unfold dry_mode in Hm. rewrite Hm, bool_decide_eq_false_2, bool_decide_eq_true_2 by done.
  unfold mret, FW_ret, buildClient. by destruct (fileConfig_clientRuntime RF cfg).
Qed.

(** How a command may end, from a host [h] to a host [h']. *)
Definition ends_well (h h' : H) (a : action) : Prop :=
  match a with
  | Exit code => code = 0 \/ code = 1 \/ (code = 2 /\ h' = h)
  | RunGateway g => exists path cfg su, loadConfig RF order path = Ok cfg /\ buildServer RF cfg h = (Ok (g, su), h')
  | RunClient rt d => h' = h /\ exists path cfg su, loadConfig RF order path = Ok cfg /\ buildClient RF cfg = Ok (rt, d, su)
  end.

Lemma with_config_ends flags args k h :
  (forall vs path cfg, loadConfig RF order path = Ok cfg -> ends_well h (snd (k vs cfg h)) (snd (fst (k vs cfg h)))) ->
  ends_well h (snd (with_config RF order flags args k h)) (snd (fst (with_config RF order flags args k h))).
Proof.
  intros Hk. unfold with_config. destruct (flag_Parse flags args) as [vs|]; [|by right; right].
  destruct (loadConfig RF order _) as [cfg|e] eqn:E; [|by right; left]. by eapply Hk.
Qed.

Lemma commands_end p up args h : ends_well h (snd (runs p up args h)) (snd (fst (runs p up args h))).
Proof.
  unfold run. destruct args as [|cmd args]; [by right; right|]. repeat case_bool_decide; try (by left); try (by right; right).
  - apply with_config_ends. intros vs path cfg Hl. unfold mbind, FW_bind, mret, FW_ret. destruct (buildServer RF cfg h) as [[[g su]|e] h'] eqn:E; [|by right; left].
    exists path, cfg, su. done.
  - apply with_config_ends. intros vs path cfg Hl. unfold mret, FW_ret. destruct (buildClient RF cfg) as [[[rt d] su]|e] eqn:E; [|by right; left].
    split; [done|]. exists path, cfg, su. done.
  - apply with_config_ends. intros vs path cfg Hl. cbv zeta. destruct (bool_decide (_ = modeServer)); [|destruct (bool_decide (_ = modeClient)); [|by right; left]]; unfold mbind, FW_bind, mret, FW_ret.
    + destruct (buildServer RF cfg h) as [[[g su]|e] h']; [by left|by right; left].
    + destruct (fileConfig_clientRuntime RF cfg); [by left|by right; left].
  - apply with_config_ends. intros vs path cfg Hl. unfold mbind, FW_bind, mret, FW_ret.
    destruct (doctorServer _ _ _ _ _ _) as [[checks err] h']. cbn. unfold doctorExitCode. destruct (existsb _ _); [by right; left|]. destruct err; [by right; left|by left].
Qed.

End Commands.

(** Property C20. A dry run of the proxy tells what the command would do: with the
    mode of the server or the client, given or in the file, it prints the same and
    runs the same commands as the command itself, fails exactly when that fails,
    and reports success exactly when that goes on to serve. Every command exits
    with 0, 1 or 2; with 2 it has not touched the host; and it serves only the
    gateway or the dialer that are built of the file. *)
Theorem proxy_commands {H} `{Host H} `{Yaml} (RF : bytes -> res bytes) (order : list (bytes * Z) -> list (bytes * Z)) (p : privileges) (up : option error) (h : H) :
  let cmd args := run RF order p up args h in
  let as_predicted name args path :=
    cmd (str "dry-run" :: args) = (predicted (fst (cmd [str name; str "--config"; path])), snd (cmd [str name; str "--config"; path])) in
  (forall path mode, ToLower mode = modeServer -> as_predicted "server"%string [str "--config"; path; str "--mode"; mode] path) /\
  (forall path mode, ToLower mode = modeClient -> as_predicted "client"%string [str "--config"; path; str "--mode"; mode] path) /\
  (forall path cfg, loadConfig RF order path = Ok cfg ->
     (ToLower (c_Mode cfg) = modeServer -> as_predicted "server"%string [str "--config"; path] path) /\
     (ToLower (c_Mode cfg) = modeClient -> as_predicted "client"%string [str "--config"; path] path)) /\
  (forall args, ends_well RF order h (snd (cmd args)) (snd (fst (cmd args)))).
Proof.
  cbv zeta. split_and!.
  - intros path mode Hm. apply (dry_server RF order _ [(str "config", path); (str "mode", mode)] h); [done|]. intros cfg _. unfold dry_mode.
    change (flag_value _ _ _) with mode. by destruct mode.
  - intros path mode Hm. apply (dry_client RF order _ [(str "config", path); (str "mode", mode)] h); [done|]. intros cfg _. unfold dry_mode.
    change (flag_value _ _ _) with mode. by destruct mode.
  - intros path cfg Hl. split; intros Hm; [apply (dry_server RF order _ [(str "config", path)] h)|apply (dry_client RF order _ [(str "config", path)] h)]; try done;
      intros cfg' Hl'; change (flag_value (str "config") [] [(str "config", path)]) with path in Hl'; rewrite Hl in Hl'; by injection Hl' as <-.
  - intros args. exact (commands_end RF order p up args h).
Qed.

(** ** The client *)

(** A relay that the client can have reached. *)
Definition relayed (idle : Z) (p : pipe) : Prop := exists xs, (PCtxDone ∉ xs) /\ BidirectionalContext idle true tcpConn tcpConn xs = Some p.

(** The connection is that of the system and open. *)
Definition live (c : pconn) : Prop := pc_closed c = false /\ pc_closeWrite c = true /\ pc_closeRead c = true.

Lemma conn_Read_live data err c d e c' : conn_Read data err c = Some (d, e, c') -> live c -> live c'.
Proof.
  unfold conn_Read. cbv zeta. generalize copy_size as n. intros n. destruct (pc_buffered c) as [|b bs]; [destruct (pc_bufErr c)|].
  - intros [= <- <- <-]. done.
  - destruct (if pc_closed c then _ else _); [|discriminate]. intros [= <- <- <-]. done.
  - intros E Hl. by injection E as _ _ <-.
Qed.

Lemma copyHalf_live idle x pc dst src n pc' dst' src' n' :
  copyHalf idle x pc dst src n = Some (pc', dst', src', n') -> live dst -> live src -> live dst' /\ live src'.
Proof.
  intros E Hd Hs. assert (Hdl : forall t, live (SetReadDeadline t src)) by (intros t; exact Hs).
  destruct pc, x; cbn [copyHalf] in E; try done.
  - injection E as <- <- <- <-. split; [done|]. destruct (Z.ltb 0 idle); auto.
  - unfold deadlineReader_Read in E. destruct (conn_Read _ _ _) as [[[d er] src1]|] eqn:Er; [|done]. injection E as <- <- <- <-. split; [done|].
    eapply conn_Read_live; [exact Er|]. destruct (Z.ltb 0 idle); auto.
  - unfold countingWriter_Write, conn_Write in E. destruct (if pc_closed dst then _ else _); [|done]. cbn in E. by injection E as <- <- <- <-.
  - injection E as <- <- <- <-. unfold closeWrite. destruct Hd as (? & Hw & ?). by rewrite Hw.
  - injection E as <- <- <- <-. unfold closeRead. destruct Hs as (? & ? & Hr). by rewrite Hr.
Qed.

Definition pipe_live (p : pipe) : Prop := p_ctxDone p = false /\ p_watch p <> PWatchClosing /\ live (p_a p) /\ live (p_b p).

Lemma pstep_live idle p x p' : x <> PCtxDone -> pstep idle p x = Some p' -> pipe_live p -> pipe_live p'.
Proof.
  intros Hx E (Hc & Hw & Ha & Hb). destruct x; cbn [pstep] in E; try done.
  - destruct (copyHalf _ _ _ _ _ _) as [[[[pc a] b] n]|] eqn:Eh; [|done]. injection E as <-. by destruct (copyHalf_live _ _ _ _ _ _ _ _ _ _ Eh Ha Hb).
  - destruct (copyHalf _ _ _ _ _ _) as [[[[pc b] a] n]|] eqn:Eh; [|done]. injection E as <-. by destruct (copyHalf_live _ _ _ _ _ _ _ _ _ _ Eh Hb Ha).
  - rewrite Hc in E. by destruct (p_watch p).
  - destruct (p_watch p), (p_ret p); try done. by injection E as <-.
  - destruct (p_results p) as [|[? ?] [|[? ?] [|]]], (p_ret p); try done. by injection E as <-.
Qed.

Lemma prun_snoc idle xs x : forall p, prun idle p (xs ++ [x]) = (p ← prun idle p xs; pstep idle p x).
Proof.
  induction xs as [|y xs IH]; intros p; cbn [app prun].
  - cbn. by destruct (pstep idle p x).
  - destruct (pstep idle p y); [by rewrite IH|done].
Qed.

Lemma relayed_step idle p x p' : relayed idle p -> x <> PCtxDone -> pstep idle p x = Some p' -> relayed idle p'.
Proof.
  intros (xs & Hx & E) Hn Es. exists (xs ++ [x]). split; [by rewrite elem_of_app, list_elem_of_singleton; intros [?|<-]|].
  unfold BidirectionalContext in *. by rewrite prun_snoc, E.
Qed.

(** A relay of the client closes neither connection: a side that has sent
    everything still gets the answer. *)
Lemma relayed_live idle p : relayed idle p -> pipe_live p.
Proof.
  intros (xs & Hx & E). unfold BidirectionalContext in E. assert (Hl : pipe_live (pipe_start true tcpConn tcpConn)) by done.
  revert Hl E. generalize (pipe_start true tcpConn tcpConn). induction xs as [|x xs IH]; intros q Hq; cbn [prun]; [by intros [= <-]|].
  apply not_elem_of_cons in Hx as [Hx Hxs]. destruct (pstep idle q x) as [q1|] eqn:E; [|done]. apply IH; [done|]. by eapply pstep_live.
Qed.

(** What is known of a connection in each state of its handler. *)
Definition session_ok (idle : Z) (s : session) : Prop :=
  match s with
  | SDialing local | SRefused local => local = tcpConn
  | SRelaying p => relayed idle p
  | SReturned p => relayed idle p /\ p_ret p <> None
  | SClosingLocal local remote => exists p, relayed idle p /\ p_ret p <> None /\ local = p_a p /\ remote = pc_Close (p_b p)
  | SEnded local None => local = pc_Close tcpConn
  | SEnded local (Some remote) => exists p, relayed idle p /\ p_ret p <> None /\ local = pc_Close (p_a p) /\ remote = pc_Close (p_b p)
  end.

(** The connections for which the server was not reached. *)
Definition refused (s : session) : bool := match s with SRefused _ | SEnded _ None => true | _ => false end.

Lemma handle_ok idle x s s' out : handleClientConn idle x s = Some (s', out) -> session_ok idle s ->
  session_ok idle s' /\ length out = if refused s then 0%nat else if refused s' then 1%nat else 0%nat.
Proof.
  intros E Hs. destruct s as [l|l|p|p|l r|l o], x as [err|x|]; cbn [handleClientConn] in E; try done.
  - destruct err; injection E as <- <-; [done|]. split; [|done]. cbn in Hs |- *. subst l. exists []. split; [apply not_elem_of_nil|done].
  - injection E as <- <-. split; [|done]. cbn in Hs |- *. by subst l.
  - assert (Hgo : x <> PCtxDone /\ (p' ← pstep idle p x; Some (SRelaying p', [])) = Some (s', out)) by (destruct x; done).
    destruct Hgo as [Hx Hgo]. destruct (pstep idle p x) as [p'|] eqn:Ep; [|done]. injection Hgo as <- <-. split; [|done]. by eapply relayed_step.
  - destruct (p_ret p) eqn:Er; [|done]. injection E as <- <-. split; [|done]. split; [done|]. by rewrite Er.
  - injection E as <- <-. split; [|done]. destruct Hs as [Hr Hn]. by exists p.
  - injection E as <- <-. split; [|done]. destruct Hs as (p & Hr & Hn & -> & ->). by exists p.
Qed.

Record client_ok (idle : Z) (s : client) : Prop := {
  co_sessions : Forall (session_ok idle) (cn_sessions s);
  co_returned : cn_ret s <> None -> cn_open s = false;
  co_nil : cn_ret s = Some None -> cn_ctxDone s = true;
  co_said : length (cn_said s) = length (List.filter refused (cn_sessions s));
}.

(** Replacing one element changes the count by that element. *)
Lemma count_insert {A} (f : A -> bool) (l : list A) i x y : l !! i = Some x ->
  (length (List.filter f (<[i := y]> l)) + (if f x then 1 else 0) = length (List.filter f l) + (if f y then 1 else 0))%nat.
Proof.
  intros Hi. revert i Hi. induction l as [|z l IH]; intros [|i] Hi; try done.
  - injection Hi as ->. cbn. destruct (f x), (f y); cbn; lia.
  - specialize (IH i Hi). change (<[S i := y]> (z :: l)) with (z :: <[i := y]> l). cbn [List.filter]. destruct (f z); cbn [length]; lia.
Qed.

(** A handler never goes back to a connection that was reached. *)
Lemma handle_refused idle x s s' out : handleClientConn idle x s = Some (s', out) -> refused s = true -> refused s' = true.
Proof. destruct s as [| | | | |l [r|]], x; cbn; try done. by intros [= <- _]. Qed.

Lemma client_step_ok idle s x s' : runClient idle s x = Some s' -> client_ok idle s -> client_ok idle s'.
Proof.
  intros E [H1 H2 H3 H4]. destruct x as [[err|]| | |i x]; cbn [runClient] in E.
  - case_bool_decide as Hr; [|done]. injection E as <-. constructor; cbn; [done|done| |done]. by destruct (cn_ctxDone s).
  - destruct (cn_open s) eqn:Ho; [|done]. case_bool_decide as Hr; [|done]. injection E as <-. constructor; cbn; [|by rewrite Hr|by rewrite Hr|].
    + apply Forall_app. split; [done|by constructor].
    + by rewrite List.filter_app, app_nil_r.
  - injection E as <-. by constructor.
  - destruct (cn_ctxDone s && negb (cn_watched s)) eqn:Ec; [|done]. apply andb_true_iff in Ec as [Hc _]. injection E as <-. by constructor.
  - destruct (cn_sessions s !! i) as [c|] eqn:Ei; [|done]. cbn [mbind option_bind] in E. destruct (handleClientConn idle x c) as [[c' out]|] eqn:Eh; [|done]. injection E as <-.
    pose proof (Forall_lookup_1 _ _ _ _ H1 Ei) as Hc. destruct (handle_ok _ _ _ _ _ Eh Hc) as [Hc' Hout]. constructor; cbn; [by apply Forall_insert|done|done|].
    rewrite length_app, H4, Hout. pose proof (count_insert refused _ _ _ c' Ei) as Hn. pose proof (handle_refused _ _ _ _ _ Eh).
    destruct (refused c), (refused c'); try lia; naive_solver.
Qed.

Lemma client_run_ok idle xs : forall s s', client_run idle s xs = Some s' -> client_ok idle s -> client_ok idle s'.
Proof.
  induction xs as [|x xs IH]; intros s s'; cbn [client_run]; [by intros [= <-]|]. destruct (runClient idle s x) as [s1|] eqn:E; [|done].
  intros Er Hs. eapply IH; [exact Er|]. by eapply client_step_ok.
Qed.

(** Property C13. The client of the proxy over every interleaving of its accept
    loop, the end of its context and the connections it serves: a connection whose
    handler has ended is closed, and so is the one to the server when it was
    reached; until then the relay between them, a run of [BidirectionalContext],
    has closed neither, so a side that has sent everything still gets its answer;
    there is one message for each connection the server was not reached for; and
    once the client has returned its listener is closed, without an error only
    if its context has ended. *)
Theorem client_serves (idle : Z) (listen : option error) (xs : list client_label) (s : client) :
  client_run idle (client_start listen) xs = Some s ->
  (forall local remote, SEnded local remote ∈ cn_sessions s ->
     pc_closed local = true /\ match remote with Some r => pc_closed r = true | None => True end) /\
  (forall p, SRelaying p ∈ cn_sessions s -> (exists ys, (PCtxDone ∉ ys) /\ BidirectionalContext idle true tcpConn tcpConn ys = Some p) /\
     pc_closed (p_a p) = false /\ pc_closed (p_b p) = false) /\
  length (cn_said s) = length (List.filter refused (cn_sessions s)) /\
  (cn_ret s <> None -> cn_open s = false) /\ (cn_ret s = Some None -> cn_ctxDone s = true).
Proof.
  intros E. assert (Hs : client_ok idle s).
  { eapply client_run_ok; [exact E|]. destruct listen; by constructor. }
  destruct Hs as [H1 H2 H3 H4]. rewrite Forall_forall in H1. split_and!; try done.
  - intros local remote Hin. apply H1 in Hin. destruct remote as [r|]; cbn in Hin; [by destruct Hin as (p & _ & _ & -> & ->)|by subst local].
  - intros p Hin. apply H1 in Hin. split; [exact Hin|]. by destruct (relayed_live _ _ Hin) as (_ & _ & [? _] & [? _]).
Qed.

(** Two connections: the server is not reached for the second, and the first is
    relayed: the program on this side has sent a byte and nothing more. *)
Definition ex_client_run : list client_label :=
  [CAccept None; CSession 0 (SDial None); CAccept None; CSession 1 (SDial (Some (EMsg (str "refused")))); CSession 1 SDefer;
   CSession 0 (SPipe (PToB (LStart 0))); CSession 0 (SPipe (PToB (LRead 0 [Byte.x41] (Some io_EOF)))); CSession 0 (SPipe (PToB (LWrite 1 None)));
   CSession 0 (SPipe (PToB LClose)); CSession 0 (SPipe (PToB LClose)); CCtxDone; CWatch; CAccept (Some net_ErrClosed)].

Lemma client_serves_witness : exists s p, client_run 0 (client_start None) ex_client_run = Some s /\ SRelaying p ∈ cn_sessions s /\
  pc_closed (p_a p) = false /\ cn_open s = false /\ length (cn_said s) = 1%nat.
Proof.
  destruct (client_run 0 (client_start None) ex_client_run) as [s|] eqn:E; [|vm_compute in E; discriminate].
  pose proof (client_serves 0 None ex_client_run s E) as (_ & H2 & H3 & H4 & _). vm_compute in E. injection E as <-.
  eexists _, _. split; [reflexivity|]. split; [left|]. split; [apply H2; left|]. split; [apply H4; discriminate|reflexivity].
Defined.
